(* ===== verification/_CoqProject ===== *)
-Q . S2P
Prelude.v
Actions.v
BufferItem.v
QueueBuffer.v
Channel.v
Json.v
MiddlewareMessages.v
Zmq.v
Simulation.v
TypedMessages.v
Server.v
Startup.v
CString.v
ProcUnit.v
Trabea.v
Modules.v
ModuleManager.v
ManagerSpec.v
ZmqServer.v
NetMessages.v
TcpClient.v
NetServer.v
Transceiver.v
Connections.v
Bobwire.v
LccMessages.v
LccFpga.v
Stream.v
RequestServer.v
Unloading.v
Transmission.v
Delivery.v
Program.v
ManagerThreads.v
Session.v
System.v
Main.v
