(* ===== verification/Prelude.v ===== *)
(** * armish-fireplace: a verification development

    armish-fireplace is a middleware container. A client (the software layer)
    talks to it over two ZeroMQ sockets; the container loads one module and,
    in it, one processing unit, which drives a device or a simulator. This
    library translates the C++ of the repository (src/) into executable
    definitions and proves what the parts promise each other.

    ** The program and the files

    One file per component, in the order in which they build on each other:

    - [Prelude] (this file; common.hpp): exceptions, the ways a call can end, the
      state-and-exception monad [M], data members as lenses, mutexes, machine
      integers, byte order, C strings, and the automation.
    - [Actions] (actions.hpp, actions.cpp): the packed list of actions.
    - [BufferItem] (buffer/buffer_item): items that own arrays, on an explicit
      heap, with moves and destructors.
    - [QueueBuffer] (buffer/queue_buffer): the queue between a module and the
      server. Its methods are critical sections; [push_wait] is cut where it
      releases the mutex, and executions interleave the pieces. The class
      [AsyncBuffer] is what its clients rely on. [Channel]: the contract of the
      buffer without mutex and condition variables, as a function on events.
    - [Json]: RapidJSON, a parameter of the development, with its documented
      laws, and a concrete instance for the witnesses.
    - [MiddlewareMessages] (net/middleware/request.hpp, response.hpp): the
      client's requests and the responses to them.
    - [Zmq]: ZeroMQ sockets, a parameter, and a scripted socket.
    - [Simulation] (net/simulation/): the client of the simulator's dispatcher.
      [TypedMessages]: the templates [get_result<T>] and [parameter<T>] as
      functions of the type.
    - [Server] (net/middleware/server): the server's operations; [Startup]: its
      handshake with the worker threads as a step relation, with every
      interleaving of the accesses to the two counters.
    - [CString]: [strtoul], [std::stoul] and the parsing of dotted addresses.
    - [ProcUnit] (module/iproc_unit): the interface of processing units as the
      class [ProcUnit], its promise as [ProcUnitSafe], and the option parser.
    - [Trabea] (module/trabea/): the switch interface and the circulator.
    - [Modules] (module/imodule): modules over any processing unit, the thread
      that runs [async_work], and the factory of modules.
    - [ModuleManager] (module/module_manager): the manager over any module, the
      class [IModule] with its contract [IModuleContract]. [ManagerSpec]: what
      the manager promises its callers, as an abstract machine;
      [ManagerThreads]: what the threads of the repository's modules do between
      the calls.
    - [ZmqServer] (net/middleware/zmq_server): the two worker threads.
    - [NetMessages] (net/request.hpp, net/response.hpp, net/tcp_client.hpp, the
      messages of lcc_and_fpga.hpp), [TcpClient] (net/tcp_client.hpp with its
      heap-allocated mutex, moves, destructor and address queries) and
      [NetServer] (net/server.hpp): the TCP connections between transceivers and
      to the detection board.
    - [Transceiver] (module/brazil/itrx_proc_unit.hpp, trx_circuit),
      [Bobwire] (bobwire_circuit), [LccFpga] (lcc_and_fpga): the units of
      brazil. [LccMessages] (lcc_and_fpga.hpp): the messages of the detection
      board as owners of arrays on the heap, and its serial connection.
      [Connections]: the connections of [transmit] as objects of [TcpClient].
    - [Stream]: the module's thread and the outgoing thread together, from the
      network to the client's socket.
    - [RequestServer] (itrx_proc_unit.hpp with net/server.hpp and
      net/tcp_client.hpp): the request server of a unit as an instance of
      [NetServer.server], the peers it serves, and the module's thread.
    - [Unloading] (the same with module/imodule.cpp): the request thread from its
      start to its end as small steps, and the thread that unloads the unit.
      [Transmission] (with trx_circuit.cpp): these steps together with those of a
      [transmit] that talks to the unit, and the networks between them; [Delivery]:
      what comes of it.
    - [Program] (armish_fireplace.cpp, trabea.cpp, brazil.cpp): the modules of
      the repository as instances of [IModule], and what [main] does from the
      parsed options on. [Main]: the command line and the signals. [System]: what
      its four threads do together between the start and the end. [Session]:
      what a client of the switch sees from the start of the program on.

    ** How the code is modelled

    An operation on an object is a function of type [M S A]: from the object to
    an outcome and the object it leaves. An outcome is a value, an exception, or
    an end from which the program does not come back ([fatal]): [std::terminate],
    a mutex locked twice by one thread, undefined behaviour, [exit]. So a theorem
    that gives the outcome of a call also says that the call returns. A mutex is
    a flag of the calling thread; code that runs in several threads is cut into
    its critical sections, and theorems about executions quantify over all
    sequences of them; a unit's [async_work] and handlers are steps of their own,
    which is what the interfaces demand of units (their comments require the
    functions to be thread-safe). A thread is its function; where a loop polls a flag that
    another thread sets, the number of rounds is a parameter, and the theorems
    hold for every number.

    Libraries are parameters, given as classes: [RapidJSON], [ZMQ], [TCP],
    [TCPAddress], [SerialPort], [BoostOptions], [CommandLine], [BoostEndian], [OS],
    [Hardware]. Where a law is needed it
    is documented behaviour of the library, and concrete instances show that the
    laws can hold together; [Session.PairSocket] is what a pair socket does, and
    [Session.Dispatcher] what the switch asks of its dispatcher,
    [Transmission.LiveTCP] and [Transmission.Simulator] what a transmission asks of
    the network and the simulator. [-D] flags are those of common.hpp: [THROW] is
    defined, the host is little-endian with 64-bit words.

    ** What the theorems show

    Theorems with a number are the main results; the others support them or
    state defects that are of less consequence.
    - Buffers: FIFO order in every interleaving, the push counter, all branches
      of [push_wait], and that no push wakes a waiting [push_wait]; the events of
      the buffer are exactly those the channel accepts ([buffer_is_channel]);
      ownership under moves.
    - Messages: decoding inverts encoding, for requests and responses, and typed
      reading of parameters and results, for every type the templates are used
      at ([typed_roundtrip]).
    - Server: the handshake of [notify] loses no wake-up, terminates within a
      bound computed from the state, and refines to the sequential [notify] the
      rest of the development uses; the workers launched are exactly those the
      actions ask for. [isRunning] is never set, so [stop] does nothing, a
      second [notify] terminates the program, and so does the destructor.
    - Worker threads: one answer per request; what one malformed message does;
      flushing sends everything once, in order, and frees it; when it happens.
    - Modules and manager: invariants over every sequence of calls, the effect
      of every call on every branch, errors included; the manager is verified
      against [IModuleContract], which [Program.derived_contract] discharges.
      With the modules' threads taking steps between the calls, every sequence
      of calls is a run of an abstract machine ([manager_implements]), and an
      answer is that of a module which was made from a registered name and into
      which a call then put a unit, neither unloaded since
      ([answers_from_a_unit]); a load that throws may leave its unit there.
    - Units: the circulator's messages and its two defects; the transceivers'
      endpoint, transmission and receiving protocol, the latter in every
      interleaving of peers, thread and simulator; the bases bobwire measures
      in; the configuration and measurement of lcc_and_fpga.
    - Stream: in every interleaving the measurements handed to the outgoing socket
      are those received, in order, each once, and all memory is freed
      ([measurement_stream]). The socket drops a message it cannot send within its
      time-out, and nobody looks at its answer. The program as a whole, started
      with the module brazil, refines this stream and the request service of its
      unit, which is at any time the unit of the start after the calls made of it
      so far, in every interleaving ([running_program]).
    - Communications: in every interleaving of peers, wake-ups and the module's
      thread each communication is begun, measured, completed
      ([communications_in_order]); sender and receiver composed
      ([communications_received]); what a peer that goes away leaves behind; when
      unloading a unit whose peer is still connected returns ([unload_returns]),
      in a relation of small steps of which serving whole sessions is one order
      ([serving_is_a_schedule]).
    - Transmission: in every order of the steps of sender, receiver and networks
      what is transmitted is received, with a bound on the steps
      ([transmission_delivers]), if the simulator measures every circuit; one that
      it refuses leaves both sides waiting ([refused_circuit_hangs]).
    - TCP: framing of messages, sessions that answer every request, ownership of
      sessions, also when the server is moved; what any sequence of reads and
      writes of the client with its mutex on the heap does
      ([client_conversation]), its life, and the addresses it reports; with the
      connections as such clients a transmission has the outcomes of the abstract
      one, and opening, moving and leaving them frees every mutex they allocate,
      once ([transmit_frees]).
    - Board: ownership of its messages, and reading a line of the serial port.
    - Program: every command line, every branch of the start, the wait for a
      signal in every order of arrivals and the code that [main] returns, which
      is the program's only if no worker thread is left to destroy: the end of
      [main] terminates abnormally after every start with one; and, through all layers, that a client which talks to the program started
      with trabea sees a switch: whole sessions are answered as an abstract
      switch with an abstract dispatcher answers them ([program_is_a_switch]).

    ** Fuel and bounds

    [NetServer.session_loop] takes fuel; [session_serves] shows that one more
    than the number of requests is enough, hence the 3 of
    [RequestServer.serve_clients], whose clients send two requests.
    [RequestServer.wait_received] takes the number of rounds of the module's
    thread; the theorems assume it exceeds the number of rounds after which the
    simulator delivers. [LccMessages.dump] takes the number of reads; [dump_line]
    shows that one per character of the line and one more are enough, and that
    no number is after an error. [Bobwire.read_basis_byte] takes fuel 2, the
    number of passes after which it always ends (the third member of
    [bobwire_bases]). Counters of the code wrap at their width; the theorems that
    need a bound on the number of events state it.

    ** Not modelled

    The parsing of options by Boost, a parameter; the ZeroMQ context; timing (a
    wait may time out at any moment); weak memory: accesses that race, like the
    reads of [startupStateTarget] in [notify_thread_started], are taken to be
    atomic. Members that cannot be instantiated in C++ have no meaning to
    model: the move assignments of net/server.hpp, and in net/tcp_client.hpp the
    constructors from a string, [ip6] and the move assignment of the thread-safe
    client. Commented-out code, like the workers of lcc_and_fpga.cpp. The simulator
    itself is not part of the repository: what [Transmission] assumes of it is
    that it measures the circuits it accepts and no others.

    ** Next

    What is left is to join what has been shown of the parts: the unloading of
    [Unloading] as a step of the whole program of [System], and the receiver of
    [Delivery] as the module of such a program. *)

From Stdlib Require Export ZArith Ascii String Lia.
From stdpp Require Export base tactics strings list gmap relations.

(** ** Exceptions and the ways a C++ call can end *)

(** The exception objects the program throws, and those its libraries throw at
    it ([zmq::error_t], [boost::system::system_error]); [what] is the message. *)
Inductive exn :=
| runtime_error (what : string)
| invalid_argument (what : string)
| logic_error (what : string)
| zmq_error (what : string)
| boost_error (what : string)
| bad_cast
| std_exception.

#[export] Instance exn_eq_dec : EqDecision exn.
Proof. solve_decision. Defined.

(** [e.what()]; the texts of [std::bad_cast] and of a bare [std::exception] are
    chosen by the library. *)
Definition exn_what (e : exn) : string :=
  match e with
  | runtime_error w | invalid_argument w | logic_error w | zmq_error w | boost_error w => w
  | bad_cast => "std::bad_cast"
  | std_exception => "std::exception"
  end.

(** Ends from which the program does not come back: [std::terminate], a thread
    locking a [std::mutex] it already holds, undefined behaviour, [exit]. *)
Inductive fatal :=
| Terminate
| Deadlock
| Undefined
| ExitProcess (code : Z).

#[export] Instance fatal_eq_dec : EqDecision fatal.
Proof. solve_decision. Defined.

Inductive outcome (A : Type) :=
| Ret (a : A)
| Throw (e : exn)
| Fatal (f : fatal).
Arguments Ret {A} a.
Arguments Throw {A} e.
Arguments Fatal {A} f.

#[export] Instance outcome_eq_dec A `{EqDecision A} : EqDecision (outcome A).
Proof. solve_decision. Defined.

(** ** Error message strings (namespace [err_msg] of common.hpp) *)
Module err_msg.
Definition _nllpntr : string := "null ptr".
Definition _arybnds : string := "array bounds exceeded".
Definition _stcimpl : string := "static unimplemented in child".
Definition _tpntfnd : string := "type not found by name".
Definition _rgstrfl : string := "failed to register child".
Definition _undhcse : string := "unhandled case".
Definition _zrlngth : string := "zero length".
Definition _ntwrkdn : string := "network down".
Definition _unrchcd : string := "unreachable code reached".
Definition _malinpt : string := "malformed input".
End err_msg.

(** ** State passing with exceptions

    An operation on an object of type [S] returns its outcome and the object it
    leaves behind: an exception does not undo the assignments made before it. *)
Definition M (S A : Type) : Type := S → outcome A * S.

Declare Scope af_scope.
Delimit Scope af_scope with af.

Section monad.
Context {S : Type}.

Definition ret {A} (a : A) : M S A := λ s, (Ret a, s).
Definition throw {A} (e : exn) : M S A := λ s, (Throw e, s).
Definition fail {A} (f : fatal) : M S A := λ s, (Fatal f, s).
Definition get : M S S := λ s, (Ret s, s).
Definition gets {A} (f : S → A) : M S A := λ s, (Ret (f s), s).
Definition modify (f : S → S) : M S () := λ s, (Ret tt, f s).

Definition bind {A B} (m : M S A) (k : A → M S B) : M S B := λ s,
  match m s with
  | (Ret a, s') => k a s'
  | (Throw e, s') => (Throw e, s')
  | (Fatal f, s') => (Fatal f, s')
  end.

(** [try { m } catch(const std::exception& e) { h(e) }] *)
Definition try_catch {A} (m : M S A) (h : exn → M S A) : M S A := λ s,
  match m s with
  | (Throw e, s') => h e s'
  | r => r
  end.

(** A function of type [outcome] that does not touch the state. *)
Definition lift {A} (o : outcome A) : M S A := λ s, (o, s).
End monad.

Notation "x <- m ;; k" := (bind m (λ x, k))
  (at level 100, m at next level, right associativity) : af_scope.
Notation "m ;; k" := (bind m (λ _, k)) : af_scope.
Open Scope af_scope.

(** [for(std::size_t i = 0; i < n; i++) body(i)] *)
Fixpoint for_loop {S} (i n : nat) (body : nat → M S ()) : M S () :=
  match n with
  | O => ret tt
  | Datatypes.S n' => body i ;; for_loop (Datatypes.S i) n' body
  end.

(** [for(x : l) body(x)] collecting the results in order. *)
Fixpoint traverse {S A B} (body : A → M S B) (l : list A) : M S (list B) :=
  match l with
  | [] => ret []
  | x :: l' => y <- body x ;; ys <- traverse body l' ;; ret (y :: ys)
  end.

(** The same loop over functions that only fail. *)
Fixpoint out_map {A B} (f : A → outcome B) (l : list A) : outcome (list B) :=
  match l with
  | [] => Ret []
  | x :: l' =>
      match f x with
      | Ret y =>
          match out_map f l' with
          | Ret ys => Ret (y :: ys)
          | Throw e => Throw e
          | Fatal e => Fatal e
          end
      | Throw e => Throw e
      | Fatal e => Fatal e
      end
  end.

Definition out_bind {A B} (o : outcome A) (k : A → outcome B) : outcome B :=
  match o with
  | Ret a => k a
  | Throw e => Throw e
  | Fatal e => Fatal e
  end.

Section monad_laws.
Context {S : Type}.

Lemma bind_ret {A B} (a : A) (k : A → M S B) s : bind (ret a) k s = k a s.
Proof. done. Qed.

Lemma bind_assoc {A B C} (m : M S A) (k : A → M S B) (h : B → M S C) s :
  bind (bind m k) h s = bind m (λ a, bind (k a) h) s.
Proof. unfold bind. by destruct (m s) as [[] ?]. Qed.

Lemma bind_Ret {A B} (m : M S A) (k : A → M S B) s a s' :
  m s = (Ret a, s') → bind m k s = k a s'.
Proof. unfold bind. by intros ->. Qed.

Lemma bind_Throw {A B} (m : M S A) (k : A → M S B) s e s' :
  m s = (Throw e, s') → bind m k s = (Throw e, s').
Proof. unfold bind. by intros ->. Qed.

Lemma bind_Fatal {A B} (m : M S A) (k : A → M S B) s e s' :
  m s = (Fatal e, s') → bind m k s = (Fatal e, s').
Proof. unfold bind. by intros ->. Qed.

Lemma bind_Ret_inv {A B} (m : M S A) (k : A → M S B) s b s' :
  bind m k s = (Ret b, s') →
  ∃ a s1, m s = (Ret a, s1) ∧ k a s1 = (Ret b, s').
Proof. unfold bind. destruct (m s) as [[] s1]; naive_solver. Qed.
End monad_laws.

(** A result is its outcome and the state that is left. *)
Lemma result_pair {A S} (r : outcome A * S) o : r.1 = o → r = (o, r.2).
Proof. intros <-. apply surjective_pairing. Qed.

Lemma out_map_Ret {A B} (f : A → outcome B) (g : A → B) l :
  (∀ x, x ∈ l → f x = Ret (g x)) → out_map f l = Ret (g <$> l).
Proof.
  induction l as [|x l IH]; intros Hf; simpl; [done|].
  rewrite (Hf x) by set_solver. rewrite IH; [done|]. set_solver.
Qed.

Lemma out_map_fmap {A B C} (f : B → outcome C) (g : A → B) (h : A → C) l :
  (∀ x, x ∈ l → f (g x) = Ret (h x)) → out_map f (g <$> l) = Ret (h <$> l).
Proof.
  induction l as [|x l IH]; intros Hf; [done|]. rewrite !fmap_cons. simpl.
  rewrite (Hf x) by set_solver. rewrite IH; [done|]. set_solver.
Qed.

Lemma out_map_length {A B} (f : A → outcome B) l ys :
  out_map f l = Ret ys → length ys = length l.
Proof.
  revert ys; induction l as [|x l IH]; intros ys; simpl; [by intros [= <-]|].
  destruct (f x); [|done..]. destruct (out_map f l); [|done..].
  intros [= <-]. simpl. by rewrite (IH _ eq_refl).
Qed.

Lemma out_map_lookup {A B} (f : A → outcome B) l ys i y :
  out_map f l = Ret ys → ys !! i = Some y →
  ∃ x, l !! i = Some x ∧ f x = Ret y.
Proof.
  revert ys i; induction l as [|x l IH]; intros ys i; simpl; [by intros [= <-]|].
  destruct (f x) as [z| |] eqn:Hx; [|done..].
  destruct (out_map f l) as [zs| |]; [|done..]. intros [= <-].
  destruct i as [|i]; simpl; [naive_solver|]. by apply IH.
Qed.

(** ** Objects inside objects

    A lens is a data member: the laws are those of reading and assigning it. *)
Record lens (S F : Type) := Lens { view : S → F; upd : F → S → S }.
Arguments Lens {S F} view upd.
Arguments view {S F} l s.
Arguments upd {S F} l f s.

Class LensLaws {S F} (l : lens S F) : Prop := {
  view_upd f s : view l (upd l f s) = f;
  upd_view s : upd l (view l s) s = s;
  upd_upd f g s : upd l f (upd l g s) = upd l f s;
}.

(** Run an operation of the member on the object that holds it. *)
Definition zoom {S F A} (l : lens S F) (m : M F A) : M S A := λ s,
  let r := m (view l s) in (r.1, upd l r.2 s).

Lemma zoom_Ret_inv {S F A} (l : lens S F) (m : M F A) s a s' :
  zoom l m s = (Ret a, s') → ∃ f, m (view l s) = (Ret a, f) ∧ s' = upd l f s.
Proof. unfold zoom. destruct (m (view l s)) as [o f]. simpl. intros [= -> <-]. by exists f. Qed.

Definition lens_comp {S F G} (l : lens S F) (k : lens F G) : lens S G :=
  Lens (λ s, view k (view l s)) (λ g s, upd l (upd k g (view l s)) s).

#[export] Instance lens_comp_laws {S F G} (l : lens S F) (k : lens F G) :
  LensLaws l → LensLaws k → LensLaws (lens_comp l k).
Proof.
  intros Hl Hk; split; intros; simpl.
  - by rewrite !view_upd.
  - by rewrite !upd_view.
  - by rewrite view_upd, !upd_upd.
Qed.

(** Reading and assigning a data member. *)
Definition read {S F} (l : lens S F) : M S F := gets (view l).
Definition assign {S F} (l : lens S F) (f : F) : M S () := modify (upd l f).

Ltac solve_lens := split;
  [by intros ? []|intros s; destruct s; reflexivity|by intros ?? []].

(** The two parts of a pair: an object and a local variable. *)
Definition l_fst {S F} : lens (S * F) S := Lens fst (λ x p, (x, p.2)).
Definition l_snd {S F} : lens (S * F) F := Lens snd (λ x p, (p.1, x)).

(** ** [std::lock_guard] and [std::unique_lock] over a member mutex

    The member is a boolean: whether the calling thread holds the mutex. The
    guard releases it on every normal or exceptional exit. Locking a mutex the
    thread already holds never returns. *)
Definition with_lock {S A} (mx : lens S bool) (body : M S A) : M S A := λ s,
  if view mx s then (Fatal Deadlock, s)
  else
    match body (upd mx true s) with
    | (Fatal f, s') => (Fatal f, s')
    | (o, s') => (o, upd mx false s')
    end.

Lemma with_lock_held {S A} (mx : lens S bool) (body : M S A) s :
  view mx s = true → with_lock mx body s = (Fatal Deadlock, s).
Proof. unfold with_lock. by intros ->. Qed.

Lemma with_lock_Ret {S A} (mx : lens S bool) (body : M S A) s a s' :
  view mx s = false → body (upd mx true s) = (Ret a, s') →
  with_lock mx body s = (Ret a, upd mx false s').
Proof. unfold with_lock. by intros -> ->. Qed.

Lemma with_lock_Throw {S A} (mx : lens S bool) (body : M S A) s e s' :
  view mx s = false → body (upd mx true s) = (Throw e, s') →
  with_lock mx body s = (Throw e, upd mx false s').
Proof. unfold with_lock. by intros -> ->. Qed.

Lemma with_lock_Fatal {S A} (mx : lens S bool) (body : M S A) s f s' :
  view mx s = false → body (upd mx true s) = (Fatal f, s') →
  with_lock mx body s = (Fatal f, s').
Proof. unfold with_lock. by intros -> ->. Qed.

(** ** Invariants of operations *)

Definition preserves {S A} (I : S → Prop) (m : M S A) : Prop :=
  ∀ s, I s → I (m s).2.

Create HintDb preserve discriminated.

Section preserves.
Context {S : Type} (I : S → Prop).

Lemma preserves_ret {A} (a : A) : preserves I (ret a).
Proof. by intros s. Qed.
Lemma preserves_throw {A} e : preserves I (throw (A := A) e).
Proof. by intros s. Qed.
Lemma preserves_fail {A} f : preserves I (fail (A := A) f).
Proof. by intros s. Qed.
Lemma preserves_gets {A} (f : S → A) : preserves I (gets f).
Proof. by intros s. Qed.
Lemma preserves_get : preserves I get.
Proof. by intros s. Qed.
Lemma preserves_lift {A} (o : outcome A) : preserves I (lift o).
Proof. by intros s. Qed.
Lemma preserves_modify f : (∀ s, I s → I (f s)) → preserves I (modify f).
Proof. intros Hf s. apply Hf. Qed.

Lemma preserves_bind {A B} (m : M S A) (k : A → M S B) :
  preserves I m → (∀ a, preserves I (k a)) → preserves I (bind m k).
Proof.
  intros Hm Hk s Hs. specialize (Hm s Hs). unfold bind.
  destruct (m s) as [[a|e|f] s'] eqn:E; simpl in *; [by apply Hk|done..].
Qed.

Lemma preserves_try {A} (m : M S A) h :
  preserves I m → (∀ e, preserves I (h e)) → preserves I (try_catch m h).
Proof.
  intros Hm Hh s Hs. specialize (Hm s Hs). unfold try_catch.
  destruct (m s) as [[a|e|f] s'] eqn:E; simpl in *; [done|by apply Hh|done].
Qed.

Lemma preserves_with_lock {A} (mx : lens S bool) (body : M S A) :
  (∀ b s, I s → I (upd mx b s)) → preserves I body →
  preserves I (with_lock mx body).
Proof.
  intros Hmx Hb s Hs. unfold with_lock. destruct (view mx s); [done|].
  specialize (Hb (upd mx true s) (Hmx true s Hs)).
  destruct (body (upd mx true s)) as [[] s']; simpl in *; auto.
Qed.
End preserves.

#[export] Hint Resolve preserves_ret preserves_throw preserves_fail preserves_gets
  preserves_get preserves_lift preserves_modify preserves_bind preserves_try
  preserves_with_lock : preserve.

Lemma preserves_read {S F} (I : S → Prop) (l : lens S F) : preserves I (read l).
Proof. apply preserves_gets. Qed.

Lemma preserves_assign {S F} (I : S → Prop) (l : lens S F) f :
  (∀ s, I s → I (upd l f s)) → preserves I (assign l f).
Proof. apply preserves_modify. Qed.

#[export] Hint Resolve preserves_read preserves_assign : preserve.

(** Running a monadic operation on a known state: unfold the plumbing. *)
Ltac mrun := unfold bind, ret, throw, fail, read, assign, gets, get, modify, lift,
  try_catch, zoom; simpl.

(** ** Machine integers *)

Section integers.
Local Open Scope Z_scope.

(** The value of [x] in an unsigned type of [w] bits. *)
Definition wrap (w x : Z) : Z := x mod 2 ^ w.

(** The value of [x] in a two's complement signed type of [w] bits. *)
Definition swrap (w x : Z) : Z :=
  let u := wrap w x in if decide (u < 2 ^ (w - 1)) then u else u - 2 ^ w.

(** A byte, and an integer as its bytes in memory, lowest address first
    (common.hpp is compiled for little-endian hosts when it defines the
    byte-order macros as reversals). *)
Definition is_byte (b : Z) : Prop := 0 <= b < 256.

#[export] Instance is_byte_dec b : Decision (is_byte b).
Proof. unfold is_byte. apply _. Defined.

Fixpoint le_bytes (n : nat) (x : Z) : list Z :=
  match n with
  | O => []
  | S n' => x mod 256 :: le_bytes n' (x / 256)
  end.

Fixpoint le_value (bs : list Z) : Z :=
  match bs with
  | [] => 0
  | b :: bs' => b + 256 * le_value bs'
  end.

Lemma wrap_bounds w x : 0 <= w → 0 <= wrap w x < 2 ^ w.
Proof. intros. apply Z.mod_pos_bound. by apply Z.pow_pos_nonneg. Qed.

Lemma wrap_small w x : 0 <= x < 2 ^ w → wrap w x = x.
Proof. apply Z.mod_small. Qed.

Lemma wrap_wrap w x : wrap w (wrap w x) = wrap w x.
Proof. unfold wrap. by rewrite Zmod_mod. Qed.

Lemma wrap_add_l w x y : wrap w (wrap w x + y) = wrap w (x + y).
Proof. unfold wrap. by rewrite Zplus_mod_idemp_l. Qed.

Lemma swrap_bounds w x : 0 < w → - 2 ^ (w - 1) <= swrap w x < 2 ^ (w - 1).
Proof.
  intros Hw. unfold swrap. pose proof (wrap_bounds w x ltac:(lia)).
  replace (2 ^ w) with (2 * 2 ^ (w - 1)) in *
    by (rewrite <-Z.pow_succ_r by lia; f_equal; lia).
  case_decide; lia.
Qed.

Lemma wrap_swrap w x : 0 < w → wrap w (swrap w x) = wrap w x.
Proof.
  intros Hw. unfold swrap. case_decide; [apply wrap_wrap|].
  unfold wrap. replace (x mod 2 ^ w - 2 ^ w) with (x mod 2 ^ w + (-1) * 2 ^ w) by lia.
  rewrite Z.mod_add by (apply Z.pow_nonzero; lia). by rewrite Zmod_mod.
Qed.

Lemma swrap_small w x : 0 < w → - 2 ^ (w - 1) <= x < 2 ^ (w - 1) → swrap w x = x.
Proof.
  intros Hw Hx. unfold swrap, wrap.
  assert (2 ^ w = 2 * 2 ^ (w - 1)) as Hp
    by (rewrite <-Z.pow_succ_r by lia; f_equal; lia).
  destruct (decide (0 <= x)).
  - rewrite Z.mod_small by lia. case_decide; lia.
  - assert (x mod 2 ^ w = x + 2 ^ w) as ->; [|case_decide; lia].
    symmetry. apply (Z.mod_unique_pos _ _ (-1)); lia.
Qed.

Lemma le_bytes_length n x : length (le_bytes n x) = n.
Proof. revert x; induction n; intros; simpl; auto. Qed.

Lemma le_bytes_byte n x : Forall is_byte (le_bytes n x).
Proof.
  revert x; induction n; intros; simpl; constructor; auto.
  apply Z.mod_pos_bound. lia.
Qed.

Lemma le_value_bounds bs :
  Forall is_byte bs → 0 <= le_value bs < 256 ^ Z.of_nat (length bs).
Proof.
  induction 1 as [|b bs Hb _ IH]; [simpl; lia|].
  change (length (b :: bs)) with (S (length bs)).
  rewrite Nat2Z.inj_succ, Z.pow_succ_r by lia. simpl. unfold is_byte in Hb. lia.
Qed.

Lemma le_bytes_value bs :
  Forall is_byte bs → le_bytes (length bs) (le_value bs) = bs.
Proof.
  induction 1 as [|b bs Hb Hbs IH]; simpl; [done|]. unfold is_byte in Hb.
  replace (b + 256 * le_value bs) with (b + le_value bs * 256) by lia.
  rewrite Z.mod_add, Z.div_add, Z.mod_small, Z.div_small by lia.
  by rewrite Z.add_0_l, IH.
Qed.

Lemma le_value_bytes n x :
  0 <= x < 256 ^ Z.of_nat n → le_value (le_bytes n x) = x.
Proof.
  revert x; induction n as [|n IH]; intros x Hx; simpl; [simpl in Hx; lia|].
  rewrite Nat2Z.inj_succ, Z.pow_succ_r in Hx by lia.
  rewrite IH; [pose proof (Z.div_mod x 256); lia|].
  split; [apply Z.div_pos; lia|]. apply Z.div_lt_upper_bound; lia.
Qed.

Lemma le_value_app bs1 bs2 :
  le_value (bs1 ++ bs2) = le_value bs1 + 256 ^ Z.of_nat (length bs1) * le_value bs2.
Proof.
  induction bs1 as [|b bs1 IH]; [simpl; lia|].
  change (length (b :: bs1)) with (S (length bs1)).
  rewrite Nat2Z.inj_succ, Z.pow_succ_r by lia. simpl. rewrite IH. ring.
Qed.
End integers.

Arguments wrap : simpl never.
Arguments swrap : simpl never.

(** ** Byte order

    [HTN_BYTE_ORD] and [NTH_BYTE_ORD] of common.hpp are
    [boost::endian::endian_reverse] on little-endian hosts. The function is
    Boost's; its documentation says it reverses the order of the bytes. *)
Class BoostEndian := {
  endian_reverse : nat → Z → Z;
  endian_reverse_bytes n x :
    (0 <= x < 256 ^ Z.of_nat n)%Z →
    endian_reverse n x = le_value (rev (le_bytes n x));
}.

Definition HTN_BYTE_ORD `{BoostEndian} (n : nat) (x : Z) : Z := endian_reverse n x.
Definition NTH_BYTE_ORD `{BoostEndian} (n : nat) (x : Z) : Z := endian_reverse n x.

(** A concrete function with the documented behaviour. *)
#[export] Program Instance reference_endian : BoostEndian :=
  {| endian_reverse n x := le_value (rev (le_bytes n x)) |}.
Next Obligation. done. Qed.

Lemma byte_order_bounds `{BoostEndian} n x :
  (0 <= x < 256 ^ Z.of_nat n → 0 <= HTN_BYTE_ORD n x < 256 ^ Z.of_nat n)%Z.
Proof.
  intros Hx. unfold HTN_BYTE_ORD. rewrite endian_reverse_bytes by done.
  rewrite <-(le_bytes_length n x) at 3. rewrite <-(length_rev (le_bytes n x)).
  apply le_value_bounds. apply Forall_rev, le_bytes_byte.
Qed.

(** Host to network and back is the identity. *)
Lemma byte_order_roundtrip `{BoostEndian} n x :
  (0 <= x < 256 ^ Z.of_nat n)%Z → NTH_BYTE_ORD n (HTN_BYTE_ORD n x) = x.
Proof.
  intros Hx. pose proof (byte_order_bounds n x Hx) as Hb.
  unfold NTH_BYTE_ORD, HTN_BYTE_ORD in *.
  rewrite endian_reverse_bytes by done. rewrite endian_reverse_bytes by done.
  assert (length (rev (le_bytes n x)) = n) as Hl by (by rewrite length_rev, le_bytes_length).
  rewrite <-Hl at 1. rewrite le_bytes_value by (apply Forall_rev, le_bytes_byte).
  rewrite rev_involutive. by apply le_value_bytes.
Qed.

(** ** C strings

    A [const char*] argument is the string before its terminator. A character
    array is the list of its elements. *)
Definition NUL : ascii := Ascii.zero.

Definition chars : string → list ascii := list_ascii_of_string.
Definition strlen (s : string) : nat := String.length s.

(** No C string contains the terminator. *)
Definition nul_free (s : string) : Prop := NUL ∉ chars s.

#[export] Instance nul_free_dec s : Decision (nul_free s).
Proof. unfold nul_free. apply _. Defined.

(** [strcmp(a, b) == 0] *)
Definition strcmp_eq (a b : string) : bool := bool_decide (a = b).

(** The string a pointer to the array denotes: the characters before the first
    terminator. Without one the reader runs off the array ([None]). *)
Fixpoint c_string (buf : list ascii) : option string :=
  match buf with
  | [] => None
  | c :: buf' => if decide (c = NUL) then Some EmptyString else String c <$> c_string buf'
  end.

(** [memcpy(dst, src, n)] for [n] within both arrays. *)
Definition memcpy {A} (dst src : list A) (n : nat) : list A := take n src ++ drop n dst.

Lemma memcpy_length {A} (dst src : list A) n :
  n ≤ length src → n ≤ length dst → length (memcpy dst src n) = length dst.
Proof. intros. unfold memcpy. rewrite length_app, length_take, length_drop. lia. Qed.

(** Copying a whole array over one of the same length. *)
Lemma memcpy_full {A} (dst src : list A) n :
  length src = n → length dst = n → memcpy dst src n = src.
Proof. intros <- Hd. unfold memcpy. by rewrite firstn_all, drop_ge, app_nil_r by lia. Qed.

Lemma chars_length s : length (chars s) = strlen s.
Proof. unfold chars, strlen. induction s; simpl; auto. Qed.

Lemma chars_inj s1 s2 : chars s1 = chars s2 → s1 = s2.
Proof.
  unfold chars. intros H. apply (f_equal string_of_list_ascii) in H.
  by rewrite !string_of_list_ascii_of_string in H.
Qed.

Lemma chars_app s1 s2 : chars (s1 +:+ s2) = chars s1 ++ chars s2.
Proof. unfold chars. induction s1; simpl; [done|]. by f_equal. Qed.

Lemma c_string_app s rest :
  nul_free s → c_string (chars s ++ NUL :: rest) = Some s.
Proof.
  unfold nul_free, chars. induction s as [|c s IH]; simpl; [done|].
  intros [Hc Hs]%not_elem_of_cons. rewrite decide_False by congruence.
  by rewrite (IH Hs).
Qed.

(** Copying a C string with its terminator makes the array denote it. *)
Lemma c_string_memcpy s dst :
  nul_free s →
  c_string (memcpy dst (chars s ++ [NUL]) (strlen s + 1)) = Some s.
Proof.
  intros Hs. unfold memcpy.
  rewrite take_ge by (rewrite length_app, chars_length; simpl; lia).
  rewrite <-app_assoc. by apply c_string_app.
Qed.

Lemma c_string_nul buf : NUL ∈ buf → ∃ s, c_string buf = Some s.
Proof.
  induction buf as [|c buf IH]; [set_solver|]. simpl. intros Hin.
  apply elem_of_cons in Hin as [<-|Hin]; [by rewrite decide_True; eauto|].
  destruct (IH Hin) as [s ->]. case_decide; simpl; eauto.
Qed.

(** The string fits the array with its terminator. *)
Lemma c_string_strlen buf s : c_string buf = Some s → strlen s < length buf.
Proof.
  revert s. induction buf as [|c buf IH]; intros s; simpl; [done|].
  case_decide; [intros [= <-]; simpl; lia|].
  destruct (c_string buf) as [s'|]; [|done]. intros [= <-]. specialize (IH s' eq_refl).
  unfold strlen in *. simpl. lia.
Qed.

Lemma memcpy_terminated dst s :
  strlen s + 1 ≤ length dst → NUL ∈ memcpy dst (chars s ++ [NUL]) (strlen s + 1).
Proof.
  intros Hl. unfold memcpy. rewrite take_ge by (rewrite length_app, chars_length; simpl; lia).
  set_solver.
Qed.
