(* ===== verification/Actions.v ===== *)
(** * Actions (actions.hpp, actions.cpp)

    The actions a client may make, the word that packs a list of them, the test
    of one action in such a word and the names used in the JSON requests. A
    module says with such a word what it supports; [imodule], the middleware
    server and the zmq server branch on [check]. *)

From S2P Require Import Prelude.

(** [_actions_list_s::_actions_list_e] *)
Inductive actions_t := PUSH | WAIT | REQUEST | REPLY.

#[export] Instance actions_t_eq_dec : EqDecision actions_t.
Proof. solve_decision. Defined.

(** The enumerators' values, of type [AF_UINTN] ([uint64_t]). *)
Definition action_value (a : actions_t) : Z :=
  match a with
  | PUSH => 1
  | WAIT => 2
  | REQUEST => 4
  | REPLY => 8
  end.

(** [pack<First, Rest...>()]: the recursion over the template's parameter pack;
    [pack<Last>()] is the end of it. *)
Fixpoint pack (first : actions_t) (rest : list actions_t) : Z :=
  match rest with
  | [] => action_value first
  | second :: rest' => Z.lxor (action_value first) (pack second rest')
  end.

(** [(std::size_t)(log(Query)/log(2))], for the powers of two it is used on. *)
Definition query_shift (query : actions_t) : Z := Z.log2 (action_value query).

(** [check<Query>(List)]; the function returns [bool], so the shifted word is
    compared with zero. *)
Definition check (query : actions_t) (List : Z) : bool :=
  bool_decide (Z.shiftr (Z.land List (action_value query)) (query_shift query) ≠ 0%Z).

(** [str_map] *)
Definition str_map (str : string) : outcome actions_t :=
  if strcmp_eq str "request" then Ret REQUEST
  else if strcmp_eq str "reply" then Ret REPLY
  else if strcmp_eq str "wait" then Ret WAIT
  else if strcmp_eq str "push" then Ret PUSH
  else Throw (runtime_error err_msg._undhcse).

(** The string that stands for an action: the inverse reading of [str_map]. *)
Definition action_name (a : actions_t) : string :=
  match a with
  | PUSH => "push"
  | WAIT => "wait"
  | REQUEST => "request"
  | REPLY => "reply"
  end.

Section lemmas.
Local Open Scope Z_scope.

Lemma action_value_pow2 a : action_value a = 2 ^ query_shift a.
Proof. by destruct a. Qed.

Lemma query_shift_bounds a : 0 <= query_shift a < 4.
Proof. by destruct a. Qed.

Lemma query_shift_inj a b : query_shift a = query_shift b → a = b.
Proof. by destruct a, b. Qed.

(** Masking with a power of two leaves the bit or nothing. *)
Lemma land_pow2 L k :
  0 <= k → Z.land L (2 ^ k) = if Z.testbit L k then 2 ^ k else 0.
Proof.
  intros Hk. apply Z.bits_inj'. intros n Hn.
  rewrite Z.land_spec, Z.pow2_bits_eqb by done.
  destruct (Z.testbit L k) eqn:E.
  - rewrite Z.pow2_bits_eqb by done.
    destruct (Z.eqb_spec k n) as [<-|]; [by rewrite E|by rewrite andb_false_r].
  - rewrite Z.bits_0. destruct (Z.eqb_spec k n) as [<-|]; [by rewrite E|].
    by rewrite andb_false_r.
Qed.

(** Any shift that does not go past the bit gives the same answer. *)
Lemma masked_shift_nonzero L k j :
  0 <= j <= k →
  bool_decide (Z.shiftr (Z.land L (2 ^ k)) j ≠ 0) = Z.testbit L k.
Proof.
  intros Hj. rewrite land_pow2 by lia. destruct (Z.testbit L k).
  - apply bool_decide_eq_true_2. rewrite Z.shiftr_div_pow2 by lia.
    replace k with (k - j + j) by lia. rewrite Z.pow_add_r by lia.
    rewrite Z.div_mul by (apply Z.pow_nonzero; lia). apply Z.pow_nonzero; lia.
  - rewrite Z.shiftr_0_l. done.
Qed.

Lemma check_testbit q L : check q L = Z.testbit L (query_shift q).
Proof.
  destruct q;
    [apply (masked_shift_nonzero L 0 0)|apply (masked_shift_nonzero L 1 1)
    |apply (masked_shift_nonzero L 2 2)|apply (masked_shift_nonzero L 3 3)]; lia.
Qed.

Lemma check_value q a : check q (action_value a) = bool_decide (q = a).
Proof. by destruct q, a. Qed.

Lemma check_lxor q L1 L2 :
  check q (Z.lxor L1 L2) = xorb (check q L1) (check q L2).
Proof. by rewrite !check_testbit, Z.lxor_spec. Qed.
End lemmas.

(** How often an action occurs in a parameter pack. *)
Definition occurrences (q : actions_t) (l : list actions_t) : nat :=
  length (filter (eq q) l).

Lemma occurrences_cons q x l :
  occurrences q (x :: l) = (if decide (q = x) then 1 else 0) + occurrences q l.
Proof. unfold occurrences. rewrite filter_cons. by case_decide. Qed.

(** The packed word answers with the parity of the occurrences. *)
Lemma check_pack_odd q a l :
  check q (pack a l) = Nat.odd (occurrences q (a :: l)).
Proof.
  revert a; induction l as [|b l IH]; intros a.
  - simpl pack. rewrite check_value, occurrences_cons. by destruct (decide (q = a)), q, a.
  - change (pack a (b :: l)) with (Z.lxor (action_value a) (pack b l)).
    rewrite check_lxor, check_value, IH, (occurrences_cons q a).
    destruct (decide (q = a)).
    + by rewrite bool_decide_true, xorb_true_l, Nat.add_1_l, Nat.odd_succ, Nat.negb_odd by done.
    + by rewrite bool_decide_false, xorb_false_l by done.
Qed.

Lemma occurrences_NoDup q l :
  NoDup l → occurrences q l = if bool_decide (q ∈ l) then 1 else 0.
Proof.
  induction 1 as [|x l Hx Hl IH]; [done|]. rewrite occurrences_cons, IH.
  destruct (decide (q = x)) as [<-|Hne].
  - by rewrite bool_decide_false, bool_decide_true by set_solver.
  - case_bool_decide; [rewrite bool_decide_true|rewrite bool_decide_false]; set_solver.
Qed.

(** [check] finds exactly the packed actions when the template arguments are
    distinct, as they are everywhere the program packs a list. *)
Lemma check_pack q a l :
  NoDup (a :: l) → check q (pack a l) = bool_decide (q ∈ a :: l).
Proof.
  intros Hnd. rewrite check_pack_odd, occurrences_NoDup by done.
  by case_bool_decide.
Qed.

Lemma str_map_name a : str_map (action_name a) = Ret a.
Proof. by destruct a. Qed.

Lemma str_map_Ret str a : str_map str = Ret a → str = action_name a.
Proof.
  unfold str_map, strcmp_eq.
  repeat case_bool_decide; intros [= <-]; done.
Qed.

Lemma str_map_Throw str :
  (∀ a, str ≠ action_name a) →
  str_map str = Throw (runtime_error err_msg._undhcse).
Proof.
  intros Hn. unfold str_map, strcmp_eq.
  rewrite !bool_decide_false; [done| | | |].
  - apply (Hn PUSH).
  - apply (Hn WAIT).
  - apply (Hn REPLY).
  - apply (Hn REQUEST).
Qed.

(** ** Properties *)

(** [check] answers membership in a packed list of distinct actions, which is
    how every module builds its list. The packing is an exclusive or, so an
    action given twice in a row cancels out of the word. *)
Theorem check_pack_spec q a l :
  (NoDup (a :: l) → check q (pack a l) = true ↔ q ∈ a :: l)
  ∧ check q (pack a (a :: l)) = match l with
                               | [] => false
                               | b :: l' => check q (pack b l')
                               end.
Proof.
  split.
  - intros Hnd. rewrite check_pack by done. by rewrite bool_decide_eq_true.
  - rewrite check_pack_odd, !(occurrences_cons q a).
    destruct l as [|b l]; [by destruct (decide (q = a))|].
    rewrite check_pack_odd. by destruct (decide (q = a)).
Qed.

(** [str_map] maps exactly the four action names, each to its action, and
    throws [std::runtime_error] on every other string. *)
Theorem str_map_spec str :
  (∀ a, str_map str = Ret a ↔ str = action_name a)
  ∧ ((∀ a, str ≠ action_name a) ↔ str_map str = Throw (runtime_error err_msg._undhcse)).
Proof.
  split; [intros a; split; [apply str_map_Ret|intros ->; apply str_map_name]|].
  split; [apply str_map_Throw|]. intros Ht a ->. by rewrite str_map_name in Ht.
Qed.

(** Witness of the first conjunct's hypothesis: the word the trabea module packs. *)
Lemma check_pack_spec_witness :
  NoDup [REQUEST; PUSH]
  ∧ (check PUSH (pack REQUEST [PUSH]) = true ↔ PUSH ∈ [REQUEST; PUSH]).
Proof.
  assert (NoDup [REQUEST; PUSH]) as Hnd by (apply (bool_decide_unpack _); vm_compute; exact I).
  split; [exact Hnd|]. exact (proj1 (check_pack_spec PUSH REQUEST [PUSH]) Hnd).
Defined.
