(* ===== verification/BufferItem.v ===== *)
(** * Items of the asynchronous buffer (buffer/buffer_item.hpp, buffer_item.cpp)

    [parameters] and [buffer_item] own arrays obtained from [new[]]. The heap is
    a finite map from locations to arrays; [delete[]] of a location that is not
    allocated is undefined behaviour. The theorems follow the blocks an item
    owns through construction, moves, move assignment and destruction. *)

From S2P Require Import Prelude.

(** ** The heap *)

Abbreviation loc := positive.

(** An array of [char] or an array of [const char*]. *)
Inductive block :=
| Chars (cs : list ascii)
| Ptrs (ps : list (option loc)).

Abbreviation heap := (gmap loc block).

(** [new T[n]] with its contents; the null pointer is [None]. *)
Definition new_array (b : block) : M heap loc := λ h,
  let l := fresh (dom h) in (Ret l, <[l := b]> h).

(** [delete[] p] *)
Definition delete_array (p : option loc) : M heap () := λ h,
  match p with
  | None => (Ret tt, h)
  | Some l =>
      match h !! l with
      | Some _ => (Ret tt, delete l h)
      | None => (Fatal Undefined, h)
      end
  end.

Definition load_chars (l : loc) : M heap (list ascii) := λ h,
  match h !! l with
  | Some (Chars cs) => (Ret cs, h)
  | _ => (Fatal Undefined, h)
  end.

Definition load_ptr (l : loc) (i : nat) : M heap (option loc) := λ h,
  match h !! l with
  | Some (Ptrs ps) =>
      match ps !! i with
      | Some p => (Ret p, h)
      | None => (Fatal Undefined, h)
      end
  | _ => (Fatal Undefined, h)
  end.

(** ** [struct parameters] *)

Record parameters := Parameters {
  p_parameters : option loc;
  p_size : nat;
  p_isAllocated : bool;
}.

#[export] Instance parameters_eq_dec : EqDecision parameters.
Proof. solve_decision. Defined.

(** Constructor; [isAllocated] is [false] by default. *)
Definition parameters_ctor (parameterList : option loc) (size : nat) (isAllocated : bool) : parameters :=
  Parameters parameterList size isAllocated.

(** Move constructor: the new object and what is left of the source. *)
Definition parameters_move (item : parameters) : parameters * parameters :=
  (Parameters (p_parameters item) (p_size item) (p_isAllocated item),
   Parameters None 0 false).

(** Move assignment: the target and what is left of the source. The target's
    previous members are overwritten. *)
Definition parameters_move_assign (self item : parameters) : parameters * parameters :=
  (Parameters (p_parameters item) (p_size item) (p_isAllocated item),
   Parameters None 0 false).

(** Destructor. *)
Definition parameters_dtor (self : parameters) : M heap () :=
  match p_isAllocated self, p_parameters self with
  | true, Some a =>
      for_loop 0 (p_size self) (λ i, p <- load_ptr a i ;; delete_array p) ;;
      delete_array (Some a)
  | _, _ => ret tt
  end.

(** [operator[]]; a failed [assert] aborts the program. *)
Definition parameters_index (self : parameters) (index : nat) : M heap (option loc) :=
  if decide (index < p_size self) then
    match p_parameters self with
    | Some a => load_ptr a index
    | None => fail Undefined
    end
  else fail Terminate.

Definition parameters_size (self : parameters) : nat := p_size self.

(** ** [class buffer_item] *)

Record buffer_item := BufferItem {
  b_data : option loc;
  b_size : nat;
  b_parameters : parameters;
}.

#[export] Instance buffer_item_eq_dec : EqDecision buffer_item.
Proof. solve_decision. Defined.

(** Constructor: copies [size] bytes when there are any. *)
Definition buffer_item_ctor (data : option loc) (size : nat)
    (parameterList : option loc) (count : nat) (isAllocated : bool) : M heap buffer_item :=
  let ps := parameters_ctor parameterList count isAllocated in
  match data with
  | Some d =>
      if decide (size ≠ 0) then
        src <- load_chars d ;;
        if decide (size ≤ length src) then
          l <- new_array (Chars (take size src)) ;;
          ret (BufferItem (Some l) size ps)
        else fail Undefined
      else ret (BufferItem None size ps)
  | None => ret (BufferItem None size ps)
  end.

(** Move constructor. *)
Definition buffer_item_move (item : buffer_item) : buffer_item * buffer_item :=
  let r := parameters_move (b_parameters item) in
  (BufferItem (b_data item) (b_size item) r.1, BufferItem None 0 r.2).

(** Move assignment. *)
Definition buffer_item_move_assign (self item : buffer_item) : buffer_item * buffer_item :=
  let r := parameters_move_assign (b_parameters self) (b_parameters item) in
  (BufferItem (b_data item) (b_size item) r.1, BufferItem None 0 r.2).

(** Destructor: its body, then the member [_parameters]. *)
Definition buffer_item_dtor (self : buffer_item) : M heap () :=
  (if decide (b_data self = None) then ret tt else delete_array (b_data self)) ;;
  parameters_dtor (b_parameters self).

(** The accessors [data], [size] and [parameters]. *)
Definition item_data (self : buffer_item) : option loc := b_data self.
Definition item_size (self : buffer_item) : nat := b_size self.
Definition item_parameters (self : buffer_item) : parameters := b_parameters self.

(** ** Ownership *)

Definition elems (h : heap) (a : loc) : list (option loc) :=
  match h !! a with
  | Some (Ptrs ps) => ps
  | _ => []
  end.

(** The blocks a parameter array, and an item, will free. *)
Definition param_blocks (h : heap) (p : parameters) : list loc :=
  match p_isAllocated p, p_parameters p with
  | true, Some a => omap id (elems h a) ++ [a]
  | _, _ => []
  end.

Definition item_blocks (h : heap) (it : buffer_item) : list loc :=
  option_list (b_data it) ++ param_blocks h (b_parameters it).

(** The array of an allocated list has [_size] entries. *)
Definition params_ok (h : heap) (p : parameters) : Prop :=
  ∀ a, p_isAllocated p = true → p_parameters p = Some a →
  ∃ ps, h !! a = Some (Ptrs ps) ∧ length ps = p_size p.

(** An item may be destroyed: its blocks are allocated and pairwise distinct. *)
Record item_valid (h : heap) (it : buffer_item) : Prop := {
  iv_params : params_ok h (b_parameters it);
  iv_nodup : NoDup (item_blocks h it);
  iv_alloc : ∀ l, l ∈ item_blocks h it → is_Some (h !! l);
}.

(** A heap without some blocks. *)
Definition delete_all (ls : list loc) (h : heap) : heap := foldr delete h ls.

Arguments delete_all : simpl never.

Lemma lookup_delete_all ls h l :
  delete_all ls h !! l = if decide (l ∈ ls) then None else h !! l.
Proof.
  unfold delete_all. induction ls as [|x ls IH]; simpl; [done|].
  destruct (decide (x = l)) as [->|].
  - rewrite lookup_delete_eq, decide_True by set_solver. done.
  - rewrite lookup_delete_ne, IH by done.
    destruct (decide (l ∈ ls)); [rewrite decide_True|rewrite decide_False]; set_solver.
Qed.

Lemma delete_all_app ls1 ls2 h : delete_all (ls1 ++ ls2) h = delete_all ls1 (delete_all ls2 h).
Proof. unfold delete_all. by rewrite foldr_app. Qed.

Lemma delete_all_comm ls1 ls2 h :
  delete_all ls1 (delete_all ls2 h) = delete_all ls2 (delete_all ls1 h).
Proof.
  apply map_eq. intros l. rewrite !lookup_delete_all. by repeat case_decide.
Qed.

Lemma delete_all_cons l ls h : delete_all (l :: ls) h = delete_all ls (delete l h).
Proof. apply (delete_all_comm [l] ls h). Qed.

Lemma delete_array_Some l h :
  is_Some (h !! l) → delete_array (Some l) h = (Ret tt, delete l h).
Proof. intros [b Hb]. simpl. by rewrite Hb. Qed.

(** The destructor's loop frees the strings not freed yet. *)
Lemma free_strings_loop a ps n i h :
  h !! a = Some (Ptrs ps) → i + n = length ps →
  NoDup (omap id (drop i ps) ++ [a]) →
  (∀ l, l ∈ omap id (drop i ps) → is_Some (h !! l)) →
  for_loop i n (λ i, p <- load_ptr a i ;; delete_array p) h
  = (Ret tt, delete_all (omap id (drop i ps)) h).
Proof.
  revert i h; induction n as [|n IH]; intros i h Ha Hn Hnd Hal.
  - rewrite drop_ge by lia. done.
  - destruct (lookup_lt_is_Some_2 ps i ltac:(lia)) as [p Hp].
    rewrite (drop_S _ _ _ Hp) in *. simpl for_loop. rewrite bind_assoc.
    rewrite (bind_Ret _ _ _ p h) by (unfold load_ptr; by rewrite Ha, Hp).
    destruct p as [l|]; simpl in Hnd, Hal |- *.
    + apply NoDup_cons in Hnd as [Hl Hnd].
      rewrite (bind_Ret _ _ _ tt (delete l h))
        by (apply delete_array_Some, Hal; set_solver).
      rewrite IH; [by rewrite delete_all_cons| |lia|done|].
      * rewrite lookup_delete_ne by set_solver. done.
      * intros l' Hl'. rewrite lookup_delete_ne by set_solver. apply Hal. set_solver.
    + rewrite (bind_Ret _ _ _ tt h) by done. apply IH; try done; lia.
Qed.

Lemma parameters_dtor_frees p h :
  params_ok h p → NoDup (param_blocks h p) →
  (∀ l, l ∈ param_blocks h p → is_Some (h !! l)) →
  parameters_dtor p h = (Ret tt, delete_all (param_blocks h p) h).
Proof.
  unfold parameters_dtor, param_blocks, params_ok, elems.
  destruct p as [[a|] n []]; simpl; [|done..]. intros Hok.
  destruct (Hok a eq_refl eq_refl) as (ps & Ha & Hlen). rewrite Ha.
  intros Hnd Hal.
  erewrite bind_Ret; [|apply (free_strings_loop a ps); [done|lia|done|set_solver]].
  apply NoDup_app in Hnd as (_ & Ha' & _). rewrite delete_array_Some.
  - by rewrite delete_all_app, delete_all_comm.
  - rewrite lookup_delete_all, decide_False by set_solver. rewrite Ha. eauto.
Qed.

(** Destroying a valid item frees its blocks and nothing else. *)
Lemma buffer_item_dtor_frees it h :
  item_valid h it → buffer_item_dtor it h = (Ret tt, delete_all (item_blocks h it) h).
Proof.
  intros [Hok Hnd Hal]. unfold buffer_item_dtor, item_blocks in *.
  destruct it as [[d|] n p]; simpl in *.
  - apply NoDup_cons in Hnd as [Hd Hnd].
    erewrite bind_Ret; [|apply delete_array_Some, Hal; set_solver].
    assert (param_blocks (delete d h) p = param_blocks h p) as Hpb.
    { unfold param_blocks, elems in *. destruct p as [[a|] m []]; simpl in *; try done.
      rewrite lookup_delete_ne by set_solver. done. }
    rewrite parameters_dtor_frees; rewrite ?Hpb; [by rewrite delete_all_cons| |done|].
    + intros a Hi Hp. destruct (Hok a Hi Hp) as (ps & Ha & Hl). exists ps.
      rewrite lookup_delete_ne; [done|]. intros ->. apply Hd.
      unfold param_blocks. rewrite Hi, Hp. set_solver.
    + intros l Hl. rewrite lookup_delete_ne by set_solver. apply Hal. set_solver.
  - erewrite bind_Ret; [|done]. apply parameters_dtor_frees; auto.
Qed.

Lemma move_blocks h it :
  item_blocks h (buffer_item_move it).1 = item_blocks h it
  ∧ item_blocks h (buffer_item_move it).2 = [].
Proof. by destruct it as [d n [a m al]]. Qed.

Lemma move_fields it : (buffer_item_move it).1 = it.
Proof. by destruct it as [d n [a m al]]. Qed.

(** What a move leaves behind is destroyed without touching the heap. *)
Lemma moved_from_dtor it h : buffer_item_dtor (buffer_item_move it).2 h = (Ret tt, h).
Proof. done. Qed.

Lemma lookup_fresh_insert (h : heap) b l :
  is_Some (h !! l) → <[fresh (dom h) := b]> h !! l = h !! l.
Proof.
  intros Hl. apply lookup_insert_ne. intros <-.
  apply elem_of_dom in Hl. by apply (is_fresh (dom h)) in Hl.
Qed.

(** ** Properties *)

(** The constructor of [buffer_item] copies the first [size] bytes of the
    data into a new block that no other object has, leaves every existing block
    as it was, and keeps the parameter list it is given. *)
Theorem buffer_item_ctor_copies d cs size pl count al h :
  h !! d = Some (Chars cs) → 0 < size ≤ length cs →
  ∃ l h', buffer_item_ctor (Some d) size pl count al h
          = (Ret (BufferItem (Some l) size (Parameters pl count al)), h')
        ∧ h !! l = None ∧ h' !! l = Some (Chars (take size cs))
        ∧ (∀ l', is_Some (h !! l') → h' !! l' = h !! l')
        ∧ dom h' = {[l]} ∪ dom h.
Proof.
  intros Hd Hs. exists (fresh (dom h)), (<[fresh (dom h) := Chars (take size cs)]> h).
  split_and!.
  - unfold buffer_item_ctor. rewrite decide_True by lia.
    rewrite (bind_Ret _ _ _ cs h) by (unfold load_chars; by rewrite Hd).
    rewrite decide_True by lia. done.
  - apply not_elem_of_dom, is_fresh.
  - apply lookup_insert_eq.
  - intros. by apply lookup_fresh_insert.
  - by rewrite dom_insert_L.
Qed.

Lemma buffer_item_ctor_copies_witness :
  let h : heap := {[ 1%positive := Chars ["a"; "b"; "c"]%char ]} in
  (h !! 1%positive = Some (Chars ["a"; "b"; "c"]%char) ∧ 0 < 2 ≤ 3)
  ∧ ∃ l h', buffer_item_ctor (Some 1%positive) 2 None 0 false h
          = (Ret (BufferItem (Some l) 2 (Parameters None 0 false)), h')
        ∧ h !! l = None ∧ h' !! l = Some (Chars (take 2 ["a"; "b"; "c"]%char))
        ∧ (∀ l', is_Some (h !! l') → h' !! l' = h !! l')
        ∧ dom h' = {[l]} ∪ dom h.
Proof.
  split; [split; [reflexivity|lia]|].
  apply buffer_item_ctor_copies; [reflexivity|simpl; lia].
Defined.

(** Ownership moves: after a move construction, destroying both objects, in
    either order, frees each block the item owned exactly once and nothing
    else. *)
Theorem move_then_destroy it h :
  item_valid h it →
  let r := buffer_item_move it in
  (buffer_item_dtor r.1 ;; buffer_item_dtor r.2) h
    = (Ret tt, delete_all (item_blocks h it) h)
  ∧ (buffer_item_dtor r.2 ;; buffer_item_dtor r.1) h
    = (Ret tt, delete_all (item_blocks h it) h).
Proof.
  intros Hv r. unfold r. rewrite move_fields. split.
  - erewrite bind_Ret by by apply buffer_item_dtor_frees. apply moved_from_dtor.
  - erewrite bind_Ret by apply moved_from_dtor. by apply buffer_item_dtor_frees.
Qed.

(** Move assignment does not release what the target owned: after
    [dst = std::move(src)], destroying both objects frees the blocks of [src]
    and leaves every block of [dst] allocated with nothing that refers to it. *)
Theorem move_assign_leaks dst src h :
  item_valid h dst → item_valid h src → item_blocks h dst ## item_blocks h src →
  let r := buffer_item_move_assign dst src in
  ∃ h', (buffer_item_dtor r.1 ;; buffer_item_dtor r.2) h = (Ret tt, h')
      ∧ (∀ l, l ∈ item_blocks h dst → h' !! l = h !! l ∧ is_Some (h' !! l))
      ∧ (∀ l, l ∈ item_blocks h src → h' !! l = None).
Proof.
  intros Hd Hs Hdisj r. exists (delete_all (item_blocks h src) h).
  assert (r = buffer_item_move src) as -> by done. split_and!.
  - by apply move_then_destroy.
  - intros l Hl. rewrite lookup_delete_all, decide_False by set_solver.
    split; [done|]. by apply (iv_alloc _ _ Hd).
  - intros l Hl. by rewrite lookup_delete_all, decide_True by done.
Qed.

(** ** A concrete heap for the witnesses: two items, the first with an allocated
    parameter list of one string. *)

Definition example_heap : heap :=
  {[ 1%positive := Chars ["x"; "y"]%char; 2%positive := Ptrs [Some 3%positive; None];
     3%positive := Chars ["p"; NUL]%char; 4%positive := Chars ["z"]%char ]}.

Definition example_item : buffer_item :=
  BufferItem (Some 1%positive) 2 (Parameters (Some 2%positive) 2 true).

Definition example_item2 : buffer_item :=
  BufferItem (Some 4%positive) 1 (Parameters None 0 false).

Lemma example_item_valid : item_valid example_heap example_item.
Proof.
  split.
  - intros a _ [= <-]. exists [Some 3%positive; None]. done.
  - apply (bool_decide_unpack _). by vm_compute.
  - intros l Hl. assert (Forall (λ l, is_Some (example_heap !! l))
      (item_blocks example_heap example_item)) as Hf
      by (repeat constructor; vm_compute; eauto).
    by apply (Forall_forall _ _) with (x := l) in Hf.
Qed.

Lemma example_item2_valid : item_valid example_heap example_item2.
Proof.
  split.
  - done.
  - apply (bool_decide_unpack _). by vm_compute.
  - intros l ->%list_elem_of_singleton. vm_compute. eauto.
Qed.

Lemma move_then_destroy_witness :
  item_valid example_heap example_item
  ∧ (let r := buffer_item_move example_item in
     (buffer_item_dtor r.1 ;; buffer_item_dtor r.2) example_heap
       = (Ret tt, delete_all (item_blocks example_heap example_item) example_heap)
     ∧ (buffer_item_dtor r.2 ;; buffer_item_dtor r.1) example_heap
       = (Ret tt, delete_all (item_blocks example_heap example_item) example_heap)).
Proof.
  split; [exact example_item_valid|].
  apply (move_then_destroy example_item example_heap). exact example_item_valid.
Defined.

Lemma move_assign_leaks_witness :
  item_blocks example_heap example_item = [1; 3; 2]%positive
  ∧ ∃ h', (buffer_item_dtor (buffer_item_move_assign example_item example_item2).1 ;;
           buffer_item_dtor (buffer_item_move_assign example_item example_item2).2) example_heap
          = (Ret tt, h')
      ∧ (∀ l, l ∈ item_blocks example_heap example_item →
           h' !! l = example_heap !! l ∧ is_Some (h' !! l))
      ∧ (∀ l, l ∈ item_blocks example_heap example_item2 → h' !! l = None).
Proof.
  split; [by vm_compute|].
  apply (move_assign_leaks example_item example_item2 example_heap).
  - exact example_item_valid.
  - exact example_item2_valid.
  - intros l H1 ->%list_elem_of_singleton. revert H1. vm_compute.
    intros H1. repeat (apply elem_of_cons in H1 as [H1|H1]; [done|]).
    by apply elem_of_nil in H1.
Defined.
