(* ===== verification/QueueBuffer.v ===== *)
(** * The thread-safe FIFO buffer (buffer/queue_buffer.hpp, queue_buffer.cpp)

    [queue_buffer] is the only object the processing-unit thread and the
    outgoing thread of the server share. Every operation is one critical section
    under [queueMutex], so an execution is a sequence of them; [push_wait], the
    one that blocks, is split where [std::condition_variable] releases the
    mutex: entering, and resuming after a notification, a spurious wake-up or
    the timeout. *)

From S2P Require Import Prelude BufferItem.

Abbreviation tid := nat.

(** ** Condition variables

    The threads blocked on the variable and, of these, the ones a notification
    has released. *)
Record condvar := Condvar {
  cv_blocked : gset tid;
  cv_notified : gset tid;
}.

Definition cv_init : condvar := Condvar ∅ ∅.
Definition cv_block (t : tid) (cv : condvar) : condvar :=
  Condvar ({[t]} ∪ cv_blocked cv) (cv_notified cv ∖ {[t]}).
Definition cv_leave (t : tid) (cv : condvar) : condvar :=
  Condvar (cv_blocked cv ∖ {[t]}) (cv_notified cv ∖ {[t]}).
Definition cv_notify_all (cv : condvar) : condvar :=
  Condvar (cv_blocked cv) (cv_blocked cv).

(** ** The object *)

Record queue_buffer := QueueBuffer {
  queue : list buffer_item;
  queueMutex : bool;
  pushCV : condvar;
  pushWaitCV : condvar;
  pushWaitEnabled : bool;
  pushWaitNew : Z;
  pushWaitThreshold : Z;
}.

(** Constructor. *)
Definition queue_buffer_init : queue_buffer :=
  QueueBuffer [] false cv_init cv_init false 0 0.

(** The data members. *)
Definition l_queue : lens queue_buffer (list buffer_item) := Lens queue
  (λ x q, QueueBuffer x (queueMutex q) (pushCV q) (pushWaitCV q)
    (pushWaitEnabled q) (pushWaitNew q) (pushWaitThreshold q)).
Definition l_queueMutex : lens queue_buffer bool := Lens queueMutex
  (λ x q, QueueBuffer (queue q) x (pushCV q) (pushWaitCV q)
    (pushWaitEnabled q) (pushWaitNew q) (pushWaitThreshold q)).
Definition l_pushCV : lens queue_buffer condvar := Lens pushCV
  (λ x q, QueueBuffer (queue q) (queueMutex q) x (pushWaitCV q)
    (pushWaitEnabled q) (pushWaitNew q) (pushWaitThreshold q)).
Definition l_pushWaitCV : lens queue_buffer condvar := Lens pushWaitCV
  (λ x q, QueueBuffer (queue q) (queueMutex q) (pushCV q) x
    (pushWaitEnabled q) (pushWaitNew q) (pushWaitThreshold q)).
Definition l_pushWaitEnabled : lens queue_buffer bool := Lens pushWaitEnabled
  (λ x q, QueueBuffer (queue q) (queueMutex q) (pushCV q) (pushWaitCV q)
    x (pushWaitNew q) (pushWaitThreshold q)).
Definition l_pushWaitNew : lens queue_buffer Z := Lens pushWaitNew
  (λ x q, QueueBuffer (queue q) (queueMutex q) (pushCV q) (pushWaitCV q)
    (pushWaitEnabled q) x (pushWaitThreshold q)).
Definition l_pushWaitThreshold : lens queue_buffer Z := Lens pushWaitThreshold
  (λ x q, QueueBuffer (queue q) (queueMutex q) (pushCV q) (pushWaitCV q)
    (pushWaitEnabled q) (pushWaitNew q) x).

(** ** The operations *)

Definition set_push_wait_threshold (threshold : Z) : M queue_buffer () :=
  with_lock l_queueMutex (
    assign l_pushWaitEnabled true ;;
    assign l_pushWaitThreshold threshold).

Definition size : M queue_buffer nat :=
  with_lock l_queueMutex (q <- read l_queue ;; ret (length q)).

(** Returns what the move leaves of the argument. *)
Definition push (item : buffer_item) : M queue_buffer buffer_item :=
  with_lock l_queueMutex (
    let r := buffer_item_move item in
    q <- read l_queue ;;
    assign l_queue (q ++ [r.1]) ;;
    enabled <- read l_pushWaitEnabled ;;
    (if enabled : bool then
       n <- read l_pushWaitNew ;;
       assign l_pushWaitNew (wrap 64 (n + 1)) ;;
       n <- read l_pushWaitNew ;;
       threshold <- read l_pushWaitThreshold ;;
       if decide (threshold ≤ n)%Z then
         cv <- read l_pushWaitCV ;; assign l_pushWaitCV (cv_notify_all cv)
       else ret tt
     else ret tt) ;;
    ret r.2).

Definition pop_all : M queue_buffer (list buffer_item) :=
  with_lock l_queueMutex (
    q <- read l_queue ;;
    assign l_queue [] ;;
    ret q).

Inductive wait_result :=
| Returned (b : bool)
| Blocked.

Inductive wakeup := Notified | Spurious | TimedOut.

(** The lambda given to [wait_for]. *)
Definition wait_pred (q : queue_buffer) : bool :=
  bool_decide (pushWaitThreshold q ≤ pushWaitNew q)%Z.

(** [pushWaitNew = 0; return true;] *)
Definition wait_success : M queue_buffer wait_result :=
  assign l_pushWaitNew 0%Z ;; ret (Returned true).

(** [push_wait] from the call to its return or to blocking on [pushCV]:
    [wait_for(lock, d, pred)] is
    [while(!pred()) if(wait_until(lock, t) == timeout) return pred(); return true;]. *)
Definition push_wait_enter (t : tid) : M queue_buffer wait_result :=
  with_lock l_queueMutex (
    q <- read l_queue ;;
    threshold <- read l_pushWaitThreshold ;;
    if decide (threshold ≤ Z.of_nat (length q))%Z then wait_success
    else
      p <- gets wait_pred ;;
      if p : bool then wait_success
      else
        cv <- read l_pushCV ;;
        assign l_pushCV (cv_block t cv) ;;
        ret Blocked).

(** [push_wait] from a wake-up to its return or to blocking again. *)
Definition push_wait_resume (t : tid) (w : wakeup) : M queue_buffer wait_result :=
  with_lock l_queueMutex (
    cv <- read l_pushCV ;;
    assign l_pushCV (cv_leave t cv) ;;
    p <- gets wait_pred ;;
    if p : bool then wait_success
    else
      match w with
      | TimedOut => ret (Returned false)
      | Notified | Spurious =>
          cv <- read l_pushCV ;;
          assign l_pushCV (cv_block t cv) ;;
          ret Blocked
      end).

(** ** Executions *)

Inductive event :=
| EvSetThreshold (threshold : Z)
| EvSize (n : nat)
| EvPush (item : buffer_item)
| EvPopAll (items : list buffer_item)
| EvWaitEnter (t : tid) (r : wait_result)
| EvWaitResume (t : tid) (w : wakeup) (r : wait_result).

(** A thread resumes for a notification only if one released it; a timeout or a
    spurious wake-up can come at any time. *)
Inductive qstep : queue_buffer → event → queue_buffer → Prop :=
| qstep_set n q q' :
    set_push_wait_threshold n q = (Ret tt, q') → qstep q (EvSetThreshold n) q'
| qstep_size n q q' :
    size q = (Ret n, q') → qstep q (EvSize n) q'
| qstep_push it r q q' :
    push it q = (Ret r, q') → qstep q (EvPush it) q'
| qstep_pop its q q' :
    pop_all q = (Ret its, q') → qstep q (EvPopAll its) q'
| qstep_enter t r q q' :
    t ∉ cv_blocked (pushCV q) →
    push_wait_enter t q = (Ret r, q') → qstep q (EvWaitEnter t r) q'
| qstep_resume t w r q q' :
    t ∈ cv_blocked (pushCV q) →
    (w = Notified → t ∈ cv_notified (pushCV q)) →
    push_wait_resume t w q = (Ret r, q') → qstep q (EvWaitResume t w r) q'.

Inductive qtrace : queue_buffer → list event → queue_buffer → Prop :=
| qtrace_nil q : qtrace q [] q
| qtrace_snoc q evs q1 ev q2 :
    qtrace q evs q1 → qstep q1 ev q2 → qtrace q (evs ++ [ev]) q2.

(** What the events pushed and popped, in order. *)
Definition pushed_by (ev : event) : list buffer_item :=
  match ev with EvPush it => [it] | _ => [] end.
Definition popped_by (ev : event) : list buffer_item :=
  match ev with EvPopAll its => its | _ => [] end.
Definition pushed (evs : list event) : list buffer_item := concat (pushed_by <$> evs).
Definition popped (evs : list event) : list buffer_item := concat (popped_by <$> evs).

(** ** The operations on a buffer whose mutex is free *)

#[export] Instance l_queueMutex_laws : LensLaws l_queueMutex.
Proof. solve_lens. Qed.

Section ops.
Context (q : queue_buffer) (Hfree : queueMutex q = false).

Lemma set_push_wait_threshold_eq n :
  set_push_wait_threshold n q
  = (Ret tt, QueueBuffer (queue q) false (pushCV q) (pushWaitCV q) true (pushWaitNew q) n).
Proof. unfold set_push_wait_threshold, with_lock; mrun. by rewrite Hfree. Qed.

Lemma size_eq : size q = (Ret (length (queue q)), q).
Proof. unfold size, with_lock; mrun. rewrite Hfree. simpl. by destruct q; simpl in *; subst. Qed.

Lemma pop_all_eq :
  pop_all q = (Ret (queue q), upd l_queue [] q).
Proof. unfold pop_all, with_lock; mrun. rewrite Hfree. simpl. by destruct q; simpl in *; subst. Qed.

(** The counter after a push, and the variable it signals. *)
Definition pushed_new : Z :=
  if pushWaitEnabled q then wrap 64 (pushWaitNew q + 1) else pushWaitNew q.
Definition pushed_cv : condvar :=
  if pushWaitEnabled q && bool_decide (pushWaitThreshold q ≤ pushed_new)%Z
  then cv_notify_all (pushWaitCV q) else pushWaitCV q.

Lemma push_eq it :
  push it q = (Ret (buffer_item_move it).2,
    QueueBuffer (queue q ++ [it]) false (pushCV q) pushed_cv
      (pushWaitEnabled q) pushed_new (pushWaitThreshold q)).
Proof.
  rewrite <-(move_fields it) at 3.
  unfold push, with_lock, pushed_cv, pushed_new; mrun. rewrite Hfree. simpl.
  destruct (pushWaitEnabled q); simpl; [|done].
  case_decide; [rewrite bool_decide_true by done|rewrite bool_decide_false by done]; done.
Qed.

(** Whether [push_wait] returns at once. *)
Definition enter_now : bool :=
  bool_decide (pushWaitThreshold q ≤ Z.of_nat (length (queue q)))%Z || wait_pred q.

Lemma push_wait_enter_eq t :
  push_wait_enter t q =
    if enter_now then (Ret (Returned true), upd l_pushWaitNew 0%Z q)
    else (Ret Blocked, upd l_pushCV (cv_block t (pushCV q)) q).
Proof.
  unfold push_wait_enter, with_lock, wait_success, enter_now, wait_pred; mrun.
  rewrite Hfree. destruct q; simpl in *; subst.
  case_decide as Hd; [by rewrite (bool_decide_true _ Hd)|rewrite (bool_decide_false _ Hd)].
  simpl. by case_bool_decide.
Qed.

Lemma push_wait_resume_eq t w :
  push_wait_resume t w q =
    if wait_pred q then
      (Ret (Returned true), upd l_pushWaitNew 0%Z (upd l_pushCV (cv_leave t (pushCV q)) q))
    else
      match w with
      | TimedOut => (Ret (Returned false), upd l_pushCV (cv_leave t (pushCV q)) q)
      | _ => (Ret Blocked, upd l_pushCV (cv_block t (cv_leave t (pushCV q))) q)
      end.
Proof.
  unfold push_wait_resume, with_lock, wait_success, wait_pred; mrun.
  rewrite Hfree. simpl. case_bool_decide; [|destruct w]; by destruct q; simpl in *; subst.
Qed.
End ops.

(** ** Every execution *)

(** The state of the parts no operation looks at through the queue: the mutex is
    free between critical sections, and no thread ever blocks on [pushWaitCV] or
    is ever notified on [pushCV]. *)
Record qinv (q : queue_buffer) : Prop := {
  qi_free : queueMutex q = false;
  qi_pushWaitCV : cv_blocked (pushWaitCV q) = ∅;
  qi_pushCV : cv_notified (pushCV q) = ∅;
}.

(** The six kinds of step, with the state each leads to. *)
Ltac qstep_cases Hstep :=
  destruct Hstep as [n q q' E|n q q' E|it r q q' E|its q q' E|t r q q' Ht E|t w r q q' Ht Hn E];
    [rewrite set_push_wait_threshold_eq in E by done
    |rewrite size_eq in E by done|rewrite push_eq in E by done
    |rewrite pop_all_eq in E by done|rewrite push_wait_enter_eq in E by done
    |rewrite push_wait_resume_eq in E by done]; simplify_eq/=.

Lemma qinv_init : qinv queue_buffer_init.
Proof. done. Qed.

Lemma qstep_qinv q ev q' : qstep q ev q' → qinv q → qinv q'.
Proof.
  intros Hstep [Hf Hw Hp].
  qstep_cases Hstep.
  - done.
  - done.
  - split; simpl; [done| |done]. unfold pushed_cv. by case_match.
  - by split.
  - case_match; simplify_eq/=; split; simpl; try done. rewrite Hp. set_solver.
  - repeat case_match; simplify_eq/=; split; simpl; try done; rewrite Hp; set_solver.
Qed.

Lemma qtrace_qinv q evs q' : qtrace q evs q' → qinv q → qinv q'.
Proof. induction 1; eauto using qstep_qinv. Qed.

Create HintDb qb discriminated.
#[export] Hint Resolve qi_free qi_pushWaitCV qi_pushCV qinv_init qstep_qinv qtrace_qinv : qb.

Lemma pushed_snoc evs ev : pushed (evs ++ [ev]) = pushed evs ++ pushed_by ev.
Proof. unfold pushed. rewrite fmap_app, concat_app. simpl. by rewrite app_nil_r. Qed.
Lemma popped_snoc evs ev : popped (evs ++ [ev]) = popped evs ++ popped_by ev.
Proof. unfold popped. rewrite fmap_app, concat_app. simpl. by rewrite app_nil_r. Qed.

(** One step as a FIFO: the queue is what was there and what came, less what
    left from the front. *)
Lemma qstep_fifo q ev q' :
  queueMutex q = false → qstep q ev q' →
  queue q ++ pushed_by ev = popped_by ev ++ queue q'.
Proof.
  intros Hf Hstep.
  qstep_cases Hstep;
    repeat case_match; simplify_eq/=; by rewrite ?app_nil_r.
Qed.

(** ** The counter of new items

    A monitor that reads the events only: whether the threshold has been set,
    and the pushes since the last call of [push_wait] that returned [true]. *)
Definition resets (ev : event) : bool :=
  match ev with
  | EvWaitEnter _ (Returned true) | EvWaitResume _ _ (Returned true) => true
  | _ => false
  end.

Definition monitor (m : bool * Z) (ev : event) : bool * Z :=
  match ev with
  | EvSetThreshold _ => (true, m.2)
  | EvPush _ => (m.1, if m.1 then (m.2 + 1)%Z else m.2)
  | _ => (m.1, if resets ev then 0%Z else m.2)
  end.

Definition monitored (evs : list event) : bool * Z := foldl monitor (false, 0%Z) evs.

Lemma monitored_snoc evs ev : monitored (evs ++ [ev]) = monitor (monitored evs) ev.
Proof. unfold monitored. by rewrite foldl_app. Qed.

Lemma qstep_monitor q ev q' m :
  queueMutex q = false → qstep q ev q' →
  pushWaitEnabled q = m.1 → pushWaitNew q = wrap 64 m.2 →
  pushWaitEnabled q' = (monitor m ev).1 ∧ pushWaitNew q' = wrap 64 (monitor m ev).2.
Proof.
  intros Hf Hstep He Hn0. destruct m as [e n0]. simpl in He, Hn0.
  qstep_cases Hstep; try (repeat case_match; simplify_eq/=; done).
  unfold pushed_new. rewrite Hn0. split; [done|]. case_match; [apply wrap_add_l|done].
Qed.

(** ** An abstract buffer, for the clients of this file

    What the processing units and the outgoing thread rely on: a first-in
    first-out sequence, between critical sections. *)
Class AsyncBuffer (B : Type) := {
  ab_idle : B → Prop;
  ab_contents : B → list buffer_item;
  ab_push : buffer_item → M B buffer_item;
  ab_pop_all : M B (list buffer_item);
  ab_set_push_wait_threshold : Z → M B ();
  ab_set_spec n b : ab_idle b →
    ∃ b', ab_set_push_wait_threshold n b = (Ret tt, b')
        ∧ ab_idle b' ∧ ab_contents b' = ab_contents b;
  ab_push_spec it b : ab_idle b →
    ∃ b', ab_push it b = (Ret (buffer_item_move it).2, b')
        ∧ ab_idle b' ∧ ab_contents b' = ab_contents b ++ [it];
  ab_pop_all_spec b : ab_idle b →
    ∃ b', ab_pop_all b = (Ret (ab_contents b), b')
        ∧ ab_idle b' ∧ ab_contents b' = [];
}.

#[export] Program Instance queue_buffer_async : AsyncBuffer queue_buffer := {
  ab_idle := qinv;
  ab_contents := queue;
  ab_push := push;
  ab_pop_all := pop_all;
  ab_set_push_wait_threshold := set_push_wait_threshold;
}.
Next Obligation.
  intros n q Hq. rewrite set_push_wait_threshold_eq by eauto with qb. eexists; split_and!; [done| |done].
  eapply qstep_qinv; [|done]. eapply (qstep_set n). by rewrite set_push_wait_threshold_eq by eauto with qb.
Qed.
Next Obligation.
  intros it q Hq. rewrite push_eq by eauto with qb. eexists; split_and!; [done| |].
  - eapply qstep_qinv; [|done]. eapply (qstep_push it). by rewrite push_eq by eauto with qb.
  - by destruct it as [? ? []].
Qed.
Next Obligation.
  intros q Hq. rewrite pop_all_eq by eauto with qb. eexists; split_and!; [done| |done].
  eapply qstep_qinv; [|done]. eapply qstep_pop. by rewrite pop_all_eq by eauto with qb.
Qed.

(** ** Properties *)

(** C8. First in, first out: in every interleaving of the operations, the items
    pushed are the items popped so far, in order, followed by the items in the
    queue; nothing is lost, duplicated or reordered. *)
Theorem queue_buffer_fifo evs q :
  qtrace queue_buffer_init evs q → pushed evs = popped evs ++ queue q.
Proof.
  remember queue_buffer_init as q0 eqn:Hq0. intros Htr.
  assert (qinv q0) as Hi by (subst; apply qinv_init).
  induction Htr as [|q0 evs q1 ev q2 Htr IH Hstep]; subst; [done|].
  rewrite pushed_snoc, popped_snoc, IH by done.
  rewrite <-!app_assoc. f_equal. eapply qstep_fifo; [|done]. eauto with qb.
Qed.

(** The counter [pushWaitNew] is, modulo 2^64, the number of pushes since
    the last [push_wait] that returned [true], counted from the moment the
    threshold was set, in every execution. *)
Theorem push_wait_counter evs q :
  qtrace queue_buffer_init evs q →
  pushWaitEnabled q = (monitored evs).1 ∧ pushWaitNew q = wrap 64 (monitored evs).2.
Proof.
  remember queue_buffer_init as q0 eqn:Hq0. intros Htr.
  assert (qinv q0) as Hi by (subst; apply qinv_init).
  induction Htr as [|q0 evs q1 ev q2 Htr IH Hstep]; subst; [done|].
  destruct IH as [He Hn]; [done..|]. rewrite monitored_snoc.
  eapply (qstep_monitor q1); [eauto with qb|done..].
Qed.

(** C31. Lost wake-up: [push] notifies [pushWaitCV], but [push_wait] blocks on
    [pushCV]. In no execution does any thread block on the first or get notified
    on the second, so a blocked [push_wait] is never resumed by a push, only by
    its timeout or a spurious wake-up. *)
Theorem push_never_wakes evs q :
  qtrace queue_buffer_init evs q →
  cv_blocked (pushWaitCV q) = ∅ ∧ cv_notified (pushCV q) = ∅
  ∧ ∀ t r, EvWaitResume t Notified r ∉ evs.
Proof.
  remember queue_buffer_init as q0 eqn:Hq0. intros Htr.
  assert (qinv q0) as Hi by (subst; apply qinv_init).
  induction Htr as [|q0 evs q1 ev q2 Htr IH Hstep]; subst; [set_solver|].
  destruct IH as (Hb & Hn & Hw); [done..|].
  assert (qinv q2) as Hi2 by eauto with qb.
  split_and!; [by apply qi_pushWaitCV|by apply qi_pushCV|].
  intros t r [Hin|Hin%list_elem_of_singleton]%elem_of_app; [by eapply Hw|].
  destruct Hstep; simplify_eq. set_solver.
Qed.

(** [push_wait] returns [true] at once exactly when the queue or the counter
    has reached the threshold, and then resets the counter; otherwise it blocks
    on [pushCV] and changes neither. When its timeout expires it returns whether
    the counter has reached the threshold by then. *)
Theorem push_wait_results q t :
  qinv q →
  let now := bool_decide (pushWaitThreshold q ≤ Z.of_nat (length (queue q)))%Z
             || bool_decide (pushWaitThreshold q ≤ pushWaitNew q)%Z in
  ∃ q', push_wait_enter t q = (Ret (if now then Returned true else Blocked), q')
      ∧ qinv q' ∧ queue q' = queue q
      ∧ pushWaitNew q' = (if now then 0%Z else pushWaitNew q)
      ∧ (t ∈ cv_blocked (pushCV q') ↔ now = false ∨ t ∈ cv_blocked (pushCV q))
      ∧ ∀ q1, queueMutex q1 = false → pushWaitThreshold q1 = pushWaitThreshold q →
          (push_wait_resume t TimedOut q1).1
          = Ret (Returned (bool_decide (pushWaitThreshold q ≤ pushWaitNew q1)%Z)).
Proof.
  intros Hq now. rewrite push_wait_enter_eq by eauto with qb.
  change (enter_now q) with now. destruct Hq as [Hf Hw Hp].
  exists (if now then upd l_pushWaitNew 0%Z q else upd l_pushCV (cv_block t (pushCV q)) q).
  split_and!.
  - by destruct now.
  - destruct now; split; simpl; try done. rewrite Hp. set_solver.
  - by destruct now.
  - by destruct now.
  - destruct now; simpl; set_solver.
  - intros q1 Hf1 Ht. rewrite push_wait_resume_eq by done. unfold wait_pred. rewrite Ht.
    by case_bool_decide.
Qed.

(** ** A batch that is flushed leaves its count behind *)

Lemma qtrace_app q1 evs1 q2 evs2 q3 :
  qtrace q1 evs1 q2 → qtrace q2 evs2 q3 → qtrace q1 (evs1 ++ evs2) q3.
Proof.
  intros H1 H2. induction H2 as [|q2 evs2 q3 ev q4 Htr IH Hstep]; [by rewrite app_nil_r|].
  rewrite app_assoc. econstructor; eauto.
Qed.

Lemma qtrace_one q ev q' : qstep q ev q' → qtrace q [ev] q'.
Proof. intros. apply (qtrace_snoc q [] q); [constructor|done]. Qed.

Lemma push_many its q :
  qinv q → pushWaitEnabled q = true →
  (0 ≤ pushWaitNew q)%Z → (pushWaitNew q + Z.of_nat (length its) < 2 ^ 64)%Z →
  ∃ q', qtrace q (EvPush <$> its) q' ∧ qinv q' ∧ queue q' = queue q ++ its
      ∧ pushWaitNew q' = (pushWaitNew q + Z.of_nat (length its))%Z
      ∧ pushWaitThreshold q' = pushWaitThreshold q
      ∧ cv_blocked (pushCV q') = cv_blocked (pushCV q).
Proof.
  revert q; induction its as [|it its IH]; intros q Hq He Hn Hl.
  - exists q. split; [constructor|]. rewrite app_nil_r, Z.add_0_r. done.
  - simpl length in Hl. set (q1 := (push it q).2).
    assert (qstep q (EvPush it) q1) as Hstep
      by (unfold q1; econstructor; by rewrite push_eq by eauto with qb).
    assert (q1 = QueueBuffer (queue q ++ [it]) false (pushCV q) (pushed_cv q)
              (pushWaitEnabled q) (pushed_new q) (pushWaitThreshold q)) as Hq1
      by (unfold q1; by rewrite push_eq by eauto with qb).
    assert (pushed_new q = pushWaitNew q + 1)%Z as Hn1
      by (unfold pushed_new; rewrite He; apply wrap_small; lia).
    clearbody q1. destruct (IH q1 (qstep_qinv _ _ _ Hstep Hq)) as (q' & Htr & Hi & Hqu & Hnew & Hth & Hb);
      [by rewrite Hq1|rewrite Hq1; simpl; lia..|].
    exists q'. split; [by apply (qtrace_app q [_] q1); [apply qtrace_one|]|].
    rewrite Hq1 in Hqu, Hnew, Hth, Hb. simpl in *. rewrite <-app_assoc in Hqu.
    rewrite Hnew, Hn1. split_and!; try done. lia.
Qed.

(** [pop_all] leaves the counter alone: after a batch of at least the
    threshold has been pushed and popped without a successful [push_wait], the
    next [push_wait] returns [true] at once on the empty queue, with nothing
    pushed since. *)
Theorem push_wait_stale_count (its : list buffer_item) (threshold : Z) t :
  (0 < threshold ≤ Z.of_nat (length its))%Z → (Z.of_nat (length its) < 2 ^ 64)%Z →
  ∃ q, qtrace queue_buffer_init
         (EvSetThreshold threshold :: (EvPush <$> its)
            ++ [EvPopAll its; EvWaitEnter t (Returned true)]) q
     ∧ queue q = [].
Proof.
  intros Hth Hmax. set (q1 := (set_push_wait_threshold threshold queue_buffer_init).2).
  assert (qstep queue_buffer_init (EvSetThreshold threshold) q1) as H1 by by constructor.
  edestruct (push_many its q1) as (q2 & H2 & Hi2 & Hq2 & Hn2 & Ht2 & Hb2);
    [eauto with qb|done|done|simpl; lia|].
  simpl in Hq2, Hn2, Ht2, Hb2.
  assert (qstep q2 (EvPopAll its) (upd l_queue [] q2)) as H3
    by (constructor; rewrite <-Hq2; apply pop_all_eq; eauto with qb).
  assert (qstep (upd l_queue [] q2) (EvWaitEnter t (Returned true))
            (upd l_pushWaitNew 0%Z (upd l_queue [] q2))) as H4.
  { constructor; [simpl; rewrite Hb2; set_solver|].
    rewrite push_wait_enter_eq by (simpl; eauto with qb).
    unfold enter_now, wait_pred. simpl. rewrite Ht2, Hn2.
    rewrite (bool_decide_true (threshold ≤ 0 + _)%Z) by lia. by rewrite orb_true_r. }
  exists (upd l_pushWaitNew 0%Z (upd l_queue [] q2)). split; [|done].
  apply (qtrace_app _ [_] _ _ _ (qtrace_one _ _ _ H1)).
  apply (qtrace_app _ _ _ _ _ H2).
  apply (qtrace_app _ [_] _ [_] _ (qtrace_one _ _ _ H3) (qtrace_one _ _ _ H4)).
Qed.

(** ** Witnesses *)

Definition sample_item : buffer_item := BufferItem None 0 (Parameters None 0 false).

Lemma push_wait_stale_count_witness :
  (0 < 1 ≤ Z.of_nat (length [sample_item]))%Z
  ∧ ∃ q, qtrace queue_buffer_init
       (EvSetThreshold 1 :: (EvPush <$> [sample_item]) ++ [EvPopAll [sample_item]; EvWaitEnter 7 (Returned true)]) q
       ∧ queue q = [].
Proof.
  split; [simpl; lia|]. apply (push_wait_stale_count [sample_item] 1 7); simpl; lia.
Defined.

Lemma example_trace :
  qtrace queue_buffer_init [EvPush sample_item; EvPopAll [sample_item]]
    (upd l_queue [] (push sample_item queue_buffer_init).2).
Proof.
  apply (qtrace_app _ [EvPush sample_item] (push sample_item queue_buffer_init).2 [EvPopAll [sample_item]]);
    apply qtrace_one; econstructor; reflexivity.
Qed.

Lemma queue_buffer_fifo_witness :
  pushed [EvPush sample_item; EvPopAll [sample_item]] = [sample_item]
  ∧ pushed [EvPush sample_item; EvPopAll [sample_item]] = popped [EvPush sample_item; EvPopAll [sample_item]] ++ [].
Proof. split; [reflexivity|]. exact (queue_buffer_fifo _ _ example_trace). Defined.

Lemma push_wait_counter_witness :
  monitored [EvPush sample_item; EvPopAll [sample_item]] = (false, 0%Z)
  ∧ false = (monitored [EvPush sample_item; EvPopAll [sample_item]]).1
  ∧ 0%Z = wrap 64 (monitored [EvPush sample_item; EvPopAll [sample_item]]).2.
Proof. split; [reflexivity|]. exact (push_wait_counter _ _ example_trace). Defined.

Lemma push_never_wakes_witness :
  cv_blocked (pushWaitCV queue_buffer_init) = ∅ ∧ cv_notified (pushCV queue_buffer_init) = ∅
  ∧ ∀ t r, EvWaitResume t Notified r ∉ [EvPush sample_item; EvPopAll [sample_item]].
Proof. exact (push_never_wakes _ _ example_trace). Defined.

Lemma push_wait_results_witness :
  ∃ q', push_wait_enter 0 queue_buffer_init = (Ret (Returned true), q') ∧ qinv q'.
Proof.
  destruct (push_wait_results queue_buffer_init 0 qinv_init) as (q' & H1 & H2 & _).
  exists q'. split; [exact H1|exact H2].
Defined.
