(* ===== verification/Channel.v ===== *)
(** * The buffer as a channel (buffer/queue_buffer.hpp, queue_buffer.cpp)

    The contract of [queue_buffer] without its mutex and condition variables: a
    channel of items with a count of the new ones and the set of threads that
    wait, as a function that accepts or refuses each event. The theorem says that
    the events of the buffer, in every interleaving, are exactly those the
    channel accepts; so the channel can stand for the buffer, and can be run. *)

From S2P Require Import Prelude BufferItem QueueBuffer.

Record channel := Channel {
  ch_items : list buffer_item;
  ch_enabled : bool;
  ch_new : Z;
  ch_threshold : Z;
  ch_waiting : gset tid;
}.

Definition channel_init : channel := Channel [] false 0 0 ∅.

(** Enough new items since the last wait that succeeded. *)
Definition ch_ready (c : channel) : bool := bool_decide (ch_threshold c ≤ ch_new c)%Z.

(** The outcomes of a wait, with the state each leaves. *)
Definition ch_succeed (c : channel) (waiting : gset tid) : channel :=
  Channel (ch_items c) (ch_enabled c) 0 (ch_threshold c) waiting.
Definition ch_wait (c : channel) (waiting : gset tid) : channel :=
  Channel (ch_items c) (ch_enabled c) (ch_new c) (ch_threshold c) waiting.

Definition ch_enter (t : tid) (c : channel) : wait_result * channel :=
  if bool_decide (ch_threshold c ≤ Z.of_nat (length (ch_items c)))%Z || ch_ready c
  then (Returned true, ch_succeed c (ch_waiting c))
  else (Blocked, ch_wait c ({[t]} ∪ ch_waiting c)).

(** No wait is ever ended by a notification. *)
Definition ch_resume (t : tid) (w : wakeup) (c : channel) : option (wait_result * channel) :=
  match w with
  | Notified => None
  | TimedOut =>
      let left := ch_waiting c ∖ {[t]} in
      Some (if ch_ready c then (Returned true, ch_succeed c left) else (Returned false, ch_wait c left))
  | Spurious =>
      Some (if ch_ready c then (Returned true, ch_succeed c (ch_waiting c ∖ {[t]})) else (Blocked, c))
  end.

#[export] Instance wakeup_eq_dec : EqDecision wakeup.
Proof. solve_decision. Defined.
#[export] Instance wait_result_eq_dec : EqDecision wait_result.
Proof. solve_decision. Defined.

(** The channel after an event, if it can happen. *)
Definition ch_step (c : channel) (ev : event) : option channel :=
  match ev with
  | EvSetThreshold n => Some (Channel (ch_items c) true (ch_new c) n (ch_waiting c))
  | EvSize n => if decide (n = length (ch_items c)) then Some c else None
  | EvPush it =>
      Some (Channel (ch_items c ++ [it]) (ch_enabled c)
        (if ch_enabled c then wrap 64 (ch_new c + 1) else ch_new c) (ch_threshold c) (ch_waiting c))
  | EvPopAll its =>
      if decide (its = ch_items c)
      then Some (Channel [] (ch_enabled c) (ch_new c) (ch_threshold c) (ch_waiting c)) else None
  | EvWaitEnter t r =>
      if decide (t ∉ ch_waiting c) then
        let o := ch_enter t c in if decide (r = o.1) then Some o.2 else None
      else None
  | EvWaitResume t w r =>
      if decide (t ∈ ch_waiting c) then
        o ← ch_resume t w c; if decide (r = o.1) then Some o.2 else None
      else None
  end.

Fixpoint ch_run (c : channel) (evs : list event) : option channel :=
  match evs with
  | [] => Some c
  | ev :: evs' => c' ← ch_step c ev; ch_run c' evs'
  end.

(** The channel a buffer is. *)
Definition channel_of (q : queue_buffer) : channel :=
  Channel (queue q) (pushWaitEnabled q) (pushWaitNew q) (pushWaitThreshold q) (cv_blocked (pushCV q)).

(** ** One step *)

Lemma block_again t (cv : condvar) :
  t ∈ cv_blocked cv → cv_blocked (cv_block t (cv_leave t cv)) = cv_blocked cv.
Proof. intros Ht. simpl. symmetry. apply union_difference_L. set_solver. Qed.

Lemma enter_agrees t q :
  queueMutex q = false →
  ∃ q', push_wait_enter t q = (Ret (ch_enter t (channel_of q)).1, q')
      ∧ channel_of q' = (ch_enter t (channel_of q)).2.
Proof.
  intros Hf. rewrite push_wait_enter_eq by done. unfold ch_enter.
  change (bool_decide _ || _) with (enter_now q). by destruct (enter_now q); eexists.
Qed.

Lemma resume_agrees t w q :
  queueMutex q = false → t ∈ cv_blocked (pushCV q) → w ≠ Notified →
  ∃ q' o, ch_resume t w (channel_of q) = Some o ∧ push_wait_resume t w q = (Ret o.1, q')
        ∧ channel_of q' = o.2.
Proof.
  intros Hf Ht Hw. rewrite push_wait_resume_eq by done. unfold ch_resume.
  change (ch_ready (channel_of q)) with (wait_pred q).
  destruct w; [done|..]; destruct (wait_pred q); eexists _, _;
    (split; [reflexivity|split; [reflexivity|]]); try done.
  unfold channel_of. simpl queue. simpl pushCV. by rewrite block_again.
Qed.

Lemma step_accepted q ev q' :
  qinv q → qstep q ev q' → ch_step (channel_of q) ev = Some (channel_of q').
Proof.
  intros [Hf Hw Hp] Hstep.
  destruct Hstep as [n q q' E|n q q' E|it r q q' E|its q q' E|t r q q' Ht E|t w r q q' Ht Hn E]; simpl.
  - rewrite set_push_wait_threshold_eq in E by done. by simplify_eq.
  - rewrite size_eq in E by done. simplify_eq. by rewrite decide_True.
  - rewrite push_eq in E by done. by simplify_eq.
  - rewrite pop_all_eq in E by done. simplify_eq. by rewrite decide_True.
  - rewrite decide_True by done. destruct (enter_agrees t q Hf) as (q2 & E2 & <-).
    rewrite E2 in E. simplify_eq. by rewrite decide_True.
  - rewrite decide_True by done. assert (w ≠ Notified) as Hne.
    { intros ->. specialize (Hn eq_refl). rewrite Hp in Hn. set_solver. }
    destruct (resume_agrees t w q Hf Ht Hne) as (q2 & o & -> & E2 & Hc).
    rewrite E2 in E. simplify_eq. simpl. by rewrite decide_True, Hc.
Qed.

Lemma accepted_step q ev c :
  qinv q → ch_step (channel_of q) ev = Some c → ∃ q', qstep q ev q' ∧ channel_of q' = c.
Proof.
  intros [Hf Hw Hp]. destruct ev as [n|n|it|its|t r|t w r]; simpl.
  - intros [= <-]. eexists. split; [constructor; by rewrite set_push_wait_threshold_eq|done].
  - case_decide; [|done]. intros [= <-]. subst n. exists q. split; [constructor; by rewrite size_eq|done].
  - intros [= <-]. eexists. split; [econstructor; by rewrite push_eq|done].
  - case_decide; [|done]. intros [= <-]. subst its. eexists. split; [constructor; by rewrite pop_all_eq|done].
  - case_decide as Ht; [|done]. case_decide; [|done]. intros [= <-]. subst r.
    destruct (enter_agrees t q Hf) as (q' & E & <-). exists q'. split; [by constructor|done].
  - case_decide as Ht; [|done]. destruct (decide (w = Notified)) as [->|Hne]; [done|].
    destruct (resume_agrees t w q Hf Ht Hne) as (q' & o & Hr & E & Hc). rewrite Hr. simpl.
    case_decide; [|done]. intros [= <-]. subst r. exists q'. split; [by constructor|done].
Qed.

(** ** Executions *)

Lemma ch_run_app c evs1 evs2 : ch_run c (evs1 ++ evs2) = (c' ← ch_run c evs1; ch_run c' evs2).
Proof.
  revert c. induction evs1 as [|ev evs1 IH]; intros c; simpl; [done|].
  destruct (ch_step c ev); simpl; [apply IH|done].
Qed.

Lemma trace_accepted q evs q' :
  qinv q → qtrace q evs q' → ch_run (channel_of q) evs = Some (channel_of q').
Proof.
  intros Hq. induction 1 as [q|q evs q1 ev q2 Htr IH Hstep]; [done|].
  rewrite ch_run_app, IH by done. simpl. by rewrite (step_accepted q1 ev q2) by eauto with qb.
Qed.

Lemma accepted_trace q evs c :
  qinv q → ch_run (channel_of q) evs = Some c → ∃ q', qtrace q evs q' ∧ channel_of q' = c.
Proof.
  intros Hq. revert c. induction evs as [|ev evs IH] using rev_ind; intros c.
  - intros [= <-]. exists q. split; [constructor|done].
  - rewrite ch_run_app. destruct (ch_run (channel_of q) evs) as [c1|]; simpl; [|done].
    destruct (IH c1 eq_refl) as (q1 & Htr & <-). intros Hstep.
    destruct (ch_step (channel_of q1) ev) as [c2|] eqn:Hc; simplify_eq/=.
    destruct (accepted_step q1 ev c) as (q2 & Hq2 & <-); [by eauto with qb|done|].
    exists q2. split; [by econstructor|done].
Qed.

(** C9. The buffer is the channel: a sequence of events is an execution of the
    buffer, from any state between critical sections, exactly if the channel
    accepts it, and then both are in the same state; in particular every
    execution of a new buffer can be checked by running the channel. In the
    channel a push does not touch the waiting threads, and a wait ends in
    success, or in failure at its timeout only. *)
Theorem buffer_is_channel q evs c :
  qinv q →
  (ch_run (channel_of q) evs = Some c ↔ ∃ q', qtrace q evs q' ∧ channel_of q' = c)
  ∧ channel_of queue_buffer_init = channel_init.
Proof.
  intros Hq. split; [|done]. split; [by apply accepted_trace|].
  intros (q' & Htr & <-). by apply trace_accepted.
Qed.

(** ** Witness: two threads, of which one waits until its timeout *)

Definition text_item : buffer_item := BufferItem None 0 (Parameters None 0 false).

Definition sample_events : list event :=
  [EvSetThreshold 2; EvWaitEnter 0 Blocked; EvPush text_item; EvWaitResume 0 Spurious Blocked; EvPush text_item;
   EvWaitResume 0 TimedOut (Returned true); EvSize 2; EvPopAll [text_item; text_item]; EvWaitEnter 1 Blocked].

Lemma buffer_is_channel_witness :
  ∃ q', qtrace queue_buffer_init sample_events q' ∧ channel_of q' = Channel [] true 0 2 {[1]}.
Proof.
  destruct (buffer_is_channel queue_buffer_init sample_events (Channel [] true 0 2 {[1]}) qinv_init) as [H _].
  apply H. vm_compute. reflexivity.
Defined.
