(* ===== verification/Json.v ===== *)
(** * The JSON library as the program uses it

    RapidJSON is a dependency (tpls/rapidjson, a submodule): its values, its
    parser and its writer are parameters of the model. The class states the
    documented behaviour the program relies on. [RAPIDJSON_ASSERT] guards every
    typed getter and every subscript; where it would fail the getters answer
    [None], and the operations of the program have undefined behaviour. *)

From S2P Require Import Prelude.

Class RapidJSON := {
  Value : Type;
  Double : Type;
  (** Conversion of a [double] to [float]. *)
  double_to_float : Double → Double;

  (** Getters. [Members]: the members of an object in order; [Elements]: of an
      array; [GetString]: the characters of a string before its terminator. *)
  Members : Value → option (list (list ascii * Value));
  Elements : Value → option (list Value);
  GetString : Value → option (list ascii);
  GetBool : Value → option bool;
  GetInt : Value → option Z;
  GetUint : Value → option Z;
  GetInt64 : Value → option Z;
  GetUint64 : Value → option Z;
  GetDouble : Value → option Double;

  (** Constructors. *)
  ObjectValue : list (list ascii * Value) → Value;
  ArrayValue : list Value → Value;
  StringValue : list ascii → Value;
  BoolValue : bool → Value;
  NumValue : Z → Value;
  (** What is left of a document that has been moved from. *)
  NullValue : Value;

  (** [Document::Parse] of the characters of a text and [Writer] over a value. *)
  Parse : list ascii → Value;
  Write : Value → list ascii;

  Members_Object ms : Members (ObjectValue ms) = Some ms;
  Elements_Array vs : Elements (ArrayValue vs) = Some vs;
  Members_Null : Members NullValue = None;
  GetString_String cs : GetString (StringValue cs) = Some cs;
  GetBool_Bool b : GetBool (BoolValue b) = Some b;
  GetInt_Num n : (- 2 ^ 31 <= n < 2 ^ 31)%Z → GetInt (NumValue n) = Some n;
  GetUint_Num n : (0 <= n < 2 ^ 32)%Z → GetUint (NumValue n) = Some n;
  GetInt64_Num n : (- 2 ^ 63 <= n < 2 ^ 63)%Z → GetInt64 (NumValue n) = Some n;
  GetUint64_Num n : (0 <= n < 2 ^ 64)%Z → GetUint64 (NumValue n) = Some n;
  GetInt_bounds v n : GetInt v = Some n → (- 2 ^ 31 <= n < 2 ^ 31)%Z;
  GetUint_bounds v n : GetUint v = Some n → (0 <= n < 2 ^ 32)%Z;
  GetInt64_bounds v n : GetInt64 v = Some n → (- 2 ^ 63 <= n < 2 ^ 63)%Z;
  GetUint64_bounds v n : GetUint64 v = Some n → (0 <= n < 2 ^ 64)%Z;

  (** Values without floating-point numbers are written and read back exactly;
      the writer escapes control characters, the terminator among them. *)
  exact_value : Value → Prop;
  exact_Object ms : Forall (λ m, exact_value m.2) ms → exact_value (ObjectValue ms);
  exact_Array vs : Forall exact_value vs → exact_value (ArrayValue vs);
  exact_String cs : exact_value (StringValue cs);
  exact_Bool b : exact_value (BoolValue b);
  exact_Num n : (- 2 ^ 63 <= n < 2 ^ 64)%Z → exact_value (NumValue n);
  Parse_Write v : exact_value v → Parse (Write v) = v;
  Write_nul_free v : NUL ∉ Write v;
}.

Create HintDb json discriminated.
#[export] Hint Resolve exact_Object exact_Array exact_String exact_Bool exact_Num
  Forall_cons_2 Forall_nil_2 : json.

Section derived.
Context `{RapidJSON}.

(** A failed [RAPIDJSON_ASSERT]. *)
Definition json_get {A} (o : option A) : outcome A :=
  match o with
  | Some a => Ret a
  | None => Fatal Undefined
  end.

(** [FindMember]: the first member of that name. *)
Fixpoint find_member (name : list ascii) (ms : list (list ascii * Value)) : option Value :=
  match ms with
  | [] => None
  | (k, v) :: ms' => if decide (k = name) then Some v else find_member name ms'
  end.

(** [v.HasMember(name)] and [v[name]]. *)
Definition HasMember (v : Value) (name : string) : outcome bool :=
  out_bind (json_get (Members v)) (λ ms, Ret (bool_decide (is_Some (find_member (chars name) ms)))).
Definition member (v : Value) (name : string) : outcome Value :=
  out_bind (json_get (Members v)) (λ ms, json_get (find_member (chars name) ms)).

(** [v.Size()] and [v[i]]. *)
Definition Size (v : Value) : outcome nat :=
  out_bind (json_get (Elements v)) (λ vs, Ret (length vs)).
Definition element (v : Value) (i : nat) : outcome Value :=
  out_bind (json_get (Elements v)) (λ vs, json_get (vs !! i)).

(** [v.AddMember(name, x, allocator)] and [v.PushBack(x, allocator)]. *)
Definition AddMember (v : Value) (name : string) (x : Value) : outcome Value :=
  out_bind (json_get (Members v)) (λ ms, Ret (ObjectValue (ms ++ [(chars name, x)]))).
Definition PushBack (v x : Value) : outcome Value :=
  out_bind (json_get (Elements v)) (λ vs, Ret (ArrayValue (vs ++ [x]))).

(** What a pointer from [GetString] denotes as a C string. *)
Definition json_cstring (cs : list ascii) : string :=
  default EmptyString (c_string (cs ++ [NUL])).

(** [T a[n]; for(i = 0; i < n; i++) a[i] = v[i].Get()], with [v] looked up
    again in every iteration by [look]. *)
Definition json_array {A} (look : outcome Value) (conv : Value → outcome A) : outcome (list A) :=
  out_bind look (λ v, out_bind (Size v) (λ size,
    out_map (λ i, out_bind look (λ v, out_bind (element v i) conv)) (seq 0 size))).

(** ** Typed readings of a value, one for each C++ type *)

Definition as_cstr (v : Value) : outcome (list ascii) :=
  out_bind (json_get (GetString v)) (λ cs, Ret (cs ++ [NUL])).
Definition as_bool (v : Value) : outcome bool := json_get (GetBool v).
Definition as_char (v : Value) : outcome ascii :=
  out_bind (as_cstr v) (λ buf, json_get (head buf)).
Definition as_ushort (v : Value) : outcome Z :=
  out_bind (json_get (GetUint v)) (λ n, Ret (wrap 16 n)).
Definition as_short (v : Value) : outcome Z :=
  out_bind (json_get (GetInt v)) (λ n, Ret (swrap 16 n)).
Definition as_uint (v : Value) : outcome Z := json_get (GetUint v).
Definition as_int (v : Value) : outcome Z := json_get (GetInt v).
Definition as_ulong (v : Value) : outcome Z := json_get (GetUint64 v).
Definition as_long (v : Value) : outcome Z := json_get (GetInt64 v).
Definition as_float (v : Value) : outcome Double :=
  out_bind (json_get (GetDouble v)) (λ d, Ret (double_to_float d)).
Definition as_double (v : Value) : outcome Double := json_get (GetDouble v).

Lemma json_cstring_nul_free s : nul_free s → json_cstring (chars s) = s.
Proof. intros Hs. unfold json_cstring. by rewrite c_string_app. Qed.

Lemma member_Object name ms :
  member (ObjectValue ms) name = json_get (find_member (chars name) ms).
Proof. unfold member. by rewrite Members_Object. Qed.

Lemma HasMember_Object name ms :
  HasMember (ObjectValue ms) name = Ret (bool_decide (is_Some (find_member (chars name) ms))).
Proof. unfold HasMember. by rewrite Members_Object. Qed.

(** Inside the range the narrow readings lose nothing. *)
Lemma as_ushort_small n : (0 <= n < 2 ^ 16)%Z → as_ushort (NumValue n) = Ret n.
Proof. intros Hn. unfold as_ushort. rewrite GetUint_Num by lia. simpl. by rewrite wrap_small. Qed.

Lemma as_ushort_bounds v n : as_ushort v = Ret n → (0 <= n < 2 ^ 16)%Z.
Proof.
  unfold as_ushort. destruct (GetUint v); simpl; [|done]. intros [= <-].
  apply wrap_bounds. lia.
Qed.

Lemma as_short_bounds v n : as_short v = Ret n → (- 2 ^ 15 <= n < 2 ^ 15)%Z.
Proof.
  unfold as_short. destruct (GetInt v); simpl; [|done]. intros [= <-].
  apply (swrap_bounds 16). lia.
Qed.

(** The loop over an array value reads its elements in order. *)
Lemma out_map_element {A} (conv : Value → outcome A) v vs k :
  Elements v = Some (k ++ vs) →
  out_map (λ i, out_bind (element v i) conv) (seq (length k) (length vs)) = out_map conv vs.
Proof.
  revert k; induction vs as [|x vs IH]; intros k Hv; [done|].
  simpl. unfold element at 1. rewrite Hv. simpl.
  rewrite lookup_app_r, Nat.sub_diag by lia. simpl.
  replace (S (length k)) with (length (k ++ [x])) by (rewrite length_app; simpl; lia).
  rewrite (IH (k ++ [x])) by (by rewrite <-app_assoc). done.
Qed.

Lemma json_array_elements {A} look (conv : Value → outcome A) v vs :
  look = Ret v → Elements v = Some vs → json_array look conv = out_map conv vs.
Proof.
  intros -> Hv. unfold json_array, Size. simpl. rewrite Hv. simpl.
  by apply (out_map_element conv v vs []).
Qed.

Lemma json_array_Ret_inv {A} look (conv : Value → outcome A) ys :
  json_array look conv = Ret ys →
  ∃ v vs, look = Ret v ∧ Elements v = Some vs ∧ out_map conv vs = Ret ys.
Proof.
  intros Hj. destruct look as [v| |] eqn:El; [|done..].
  destruct (Elements v) as [vs|] eqn:Ev.
  - exists v, vs. by rewrite (json_array_elements (Ret v) conv v vs) in Hj.
  - unfold json_array, Size in Hj. simpl in Hj. rewrite Ev in Hj. done.
Qed.
End derived.

(** ** A concrete library, for the witnesses

    Values are trees; the text of a value is the binary digits of its code. *)
Module ReferenceJSON.
Inductive json :=
| JObject (ms : list (list ascii * json))
| JArray (vs : list json)
| JString (cs : list ascii)
| JBool (b : bool)
| JNum (n : Z)
| JDouble (n : Z)
| JNull.

Fixpoint bits (p : positive) : list ascii :=
  match p with
  | xH => []
  | xO p' => "0"%char :: bits p'
  | xI p' => "1"%char :: bits p'
  end.

Fixpoint unbits (l : list ascii) : positive :=
  match l with
  | [] => xH
  | c :: l' => if decide (c = "1"%char) then xI (unbits l') else xO (unbits l')
  end.

Lemma unbits_bits p : unbits (bits p) = p.
Proof. induction p; simpl; by f_equal. Qed.

Lemma bits_nul p : NUL ∉ bits p.
Proof. induction p; simpl; rewrite ?not_elem_of_cons; [|done..|set_solver]; by split. Qed.

(** Leaves: strings, booleans, numbers, null; nodes: objects (names as leaves)
    and arrays. *)
Abbreviation leaf := (list ascii + (bool + (Z + (Z + ()))))%type.

Fixpoint to_tree (v : json) : gen_tree leaf :=
  match v with
  | JObject ms => GenNode 0 (map (λ m, GenNode 2 [GenLeaf (inl m.1); to_tree m.2]) ms)
  | JArray vs => GenNode 1 (map to_tree vs)
  | JString cs => GenLeaf (inl cs)
  | JBool b => GenLeaf (inr (inl b))
  | JNum n => GenLeaf (inr (inr (inl n)))
  | JDouble n => GenLeaf (inr (inr (inr (inl n))))
  | JNull => GenLeaf (inr (inr (inr (inr tt))))
  end.

Fixpoint of_tree (t : gen_tree leaf) : json :=
  match t with
  | GenLeaf (inl cs) => JString cs
  | GenLeaf (inr (inl b)) => JBool b
  | GenLeaf (inr (inr (inl n))) => JNum n
  | GenLeaf (inr (inr (inr (inl n)))) => JDouble n
  | GenLeaf (inr (inr (inr (inr tt)))) => JNull
  | GenNode 0 ts =>
      JObject (map (λ t, match t with
                         | GenNode _ [GenLeaf (inl k); t'] => (k, of_tree t')
                         | _ => ([], JNull)
                         end) ts)
  | GenNode _ ts => JArray (map of_tree ts)
  end.

Fixpoint of_to_tree (v : json) : of_tree (to_tree v) = v.
Proof.
  destruct v as [ms|vs|cs|b|n|n|]; simpl; try reflexivity.
  - f_equal. induction ms as [|[k v] ms IH]; simpl; [reflexivity|].
    f_equal; [|exact IH]. by rewrite of_to_tree.
  - f_equal. induction vs as [|v vs IH]; simpl; [reflexivity|].
    f_equal; [apply of_to_tree|exact IH].
Defined.

Definition write (v : json) : list ascii := bits (encode (to_tree v)).
Definition parse (l : list ascii) : json :=
  match decode (unbits l) with
  | Some t => of_tree t
  | None => JNull
  end.

Definition get_num (lo hi : Z) (v : json) : option Z :=
  match v with
  | JNum n => if decide (lo <= n < hi)%Z then Some n else None
  | _ => None
  end.

Lemma get_num_Num lo hi n : (lo <= n < hi)%Z → get_num lo hi (JNum n) = Some n.
Proof. intros. simpl. by rewrite decide_True. Qed.

Lemma get_num_bounds lo hi v n : get_num lo hi v = Some n → (lo <= n < hi)%Z.
Proof. destruct v; simpl; try done. case_decide; [by intros [= <-]|done]. Qed.
End ReferenceJSON.

#[export] Program Instance reference_json : RapidJSON := {|
  Value := ReferenceJSON.json;
  Double := Z;
  double_to_float d := d;
  Members v := match v with ReferenceJSON.JObject ms => Some ms | _ => None end;
  Elements v := match v with ReferenceJSON.JArray vs => Some vs | _ => None end;
  GetString v := match v with ReferenceJSON.JString cs => Some cs | _ => None end;
  GetBool v := match v with ReferenceJSON.JBool b => Some b | _ => None end;
  GetInt := ReferenceJSON.get_num (- 2 ^ 31) (2 ^ 31);
  GetUint := ReferenceJSON.get_num 0 (2 ^ 32);
  GetInt64 := ReferenceJSON.get_num (- 2 ^ 63) (2 ^ 63);
  GetUint64 := ReferenceJSON.get_num 0 (2 ^ 64);
  GetDouble v := match v with ReferenceJSON.JDouble n => Some n | _ => None end;
  ObjectValue := ReferenceJSON.JObject;
  ArrayValue := ReferenceJSON.JArray;
  StringValue := ReferenceJSON.JString;
  BoolValue := ReferenceJSON.JBool;
  NumValue := ReferenceJSON.JNum;
  NullValue := ReferenceJSON.JNull;
  Parse := ReferenceJSON.parse;
  Write := ReferenceJSON.write;
  exact_value v := True;
|}.
Solve All Obligations with
  intros; try first [done | by apply ReferenceJSON.get_num_Num
                     | by eapply ReferenceJSON.get_num_bounds; eassumption].
Next Obligation.
  intros v _. unfold ReferenceJSON.parse, ReferenceJSON.write.
  rewrite ReferenceJSON.unbits_bits, decode_encode. apply ReferenceJSON.of_to_tree.
Qed.
Next Obligation. intros v. apply ReferenceJSON.bits_nul. Qed.
