(* ===== verification/MiddlewareMessages.v ===== *)
(** * Requests of the client and responses to it (net/middleware/request.hpp,
    net/middleware/response.hpp)

    A request is decoded from the JSON text of a zmq message; a response is
    encoded when it is constructed. *)

From S2P Require Import Prelude Actions Json.

Section messages.
Context `{RapidJSON}.

(** ** [struct request] *)

(** The action member has no value until a constructor assigns it. *)
Record request := Request {
  _dom : Value;
  _action : option actions_t;
}.

(** The decoding constructor: [input] points to the characters of the buffer. *)
Definition request_ctor (input : list ascii) : outcome request :=
  out_bind (json_get (c_string input)) (λ text,
  let dom := Parse (chars text) in
  out_bind (HasMember dom "action") (λ has,
  if has : bool then
    out_bind (member dom "action") (λ v,
    out_bind (json_get (GetString v)) (λ cs,
    out_bind (str_map (json_cstring cs)) (λ a,
    Ret (Request dom (Some a)))))
  else Throw (runtime_error err_msg._malinpt))).

(** The move constructor and the move assignment move the document only. *)
Definition request_move (old : request) : request := Request (_dom old) None.
Definition request_move_assign (self old : request) : request :=
  Request (_dom old) (_action self).

Definition method (r : request) : outcome string :=
  out_bind (member (_dom r) "method") (λ v,
  out_bind (json_get (GetString v)) (λ cs, Ret (json_cstring cs))).

Definition action (r : request) : outcome actions_t := json_get (_action r).

(** [_dom["parameters"][idx]] *)
Definition param (r : request) (idx : nat) : outcome Value :=
  out_bind (member (_dom r) "parameters") (λ ps, element ps idx).

Definition parameter_str_size (r : request) (idx : nat) : outcome nat :=
  out_bind (param r idx) (λ v,
  out_bind (json_get (GetString v)) (λ cs, Ret (length cs))).

Definition parameter_array_size (r : request) (idx : nat) : outcome nat :=
  out_bind (param r idx) Size.

(** The specialisations of [parameter<T>(idx)]. *)
Definition parameter_cstr (r : request) (idx : nat) : outcome (list ascii) :=
  out_bind (param r idx) as_cstr.
Definition parameter_cstr_array (r : request) (idx : nat) : outcome (list (list ascii)) :=
  json_array (param r idx) as_cstr.
Definition parameter_bool (r : request) (idx : nat) : outcome bool :=
  out_bind (param r idx) as_bool.
Definition parameter_bool_array (r : request) (idx : nat) : outcome (list bool) :=
  json_array (param r idx) as_bool.
Definition parameter_char (r : request) (idx : nat) : outcome ascii :=
  out_bind (param r idx) as_char.
Definition parameter_ushort (r : request) (idx : nat) : outcome Z :=
  out_bind (param r idx) as_ushort.
Definition parameter_ushort_array (r : request) (idx : nat) : outcome (list Z) :=
  json_array (param r idx) as_ushort.
Definition parameter_short (r : request) (idx : nat) : outcome Z :=
  out_bind (param r idx) as_short.
Definition parameter_short_array (r : request) (idx : nat) : outcome (list Z) :=
  json_array (param r idx) as_short.
Definition parameter_uint (r : request) (idx : nat) : outcome Z :=
  out_bind (param r idx) as_uint.
Definition parameter_uint_array (r : request) (idx : nat) : outcome (list Z) :=
  json_array (param r idx) as_uint.
Definition parameter_int (r : request) (idx : nat) : outcome Z :=
  out_bind (param r idx) as_int.
Definition parameter_int_array (r : request) (idx : nat) : outcome (list Z) :=
  json_array (param r idx) as_int.
Definition parameter_ulong (r : request) (idx : nat) : outcome Z :=
  out_bind (param r idx) as_ulong.
Definition parameter_ulong_array (r : request) (idx : nat) : outcome (list Z) :=
  json_array (param r idx) as_ulong.
Definition parameter_long (r : request) (idx : nat) : outcome Z :=
  out_bind (param r idx) as_long.
Definition parameter_long_array (r : request) (idx : nat) : outcome (list Z) :=
  json_array (param r idx) as_long.
Definition parameter_float (r : request) (idx : nat) : outcome Double :=
  out_bind (param r idx) as_float.
Definition parameter_float_array (r : request) (idx : nat) : outcome (list Double) :=
  json_array (param r idx) as_float.
Definition parameter_double (r : request) (idx : nat) : outcome Double :=
  out_bind (param r idx) as_double.
Definition parameter_double_array (r : request) (idx : nat) : outcome (list Double) :=
  json_array (param r idx) as_double.

(** ** [struct response] *)

(** The JSON text. *)
Record response := Response { _jbuffer : list ascii }.

Definition dom_setup : Value := ObjectValue [].
Definition dom_error (dom : Value) (error : bool) : outcome Value :=
  AddMember dom "error" (BoolValue error).
Definition dom_json (dom : Value) : response := Response (Write dom).

(** The body the constructors share. *)
Definition response_of (result : Value) (error : bool) : outcome response :=
  out_bind (AddMember dom_setup "result" result) (λ dom,
  out_bind (dom_error dom error) (λ dom, Ret (dom_json dom))).

(** [response(const char*, bool)]; [None] is the null pointer. *)
Definition response_cstr (result : option string) (error : bool) : outcome response :=
  match result with
  | None => Throw (invalid_argument err_msg._nllpntr)
  | Some s => response_of (StringValue (chars s)) error
  end.
Definition response_bool (result : bool) (error : bool) : outcome response :=
  response_of (BoolValue result) error.
Definition response_int (result : Z) (error : bool) : outcome response :=
  response_of (NumValue result) error.
Definition response_uint (result : Z) (error : bool) : outcome response :=
  response_of (NumValue result) error.
Definition response_long (result : Z) (error : bool) : outcome response :=
  response_of (NumValue result) error.
Definition response_ulong (result : Z) (error : bool) : outcome response :=
  response_of (NumValue result) error.

Definition json (r : response) : list ascii := _jbuffer r.
Definition response_size (r : response) : nat := length (_jbuffer r).

(** The moves: the target and what is left of the source. *)
Definition response_move (old : response) : response * response := (Response (_jbuffer old), Response []).
Definition response_move_assign (self old : response) : response * response :=
  (Response (_jbuffer old), Response []).

(** ** The requests a client can send *)

(** A well-formed request: its members in the order a client may choose. *)
Definition request_value (a : actions_t) (m : string) (ps : list Value) : Value :=
  ObjectValue [(chars "action", StringValue (chars (action_name a)));
               (chars "method", StringValue (chars m));
               (chars "parameters", ArrayValue ps)].

Lemma request_value_exact a m ps :
  Forall exact_value ps → exact_value (request_value a m ps).
Proof. unfold request_value. eauto 10 with json. Qed.

Lemma action_name_nul_free a : nul_free (action_name a).
Proof. destruct a; apply (bool_decide_unpack _); by vm_compute. Qed.

(** Decoding on every branch, by the value the text denotes. *)
Lemma request_ctor_value v :
  exact_value v →
  request_ctor (Write v ++ [NUL]) =
    out_bind (HasMember v "action") (λ has,
    if has : bool then
      out_bind (member v "action") (λ x,
      out_bind (json_get (GetString x)) (λ cs,
      out_bind (str_map (json_cstring cs)) (λ a, Ret (Request v (Some a)))))
    else Throw (runtime_error err_msg._malinpt)).
Proof.
  intros Hv. unfold request_ctor.
  assert (chars (string_of_list_ascii (Write v)) = Write v) as Hc
    by apply list_ascii_of_string_of_list_ascii.
  rewrite <-Hc at 1. rewrite c_string_app.
  - simpl. by rewrite Hc, Parse_Write.
  - unfold nul_free. rewrite Hc. apply Write_nul_free.
Qed.

Lemma param_value a m ps idx v :
  ps !! idx = Some v → param (Request (request_value a m ps) (Some a)) idx = Ret v.
Proof.
  intros Hv. unfold param, request_value. simpl. rewrite member_Object. simpl.
  unfold element. rewrite Elements_Array. simpl. by rewrite Hv.
Qed.

(** The scalars of a well-formed request. *)
Definition client_request (a : actions_t) (m : string) (ps : list Value) : request :=
  Request (request_value a m ps) (Some a).

Lemma method_value a m ps : nul_free m → method (client_request a m ps) = Ret m.
Proof.
  intros Hm. unfold method, client_request, request_value. simpl. rewrite member_Object. simpl.
  rewrite GetString_String. simpl. by rewrite json_cstring_nul_free.
Qed.

Lemma parameter_ulong_value a m ps idx n :
  ps !! idx = Some (NumValue n) → (0 <= n < 2 ^ 64)%Z →
  parameter_ulong (client_request a m ps) idx = Ret n.
Proof.
  intros Hv Hn. unfold parameter_ulong, client_request. rewrite (param_value _ _ _ _ _ Hv). simpl.
  unfold as_ulong. by rewrite GetUint64_Num.
Qed.

Lemma parameter_uint_value a m ps idx n :
  ps !! idx = Some (NumValue n) → (0 <= n < 2 ^ 32)%Z →
  parameter_uint (client_request a m ps) idx = Ret n.
Proof.
  intros Hv Hn. unfold parameter_uint, client_request. rewrite (param_value _ _ _ _ _ Hv). simpl.
  unfold as_uint. by rewrite GetUint_Num.
Qed.

Lemma parameter_ushort_value a m ps idx n :
  ps !! idx = Some (NumValue n) → (0 <= n < 2 ^ 32)%Z →
  parameter_ushort (client_request a m ps) idx = Ret (wrap 16 n).
Proof.
  intros Hv Hn. unfold parameter_ushort, client_request. rewrite (param_value _ _ _ _ _ Hv). simpl.
  unfold as_ushort. by rewrite GetUint_Num.
Qed.

Lemma parameter_cstr_value a m ps idx cs :
  ps !! idx = Some (StringValue cs) →
  parameter_cstr (client_request a m ps) idx = Ret (cs ++ [NUL])
  ∧ parameter_str_size (client_request a m ps) idx = Ret (length cs).
Proof.
  intros Hv. unfold parameter_cstr, parameter_str_size, client_request.
  rewrite (param_value _ _ _ _ _ Hv). simpl. unfold as_cstr. by rewrite GetString_String.
Qed.

Lemma response_of_value result error :
  response_of result error =
  Ret (Response (Write (ObjectValue [(chars "result", result); (chars "error", BoolValue error)]))).
Proof.
  unfold response_of, dom_error, dom_setup, AddMember. rewrite Members_Object. simpl.
  by rewrite Members_Object.
Qed.

(** Every array specialisation, for the conversion it applies. *)
Lemma parameter_array_spec {A} (conv : Value → outcome A) r idx ys :
  json_array (param r idx) conv = Ret ys →
  ∃ v vs, param r idx = Ret v ∧ Elements v = Some vs
        ∧ parameter_array_size r idx = Ret (length ys)
        ∧ ∀ i y, ys !! i = Some y → ∃ x, vs !! i = Some x ∧ conv x = Ret y.
Proof.
  intros (v & vs & Hp & Hv & Ho)%json_array_Ret_inv. exists v, vs. split_and!; try done.
  - unfold parameter_array_size, Size. rewrite Hp. simpl. rewrite Hv. simpl.
    by rewrite (out_map_length _ _ _ Ho).
  - intros i y Hy. by eapply out_map_lookup.
Qed.

(** ** Properties *)

(** C22. Decoding inverts encoding: from the text of a well-formed request the
    constructor recovers the action, [method] the method string, and the
    parameter at each index is the value the client put there; a text without
    an action, or with an unknown one, is rejected with an exception. *)
Theorem request_roundtrip a m ps :
  nul_free m → Forall exact_value ps →
  ∃ r, request_ctor (Write (request_value a m ps) ++ [NUL]) = Ret r
     ∧ action r = Ret a ∧ method r = Ret m
     ∧ (∀ idx v, ps !! idx = Some v → param r idx = Ret v)
     ∧ (∀ ms, exact_value (ObjectValue ms) → find_member (chars "action") ms = None →
          request_ctor (Write (ObjectValue ms) ++ [NUL])
          = Throw (runtime_error err_msg._malinpt))
     ∧ (∀ ms s, exact_value (ObjectValue ms) → nul_free s →
          find_member (chars "action") ms = Some (StringValue (chars s)) →
          (∀ b, s ≠ action_name b) →
          request_ctor (Write (ObjectValue ms) ++ [NUL])
          = Throw (runtime_error err_msg._undhcse)).
Proof.
  intros Hm Hps. exists (Request (request_value a m ps) (Some a)). split_and!.
  - rewrite request_ctor_value by by apply request_value_exact. unfold request_value.
    rewrite HasMember_Object, member_Object. simpl. rewrite GetString_String. simpl.
    rewrite json_cstring_nul_free by apply action_name_nul_free. by rewrite str_map_name.
  - done.
  - unfold method, request_value. simpl. rewrite member_Object. simpl.
    rewrite GetString_String. simpl. by rewrite json_cstring_nul_free.
  - intros idx v. apply param_value.
  - intros ms He Hf. rewrite request_ctor_value, HasMember_Object, Hf by done. done.
  - intros ms s He Hs Hf Hn. rewrite request_ctor_value, HasMember_Object, member_Object, Hf by done.
    simpl. rewrite GetString_String. simpl. rewrite json_cstring_nul_free by done.
    by rewrite str_map_Throw.
Qed.

(** A numeric parameter read at its C++ type is in the range of the type;
    [unsigned short] and [short] keep the value modulo 2^16, and are exact
    precisely when the value fits. *)
Theorem parameter_widths r idx v :
  param r idx = Ret v →
  (∀ n, parameter_ushort r idx = Ret n →
     (0 <= n < 2 ^ 16)%Z ∧ ∃ u, parameter_uint r idx = Ret u ∧ n = wrap 16 u
     ∧ (n = u ↔ (u < 2 ^ 16)%Z))
  ∧ (∀ n, parameter_short r idx = Ret n →
     (- 2 ^ 15 <= n < 2 ^ 15)%Z ∧ ∃ i, parameter_int r idx = Ret i ∧ n = swrap 16 i
     ∧ (n = i ↔ (- 2 ^ 15 <= i < 2 ^ 15)%Z))
  ∧ (∀ n, parameter_uint r idx = Ret n → (0 <= n < 2 ^ 32)%Z)
  ∧ (∀ n, parameter_ulong r idx = Ret n → (0 <= n < 2 ^ 64)%Z).
Proof.
  intros Hp. unfold parameter_ushort, parameter_short, parameter_uint, parameter_int,
    parameter_ulong, as_ulong, as_uint, as_int. rewrite Hp. simpl. split_and!.
  - intros n Hn. split; [by eapply as_ushort_bounds|]. unfold as_ushort in Hn.
    destruct (GetUint v) as [u|] eqn:Hu; simpl in *; [|done]. simplify_eq.
    exists u. split_and!; [done..|]. pose proof (GetUint_bounds _ _ Hu).
    pose proof (wrap_bounds 16 u ltac:(lia)).
    split; [lia|]. intros. apply wrap_small. lia.
  - intros n Hn. split; [by eapply as_short_bounds|]. unfold as_short in Hn.
    destruct (GetInt v) as [i|] eqn:Hi; simpl in *; [|done]. simplify_eq.
    exists i. split_and!; [done..|]. pose proof (swrap_bounds 16 i ltac:(lia)) as Hb.
    split; [intros He; rewrite He in Hb; done|]. intros. by apply swrap_small.
  - intros n Hn. destruct (GetUint v) eqn:Hu; simpl in *; simplify_eq. by apply GetUint_bounds in Hu.
  - intros n Hn. destruct (GetUint64 v) eqn:Hu; simpl in *; simplify_eq. by apply GetUint64_bounds in Hu.
Qed.

(** An array parameter is read element by element: the result has the size
    the client's array has, in order, each element converted like a scalar
    parameter of that type; here for [unsigned int], [bool] and strings. *)
Theorem parameter_arrays a m ps idx vs r :
  ps !! idx = Some (ArrayValue vs) →
  r = Request (request_value a m ps) (Some a) →
  parameter_array_size r idx = Ret (length vs)
  ∧ (∀ ns, vs = NumValue <$> ns → Forall (λ n, 0 <= n < 2 ^ 32)%Z ns →
       parameter_uint_array r idx = Ret ns
       ∧ parameter_ushort_array r idx = Ret (wrap 16 <$> ns))
  ∧ (∀ bs, vs = BoolValue <$> bs → parameter_bool_array r idx = Ret bs)
  ∧ (∀ ss, vs = StringValue <$> ss →
       parameter_cstr_array r idx = Ret ((λ cs, cs ++ [NUL]) <$> ss)).
Proof.
  intros Hv ->. pose proof (param_value a m ps idx _ Hv) as Hp.
  assert (∀ A (conv : Value → outcome A), json_array (param (Request (request_value a m ps) (Some a)) idx) conv
            = out_map conv vs) as Hj.
  { intros A conv. eapply json_array_elements; [done|]. apply Elements_Array. }
  split_and!.
  - unfold parameter_array_size, Size. rewrite Hp. simpl. by rewrite Elements_Array.
  - intros ns -> Hns. unfold parameter_uint_array, parameter_ushort_array.
    rewrite !Hj, Forall_forall in *. split.
    + rewrite (out_map_fmap _ _ id), list_fmap_id; [done|]. intros n Hn.
      unfold as_uint. by rewrite GetUint_Num by auto.
    + apply out_map_fmap. intros n Hn. unfold as_ushort. by rewrite GetUint_Num by auto.
  - intros bs ->. unfold parameter_bool_array.
    rewrite Hj, (out_map_fmap _ _ id), list_fmap_id; [done|]. intros b _.
    unfold as_bool. by rewrite GetBool_Bool.
  - intros ss ->. unfold parameter_cstr_array. rewrite Hj. apply out_map_fmap.
    intros cs _. unfold as_cstr. by rewrite GetString_String.
Qed.

(** What the client reads back from a response. *)
Definition decodes_to (r : response) (result : Value) (error : bool) : Prop :=
  Parse (json r) = ObjectValue [(chars "result", result); (chars "error", BoolValue error)]
  ∧ response_size r = length (json r) ∧ NUL ∉ json r.

Lemma response_of_decodes result error :
  exact_value result → ∃ r, response_of result error = Ret r ∧ decodes_to r result error.
Proof.
  intros Hr. rewrite response_of_value. eexists; split; [done|]. split_and!; [|done|].
  - apply Parse_Write. eauto 10 with json.
  - apply Write_nul_free.
Qed.

(** Every constructor of [response] produces a JSON text, without embedded
    terminator and of the reported size, that parses back to an object with
    exactly the result and the error flag given; a null result is rejected. *)
Theorem response_roundtrip error :
  (∀ s, ∃ r, response_cstr (Some s) error = Ret r ∧ decodes_to r (StringValue (chars s)) error)
  ∧ response_cstr None error = Throw (invalid_argument err_msg._nllpntr)
  ∧ (∀ b, ∃ r, response_bool b error = Ret r ∧ decodes_to r (BoolValue b) error)
  ∧ (∀ n, (- 2 ^ 31 <= n < 2 ^ 31)%Z →
       ∃ r, response_int n error = Ret r ∧ decodes_to r (NumValue n) error)
  ∧ (∀ n, (0 <= n < 2 ^ 32)%Z →
       ∃ r, response_uint n error = Ret r ∧ decodes_to r (NumValue n) error)
  ∧ (∀ n, (- 2 ^ 63 <= n < 2 ^ 63)%Z →
       ∃ r, response_long n error = Ret r ∧ decodes_to r (NumValue n) error)
  ∧ (∀ n, (0 <= n < 2 ^ 64)%Z →
       ∃ r, response_ulong n error = Ret r ∧ decodes_to r (NumValue n) error).
Proof.
  split_and!; try done; intros; apply response_of_decodes; eauto with json;
    apply exact_Num; lia.
Qed.

(** The action of a moved-to request is never assigned; a moved response is the
    whole text, and nothing of it is left in the source. *)
Lemma request_move_action r :
  action (request_move r) = Fatal Undefined ∧ method (request_move r) = method r.
Proof. done. Qed.

Lemma response_move_text p self :
  json (response_move p).1 = json p ∧ response_size (response_move p).2 = 0
  ∧ response_move_assign self p = response_move p.
Proof. done. Qed.
End messages.

(** ** Witnesses, over the concrete library *)

Definition sample_params : list Value :=
  [NumValue 70000; ArrayValue (NumValue <$> [7; 65537]%Z)].

Lemma sample_params_exact : Forall exact_value sample_params.
Proof. repeat constructor. Qed.

Lemma request_roundtrip_witness :
  (nul_free "configure" ∧ Forall exact_value sample_params)
  ∧ ∃ r, request_ctor (Write (request_value PUSH "configure" sample_params) ++ [NUL]) = Ret r
       ∧ action r = Ret PUSH ∧ method r = Ret "configure"
       ∧ param r 0 = Ret (NumValue 70000).
Proof.
  assert (nul_free "configure") as Hn by (apply (bool_decide_unpack _); by vm_compute).
  split; [split; [exact Hn|exact sample_params_exact]|].
  destruct (request_roundtrip PUSH "configure" sample_params Hn sample_params_exact)
    as (r & H1 & H2 & H3 & H4 & _).
  exists r. split_and!; [exact H1|exact H2|exact H3|]. apply H4. reflexivity.
Defined.

Lemma parameter_widths_witness :
  let r := Request (request_value PUSH "m" sample_params) (Some PUSH) in
  param r 0 = Ret (NumValue 70000)
  ∧ parameter_ushort r 0 = Ret 4464%Z
  ∧ ∃ u, parameter_uint r 0 = Ret u ∧ 4464%Z = wrap 16 u ∧ (4464%Z = u ↔ (u < 2 ^ 16)%Z).
Proof.
  split_and!; [reflexivity..|].
  destruct (parameter_widths (Request (request_value PUSH "m" sample_params) (Some PUSH)) 0
    (NumValue 70000) eq_refl) as [H _].
  exact (proj2 (H 4464%Z eq_refl)).
Defined.

Lemma parameter_arrays_witness :
  let r := Request (request_value PUSH "m" sample_params) (Some PUSH) in
  sample_params !! 1 = Some (ArrayValue (NumValue <$> [7; 65537]%Z))
  ∧ parameter_ushort_array r 1 = Ret [7; 1]%Z.
Proof.
  split; [reflexivity|].
  destruct (parameter_arrays PUSH "m" sample_params 1 (NumValue <$> [7; 65537]%Z)
    (Request (request_value PUSH "m" sample_params) (Some PUSH)) eq_refl eq_refl) as (_ & H & _).
  destruct (H [7; 65537]%Z eq_refl) as [_ H2]; [repeat constructor; lia|]. exact H2.
Defined.

Lemma response_roundtrip_witness :
  ∃ r, response_bool true false = Ret r ∧ decodes_to r (BoolValue true) false.
Proof.
  destruct (response_roundtrip false) as (_ & _ & H & _). exact (H true).
Defined.
