(* ===== verification/Zmq.v ===== *)
(** * ZeroMQ sockets as the program uses them

    cppzmq and libzmq are dependencies: sockets and their operations are
    parameters. [send] and [recv] answer [false] / [None] at a timeout
    ([EAGAIN]) and throw [zmq::error_t] on any other failure. *)

From S2P Require Import Prelude.

(** The socket types the program opens. *)
Inductive socket_type := ZMQ_SUB | ZMQ_REQ | ZMQ_PAIR.

(** The timeouts of [zmq_setsockopt]. *)
Inductive sockopt := ZMQ_SNDTIMEO | ZMQ_RCVTIMEO.

Class ZMQ := {
  Socket : Type;
  open_socket : socket_type → Socket;
  zmq_setsockopt : sockopt → Z → M Socket ();
  zmq_bind : string → M Socket ();
  zmq_unbind : string → M Socket ();
  zmq_connect : string → M Socket ();
  zmq_disconnect : string → M Socket ();
  zmq_subscribe : list Z → M Socket ();
  zmq_close : M Socket ();
  zmq_send : list ascii → M Socket bool;
  zmq_recv : M Socket (option (list ascii));
  (** What a message that held the bytes holds after a [recv] into it failed. *)
  zmq_unreceived : list ascii → list ascii;
}.

(** A scripted socket, for the witnesses: what [recv] will answer, the answers
    of [send], and what has been sent. A new socket has the replies given for
    its type. *)
Record scripted := Scripted {
  inbox : list (option (list ascii));
  send_ok : bool;
  outbox : list (list ascii);
}.

Definition scripted_zmq_by (replies : socket_type → list (option (list ascii))) : ZMQ := {|
  Socket := scripted;
  open_socket ty := Scripted (replies ty) true [];
  zmq_setsockopt _ _ := ret tt;
  zmq_bind _ := ret tt;
  zmq_unbind _ := ret tt;
  zmq_connect _ := ret tt;
  zmq_disconnect _ := ret tt;
  zmq_subscribe _ := ret tt;
  zmq_close := ret tt;
  zmq_send msg := λ s,
    (Ret (send_ok s),
     if send_ok s then Scripted (inbox s) (send_ok s) (outbox s ++ [msg]) else s);
  zmq_recv := λ s,
    match inbox s with
    | [] => (Ret None, s)
    | m :: inb => (Ret m, Scripted inb (send_ok s) (outbox s))
    end;
  zmq_unreceived msg := [];
|}.

Definition scripted_zmq_from (replies : list (option (list ascii))) : ZMQ := scripted_zmq_by (λ _, replies).

#[export] Instance scripted_zmq : ZMQ := scripted_zmq_from [].
