(* ===== verification/Simulation.v ===== *)
(** * The simulation server's client (net/simulation/)

    Requests to the simulation dispatcher, its responses, and the synchronous
    client the simulated processing units call it with. *)

From S2P Require Import Prelude Json Zmq.

Section simulation.
Context `{RapidJSON}.

(** ** [class request] (net/simulation/request.hpp, request.cpp) *)

Record sim_request := SimRequest {
  dom : Value;
  jBuffer : list ascii;
}.

(** Constructor; [reAllocate] decides only who owns the characters. *)
Definition sim_request_ctor (method : string) (reAllocate : bool) : outcome sim_request :=
  let d := ObjectValue [] in
  out_bind
    (if reAllocate then AddMember d "method" (StringValue (chars method))
     else AddMember d "method" (StringValue (chars method))) (λ d,
  out_bind (AddMember d "parameters" (ArrayValue [])) (λ d,
  Ret (SimRequest d []))).

(** [f(dom[name])], where [f] changes the value in place. *)
Fixpoint update_first (name : list ascii) (f : Value → outcome Value)
    (ms : list (list ascii * Value)) : outcome (list (list ascii * Value)) :=
  match ms with
  | [] => Fatal Undefined
  | (k, v) :: ms' =>
      if decide (k = name) then out_bind (f v) (λ v', Ret ((k, v') :: ms'))
      else out_bind (update_first name f ms') (λ ms'', Ret ((k, v) :: ms''))
  end.

Definition update_member (d : Value) (name : string) (f : Value → outcome Value) : outcome Value :=
  out_bind (json_get (Members d)) (λ ms,
  out_bind (update_first (chars name) f ms) (λ ms', Ret (ObjectValue ms'))).

(** [add<unsigned int>(data)] and [add<const char*, false>(data)]. *)
Definition sim_add (data : Value) (r : sim_request) : outcome sim_request :=
  out_bind (update_member (dom r) "parameters" (λ ps, PushBack ps data)) (λ d,
  Ret (SimRequest d (jBuffer r))).
Definition add_uint (data : Z) (r : sim_request) : outcome sim_request :=
  sim_add (NumValue data) r.
Definition add_cstr (data : string) (r : sim_request) : outcome sim_request :=
  sim_add (StringValue (chars data)) r.

(** The writer appends to the buffer. *)
Definition generate_json (r : sim_request) : sim_request :=
  SimRequest (dom r) (jBuffer r ++ Write (dom r)).

Definition get_json (r : sim_request) : list ascii := jBuffer r ++ [NUL].
Definition get_json_str_size (r : sim_request) : nat := length (jBuffer r) + 1.

(** Move construction and assignment: the target and what is left of the source,
    a null document. The reference to the allocator goes along and stays with the
    source too. *)
Definition sim_request_move (old : sim_request) : sim_request * sim_request :=
  (SimRequest (dom old) (jBuffer old), SimRequest NullValue []).
Definition sim_request_move_assign (self old : sim_request) : sim_request * sim_request :=
  (SimRequest (dom old) (jBuffer old), SimRequest NullValue []).

(** ** [class response] (net/simulation/response.hpp, response.cpp) *)

Record sim_response := SimResponse { rdom : Value }.

(** The characters a memory stream of the bytes yields to the parser. *)
Fixpoint stream_text (bs : list ascii) : list ascii :=
  match bs with
  | [] => []
  | c :: bs' => if decide (c = NUL) then [] else c :: stream_text bs'
  end.

Definition sim_response_ctor (input : list ascii) : sim_response :=
  SimResponse (Parse (stream_text input)).

Definition sim_response_move (old : sim_response) : sim_response * sim_response :=
  (SimResponse (rdom old), SimResponse NullValue).
Definition sim_response_move_assign (self old : sim_response) : sim_response * sim_response :=
  (SimResponse (rdom old), SimResponse NullValue).

Definition get_error (r : sim_response) : outcome bool :=
  out_bind (HasMember (rdom r) "error") (λ has,
  if has : bool then out_bind (member (rdom r) "error") as_bool else Ret false).

(** [dom["result"]] *)
Definition result_value (r : sim_response) : outcome Value := member (rdom r) "result".

(** The specialisations of [get_result<T>()]. *)
Definition get_result_cstr (r : sim_response) : outcome (list ascii) :=
  out_bind (result_value r) as_cstr.
Definition get_result_cstr_array (r : sim_response) : outcome (list (list ascii)) :=
  json_array (result_value r) as_cstr.
Definition get_result_bool (r : sim_response) : outcome bool :=
  out_bind (result_value r) as_bool.
Definition get_result_bool_array (r : sim_response) : outcome (list bool) :=
  json_array (result_value r) as_bool.
Definition get_result_char (r : sim_response) : outcome ascii :=
  out_bind (result_value r) as_char.
Definition get_result_uchar (r : sim_response) : outcome Z :=
  out_bind (result_value r) (λ v, out_bind (as_char v) (λ c, Ret (Z.of_N (N_of_ascii c)))).
Definition get_result_ushort (r : sim_response) : outcome Z :=
  out_bind (result_value r) as_ushort.
Definition get_result_ushort_array (r : sim_response) : outcome (list Z) :=
  json_array (result_value r) as_ushort.
Definition get_result_short (r : sim_response) : outcome Z :=
  out_bind (result_value r) as_short.
Definition get_result_short_array (r : sim_response) : outcome (list Z) :=
  json_array (result_value r) as_short.
Definition get_result_uint (r : sim_response) : outcome Z :=
  out_bind (result_value r) as_uint.
Definition get_result_uint_array (r : sim_response) : outcome (list Z) :=
  json_array (result_value r) as_uint.
Definition get_result_int (r : sim_response) : outcome Z :=
  out_bind (result_value r) as_int.
Definition get_result_int_array (r : sim_response) : outcome (list Z) :=
  json_array (result_value r) as_int.
Definition get_result_ulong (r : sim_response) : outcome Z :=
  out_bind (result_value r) as_ulong.
Definition get_result_long (r : sim_response) : outcome Z :=
  out_bind (result_value r) as_long.
Definition get_result_ulong_array (r : sim_response) : outcome (list Z) :=
  json_array (result_value r) as_ulong.
Definition get_result_long_array (r : sim_response) : outcome (list Z) :=
  json_array (result_value r) as_long.
Definition get_result_float (r : sim_response) : outcome Double :=
  out_bind (result_value r) as_float.
Definition get_result_float_array (r : sim_response) : outcome (list Double) :=
  json_array (result_value r) as_float.
Definition get_result_double (r : sim_response) : outcome Double :=
  out_bind (result_value r) as_double.
Definition get_result_double_array (r : sim_response) : outcome (list Double) :=
  json_array (result_value r) as_double.

(** ** [class client] (net/simulation/client.hpp, client.cpp) *)

Context `{ZMQ}.

Definition NET_SIMULATION_CLIENT_ENDPNT_LENGTH : nat := 128.

Record client := Client {
  endpoint : list ascii;
  socket : Socket;
}.

Definition l_socket : lens client Socket := Lens socket (λ s c, Client (endpoint c) s).

(** The endpoint array initialised with zeros, then the copy and the connection. *)
Definition client_ctor (ep : string) : outcome client :=
  let this := Client (replicate NET_SIMULATION_CLIENT_ENDPNT_LENGTH NUL) (open_socket ZMQ_REQ) in
  let endpointLen := strlen ep + 1 in
  if decide (NET_SIMULATION_CLIENT_ENDPNT_LENGTH < endpointLen)
  then Throw (invalid_argument err_msg._arybnds)
  else
    let buf := memcpy (endpoint this) (chars ep ++ [NUL]) endpointLen in
    match c_string buf with
    | Some str =>
        match zmq_connect str (socket this) with
        | (Ret _, sk) => Ret (Client buf sk)
        | (Throw e, _) => Throw e
        | (Fatal f, _) => Fatal f
        end
    | None => Fatal Undefined
    end.

(** Move construction and assignment; the source's socket is left closed. *)
Definition client_move (old : client) : client :=
  Client (memcpy (replicate NET_SIMULATION_CLIENT_ENDPNT_LENGTH NUL) (endpoint old)
    NET_SIMULATION_CLIENT_ENDPNT_LENGTH) (socket old).
Definition client_move_assign (self old : client) : client :=
  Client (memcpy (endpoint self) (endpoint old) NET_SIMULATION_CLIENT_ENDPNT_LENGTH) (socket old).

Definition client_dtor : M client () :=
  c <- get ;;
  match c_string (endpoint c) with
  | Some str => zoom l_socket (zmq_disconnect str) ;; zoom l_socket zmq_close
  | None => fail Undefined
  end.

(** [call(request)]: the request is changed through the reference; the third
    component is the request left behind. *)
Definition client_call (rq : sim_request) : M client (sim_response * sim_request) :=
  let rq' := generate_json rq in
  rc <- zoom l_socket (zmq_send (take (get_json_str_size rq') (get_json rq'))) ;;
  if (rc : bool) then
    reply <- zoom l_socket zmq_recv ;;
    match reply with
    | Some zreply => ret (sim_response_ctor zreply, rq')
    | None => throw (runtime_error err_msg._ntwrkdn)
    end
  else throw (runtime_error err_msg._ntwrkdn).

(** ** Requests as the list of their parameters *)

Definition sim_value (m : string) (ps : list Value) : Value :=
  ObjectValue [(chars "method", StringValue (chars m)); (chars "parameters", ArrayValue ps)].

Lemma sim_request_ctor_eq m re :
  sim_request_ctor m re = Ret (SimRequest (sim_value m []) []).
Proof.
  unfold sim_request_ctor, AddMember. destruct re; rewrite Members_Object; simpl;
    by rewrite Members_Object.
Qed.

Lemma sim_add_eq m ps data jb :
  sim_add data (SimRequest (sim_value m ps) jb) = Ret (SimRequest (sim_value m (ps ++ [data])) jb).
Proof.
  unfold sim_add, update_member, sim_value. simpl. rewrite Members_Object. simpl.
  unfold PushBack. by rewrite Elements_Array.
Qed.

(** A chain of [add] calls. *)
Definition sim_build (m : string) (ps : list Value) : outcome sim_request :=
  foldl (λ o data, out_bind o (sim_add data)) (sim_request_ctor m false) ps.

Lemma sim_build_eq m ps : sim_build m ps = Ret (SimRequest (sim_value m ps) []).
Proof.
  unfold sim_build. rewrite sim_request_ctor_eq.
  induction ps as [|p ps IH] using rev_ind; [done|].
  rewrite foldl_app, IH. simpl. apply sim_add_eq.
Qed.

Lemma stream_text_app bs rest : NUL ∉ bs → stream_text (bs ++ NUL :: rest) = bs.
Proof.
  induction bs as [|c bs IH]; simpl; [done|]. intros [Hc Hb]%not_elem_of_cons.
  rewrite decide_False by congruence. by rewrite IH.
Qed.

Lemma stream_text_id bs : NUL ∉ bs → stream_text bs = bs.
Proof.
  induction bs as [|c bs IH]; simpl; [done|]. intros [Hc Hb]%not_elem_of_cons.
  rewrite decide_False by congruence. by rewrite IH.
Qed.

Lemma client_call_message rq :
  take (get_json_str_size (generate_json rq)) (get_json (generate_json rq))
  = jBuffer rq ++ Write (dom rq) ++ [NUL].
Proof.
  unfold get_json, get_json_str_size, generate_json; simpl.
  rewrite take_ge; [by rewrite <-app_assoc|]. rewrite !length_app. simpl. lia.
Qed.

(** One message to the dispatcher and its reply: what a call with a fresh
    request comes to. *)
Definition exchange (msg : list ascii) : M client sim_response :=
  rc <- zoom l_socket (zmq_send msg) ;;
  if (rc : bool) then
    reply <- zoom l_socket zmq_recv ;;
    match reply with
    | Some zreply => ret (sim_response_ctor zreply)
    | None => throw (runtime_error err_msg._ntwrkdn)
    end
  else throw (runtime_error err_msg._ntwrkdn).

(** The text of a request, as the dispatcher receives it. *)
Definition sim_message (m : string) (ps : list Value) : list ascii :=
  Write (sim_value m ps) ++ [NUL].

Lemma client_call_exchange m ps c :
  client_call (SimRequest (sim_value m ps) []) c
  = bind (exchange (sim_message m ps))
      (λ r, ret (r, SimRequest (sim_value m ps) (Write (sim_value m ps)))) c.
Proof.
  unfold client_call. rewrite client_call_message. cbn [jBuffer dom app].
  fold (sim_message m ps). unfold exchange. rewrite bind_assoc. unfold bind at 1 3.
  destruct (zoom l_socket (zmq_send (sim_message m ps)) c) as [[[]| |] c1]; [|done..].
  rewrite bind_assoc. unfold bind at 1 2.
  by destruct (zoom l_socket zmq_recv c1) as [[[]| |] c2].
Qed.

(** [dispatcher->call(request)] on a member that points to a client. *)
Definition call_through {S} (l : lens S (option client)) (rq : sim_request) : M S sim_response :=
  o <- read l ;;
  match o with
  | Some c =>
      let r := client_call rq c in
      assign l (Some r.2) ;;
      x <- lift r.1 ;;
      ret x.1
  | None => fail Undefined
  end.

Lemma call_through_eq {S} (l : lens S (option client)) m ps s c :
  view l s = Some c →
  call_through l (SimRequest (sim_value m ps) []) s
  = let r := exchange (sim_message m ps) c in (r.1, upd l (Some r.2) s).
Proof.
  intros Hc. unfold call_through. mrun. rewrite Hc.
  rewrite client_call_exchange. unfold bind, ret.
  by destruct (exchange (sim_message m ps) c) as [[]].
Qed.

(** ** Properties *)

(** A request built with any chain of [add] calls and sent with [call] is
    one zmq message: the JSON object of the method and the parameters in the
    order added, and a terminator; the dispatcher parses back that object. The
    reply is decoded whether or not it carries a terminator. A failed send or
    receive is [std::runtime_error] "network down". *)
Theorem client_call_spec m ps c :
  Forall exact_value ps →
  ∃ rq, sim_build m ps = Ret rq
  ∧ let msg := Write (sim_value m ps) ++ [NUL] in
    Parse (stream_text msg) = sim_value m ps
    ∧ ∀ rc s1, zmq_send msg (socket c) = (rc, s1) →
        match rc with
        | Ret true =>
            ∀ rv s2, zmq_recv s1 = (rv, s2) →
            client_call rq c =
              (match rv with
               | Ret (Some reply) => Ret (sim_response_ctor reply, generate_json rq)
               | Ret None => Throw (runtime_error err_msg._ntwrkdn)
               | Throw e => Throw e
               | Fatal f => Fatal f
               end, Client (endpoint c) s2)
        | Ret false =>
            client_call rq c = (Throw (runtime_error err_msg._ntwrkdn), Client (endpoint c) s1)
        | Throw e => client_call rq c = (Throw e, Client (endpoint c) s1)
        | Fatal f => client_call rq c = (Fatal f, Client (endpoint c) s1)
        end.
Proof.
  intros Hps. eexists; split; [apply sim_build_eq|]. intros msg. split.
  - unfold msg. rewrite stream_text_app by apply Write_nul_free.
    apply Parse_Write. unfold sim_value. eauto 10 with json.
  - intros rc s1 Hs. unfold client_call. rewrite client_call_message.
    cbn [jBuffer dom app]. change (Write (sim_value m ps) ++ [NUL]) with msg. clearbody msg.
    destruct rc as [[]|e|f]; mrun; rewrite Hs; simpl; try done.
    intros rv s2 Hr. rewrite Hr. by destruct rv as [[]| |].
Qed.

(** [generate_json] appends to the buffer it generated before, so calling the
    dispatcher twice with the same request sends the document twice in the
    second message. *)
Theorem client_call_twice m ps c s1 r1 s2 rq :
  sim_build m ps = Ret rq →
  zmq_send (Write (sim_value m ps) ++ [NUL]) (socket c) = (Ret true, s1) →
  zmq_recv s1 = (Ret (Some r1), s2) →
  ∀ s3, zmq_send (Write (sim_value m ps) ++ Write (sim_value m ps) ++ [NUL]) s2 = (Ret false, s3) →
  (p <- client_call rq ;; client_call p.2) c
  = (Throw (runtime_error err_msg._ntwrkdn), Client (endpoint c) s3).
Proof.
  rewrite sim_build_eq. intros [= <-] Hs1 Hr1 s3 Hs3.
  unfold client_call at 1. rewrite client_call_message. mrun. rewrite Hs1. simpl.
  rewrite Hr1. simpl. unfold client_call. rewrite client_call_message. mrun. by rewrite Hs3.
Qed.

(** Moves of requests and responses, by construction or assignment: the target
    is sent, extended and read as the source would have been; every later [add],
    [get_error] or result of the source fails an assertion of the library. *)
Theorem simulation_moves rq rsp rq0 rsp0 :
  let m := sim_request_move rq in let p := sim_response_move rsp in
  sim_request_move_assign rq0 rq = m ∧ sim_response_move_assign rsp0 rsp = p
  ∧ (∀ c, client_call m.1 c = client_call rq c)
  ∧ (∀ data, sim_add data m.1 = sim_add data rq ∧ sim_add data m.2 = Fatal Undefined)
  ∧ get_error p.1 = get_error rsp ∧ get_error p.2 = Fatal Undefined
  ∧ result_value p.1 = result_value rsp ∧ result_value p.2 = Fatal Undefined.
Proof.
  destruct rq, rsp. unfold sim_add, update_member, get_error, result_value, HasMember, member.
  simpl. by rewrite Members_Null.
Qed.

(** The client keeps every endpoint that fits its array of 128 characters
    with the terminator, as the string it was given; a longer one is refused
    with [std::invalid_argument] before any connection is made; a move keeps
    the endpoint. *)
Theorem client_endpoint_bounds ep :
  nul_free ep →
  (strlen ep < 128 → ∀ sk, zmq_connect ep (open_socket ZMQ_REQ) = (Ret tt, sk) →
     ∃ c, client_ctor ep = Ret c ∧ length (endpoint c) = 128
        ∧ c_string (endpoint c) = Some ep ∧ socket c = sk
        ∧ endpoint (client_move c) = endpoint c
        ∧ ∀ self, length (endpoint self) = 128 → endpoint (client_move_assign self c) = endpoint c)
  ∧ (128 ≤ strlen ep → client_ctor ep = Throw (invalid_argument err_msg._arybnds)).
Proof.
  intros Hn. unfold client_ctor, client_move, client_move_assign, NET_SIMULATION_CLIENT_ENDPNT_LENGTH.
  assert (length (replicate 128 NUL) = 128) as Hz by apply length_replicate.
  generalize dependent (replicate 128 NUL). intros z Hz. split.
  - intros Hl sk Hc. rewrite decide_False by lia. cbn [endpoint socket].
    rewrite c_string_memcpy, Hc by done.
    assert (length (memcpy z (chars ep ++ [NUL]) (strlen ep + 1)) = 128) as Hlen.
    { rewrite memcpy_length; rewrite ?length_app, ?chars_length; simpl; lia. }
    eexists; split_and!; [done|done|by apply c_string_memcpy|done| |]; cbn [endpoint].
    + by apply memcpy_full.
    + intros self Hs. by apply memcpy_full.
  - intros Hl. by rewrite decide_True by lia.
Qed.

(** The clients there can be: constructed, moved either way, and called, however
    a call ends. *)
Inductive client_reach : client → Prop :=
| reach_ctor ep c : client_ctor ep = Ret c → client_reach c
| reach_move c : client_reach c → client_reach (client_move c)
| reach_assign self c : client_reach self → client_reach c → client_reach (client_move_assign self c)
| reach_call rq c : client_reach c → client_reach (client_call rq c).2.

Definition endpoint_ok (c : client) : Prop :=
  length (endpoint c) = NET_SIMULATION_CLIENT_ENDPNT_LENGTH ∧ NUL ∈ endpoint c.

Lemma client_call_endpoint rq ep : preserves (λ c, endpoint c = ep) (client_call rq).
Proof.
  assert (∀ A (m : M Socket A), preserves (λ c, endpoint c = ep) (zoom l_socket m)) as Hz by (by intros A m c).
  unfold client_call. apply preserves_bind; [apply Hz|]. intros [].
  - apply preserves_bind; [apply Hz|]. intros [reply|]; auto with preserve.
  - auto with preserve.
Qed.

Lemma reach_endpoint_ok c : client_reach c → endpoint_ok c.
Proof.
  unfold endpoint_ok. induction 1 as [ep c Hc|c _ [IHl IHn]|self c _ [IHs _] _ [IHl IHn]|rq c _ IH].
  - revert Hc. unfold client_ctor. case_decide as Hd; [done|]. cbn [endpoint socket].
    assert (length (replicate NET_SIMULATION_CLIENT_ENDPNT_LENGTH NUL) = NET_SIMULATION_CLIENT_ENDPNT_LENGTH) as Hz
      by apply length_replicate.
    generalize dependent (replicate NET_SIMULATION_CLIENT_ENDPNT_LENGTH NUL). intros z Hz.
    destruct (c_string _) as [str|]; [|done]. destruct (zmq_connect _ _) as [[]]; [|done..].
    intros [= <-]. cbn [endpoint]. split.
    + rewrite memcpy_length; [done|rewrite length_app, chars_length; simpl; lia|lia].
    + apply memcpy_terminated. lia.
  - unfold client_move. cbn [endpoint]. by rewrite memcpy_full by (rewrite ?length_replicate; done).
  - unfold client_move_assign. cbn [endpoint]. by rewrite memcpy_full.
  - by rewrite (client_call_endpoint rq (endpoint c) c eq_refl).
Qed.

(** C40. Well-formedness: however a client has been constructed, moved and called, its
    array of 128 characters holds a string that fits it with the terminator, so
    the destructor never reads past it and disconnects from exactly that
    string. *)
Theorem client_well_formed c :
  client_reach c →
  length (endpoint c) = 128
  ∧ ∃ ep, c_string (endpoint c) = Some ep ∧ strlen ep < 128
      ∧ client_dtor c = (zoom l_socket (zmq_disconnect ep) ;; zoom l_socket zmq_close) c.
Proof.
  intros [Hl Hn]%reach_endpoint_ok. split; [done|]. destruct (c_string_nul _ Hn) as [ep Hep].
  exists ep. split_and!; [done| |].
  - pose proof (c_string_strlen _ _ Hep) as Hlt. by rewrite Hl in Hlt.
  - unfold client_dtor. mrun. by rewrite Hep.
Qed.

(** Reading a result: an absent error member means no error; every array
    result has the size of the JSON array and the conversions of its elements;
    [unsigned char] and the 16-bit types are in range. *)
Theorem get_result_spec ms r :
  r = SimResponse (ObjectValue ms) →
  (find_member (chars "error") ms = None → get_error r = Ret false)
  ∧ (∀ b, find_member (chars "error") ms = Some (BoolValue b) → get_error r = Ret b)
  ∧ (∀ ns, find_member (chars "result") ms = Some (ArrayValue (NumValue <$> ns)) →
       Forall (λ n, 0 <= n < 2 ^ 32)%Z ns →
       get_result_uint_array r = Ret ns ∧ get_result_ushort_array r = Ret (wrap 16 <$> ns))
  ∧ (∀ ns, find_member (chars "result") ms = Some (ArrayValue (NumValue <$> ns)) →
       Forall (λ n, - 2 ^ 31 <= n < 2 ^ 31)%Z ns →
       get_result_int_array r = Ret ns ∧ get_result_short_array r = Ret (swrap 16 <$> ns))
  ∧ (∀ n, get_result_uchar r = Ret n → (0 <= n < 256)%Z)
  ∧ (∀ n, get_result_ushort r = Ret n → (0 <= n < 2 ^ 16)%Z).
Proof.
  intros ->. unfold get_error, get_result_uint_array, get_result_ushort_array,
    get_result_int_array, get_result_short_array, get_result_uchar, get_result_ushort, result_value.
  cbn [rdom]. rewrite HasMember_Object, !member_Object. split_and!.
  - intros ->. done.
  - intros b ->. simpl. unfold as_bool. by rewrite GetBool_Bool.
  - intros ns -> Hns. rewrite Forall_forall in Hns. cbn [json_get].
    rewrite !(json_array_elements _ _ _ _ eq_refl (Elements_Array _)). split.
    + rewrite (out_map_fmap _ _ id), list_fmap_id; [done|]. intros n Hn.
      unfold as_uint. by rewrite GetUint_Num by auto.
    + apply out_map_fmap. intros n Hn. unfold as_ushort. by rewrite GetUint_Num by auto.
  - intros ns -> Hns. rewrite Forall_forall in Hns. cbn [json_get].
    rewrite !(json_array_elements _ _ _ _ eq_refl (Elements_Array _)). split.
    + rewrite (out_map_fmap _ _ id), list_fmap_id; [done|]. intros n Hn.
      unfold as_int. by rewrite GetInt_Num by auto.
    + apply out_map_fmap. intros n Hn. unfold as_short. by rewrite GetInt_Num by auto.
  - intros n. destruct (find_member _ ms) as [v|]; simpl; [|done].
    destruct (as_char v) as [c| |]; simpl; [|done..]. intros [= <-].
    pose proof (N_ascii_bounded c). lia.
  - intros n. destruct (find_member _ ms) as [v|]; simpl; [|done]. apply as_ushort_bounds.
Qed.
End simulation.

(** ** Witnesses, over the concrete libraries *)

Definition sim_params : list Value := [NumValue 16777343; StringValue (chars "receiver")].

Lemma sim_params_exact : Forall exact_value sim_params.
Proof. repeat constructor. Qed.

Definition sample_client (replies : list (option (list ascii))) (ok : bool) : client :=
  Client (replicate 128 NUL) (Scripted replies ok []).

Lemma client_call_spec_witness :
  Forall exact_value sim_params
  ∧ ∃ rq, sim_build "configure_node" sim_params = Ret rq
    ∧ (client_call rq (sample_client [] true)).1 = Throw (runtime_error err_msg._ntwrkdn)
    ∧ (client_call rq (sample_client [Some (chars "x")] true)).1
      = Ret (sim_response_ctor (chars "x"), generate_json rq).
Proof.
  split; [exact sim_params_exact|].
  destruct (client_call_spec "configure_node" sim_params (sample_client [] true) sim_params_exact)
    as (rq & Hrq & _ & H).
  destruct (client_call_spec "configure_node" sim_params (sample_client [Some (chars "x")] true)
    sim_params_exact) as (rq' & Hrq' & _ & H').
  exists rq. split; [exact Hrq|]. assert (rq' = rq) as -> by congruence. split.
  - rewrite (H (Ret true) _ eq_refl _ _ eq_refl). reflexivity.
  - rewrite (H' (Ret true) _ eq_refl _ _ eq_refl). reflexivity.
Defined.

(** A socket that takes one message and then times out. *)
Definition once_zmq : ZMQ := {|
  Socket := nat;
  open_socket _ := 0;
  zmq_setsockopt _ _ := ret tt;
  zmq_bind _ := ret tt;
  zmq_unbind _ := ret tt;
  zmq_connect _ := ret tt;
  zmq_disconnect _ := ret tt;
  zmq_subscribe _ := ret tt;
  zmq_close := ret tt;
  zmq_send msg := λ n, (Ret (Nat.eqb n 0), S n);
  zmq_recv := λ n, (Ret (Some []), n);
  zmq_unreceived msg := [];
|}.

Lemma client_call_twice_witness :
  ∃ rq : sim_request, sim_build "tx" sim_params = Ret rq
  ∧ (p <- client_call rq ;; client_call p.2) (Client (replicate 128 NUL) (0 : Socket (ZMQ := once_zmq)))
    = (Throw (runtime_error err_msg._ntwrkdn), Client (replicate 128 NUL) (2 : Socket (ZMQ := once_zmq))).
Proof.
  exists (SimRequest (sim_value "tx" sim_params) []). split; [apply sim_build_eq|].
  eapply (client_call_twice (H0 := once_zmq) "tx" sim_params
    (Client (replicate 128 NUL) (0 : Socket (ZMQ := once_zmq))));
    [apply sim_build_eq|reflexivity..].
Defined.

Lemma client_endpoint_bounds_witness :
  nul_free "tcp://127.0.0.1:5555"
  ∧ (∃ c, client_ctor "tcp://127.0.0.1:5555" = Ret c
        ∧ c_string (endpoint c) = Some "tcp://127.0.0.1:5555")
  ∧ client_ctor (String.concat "" (replicate 128 "x")) = Throw (invalid_argument err_msg._arybnds).
Proof.
  assert (nul_free "tcp://127.0.0.1:5555") as Hn by (apply (bool_decide_unpack _); by vm_compute).
  assert (nul_free (String.concat "" (replicate 128 "x"))) as Hn'
    by (apply (bool_decide_unpack _); by vm_compute).
  split; [exact Hn|]. split.
  - destruct (proj1 (client_endpoint_bounds "tcp://127.0.0.1:5555" Hn)
      ltac:(apply (bool_decide_unpack _); by vm_compute) (Scripted [] true []) eq_refl)
      as (c & H1 & _ & H2 & _).
    exists c. split; [exact H1|exact H2].
  - apply (proj2 (client_endpoint_bounds (String.concat "" (replicate 128 "x")) Hn')).
    apply (bool_decide_unpack _); by vm_compute.
Defined.

Lemma get_result_spec_witness :
  let r := SimResponse (ObjectValue [(chars "result", ArrayValue (NumValue <$> [1; 65536]%Z))]) in
  get_error r = Ret false ∧ get_result_ushort_array r = Ret [1; 0]%Z.
Proof.
  destruct (get_result_spec [(chars "result", ArrayValue (NumValue <$> [1; 65536]%Z))] _ eq_refl)
    as (H1 & _ & H2 & _).
  split; [exact (H1 eq_refl)|].
  destruct (H2 [1; 65536]%Z eq_refl) as [_ H3]; [repeat constructor; lia|exact H3].
Defined.

Lemma client_well_formed_witness :
  ∃ c, client_ctor "tcp://sim:5555" = Ret c ∧ length (endpoint (client_move (client_move c))) = 128.
Proof.
  assert (client_ctor "tcp://sim:5555" = Ret (Client (chars "tcp://sim:5555" ++ replicate 114 NUL) (Scripted [] true [])))
    as Hc by (vm_compute; reflexivity).
  eexists. split; [exact Hc|].
  apply (client_well_formed _ (reach_move _ (reach_move _ (reach_ctor _ _ Hc)))).
Defined.
