(* ===== verification/TypedMessages.v ===== *)
(** * Values of C++ types in messages (net/simulation/response.hpp,
    net/middleware/request.hpp)

    The templates [get_result<T>] and [parameter<T>] as functions of the type:
    which types there are specialisations for, and what each reads. The theorem
    states for all of them at once that what the other side puts into a message
    is what is read from its text. *)

From S2P Require Import Prelude Actions Json MiddlewareMessages Simulation.

(** ** Types *)

Inductive ctype := CStr | CBool | CChar | CUChar | CShort | CUShort | CInt | CUInt | CLong | CULong | CFloat | CDouble.

#[export] Instance ctype_eq_dec : EqDecision ctype.
Proof. solve_decision. Defined.

Section typed_messages.
Context `{RapidJSON}.

(** The values: a string is its characters with the terminator, an integer a
    number. *)
Definition denote (t : ctype) : Type :=
  match t with
  | CStr => list ascii
  | CBool => bool
  | CChar => ascii
  | CUChar | CShort | CUShort | CInt | CUInt | CLong | CULong => Z
  | CFloat | CDouble => Double
  end.

(** ** The templates *)

Definition get_result (t : ctype) : sim_response → outcome (denote t) :=
  match t with
  | CStr => get_result_cstr
  | CBool => get_result_bool
  | CChar => get_result_char
  | CUChar => get_result_uchar
  | CShort => get_result_short
  | CUShort => get_result_ushort
  | CInt => get_result_int
  | CUInt => get_result_uint
  | CLong => get_result_long
  | CULong => get_result_ulong
  | CFloat => get_result_float
  | CDouble => get_result_double
  end.

(** Pointer types; there is no specialisation for arrays of characters. *)
Definition get_result_array (t : ctype) : option (sim_response → outcome (list (denote t))) :=
  match t with
  | CStr => Some get_result_cstr_array
  | CBool => Some get_result_bool_array
  | CChar | CUChar => None
  | CShort => Some get_result_short_array
  | CUShort => Some get_result_ushort_array
  | CInt => Some get_result_int_array
  | CUInt => Some get_result_uint_array
  | CLong => Some get_result_long_array
  | CULong => Some get_result_ulong_array
  | CFloat => Some get_result_float_array
  | CDouble => Some get_result_double_array
  end.

(** Requests are not read as [unsigned char]. *)
Definition parameter (t : ctype) : option (request → nat → outcome (denote t)) :=
  match t with
  | CStr => Some parameter_cstr
  | CBool => Some parameter_bool
  | CChar => Some parameter_char
  | CUChar => None
  | CShort => Some parameter_short
  | CUShort => Some parameter_ushort
  | CInt => Some parameter_int
  | CUInt => Some parameter_uint
  | CLong => Some parameter_long
  | CULong => Some parameter_ulong
  | CFloat => Some parameter_float
  | CDouble => Some parameter_double
  end.

Definition parameter_array (t : ctype) : option (request → nat → outcome (list (denote t))) :=
  match t with
  | CStr => Some parameter_cstr_array
  | CBool => Some parameter_bool_array
  | CChar | CUChar => None
  | CShort => Some parameter_short_array
  | CUShort => Some parameter_ushort_array
  | CInt => Some parameter_int_array
  | CUInt => Some parameter_uint_array
  | CLong => Some parameter_long_array
  | CULong => Some parameter_ulong_array
  | CFloat => Some parameter_float_array
  | CDouble => Some parameter_double_array
  end.

(** ** What they have in common *)

(** The conversion of a value. *)
Definition conversion (t : ctype) : Value → outcome (denote t) :=
  match t with
  | CStr => as_cstr
  | CBool => as_bool
  | CChar => as_char
  | CUChar => λ v, out_bind (as_char v) (λ c, Ret (Z.of_N (N_of_ascii c)))
  | CShort => as_short
  | CUShort => as_ushort
  | CInt => as_int
  | CUInt => as_uint
  | CLong => as_long
  | CULong => as_ulong
  | CFloat => as_float
  | CDouble => as_double
  end.

Lemma get_result_conversion t r : get_result t r = out_bind (result_value r) (conversion t).
Proof. by destruct t. Qed.
Lemma get_result_array_conversion t f r :
  get_result_array t = Some f → f r = json_array (result_value r) (conversion t).
Proof. by destruct t; intros [= <-]. Qed.
Lemma parameter_conversion t f r idx :
  parameter t = Some f → f r idx = out_bind (param r idx) (conversion t).
Proof. by destruct t; intros [= <-]. Qed.
Lemma parameter_array_conversion t f r idx :
  parameter_array t = Some f → f r idx = json_array (param r idx) (conversion t).
Proof. by destruct t; intros [= <-]. Qed.

(** ** What the other side writes *)

(** The JSON value of a C++ value; the floating-point types lose what the writer
    loses, so any value with that [double] will do. *)
Definition holds (t : ctype) : denote t → Value → Prop :=
  match t with
  | CStr => λ x v, ∃ cs, x = cs ++ [NUL] ∧ v = StringValue cs
  | CBool => λ x v, v = BoolValue x
  | CChar => λ x v, v = StringValue [x]
  | CUChar => λ x v, ∃ c, x = Z.of_N (N_of_ascii c) ∧ v = StringValue [c]
  | CShort => λ x v, (- 2 ^ 15 <= x < 2 ^ 15)%Z ∧ v = NumValue x
  | CUShort => λ x v, (0 <= x < 2 ^ 16)%Z ∧ v = NumValue x
  | CInt => λ x v, (- 2 ^ 31 <= x < 2 ^ 31)%Z ∧ v = NumValue x
  | CUInt => λ x v, (0 <= x < 2 ^ 32)%Z ∧ v = NumValue x
  | CLong => λ x v, (- 2 ^ 63 <= x < 2 ^ 63)%Z ∧ v = NumValue x
  | CULong => λ x v, (0 <= x < 2 ^ 64)%Z ∧ v = NumValue x
  | CFloat => λ x v, ∃ d, GetDouble v = Some d ∧ x = double_to_float d
  | CDouble => λ x v, GetDouble v = Some x
  end.

Lemma as_short_small n : (- 2 ^ 15 <= n < 2 ^ 15)%Z → as_short (NumValue n) = Ret n.
Proof. intros Hn. unfold as_short. rewrite GetInt_Num by lia. simpl. by rewrite swrap_small. Qed.

Lemma conversion_holds t x v : holds t x v → conversion t v = Ret x.
Proof.
  destruct t; simpl; unfold as_cstr, as_char, as_bool, as_int, as_uint, as_long, as_ulong, as_float, as_double, as_cstr.
  - intros (cs & -> & ->). by rewrite GetString_String.
  - intros ->. by rewrite GetBool_Bool.
  - intros ->. by rewrite GetString_String.
  - intros (c & -> & ->). by rewrite GetString_String.
  - intros [Hx ->]. by apply as_short_small.
  - intros [Hx ->]. by apply as_ushort_small.
  - intros [Hx ->]. by rewrite GetInt_Num.
  - intros [Hx ->]. by rewrite GetUint_Num.
  - intros [Hx ->]. by rewrite GetInt64_Num.
  - intros [Hx ->]. by rewrite GetUint64_Num.
  - intros (d & -> & ->). done.
  - by intros ->.
Qed.

Lemma conversion_array t xs vs : Forall2 (holds t) xs vs → out_map (conversion t) vs = Ret xs.
Proof.
  induction 1 as [|x v xs vs Hx _ IH]; [done|]. simpl. by rewrite (conversion_holds _ _ _ Hx), IH.
Qed.

(** A reply of the dispatcher that carries a result, as text. *)
Definition reply_text (result : Value) (error : bool) : list ascii :=
  Write (ObjectValue [(chars "result", result); (chars "error", BoolValue error)]) ++ [NUL].

Lemma reply_text_result result error :
  exact_value result →
  let r := sim_response_ctor (reply_text result error) in
  result_value r = Ret result ∧ get_error r = Ret error.
Proof.
  intros He r. unfold r, sim_response_ctor, reply_text.
  rewrite stream_text_app by apply Write_nul_free.
  rewrite Parse_Write by (eauto 10 with json). unfold result_value, get_error. cbn [rdom].
  rewrite HasMember_Object, !member_Object. simpl. split; [done|]. unfold as_bool. by rewrite GetBool_Bool.
Qed.

(** A decoded request shows the parameters that were encoded. *)
Lemma request_text_param a m ps idx v :
  Forall exact_value ps → ps !! idx = Some v →
  ∃ r, request_ctor (Write (request_value a m ps) ++ [NUL]) = Ret r ∧ param r idx = Ret v.
Proof.
  intros Hps Hv. exists (Request (request_value a m ps) (Some a)). split; [|by apply param_value].
  rewrite request_ctor_value by by apply request_value_exact. unfold request_value.
  rewrite HasMember_Object, member_Object. simpl. rewrite GetString_String. simpl.
  rewrite json_cstring_nul_free by apply action_name_nul_free. by rewrite str_map_name.
Qed.

(** ** Properties *)

(** C21. Typed round trip, for every type the templates are specialised for. From the
    text of a dispatcher's reply, [get_result<T>] reads the value of type [T]
    that was put into it, and [get_result<T*>] the array, with its size and
    order; [get_error] reads the flag. From the text of a client's request,
    [parameter<T>] and [parameter<T*>] do the same for each parameter. *)
Theorem typed_roundtrip t :
  (∀ x v error, holds t x v → exact_value v →
     let r := sim_response_ctor (reply_text v error) in
     get_result t r = Ret x ∧ get_error r = Ret error)
  ∧ (∀ f xs vs error, get_result_array t = Some f → Forall2 (holds t) xs vs → Forall exact_value vs →
       f (sim_response_ctor (reply_text (ArrayValue vs) error)) = Ret xs)
  ∧ (∀ a m ps idx f x v, parameter t = Some f → Forall exact_value ps → ps !! idx = Some v → holds t x v →
       ∃ r, request_ctor (Write (request_value a m ps) ++ [NUL]) = Ret r ∧ f r idx = Ret x)
  ∧ (∀ a m ps idx f xs vs, parameter_array t = Some f → Forall exact_value ps →
       ps !! idx = Some (ArrayValue vs) → Forall2 (holds t) xs vs →
       ∃ r, request_ctor (Write (request_value a m ps) ++ [NUL]) = Ret r ∧ f r idx = Ret xs
          ∧ parameter_array_size r idx = Ret (length xs)).
Proof.
  split_and!.
  - intros x v error Hx He r. destruct (reply_text_result v error He) as [Hr Herr].
    split; [|done]. unfold r. rewrite get_result_conversion, Hr. by apply conversion_holds.
  - intros f xs vs error Hf Hxs Hvs. rewrite (get_result_array_conversion t f _ Hf).
    destruct (reply_text_result (ArrayValue vs) error) as [Hr _]; [by apply exact_Array|].
    rewrite (json_array_elements _ _ _ _ Hr (Elements_Array _)). by apply conversion_array.
  - intros a m ps idx f x v Hf Hps Hv Hx. destruct (request_text_param a m ps idx v Hps Hv) as (r & Hr & Hp).
    exists r. split; [done|]. rewrite (parameter_conversion t f _ _ Hf), Hp. by apply conversion_holds.
  - intros a m ps idx f xs vs Hf Hps Hv Hxs.
    destruct (request_text_param a m ps idx _ Hps Hv) as (r & Hr & Hp).
    exists r. split; [done|]. rewrite (parameter_array_conversion t f _ _ Hf). split.
    + rewrite (json_array_elements _ _ _ _ Hp (Elements_Array _)). by apply conversion_array.
    + unfold parameter_array_size, Size. rewrite Hp. simpl. rewrite Elements_Array. simpl.
      by rewrite (Forall2_length _ _ _ Hxs).
Qed.
End typed_messages.

(** ** Witness *)
Lemma typed_roundtrip_witness :
  get_result CShort (sim_response_ctor (reply_text (NumValue (-7)) true)) = Ret (-7)%Z
  ∧ get_result_short_array (sim_response_ctor (reply_text (ArrayValue [NumValue 1; NumValue (-2)]) false))
    = Ret [1; -2]%Z
  ∧ ∃ r, request_ctor (Write (request_value PUSH "m" [BoolValue true; StringValue (chars "ab")]) ++ [NUL]) = Ret r
      ∧ parameter_cstr r 1 = Ret (chars "ab" ++ [NUL]).
Proof.
  destruct (typed_roundtrip CShort) as (H1 & H2 & _).
  destruct (typed_roundtrip CStr) as (_ & _ & H3 & _). split_and!.
  - apply (H1 (-7)%Z (NumValue (-7)) true); [split; [lia|reflexivity]|apply exact_Num; lia].
  - apply (H2 _ [1; -2]%Z [NumValue 1; NumValue (-2)] false eq_refl).
    + constructor; [split; [lia|reflexivity]|]. constructor; [split; [lia|reflexivity]|constructor].
    + apply Forall_cons_2; [apply exact_Num; lia|]. apply Forall_cons_2; [apply exact_Num; lia|apply Forall_nil_2].
  - apply (H3 PUSH "m" [BoolValue true; StringValue (chars "ab")] 1 parameter_cstr _ (StringValue (chars "ab")));
      [reflexivity| |reflexivity|exists (chars "ab"); split; reflexivity].
    apply Forall_cons_2; [apply exact_Bool|]. apply Forall_cons_2; [apply exact_String|apply Forall_nil_2].
Defined.
