(* ===== verification/Server.v ===== *)
(** * The middleware server (net/middleware/server.hpp, server.cpp)

    The object, its operations with their guards and locks, and the start-up
    handshake between [notify] and the worker threads as a step relation. *)

From S2P Require Import Prelude Actions.

(** The two functions a worker thread can run. *)
Inductive worker := SyncWork | AsyncWork.

#[export] Instance worker_eq_dec : EqDecision worker.
Proof. solve_decision. Defined.

(** A module's buffer, by its address. *)
Abbreviation buffer_ref := nat.

(** A slot of [workThreads] holds the thread while it is joinable. *)
Record server := Server {
  moduleAsyncBuffer : option buffer_ref;
  iEndpoint : list ascii;
  oEndpoint : list ascii;
  isRunning : bool;
  doExit : bool;
  stateMutex : bool;
  startMutex : bool;
  startupState : Z;
  startupStateTarget : Z;
  workThreads : list (option worker);
}.

Definition ENDPOINT_LENGTH : nat := 128.

(** Constructor; registering the callback is the caller's step (Program.v). *)
Definition server_init : server :=
  Server None (replicate ENDPOINT_LENGTH NUL) (replicate ENDPOINT_LENGTH NUL)
    false false false false 0 0 [None; None].

(** ** Data members *)

Definition l_moduleAsyncBuffer : lens server (option buffer_ref) := Lens moduleAsyncBuffer
  (λ x s, Server x (iEndpoint s) (oEndpoint s) (isRunning s) (doExit s) (stateMutex s)
    (startMutex s) (startupState s) (startupStateTarget s) (workThreads s)).
Definition l_iEndpoint : lens server (list ascii) := Lens iEndpoint
  (λ x s, Server (moduleAsyncBuffer s) x (oEndpoint s) (isRunning s) (doExit s) (stateMutex s)
    (startMutex s) (startupState s) (startupStateTarget s) (workThreads s)).
Definition l_oEndpoint : lens server (list ascii) := Lens oEndpoint
  (λ x s, Server (moduleAsyncBuffer s) (iEndpoint s) x (isRunning s) (doExit s) (stateMutex s)
    (startMutex s) (startupState s) (startupStateTarget s) (workThreads s)).
Definition l_isRunning : lens server bool := Lens isRunning
  (λ x s, Server (moduleAsyncBuffer s) (iEndpoint s) (oEndpoint s) x (doExit s) (stateMutex s)
    (startMutex s) (startupState s) (startupStateTarget s) (workThreads s)).
Definition l_doExit : lens server bool := Lens doExit
  (λ x s, Server (moduleAsyncBuffer s) (iEndpoint s) (oEndpoint s) (isRunning s) x (stateMutex s)
    (startMutex s) (startupState s) (startupStateTarget s) (workThreads s)).
Definition l_stateMutex : lens server bool := Lens stateMutex
  (λ x s, Server (moduleAsyncBuffer s) (iEndpoint s) (oEndpoint s) (isRunning s) (doExit s) x
    (startMutex s) (startupState s) (startupStateTarget s) (workThreads s)).
Definition l_startMutex : lens server bool := Lens startMutex
  (λ x s, Server (moduleAsyncBuffer s) (iEndpoint s) (oEndpoint s) (isRunning s) (doExit s)
    (stateMutex s) x (startupState s) (startupStateTarget s) (workThreads s)).
Definition l_startupState : lens server Z := Lens startupState
  (λ x s, Server (moduleAsyncBuffer s) (iEndpoint s) (oEndpoint s) (isRunning s) (doExit s)
    (stateMutex s) (startMutex s) x (startupStateTarget s) (workThreads s)).
Definition l_startupStateTarget : lens server Z := Lens startupStateTarget
  (λ x s, Server (moduleAsyncBuffer s) (iEndpoint s) (oEndpoint s) (isRunning s) (doExit s)
    (stateMutex s) (startMutex s) (startupState s) x (workThreads s)).
Definition l_workThreads : lens server (list (option worker)) := Lens workThreads
  (λ x s, Server (moduleAsyncBuffer s) (iEndpoint s) (oEndpoint s) (isRunning s) (doExit s)
    (stateMutex s) (startMutex s) (startupState s) (startupStateTarget s) x).

(** ** Operations *)

Definition setup (iEp oEp : string) : M server () :=
  with_lock l_startMutex (
    running <- read l_isRunning ;;
    if running : bool then ret tt
    else
      let iEndpointLen := strlen iEp + 1 in
      let oEndpointLen := strlen oEp + 1 in
      ibuf <- read l_iEndpoint ;;
      obuf <- read l_oEndpoint ;;
      if decide (length ibuf < iEndpointLen ∨ length obuf < oEndpointLen)
      then throw (invalid_argument err_msg._arybnds)
      else
        assign l_iEndpoint (memcpy ibuf (chars iEp ++ [NUL]) iEndpointLen) ;;
        assign l_oEndpoint (memcpy obuf (chars oEp ++ [NUL]) oEndpointLen)).

(** One round of the loop of [stop]: joining a joinable thread waits for its
    function to return and leaves the slot not joinable. *)
Definition stop_join (i : nat) : M server () :=
  exiting <- read l_doExit ;;
  (if exiting : bool then ret tt else throw (logic_error err_msg._unrchcd)) ;;
  ts <- read l_workThreads ;;
  match ts !! i with
  | Some (Some _) => assign l_workThreads (<[i := None]> ts)
  | _ => ret tt
  end.

Definition stop : M server () :=
  with_lock l_stateMutex (
    running <- read l_isRunning ;;
    if running : bool then
      assign l_doExit true ;;
      for_loop 0 2 stop_join ;;
      assign l_doExit false ;;
      assign l_isRunning false
    else ret tt).

(** [workThreads[startupStateTarget++] = std::thread(w, this)]: assigning over a
    joinable thread calls [std::terminate]. *)
Definition launch (w : worker) : M server () :=
  n <- read l_startupStateTarget ;;
  assign l_startupStateTarget (wrap 32 (n + 1)) ;;
  ts <- read l_workThreads ;;
  match ts !! Z.to_nat n with
  | Some None => assign l_workThreads (<[Z.to_nat n := Some w]> ts)
  | Some (Some _) => fail Terminate
  | None => fail Undefined
  end.

(** [endpoint[0] == '\0'] *)
Definition endpoint_empty (buf : list ascii) : bool := bool_decide (head buf = Some NUL).

Definition launch_if (b : bool) (ep : lens server (list ascii)) (w : worker) : M server () :=
  if b then
    buf <- read ep ;;
    (if endpoint_empty buf then throw (runtime_error err_msg._zrlngth) else ret tt) ;;
    launch w
  else ret tt.

Definition wants_sync (supActs : Z) : bool := check REQUEST supActs || check PUSH supActs.
Definition wants_async (supActs : Z) : bool := check REPLY supActs || check WAIT supActs.

(** [notify_thread_started], called once by each worker; [notify_all] has an
    effect only on a waiting [notify], see the handshake below. *)
Definition notify_thread_started : M server bool :=
  with_lock l_startMutex (
    n <- read l_startupState ;;
    assign l_startupState (wrap 32 (n + 1)) ;;
    n <- read l_startupState ;;
    target <- read l_startupStateTarget ;;
    ret (bool_decide (n = target))).

(** The predicate of the wait at the end of [notify]. *)
Definition all_started (s : server) : bool :=
  bool_decide (startupState s = startupStateTarget s).

(** The workers the call has launched, each signalling once. *)
Definition signal_all (n : nat) : M server () :=
  for_loop 0 n (λ _, notify_thread_started ;; ret tt).

(** [notify] as its caller sees it. The final wait returns once the launched
    workers have signalled if the counts agree then, and never otherwise. *)
Definition notify (asyncBuffer : buffer_ref) (supActs : Z) : M server () :=
  stop ;;
  with_lock l_stateMutex (
    assign l_startupStateTarget 0%Z ;;
    assign l_moduleAsyncBuffer (Some asyncBuffer) ;;
    launch_if (wants_sync supActs) l_iEndpoint SyncWork ;;
    launch_if (wants_async supActs) l_oEndpoint AsyncWork ;;
    n <- read l_startupStateTarget ;;
    signal_all (Z.to_nat n) ;;
    started <- gets all_started ;;
    if started : bool then ret tt else fail Deadlock).

(** Destructor: [stop], then the members; destroying a joinable [std::thread]
    calls [std::terminate]. Unregistering is the caller's step. *)
Definition destroy_threads : M server () :=
  ts <- read l_workThreads ;;
  if decide (Forall (λ t : option worker, t = None) ts) then ret tt else fail Terminate.

Definition server_dtor : M server () := stop ;; destroy_threads.

Definition is_running : M server bool := with_lock l_stateMutex (read l_isRunning).

(** What the worker functions ask of the server; [get_iEndpoint] and
    [get_oEndpoint] are pointers to the arrays. *)
Definition do_exit : M server bool := read l_doExit.
Definition get_iEndpoint : M server (list ascii) := read l_iEndpoint.
Definition get_oEndpoint : M server (list ascii) := read l_oEndpoint.
Definition module_async_buffer : M server buffer_ref :=
  o <- read l_moduleAsyncBuffer ;;
  match o with Some b => ret b | None => fail Undefined end.

(** ** What every operation keeps *)

Record server_inv (s : server) : Prop := {
  si_running : isRunning s = false;
  si_exit : doExit s = false;
  si_ilen : length (iEndpoint s) = ENDPOINT_LENGTH;
  si_olen : length (oEndpoint s) = ENDPOINT_LENGTH;
  si_inul : NUL ∈ iEndpoint s;
  si_onul : NUL ∈ oEndpoint s;
  si_threads : length (workThreads s) = 2;
}.

Lemma server_inv_init : server_inv server_init.
Proof.
  split; try done; simpl iEndpoint; simpl oEndpoint;
    rewrite ?length_replicate; try done; apply list_elem_of_In; simpl; by left.
Qed.

(** Members the invariant does not constrain. *)
Ltac inv_assign := intros ? []; split; simpl; assumption.

Lemma inv_stateMutex b s : server_inv s → server_inv (upd l_stateMutex b s).
Proof. revert s. inv_assign. Qed.
Lemma inv_startMutex b s : server_inv s → server_inv (upd l_startMutex b s).
Proof. revert s. inv_assign. Qed.
Lemma inv_startupState n s : server_inv s → server_inv (upd l_startupState n s).
Proof. revert s. inv_assign. Qed.
Lemma inv_startupStateTarget n s : server_inv s → server_inv (upd l_startupStateTarget n s).
Proof. revert s. inv_assign. Qed.
Lemma inv_moduleAsyncBuffer b s : server_inv s → server_inv (upd l_moduleAsyncBuffer b s).
Proof. revert s. inv_assign. Qed.

#[export] Hint Resolve inv_stateMutex inv_startMutex inv_startupState inv_startupStateTarget
  inv_moduleAsyncBuffer : preserve.

(** The only guard of [stop] is the flag no operation sets. *)
Lemma stop_nop s :
  isRunning s = false →
  stop s = if stateMutex s then (Fatal Deadlock, s) else (Ret tt, s).
Proof.
  intros Hr. unfold stop, with_lock; mrun. rewrite Hr.
  destruct s; simpl in *; subst. by case_match.
Qed.

Lemma stop_preserves : preserves server_inv stop.
Proof. intros s Hs. rewrite stop_nop by apply Hs. by case_match. Qed.

Lemma launch_preserves w : preserves server_inv (launch w).
Proof.
  intros s Hs. unfold launch; mrun. case_match; [|by apply inv_startupStateTarget].
  case_match; [by apply inv_startupStateTarget|]. simpl. destruct Hs; split; simpl; try done.
  by rewrite length_insert.
Qed.

Lemma launch_if_preserves b ep w : preserves server_inv (launch_if b ep w).
Proof.
  unfold launch_if. destruct b; [|auto with preserve].
  apply preserves_bind; [auto with preserve|]. intros buf.
  apply preserves_bind; [by case_match; auto with preserve|]. intros _. apply launch_preserves.
Qed.

Lemma setup_preserves iEp oEp : preserves server_inv (setup iEp oEp).
Proof.
  apply preserves_with_lock; [intros; by apply inv_startMutex|].
  intros s Hs. mrun. rewrite (si_running _ Hs). case_decide as Hd; simpl; [done|].
  destruct Hs; split; simpl; try done.
  - rewrite memcpy_length; [done| |lia]. rewrite length_app, chars_length. simpl. lia.
  - rewrite memcpy_length; [done| |lia]. rewrite length_app, chars_length. simpl. lia.
  - apply memcpy_terminated. lia.
  - apply memcpy_terminated. lia.
Qed.

Lemma notify_thread_started_preserves : preserves server_inv notify_thread_started.
Proof. unfold notify_thread_started. eauto 10 with preserve. Qed.

Lemma signal_all_preserves n : preserves server_inv (signal_all n).
Proof.
  unfold signal_all. generalize 0. induction n as [|n IH]; intros i; simpl.
  - auto with preserve.
  - apply preserves_bind; [|intros; apply IH].
    apply preserves_bind; [apply notify_thread_started_preserves|auto with preserve].
Qed.

#[export] Hint Resolve stop_preserves launch_if_preserves signal_all_preserves : preserve.

Lemma notify_preserves b acts : preserves server_inv (notify b acts).
Proof.
  unfold notify. apply preserves_bind; [auto with preserve|]. intros _.
  apply preserves_with_lock; [intros; by apply inv_stateMutex|].
  repeat (apply preserves_bind; [eauto with preserve|intros ?]).
  case_match; auto with preserve.
Qed.

(** ** Every sequence of calls *)

(** The states reachable by calls of the public functions and by the signals of
    the workers, in any order, whatever the outcome of each call. *)
Inductive server_reach : server → Prop :=
| reach_init : server_reach server_init
| reach_setup i o s : server_reach s → server_reach (setup i o s).2
| reach_stop s : server_reach s → server_reach (stop s).2
| reach_notify b acts s : server_reach s → server_reach (notify b acts s).2
| reach_started s : server_reach s → server_reach (notify_thread_started s).2.

Lemma reach_inv s : server_reach s → server_inv s.
Proof.
  induction 1; [apply server_inv_init|by apply setup_preserves|by apply stop_preserves
    |by apply notify_preserves|by apply notify_thread_started_preserves].
Qed.

(** ** [notify] in detail *)

Definition expected_workers (acts : Z) : list worker :=
  (if wants_sync acts then [SyncWork] else []) ++ (if wants_async acts then [AsyncWork] else []).

(** The array of two slots with the given threads in its first slots. *)
Definition slots (ws : list worker) : list (option worker) :=
  (Some <$> ws) ++ replicate (2 - length ws) None.

(** A server as [notify] finds it the first time. *)
Record server_idle (s : server) : Prop := {
  sd_running : isRunning s = false;
  sd_state : stateMutex s = false;
  sd_start : startMutex s = false;
  sd_threads : workThreads s = [None; None];
  sd_started : startupState s = 0%Z;
}.

(** What the first [notify] leaves behind when it returns. *)
Definition notified (b : buffer_ref) (ws : list worker) (s : server) : server :=
  Server (Some b) (iEndpoint s) (oEndpoint s) false (doExit s) false false
    (Z.of_nat (length ws)) (Z.of_nat (length ws)) (slots ws).

Definition endpoints_ok (acts : Z) (s : server) : Prop :=
  (wants_sync acts = true → endpoint_empty (iEndpoint s) = false)
  ∧ (wants_async acts = true → endpoint_empty (oEndpoint s) = false).

Lemma notify_first b acts s :
  server_idle s → endpoints_ok acts s →
  notify b acts s = (Ret tt, notified b (expected_workers acts) s).
Proof.
  intros [] [Hi Ho]. destruct s; simpl in *; subst.
  unfold notify. erewrite bind_Ret by (rewrite stop_nop by done; reflexivity).
  unfold with_lock, launch_if, expected_workers, notified.
  destruct (wants_sync acts), (wants_async acts); unfold launch; mrun;
    repeat (rewrite ?Hi, ?Ho by done; simpl; mrun); reflexivity.
Qed.

(** Without an endpoint the call throws; a worker launched before that stays. *)
Lemma notify_no_endpoint b acts s :
  server_idle s → 
  (wants_sync acts = true → endpoint_empty (iEndpoint s) = true →
     (notify b acts s).1 = Throw (runtime_error err_msg._zrlngth)
     ∧ workThreads (notify b acts s).2 = slots [])
  ∧ (wants_async acts = true → endpoint_empty (oEndpoint s) = true →
     (wants_sync acts = true → endpoint_empty (iEndpoint s) = false) →
     (notify b acts s).1 = Throw (runtime_error err_msg._zrlngth)
     ∧ workThreads (notify b acts s).2 = slots (if wants_sync acts then [SyncWork] else [])).
Proof.
  intros []. destruct s; simpl in *; subst. unfold notify.
  erewrite bind_Ret by (rewrite stop_nop by done; reflexivity).
  unfold with_lock, launch_if. split.
  - intros -> He. mrun. rewrite He. done.
  - intros -> He Hs. destruct (wants_sync acts); unfold launch; mrun;
      rewrite ?Hs by done; simpl; mrun; rewrite He; done.
Qed.

Lemma notify_unavailable b acts s :
  server_idle s → ¬ endpoints_ok acts s → (notify b acts s).1 = Throw (runtime_error err_msg._zrlngth).
Proof.
  intros Hs Hne. destruct (notify_no_endpoint b acts s Hs) as [Hi Ho]. unfold endpoints_ok in Hne.
  destruct (wants_sync acts) eqn:Es, (endpoint_empty (iEndpoint s)) eqn:Ei;
    try (by apply Hi);
    (destruct (wants_async acts) eqn:Ea, (endpoint_empty (oEndpoint s)) eqn:Eo;
      [by apply Ho|exfalso; apply Hne; naive_solver..]).
Qed.

(** Once a worker occupies the first slot, launching another one terminates. *)
Lemma notify_occupied b acts s w :
  isRunning s = false → stateMutex s = false → workThreads s !! 0 = Some (Some w) →
  endpoints_ok acts s → expected_workers acts ≠ [] →
  (notify b acts s).1 = Fatal Terminate.
Proof.
  intros Hr Hm Hw [Hi Ho] Hne. destruct s as [? ? ? ? ? ? ? ? ? [|[]]]; simpl in *; simplify_eq.
  unfold notify. erewrite bind_Ret by (rewrite stop_nop by done; reflexivity).
  unfold with_lock, launch_if, expected_workers in *.
  destruct (wants_sync acts), (wants_async acts); unfold launch; mrun;
    repeat (rewrite ?Hi, ?Ho by done; simpl; mrun); done.
Qed.

Lemma slots_head ws : ws ≠ [] → ∃ w, slots ws !! 0 = Some (Some w).
Proof. destruct ws as [|w ws]; [done|]. by exists w. Qed.

(** ** Properties *)

(** C33. In every reachable state the server reports that it is not running: no
    operation sets [isRunning], so [stop] returns at once and never signals or
    joins a worker. Both endpoint arrays keep their length and always denote
    strings. *)
Theorem server_never_running s :
  server_reach s →
  isRunning s = false ∧ doExit s = false
  ∧ stop s = (if stateMutex s then Fatal Deadlock else Ret tt, s)
  ∧ length (iEndpoint s) = 128 ∧ length (oEndpoint s) = 128
  ∧ ∃ i o, c_string (iEndpoint s) = Some i ∧ c_string (oEndpoint s) = Some o.
Proof.
  intros Hs%reach_inv. split_and!; try apply Hs.
  - rewrite stop_nop by apply Hs. by case_match.
  - destruct (c_string_nul _ (si_inul _ Hs)) as [i Hi], (c_string_nul _ (si_onul _ Hs)) as [o Ho].
    eauto.
Qed.

(** [setup] stores both endpoints when both fit their arrays with the
    terminator, and the arrays then denote exactly the strings given, whatever
    they held before; otherwise it throws and changes neither. *)
Theorem setup_spec s i o :
  server_inv s → startMutex s = false → nul_free i → nul_free o →
  (strlen i < 128 → strlen o < 128 →
     ∃ s', setup i o s = (Ret tt, s') ∧ c_string (iEndpoint s') = Some i
         ∧ c_string (oEndpoint s') = Some o ∧ server_inv s' ∧ startMutex s' = false
         ∧ workThreads s' = workThreads s)
  ∧ (128 ≤ strlen i ∨ 128 ≤ strlen o →
     setup i o s = (Throw (invalid_argument err_msg._arybnds), s)).
Proof.
  intros Hs Hm Hi Ho. pose proof (setup_preserves i o s Hs) as Hp.
  pose proof (si_ilen _ Hs) as Hil. pose proof (si_olen _ Hs) as Hol.
  pose proof (si_running _ Hs) as Hr. unfold ENDPOINT_LENGTH in *.
  unfold setup, with_lock in *. destruct s; simpl in *; subst. revert Hp. mrun. split.
  - intros Hli Hlo. rewrite decide_False in * by lia. simpl in *.
    eexists; split_and!; [done|by apply c_string_memcpy|by apply c_string_memcpy|done..].
  - intros Hl. by rewrite decide_True by lia.
Qed.

(** The first [notify] launches exactly the workers the supported actions
    ask for, in the slots of [workThreads], hands them the buffer, waits for all
    of them and returns; with an endpoint missing it throws "zero length". *)
Theorem notify_launches b acts s :
  server_idle s →
  (endpoints_ok acts s →
     ∃ s', notify b acts s = (Ret tt, s')
         ∧ workThreads s' = slots (expected_workers acts)
         ∧ startupState s' = Z.of_nat (length (expected_workers acts))
         ∧ startupState s' = startupStateTarget s'
         ∧ moduleAsyncBuffer s' = Some b
         ∧ (SyncWork ∈ expected_workers acts ↔ check REQUEST acts = true ∨ check PUSH acts = true)
         ∧ (AsyncWork ∈ expected_workers acts ↔ check REPLY acts = true ∨ check WAIT acts = true))
  ∧ (¬ endpoints_ok acts s → (notify b acts s).1 = Throw (runtime_error err_msg._zrlngth)).
Proof.
  intros Hs. split.
  - intros He. rewrite notify_first by done. eexists; split_and!; try done.
    + unfold expected_workers, wants_sync, wants_async.
      destruct (check REQUEST acts), (check PUSH acts), (check REPLY acts), (check WAIT acts);
        simpl; set_solver.
    + unfold expected_workers, wants_sync, wants_async.
      destruct (check REQUEST acts), (check PUSH acts), (check REPLY acts), (check WAIT acts);
        simpl; set_solver.
  - by apply notify_unavailable.
Qed.

(** What a worker sees: on a server that has been set up and notified, the
    endpoints denote the strings given to [setup], the buffer is the one given to
    [notify], and there is nothing to exit for. Before any [notify] there is no
    buffer to ask for. *)
Theorem worker_view i o b acts s :
  setup i o server_init = (Ret tt, s) → nul_free i → nul_free o → endpoints_ok acts s →
  ∃ s', notify b acts s = (Ret tt, s')
    ∧ (∃ ibuf, get_iEndpoint s' = (Ret ibuf, s') ∧ c_string ibuf = Some i)
    ∧ (∃ obuf, get_oEndpoint s' = (Ret obuf, s') ∧ c_string obuf = Some o)
    ∧ module_async_buffer s' = (Ret b, s') ∧ do_exit s' = (Ret false, s')
    ∧ module_async_buffer s = (Fatal Undefined, s).
Proof.
  intros Hs Hi Ho He.
  destruct (setup_spec server_init i o server_inv_init eq_refl Hi Ho) as [Hok Hbad].
  destruct (decide (strlen i < 128 ∧ strlen o < 128)) as [[Hli Hlo]|Hl].
  - assert (server_idle s ∧ moduleAsyncBuffer s = None ∧ doExit s = false) as (Hidle & Hb & Hx).
    { revert Hs. unfold setup, with_lock. mrun. rewrite decide_False by lia. simpl. by intros [= <-]. }
    destruct (Hok Hli Hlo) as (s1 & Hs1 & Hci & Hco & _). rewrite Hs in Hs1. injection Hs1 as <-.
    eexists. split; [by apply notify_first|]. split_and!; [by eexists|by eexists|done| |].
    + unfold do_exit. mrun. by rewrite Hx.
    + unfold module_async_buffer. mrun. by rewrite Hb.
  - rewrite Hbad in Hs by lia. done.
Qed.

(** A processing unit can be loaded once: after a first [notify] that
    launched a worker, a second one that asks for any worker assigns a thread
    over a joinable one and terminates the program. *)
Theorem notify_twice_terminates b1 b2 acts1 acts2 s s1 :
  server_idle s → endpoints_ok acts1 s → endpoints_ok acts2 s →
  expected_workers acts1 ≠ [] → expected_workers acts2 ≠ [] →
  notify b1 acts1 s = (Ret tt, s1) →
  (notify b2 acts2 s1).1 = Fatal Terminate.
Proof.
  intros Hs He1 He2 Hw1 Hw2. rewrite notify_first by done. intros [= <-].
  destruct (slots_head _ Hw1) as [w Hw]. by eapply (notify_occupied _ _ _ w).
Qed.

(** Shutdown: destroying a server whose [notify] launched a worker calls
    [std::terminate], because [stop] leaves the worker threads joinable; only a
    server without workers is destroyed normally. *)
Theorem server_dtor_terminates b acts s s1 :
  server_idle s → endpoints_ok acts s → notify b acts s = (Ret tt, s1) →
  (server_dtor s1).1 = if decide (expected_workers acts = []) then Ret tt else Fatal Terminate.
Proof.
  intros Hs He. rewrite notify_first by done. intros [= <-].
  unfold server_dtor. erewrite bind_Ret by (rewrite stop_nop by done; reflexivity).
  unfold destroy_threads, notified, slots. mrun.
  destruct (expected_workers acts) as [|w ws]; simpl.
  - done.
  - done.
Qed.

(** ** Witnesses: a server set up for the brazil module's actions *)

Definition sample_server : server := (setup "tcp://lo:1" "tcp://lo:2" server_init).2.
Definition brazil_actions : Z := pack PUSH [WAIT].

Lemma sample_idle : server_idle sample_server.
Proof. by split. Qed.

Lemma sample_endpoints : endpoints_ok brazil_actions sample_server.
Proof. by split. Qed.

Lemma sample_nul_free : nul_free "tcp://lo:1" ∧ nul_free "tcp://lo:2".
Proof. split; apply (bool_decide_unpack _); by vm_compute. Qed.

Lemma server_never_running_witness :
  server_reach (notify 0 brazil_actions sample_server).2
  ∧ isRunning (notify 0 brazil_actions sample_server).2 = false.
Proof.
  assert (server_reach (notify 0 brazil_actions sample_server).2) as Hr
    by (apply reach_notify, reach_setup, reach_init).
  split; [exact Hr|]. exact (proj1 (server_never_running _ Hr)).
Defined.

Lemma setup_spec_witness :
  (server_inv server_init ∧ nul_free "tcp://lo:1" ∧ nul_free "tcp://lo:2")
  ∧ ∃ s', setup "tcp://lo:1" "tcp://lo:2" server_init = (Ret tt, s')
        ∧ c_string (iEndpoint s') = Some "tcp://lo:1".
Proof.
  destruct sample_nul_free as [Hi Ho].
  split; [split_and!; [exact server_inv_init|exact Hi|exact Ho]|].
  destruct (proj1 (setup_spec server_init _ _ server_inv_init eq_refl Hi Ho))
    as (s' & H1 & H2 & _); [simpl; lia|simpl; lia|].
  exists s'. split; [exact H1|exact H2].
Defined.

Lemma notify_launches_witness :
  server_idle sample_server ∧ endpoints_ok brazil_actions sample_server
  ∧ ∃ s', notify 7 brazil_actions sample_server = (Ret tt, s')
        ∧ workThreads s' = [Some SyncWork; Some AsyncWork].
Proof.
  split_and!; [exact sample_idle|exact sample_endpoints|].
  destruct (proj1 (notify_launches 7 brazil_actions sample_server sample_idle) sample_endpoints)
    as (s' & H1 & H2 & _).
  exists s'. split; [exact H1|]. rewrite H2. reflexivity.
Defined.

Lemma notify_twice_terminates_witness :
  expected_workers brazil_actions ≠ []
  ∧ (notify 7 brazil_actions (notify 7 brazil_actions sample_server).2).1 = Fatal Terminate.
Proof.
  assert (expected_workers brazil_actions ≠ []) as Hne by done.
  split; [exact Hne|].
  apply (notify_twice_terminates 7 7 brazil_actions brazil_actions sample_server);
    [exact sample_idle|exact sample_endpoints..|exact Hne|exact Hne|].
  rewrite notify_first by (exact sample_idle || exact sample_endpoints). reflexivity.
Defined.

Lemma server_dtor_terminates_witness :
  notify 7 brazil_actions sample_server = (Ret tt, (notify 7 brazil_actions sample_server).2)
  ∧ (server_dtor (notify 7 brazil_actions sample_server).2).1 = Fatal Terminate.
Proof.
  assert (notify 7 brazil_actions sample_server = (Ret tt, (notify 7 brazil_actions sample_server).2))
    as Hn by (rewrite notify_first by (exact sample_idle || exact sample_endpoints); reflexivity).
  split; [exact Hn|].
  rewrite (server_dtor_terminates 7 brazil_actions _ _ sample_idle sample_endpoints Hn).
  reflexivity.
Defined.

Lemma worker_view_witness :
  ∃ s', notify 7 brazil_actions sample_server = (Ret tt, s') ∧ module_async_buffer s' = (Ret 7, s').
Proof.
  destruct (worker_view "tcp://lo:1" "tcp://lo:2" 7 brazil_actions sample_server eq_refl)
    as (s' & H1 & _ & _ & H2 & _);
    [apply (bool_decide_unpack _); vm_compute; exact I..|exact sample_endpoints|].
  exists s'. exact (conj H1 H2).
Defined.
