(* ===== verification/Startup.v ===== *)
(** * The start-up handshake (net/middleware/server.cpp, [notify] and
    [notify_thread_started])

    [notify] creates the worker threads and waits on [startCV] until
    [startupState == startupStateTarget]; each worker calls
    [notify_thread_started] once. The workers run while [notify] is still
    launching, so the two counters move independently; the step relation below
    has every interleaving of their accesses. [Server.notify] describes the
    same call to a sequential caller. *)

From S2P Require Import Prelude Server.

(** Where the thread inside [notify] is. In C++11 the order of the increment and
    the creation of the thread in [workThreads[startupStateTarget++] =
    std::thread(...)] is unspecified, so both occur. *)
Inductive pc :=
| AtLaunch (todo : list worker)
| Counted (todo : list worker)
| Created (todo : list worker)
| Waiting
| Woken
| Done.

Inductive wpc := Starting | Serving.

#[export] Instance wpc_eq_dec : EqDecision wpc.
Proof. solve_decision. Defined.

Record hs := HS {
  h_state : Z;
  h_target : Z;
  h_main : pc;
  h_workers : list wpc;
}.

Definition hs_init (ws : list worker) : hs := HS 0 0 (AtLaunch ws) [].

(** [startCV.notify_all()] *)
Definition wake (m : pc) : pc :=
  match m with
  | Waiting => Woken
  | _ => m
  end.

(** [++startupState == startupStateTarget] by worker [i]. *)
Definition worker_signal (i : nat) (h : hs) : hs :=
  let n := wrap 32 (h_state h + 1) in
  HS n (h_target h)
    (if decide (n = h_target h) then wake (h_main h) else h_main h)
    (<[i := Serving]> (h_workers h)).

(** The predicate of the wait, with the mutex held. *)
Definition wait_check (h : hs) : hs :=
  HS (h_state h) (h_target h)
    (if decide (h_state h = h_target h) then Done else Waiting) (h_workers h).

Inductive hstep : hs → hs → Prop :=
| step_create_first st tg w todo wk :
    hstep (HS st tg (AtLaunch (w :: todo)) wk) (HS st tg (Created todo) (wk ++ [Starting]))
| step_then_count st tg todo wk :
    hstep (HS st tg (Created todo) wk) (HS st (wrap 32 (tg + 1)) (AtLaunch todo) wk)
| step_count_first st tg w todo wk :
    hstep (HS st tg (AtLaunch (w :: todo)) wk) (HS st (wrap 32 (tg + 1)) (Counted todo) wk)
| step_then_create st tg todo wk :
    hstep (HS st tg (Counted todo) wk) (HS st tg (AtLaunch todo) (wk ++ [Starting]))
| step_wait st tg wk :
    hstep (HS st tg (AtLaunch []) wk) (wait_check (HS st tg (AtLaunch []) wk))
| step_woken st tg wk :
    hstep (HS st tg Woken wk) (wait_check (HS st tg Woken wk))
| step_worker i h :
    h_workers h !! i = Some Starting → hstep h (worker_signal i h).

(** A spurious wake-up of the waiting thread. *)
Inductive hspurious : hs → hs → Prop :=
| step_spurious st tg wk : hspurious (HS st tg Waiting wk) (HS st tg Woken wk).

Definition hany (h h' : hs) : Prop := hstep h h' ∨ hspurious h h'.

(** ** The invariant *)

Definition serving (wk : list wpc) : nat := length (filter (.= Serving) wk).

Definition todo_of (m : pc) : list worker :=
  match m with
  | AtLaunch todo | Counted todo | Created todo => todo
  | _ => []
  end.

(** Threads created and increments made, relative to each other. *)
Definition created_ahead (m : pc) : Z := match m with Created _ => 1 | _ => 0 end.
Definition counted_ahead (m : pc) : Z := match m with Counted _ => 1 | _ => 0 end.

Record hinv (n : nat) (h : hs) : Prop := {
  hi_state : h_state h = Z.of_nat (serving (h_workers h));
  hi_target : (h_target h + created_ahead (h_main h))%Z
              = (Z.of_nat (length (h_workers h)) + counted_ahead (h_main h))%Z;
  hi_total : (Z.of_nat (length (h_workers h)) + counted_ahead (h_main h)
              + Z.of_nat (length (todo_of (h_main h))))%Z = Z.of_nat n;
  hi_waiting : h_main h = Waiting → h_state h ≠ h_target h;
  hi_done : h_main h = Done → h_state h = h_target h ∧ serving (h_workers h) = n;
}.

Lemma serving_app wk x : serving (wk ++ [x]) = serving wk + serving [x].
Proof. unfold serving. by rewrite filter_app, length_app. Qed.

Lemma serving_le wk : serving wk ≤ length wk.
Proof. apply length_filter. Qed.

Lemma serving_insert wk i :
  wk !! i = Some Starting → serving (<[i := Serving]> wk) = S (serving wk).
Proof.
  unfold serving. revert i; induction wk as [|x wk IH]; intros [|i]; simpl; try done.
  - by intros [= ->].
  - intros Hi. rewrite !filter_cons. case_decide; simpl; by rewrite IH.
Qed.

Lemma serving_all wk : serving wk = length wk → ∀ i, wk !! i ≠ Some Starting.
Proof.
  intros Hs i Hi. pose proof (serving_insert _ _ Hi). pose proof (serving_le (<[i:=Serving]> wk)).
  rewrite length_insert in *. lia.
Qed.

Lemma not_all_serving wk : serving wk < length wk → ∃ i, wk !! i = Some Starting.
Proof.
  unfold serving. induction wk as [|[] wk IH]; simpl; [lia|by exists 0|].
  intros Hl.
  destruct IH as [i Hi]; [lia|]. by exists (S i).
Qed.

Lemma hinv_init ws : hinv (length ws) (hs_init ws).
Proof. split; simpl; [done|lia|lia|done|done]. Qed.

Lemma hinv_check n h :
  hinv n h → todo_of (h_main h) = [] → created_ahead (h_main h) = 0%Z →
  counted_ahead (h_main h) = 0%Z → hinv n (wait_check h).
Proof.
  intros [Hs Ht Hn _ _] H1 H2 H3. rewrite H1, H3 in Hn. rewrite H2, H3 in Ht. simpl in Hn.
  unfold wait_check. split; simpl; [done|case_decide; simpl; lia..| |].
  - intros Hw. case_decide; done.
  - intros Hd. case_decide as He; [|done]. split; [done|]. lia.
Qed.

Lemma hinv_worker n h i :
  (Z.of_nat n < 2 ^ 32)%Z → h_workers h !! i = Some Starting → hinv n h →
  hinv n (worker_signal i h).
Proof.
  intros Hmax Hi [Hs Ht Hn Hw Hd]. unfold worker_signal.
  pose proof (serving_insert _ _ Hi) as Hsi.
  pose proof (serving_le (<[i := Serving]> (h_workers h))) as Hle. rewrite length_insert in Hle.
  assert (wrap 32 (h_state h + 1) = h_state h + 1)%Z as Hwr.
  { apply wrap_small. destruct (h_main h); simpl in *; lia. }
  rewrite Hwr. split; simpl; rewrite ?length_insert, ?Hsi; [lia| | | |];
    destruct (decide (h_state h + 1 = h_target h)%Z); destruct (h_main h); simpl in *;
    try done; try lia; intros; naive_solver lia.
Qed.

Lemma hstep_inv n h h' : (Z.of_nat n < 2 ^ 32)%Z → hany h h' → hinv n h → hinv n h'.
Proof.
  intros Hmax [Hstep|Hstep] Hinv.
  - destruct Hstep as [st tg w todo wk|st tg todo wk|st tg w todo wk|st tg todo wk|st tg wk|st tg wk|i h Hi].
    5,6: by apply hinv_check.
    5: by apply hinv_worker.
    all: destruct Hinv as [Hs Ht Hn _ _]; simpl in *.
    all: split; simpl; rewrite ?serving_app, ?length_app; simpl; try done; try lia.
    all: change (serving [Starting]) with 0 || idtac; rewrite ?wrap_small by lia; lia.
  - destruct Hstep. destruct Hinv as [Hs Ht Hn _ _]. by split.
Qed.

Lemma hreach_inv ws h :
  (Z.of_nat (length ws) < 2 ^ 32)%Z → rtc hany (hs_init ws) h → hinv (length ws) h.
Proof.
  intros Hmax. apply (rtc_ind_r (R := hany) (λ h, hinv (length ws) h)); [apply hinv_init|].
  intros h1 h2 _ Hstep Hinv. by eapply hstep_inv.
Qed.

(** ** Termination *)

(** Steps left: two for each worker to launch, one to start, and for the waiting
    thread its checks. *)
Definition main_steps (m : pc) : nat :=
  match m with
  | AtLaunch todo => 5 * length todo + 2
  | Counted todo => 5 * length todo + 6
  | Created todo => 5 * length todo + 4
  | Woken => 2
  | Waiting => 1
  | Done => 0
  end.

Definition starting (wk : list wpc) : nat := length wk - serving wk.

Definition hmeasure (h : hs) : nat :=
  main_steps (h_main h) + 2 * starting (h_workers h).

Lemma hstep_measure h h' : hstep h h' → hmeasure h' < hmeasure h.
Proof.
  unfold hmeasure, starting.
  destruct 1 as [st tg w todo wk|st tg todo wk|st tg w todo wk|st tg todo wk|st tg wk|st tg wk|i h Hi];
    simpl; rewrite ?serving_app, ?length_app; simpl;
    try (pose proof (serving_le wk); lia).
  - case_decide; simpl; lia.
  - case_decide; simpl; lia.
  - pose proof (serving_insert _ _ Hi) as Hsi.
    pose proof (serving_le (<[i := Serving]> (h_workers h))) as Hle. rewrite length_insert in *.
    rewrite Hsi. case_decide; destruct (h_main h); simpl; lia.
Qed.

Lemma hstep_sn h : sn hstep h.
Proof.
  assert (∀ k h, hmeasure h < k → sn hstep h) as Hk; [|apply (Hk (S (hmeasure h))); lia].
  intros k; induction k as [|k IH]; intros h' Hm; [lia|].
  constructor. intros h'' Hstep%hstep_measure. apply IH. lia.
Qed.

(** Only a finished handshake has no step left. *)
Lemma hstep_progress n h : hinv n h → h_main h = Done ∨ red hstep h.
Proof.
  intros [Hs Ht Hn Hw Hd]. destruct h as [st tg m wk]; simpl in *.
  destruct m as [[|w todo]|todo|todo| | |]; [right; eexists; econstructor..| | |by left].
  - right. simpl in *. destruct (not_all_serving wk) as [i Hi].
    + pose proof (serving_le wk). specialize (Hw eq_refl). lia.
    + eexists. by apply (step_worker i (HS st tg Waiting wk)).
  - right. eexists; econstructor.
Qed.

(** ** Properties *)

(** C12. No wake-up is lost in the handshake: in every interleaving, while
    [notify] is blocked some worker has not signalled yet, and when [notify]
    returns every worker it launched has, and the counters agree. *)
Theorem startup_safe ws h :
  (Z.of_nat (length ws) < 2 ^ 32)%Z → rtc hany (hs_init ws) h →
  (h_main h = Waiting → ∃ i, h_workers h !! i = Some Starting)
  ∧ (h_main h = Done →
       h_workers h = replicate (length ws) Serving
       ∧ h_state h = Z.of_nat (length ws) ∧ h_target h = Z.of_nat (length ws)).
Proof.
  intros Hmax Hr. destruct (hreach_inv _ _ Hmax Hr) as [Hs Ht Hn Hw Hd]. split.
  - intros Hm. specialize (Hw Hm). rewrite Hm in *. simpl in *. apply not_all_serving.
    pose proof (serving_le (h_workers h)). lia.
  - intros Hm. destruct (Hd Hm) as [Heq Hall]. rewrite Hm in *. simpl in *.
    assert (length (h_workers h) = length ws) as Hl by lia.
    split_and!; [|lia..]. apply list_eq. intros i.
    destruct (decide (i < length ws)) as [Hi|Hi].
    + rewrite lookup_replicate_2 by done.
      destruct (lookup_lt_is_Some_2 (h_workers h) i) as [x Hx]; [lia|].
      destruct x; [|done]. exfalso. eapply serving_all; [|done]. lia.
    + rewrite (lookup_ge_None_2 (h_workers h)) by lia.
      symmetry. apply lookup_ge_None_2. rewrite length_replicate. lia.
Qed.

(** C16. The handshake terminates: from every reachable state, after finitely many
    steps of the workers and of [notify] (spurious wake-ups apart) no step is
    left, and then [notify] has returned. *)
Theorem startup_terminates ws h :
  (Z.of_nat (length ws) < 2 ^ 32)%Z → rtc hany (hs_init ws) h →
  sn hstep h ∧ (nf hstep h → h_main h = Done)
  ∧ ∃ h', rtc hstep h h' ∧ h_main h' = Done.
Proof.
  intros Hmax Hr. pose proof (hreach_inv _ _ Hmax Hr) as Hinv. split_and!.
  - apply hstep_sn.
  - intros Hnf. by destruct (hstep_progress _ _ Hinv).
  - clear Hr. induction (hstep_sn h) as [h _ IH].
    destruct (hstep_progress _ _ Hinv) as [Hd|[h' Hstep]]; [by exists h|].
    destruct (IH h' Hstep) as (h'' & Hr & Hd).
    + eapply hstep_inv; [done|by left|done].
    + exists h''. split; [by eapply rtc_l|done].
Qed.

(** C25. The sequential reading agrees with the interleavings: whenever the
    handshake over the workers of [notify] is over, the two counters are those
    [Server.notify] leaves, one signalled worker for each occupied slot. *)
Theorem startup_refines_notify b acts s h :
  server_idle s → endpoints_ok acts s →
  rtc hany (hs_init (expected_workers acts)) h → h_main h = Done →
  ∃ s', notify b acts s = (Ret tt, s')
      ∧ h_state h = startupState s' ∧ h_target h = startupStateTarget s'
      ∧ length (h_workers h) = length (filter is_Some (workThreads s')).
Proof.
  intros Hs He Hr Hd. eexists; split; [by apply notify_first|].
  assert (Z.of_nat (length (expected_workers acts)) < 2 ^ 32)%Z as Hmax
    by (unfold expected_workers; destruct (wants_sync acts), (wants_async acts); simpl; lia).
  destruct (startup_safe _ _ Hmax Hr) as [_ Hsafe].
  destruct (Hsafe Hd) as (Hw & Hst & Htg). rewrite Hw, length_replicate.
  split_and!; [done..|]. unfold notified, slots, expected_workers. simpl.
  by destruct (wants_sync acts), (wants_async acts).
Qed.

(** ** Witnesses: one worker, created and counted, [notify] blocked, the worker
    signalling and [notify] returning. *)

Definition blocked_state : hs := HS 0 1 Waiting [Starting].
Definition done_state : hs := HS 1 1 Done [Serving].

Lemma blocked_reachable : rtc hany (hs_init [SyncWork]) blocked_state.
Proof.
  eapply rtc_l; [left; apply step_create_first|].
  eapply rtc_l; [left; apply step_then_count|].
  eapply rtc_l; [left; apply step_wait|]. reflexivity.
Qed.

Lemma done_reachable : rtc hany (hs_init [SyncWork]) done_state.
Proof.
  etransitivity; [apply blocked_reachable|].
  eapply rtc_l; [left; by apply (step_worker 0)|].
  eapply rtc_l; [left; apply step_woken|]. reflexivity.
Qed.

Lemma startup_safe_witness :
  rtc hany (hs_init [SyncWork]) blocked_state
  ∧ (∃ i, h_workers blocked_state !! i = Some Starting)
  ∧ h_workers done_state = replicate 1 Serving.
Proof.
  split_and!; [exact blocked_reachable| |].
  - apply (startup_safe [SyncWork] blocked_state); [simpl; lia|exact blocked_reachable|reflexivity].
  - apply (startup_safe [SyncWork] done_state); [simpl; lia|exact done_reachable|reflexivity].
Defined.

Lemma startup_terminates_witness :
  sn hstep blocked_state ∧ ∃ h', rtc hstep blocked_state h' ∧ h_main h' = Done.
Proof.
  destruct (startup_terminates [SyncWork] blocked_state) as (H1 & _ & H2);
    [simpl; lia|exact blocked_reachable|]. split; [exact H1|exact H2].
Defined.

Lemma startup_refines_notify_witness :
  h_main (HS 2 2 Done [Serving; Serving]) = Done
  ∧ ∃ s', notify 7 brazil_actions sample_server = (Ret tt, s')
        ∧ 2%Z = startupState s' ∧ 2%Z = startupStateTarget s'
        ∧ 2 = length (filter is_Some (workThreads s')).
Proof.
  split; [reflexivity|].
  apply (startup_refines_notify 7 brazil_actions sample_server (HS 2 2 Done [Serving; Serving]));
    [exact sample_idle|exact sample_endpoints| |reflexivity].
  eapply rtc_l; [left; apply step_create_first|].
  eapply rtc_l; [left; apply step_then_count|].
  eapply rtc_l; [left; apply step_count_first|].
  eapply rtc_l; [left; apply step_then_create|].
  eapply rtc_l; [left; by apply (step_worker 0)|].
  eapply rtc_l; [left; by apply (step_worker 1)|].
  eapply rtc_l; [left; apply step_wait|]. reflexivity.
Defined.
