(* ===== verification/CString.v ===== *)
(** * The C library functions the processing units use

    [strtoul] in base 10 and the address parser built from it by the simulated
    switch and by the hardware transceiver (module/trabea/proc_unit/
    circulator_switch.cpp, module/brazil/proc_unit/lcc_and_fpga.cpp), and
    [htonl] on a little-endian host. *)

From S2P Require Import Prelude.

Section cstring.
Local Open Scope Z_scope.

Definition isspace (c : ascii) : bool :=
  let n := N_of_ascii c in bool_decide (n = 32%N ∨ (9 ≤ n ≤ 13)%N).

Definition isdigit (c : ascii) : bool :=
  let n := N_of_ascii c in bool_decide (48 ≤ n ≤ 57)%N.

Definition digit (c : ascii) : Z := Z.of_N (N_of_ascii c) - 48.

(** The value of the digits at the front and what follows them. *)
Fixpoint scan_digits (acc : Z) (s : list ascii) : Z * list ascii :=
  match s with
  | c :: s' => if isdigit c then scan_digits (10 * acc + digit c) s' else (acc, s)
  | [] => (acc, [])
  end.

Fixpoint skip_spaces (s : list ascii) : list ascii :=
  match s with
  | c :: s' => if isspace c then skip_spaces s' else s
  | [] => []
  end.

Definition ULONG_MAX : Z := 2 ^ 64 - 1.

(** The sign, the magnitude and what follows the number, if there is one. *)
Definition scan_number (s : list ascii) : option (bool * Z * list ascii) :=
  let s1 := skip_spaces s in
  let '(neg, s2) :=
    match s1 with
    | c :: s' =>
        if decide (c = "-"%char) then (true, s')
        else if decide (c = "+"%char) then (false, s') else (false, s1)
    | [] => (false, s1)
    end in
  match s2 with
  | c :: _ =>
      if isdigit c then let '(v, rest) := scan_digits 0 s2 in Some (neg, v, rest) else None
  | [] => None
  end.

Definition signed_value (neg : bool) (v : Z) : Z := if neg then wrap 64 (- v) else v.

(** [strtoul(s, &end, 10)] on the characters before the terminator: the value
    and the characters from [end] on. Without digits nothing is consumed. *)
Definition strtoul (s : list ascii) : Z * list ascii :=
  match scan_number s with
  | Some (neg, v, rest) => (if decide (ULONG_MAX < v) then ULONG_MAX else signed_value neg v, rest)
  | None => (0, s)
  end.

(** [std::stoul(s, nullptr, 10)]; [std::out_of_range] is a [logic_error]. *)
Definition stoul (s : list ascii) : outcome Z :=
  match scan_number s with
  | Some (neg, v, _) =>
      if decide (ULONG_MAX < v) then Throw (logic_error "stoul") else Ret (signed_value neg v)
  | None => Throw (invalid_argument "stoul")
  end.

(** [end++], and reading a string from there: past the terminator that is
    undefined. *)
Definition skip_char (s : list ascii) : outcome (list ascii) :=
  match s with
  | _ :: s' => Ret s'
  | [] => Fatal Undefined
  end.

(** The value of an 8-byte integer whose bytes [pnIP[3]], ..., [pnIP[0]] are
    assigned the four numbers of the address, each truncated to [char]. *)
Definition parse_ip (address : string) : outcome Z :=
  let '(b3, end1) := strtoul (chars address) in
  out_bind (skip_char end1) (λ s,
  let '(b2, end2) := strtoul s in
  out_bind (skip_char end2) (λ s,
  let '(b1, end3) := strtoul s in
  out_bind (skip_char end3) (λ s,
  let '(b0, _) := strtoul s in
  Ret (le_value [wrap 8 b0; wrap 8 b1; wrap 8 b2; wrap 8 b3; 0; 0; 0; 0])))).

(** [htonl] of the value converted to [uint32_t]. *)
Definition htonl (x : Z) : Z := le_value (rev (le_bytes 4 (wrap 32 x))).

(** ** Numbers written in decimal *)

Definition is_decimal (ds : list ascii) : Prop := ds ≠ [] ∧ Forall (λ c, isdigit c = true) ds.

#[export] Instance is_decimal_dec ds : Decision (is_decimal ds).
Proof. unfold is_decimal. apply _. Defined.

Definition decimal_value (ds : list ascii) : Z := (scan_digits 0 ds).1.

Definition starts_with_digit (s : list ascii) : bool :=
  match s with c :: _ => isdigit c | [] => false end.

Lemma scan_digits_app acc ds rest :
  Forall (λ c, isdigit c = true) ds → starts_with_digit rest = false →
  scan_digits acc (ds ++ rest) = ((scan_digits acc ds).1, rest).
Proof.
  intros Hds Hr. revert acc; induction Hds as [|c ds Hc _ IH]; intros acc; simpl.
  - destruct rest as [|c rest]; simpl in *; [done|by rewrite Hr].
  - by rewrite Hc.
Qed.

Lemma isdigit_cases c : isdigit c = true → (48 ≤ N_of_ascii c ≤ 57)%N.
Proof. unfold isdigit. apply bool_decide_eq_true. Qed.

Lemma scan_digits_nonneg acc ds : 0 <= acc → 0 <= (scan_digits acc ds).1.
Proof.
  revert acc; induction ds as [|c ds IH]; intros acc Ha; simpl; [done|].
  destruct (isdigit c) eqn:Hc; simpl; [|done]. apply isdigit_cases in Hc. apply IH.
  unfold digit. lia.
Qed.

Lemma scan_number_decimal ds rest :
  is_decimal ds → starts_with_digit rest = false →
  scan_number (ds ++ rest) = Some (false, decimal_value ds, rest).
Proof.
  intros [Hne Hds] Hr. destruct ds as [|c ds]; [done|].
  pose proof (scan_digits_app 0 _ _ Hds Hr) as Hscan.
  inversion Hds as [|? ? Hc _]; subst.
  assert (isspace c = false) as Hsp.
  { apply isdigit_cases in Hc. unfold isspace. apply bool_decide_eq_false. lia. }
  unfold scan_number. simpl skip_spaces. rewrite Hsp. simpl app in Hscan |- *.
  rewrite !decide_False by (intros ->; discriminate Hc). by rewrite Hc, Hscan.
Qed.

Lemma strtoul_decimal ds rest :
  is_decimal ds → starts_with_digit rest = false → decimal_value ds <= ULONG_MAX →
  strtoul (ds ++ rest) = (decimal_value ds, rest).
Proof.
  intros Hd Hr Hv. unfold strtoul. rewrite scan_number_decimal by done.
  by rewrite decide_False by lia.
Qed.

Lemma stoul_decimal ds :
  is_decimal ds → decimal_value ds <= ULONG_MAX → stoul ds = Ret (decimal_value ds).
Proof.
  intros Hd Hv. unfold stoul. rewrite <-(app_nil_r ds), scan_number_decimal by done.
  rewrite app_nil_r. by rewrite decide_False by lia.
Qed.

Lemma wrap8_small x : 0 <= x < 256 → wrap 8 x = x.
Proof. intros Hx. apply (wrap_small 8). lia. Qed.

(** ** Properties *)

(** The address parser reads a dotted quad correctly: for any four decimal
    numerals below 256 it computes the number with the first of them in the most
    significant byte, and [htonl] of it has the first of them in the least
    significant byte, the network order the simulator expects. An address that
    ends before its third dot makes the parser read past the terminator. *)
Theorem parse_ip_dotted d1 d2 d3 d4 s :
  Forall is_decimal [d1; d2; d3; d4] →
  Forall (λ d, decimal_value d < 256) [d1; d2; d3; d4] →
  chars s = d1 ++ "."%char :: d2 ++ "."%char :: d3 ++ "."%char :: d4 →
  parse_ip s = Ret (decimal_value d1 * 2 ^ 24 + decimal_value d2 * 2 ^ 16
                    + decimal_value d3 * 2 ^ 8 + decimal_value d4)
  ∧ (∀ n, parse_ip s = Ret n →
       htonl n = decimal_value d4 * 2 ^ 24 + decimal_value d3 * 2 ^ 16
                 + decimal_value d2 * 2 ^ 8 + decimal_value d1)
  ∧ ∀ s', chars s' = d1 ++ "."%char :: d2 → parse_ip s' = Fatal Undefined.
Proof.
  intros Hds Hvs Hs. repeat (apply Forall_cons in Hds as [? Hds]).
  repeat (apply Forall_cons in Hvs as [? Hvs]).
  assert (∀ d, 0 <= decimal_value d) as Hnn by (intros; by apply scan_digits_nonneg).
  assert (parse_ip s = Ret (decimal_value d1 * 2 ^ 24 + decimal_value d2 * 2 ^ 16
                    + decimal_value d3 * 2 ^ 8 + decimal_value d4)) as Hp.
  { unfold parse_ip. rewrite Hs.
    rewrite strtoul_decimal by (done || unfold ULONG_MAX; lia). cbn [skip_char out_bind].
    rewrite strtoul_decimal by (done || unfold ULONG_MAX; lia). cbn [skip_char out_bind].
    rewrite strtoul_decimal by (done || unfold ULONG_MAX; lia). cbn [skip_char out_bind].
    rewrite <-(app_nil_r d4), strtoul_decimal by (done || unfold ULONG_MAX; lia).
    rewrite app_nil_r, !wrap8_small by auto. f_equal. simpl. lia. }
  split; [done|]. split.
  - intros n. rewrite Hp. intros [= <-]. unfold htonl.
    pose proof (Hnn d1). pose proof (Hnn d2). pose proof (Hnn d3). pose proof (Hnn d4).
    rewrite wrap_small by lia.
    assert (le_bytes 4 (decimal_value d1 * 2 ^ 24 + decimal_value d2 * 2 ^ 16
              + decimal_value d3 * 2 ^ 8 + decimal_value d4)
            = [decimal_value d4; decimal_value d3; decimal_value d2; decimal_value d1]) as ->.
    { rewrite <-(le_bytes_value [decimal_value d4; decimal_value d3; decimal_value d2;
        decimal_value d1]) by (repeat constructor; unfold is_byte; lia).
      f_equal. simpl. lia. }
    simpl. lia.
  - intros s' Hs'. unfold parse_ip. rewrite Hs'.
    rewrite strtoul_decimal by (done || unfold ULONG_MAX; lia). cbn [skip_char out_bind].
    rewrite <-(app_nil_r d2), strtoul_decimal by (done || unfold ULONG_MAX; lia). done.
Qed.

Lemma parse_ip_dotted_witness :
  parse_ip "192.168.0.17" = Ret 3232235537 ∧ htonl 3232235537 = 285255872
  ∧ parse_ip "10.0" = Fatal Undefined.
Proof.
  destruct (parse_ip_dotted (chars "192") (chars "168") (chars "0") (chars "17") "192.168.0.17")
    as (H1 & H2 & _).
  - repeat constructor; done.
  - repeat constructor.
  - reflexivity.
  - split_and!; [exact H1|exact (H2 _ H1)|].
    destruct (parse_ip_dotted (chars "10") (chars "0") (chars "0") (chars "1") "10.0.0.1")
      as (_ & _ & H3); [repeat constructor; done|repeat constructor|reflexivity|].
    apply H3. reflexivity.
Defined.
End cstring.
