(* ===== verification/ProcUnit.v ===== *)
(** * The processing-unit interface (module/iproc_unit.hpp)

    What a module asks of the processing unit it has loaded, as a type class: the
    virtual functions of [iproc_unit], and the promise its warning comments make
    about the buffer. A unit is an object of type [P]; [async_work] also pushes
    into the buffer of the module, whose items own heap blocks.

    Also here: the option parser the units initialise themselves with (Boost's
    tokenizer and program_options are dependencies, hence parameters). *)

From S2P Require Import Prelude BufferItem QueueBuffer Json MiddlewareMessages.

(** ** Options *)

Inductive opt_type := OptString | OptNumber (width : Z) | OptFlag.

(** A row of [desc.add_options()]. *)
Record opt_desc := OptDesc { opt_name : string; opt_kind : opt_type; opt_required : bool }.

Inductive opt_value := StringOpt (s : string) | NumberOpt (n : Z).

(** Tokenizing the string, parsing the tokens and storing the values. [Ret None]
    is a [program_options::error], which the units answer with [exit(-1)]; a
    tokenizer error is an exception. *)
Class BoostOptions := {
  parse_options : list opt_desc → string → outcome (option (gmap string opt_value));
}.

(** A variable bound to an option keeps its initial value when it is not given. *)
Definition opt_string (vals : gmap string opt_value) (name : string) (initial : string) : string :=
  match vals !! name with Some (StringOpt s) => s | _ => initial end.
Definition opt_number (vals : gmap string opt_value) (name : string) (initial : Z) : Z :=
  match vals !! name with Some (NumberOpt n) => n | _ => initial end.

(** [try { parse } catch(program_options::error&) { exit(-1); }] *)
Definition options_or_exit {S} `{BoostOptions} (descs : list opt_desc) (parameters : string) :
    M S (gmap string opt_value) :=
  o <- lift (parse_options descs parameters) ;;
  match o with
  | Some vals => ret vals
  | None => fail (ExitProcess (-1))
  end.

(** A parser that knows one command line, for the witnesses. *)
Definition constant_options (vals : gmap string opt_value) : BoostOptions :=
  {| parse_options _ _ := Ret (Some vals) |}.

(** ** The interface *)

(** What [async_work(out)] can touch: the unit, the heap, the buffer [out]. *)
Record async_env (P B : Type) := AsyncEnv {
  env_unit : P;
  env_heap : heap;
  env_buffer : B;
}.
Arguments AsyncEnv {P B} env_unit env_heap env_buffer.
Arguments env_unit {P B} a.
Arguments env_heap {P B} a.
Arguments env_buffer {P B} a.

Definition l_unit {P B} : lens (async_env P B) P :=
  Lens env_unit (λ x e, AsyncEnv x (env_heap e) (env_buffer e)).
Definition l_heap {P B} : lens (async_env P B) heap :=
  Lens env_heap (λ x e, AsyncEnv (env_unit e) x (env_buffer e)).
Definition l_buffer {P B} : lens (async_env P B) B :=
  Lens env_buffer (λ x e, AsyncEnv (env_unit e) (env_heap e) x).

#[export] Instance l_unit_laws {P B} : LensLaws (@l_unit P B).
Proof. solve_lens. Qed.
#[export] Instance l_heap_laws {P B} : LensLaws (@l_heap P B).
Proof. solve_lens. Qed.
#[export] Instance l_buffer_laws {P B} : LensLaws (@l_buffer P B).
Proof. solve_lens. Qed.

(** [pu_dtor] is the virtual destructor. *)
Class ProcUnit `{RapidJSON} (P : Type) := {
  pu_string_initialize_parameters : string → M P ();
  pu_async_work : ∀ {B} `{AsyncBuffer B}, M (async_env P B) ();
  pu_proc_act_request : request → M P (option response);
  pu_proc_act_push : request → M P bool;
  pu_dtor : M P ();
}.

(** The static [initialize] of the interface, which every unit hides with its
    own: [new] of its class. *)
Definition iproc_unit_initialize {P} : outcome P := Throw (runtime_error err_msg._stcimpl).

(** What the module and the server rely on: however [async_work] ends, the
    buffer is left usable, items are only appended to it, and the blocks other
    items own are untouched. *)
Class ProcUnitSafe `{RapidJSON} (P : Type) `{!ProcUnit P} : Prop := {
  async_work_appends B (HB : AsyncBuffer B) (e : async_env P B) :
    ab_idle (env_buffer e) →
    let e' := (pu_async_work e).2 in
    ab_idle (env_buffer e')
    ∧ (∃ items, ab_contents (env_buffer e') = ab_contents (env_buffer e) ++ items)
    ∧ env_heap e ⊆ env_heap e';
}.

(** A unit may be one of two classes; [brazil] has three. *)
Section sum.
Context `{RapidJSON} {P Q : Type} `{!ProcUnit P, !ProcUnit Q}.

Definition on_sum {A} (m : M P A) (k : M Q A) : M (P + Q) A := λ u,
  match u with
  | inl p => let r := m p in (r.1, inl r.2)
  | inr q => let r := k q in (r.1, inr r.2)
  end.

Definition on_env_sum {A B} (m : M (async_env P B) A) (k : M (async_env Q B) A) :
    M (async_env (P + Q) B) A := λ e,
  match env_unit e with
  | inl p =>
      let r := m (AsyncEnv p (env_heap e) (env_buffer e)) in
      (r.1, AsyncEnv (inl (env_unit r.2)) (env_heap r.2) (env_buffer r.2))
  | inr q =>
      let r := k (AsyncEnv q (env_heap e) (env_buffer e)) in
      (r.1, AsyncEnv (inr (env_unit r.2)) (env_heap r.2) (env_buffer r.2))
  end.

#[export] Instance proc_unit_sum : ProcUnit (P + Q) := {|
  pu_string_initialize_parameters s :=
    on_sum (pu_string_initialize_parameters s) (pu_string_initialize_parameters s);
  pu_async_work B HB := on_env_sum pu_async_work pu_async_work;
  pu_proc_act_request r := on_sum (pu_proc_act_request r) (pu_proc_act_request r);
  pu_proc_act_push r := on_sum (pu_proc_act_push r) (pu_proc_act_push r);
  pu_dtor := on_sum pu_dtor pu_dtor;
|}.

#[export] Instance proc_unit_sum_safe :
  ProcUnitSafe P → ProcUnitSafe Q → ProcUnitSafe (P + Q).
Proof.
  intros HP HQ; split; intros B HB [[p|q] h b] Hb; simpl in *; unfold on_env_sum; simpl.
  - apply (async_work_appends B HB (AsyncEnv p h b) Hb).
  - apply (async_work_appends B HB (AsyncEnv q h b) Hb).
Qed.
End sum.
