(* ===== verification/Trabea.v ===== *)
(** * The switch module's processing units (module/trabea/)

    [iswitch_proc_unit] decodes requests and serialises access to the switch; the
    concrete switch is an instance of [SwitchUnit]. [circulator_switch] drives a
    simulated circulator, whose two rotations connect port [i] to [i + 1] or to
    [i - 1], through the simulation dispatcher. *)

From S2P Require Import Prelude Actions BufferItem QueueBuffer Json MiddlewareMessages Zmq.
From S2P Require Import Simulation CString ProcUnit.

Section trabea.
Context `{RapidJSON}.

(** ** [iswitch_proc_unit] *)

(** The pure virtual functions. *)
Class SwitchUnit (C : Type) := {
  get_switch_state : Z → Z → M C bool;
  set_switch_state : Z → Z → M C bool;
  switch_initialize_parameters : string → M C ();
}.

Section iswitch.
Context {C : Type} `{!SwitchUnit C}.

Record iswitch := ISwitch {
  stateMutex : bool;
  switch : C;
}.

Definition l_stateMutex : lens iswitch bool := Lens stateMutex (λ x u, ISwitch x (switch u)).
Definition l_switch : lens iswitch C := Lens switch (λ x u, ISwitch (stateMutex u) x).

(** The arguments of the calls are evaluated left to right; they have no effects. *)
Definition iswitch_proc_act_request (r : request) : M iswitch (option response) :=
  with_lock l_stateMutex (
    action <- lift (method r) ;;
    if strcmp_eq action "get_state" then
      inPort <- lift (parameter_ulong r 0) ;;
      outPort <- lift (parameter_ulong r 1) ;;
      result <- zoom l_switch (get_switch_state inPort outPort) ;;
      rsp <- lift (response_bool result false) ;;
      ret (Some rsp)
    else throw (runtime_error err_msg._malinpt)).

Definition iswitch_proc_act_push (r : request) : M iswitch bool :=
  with_lock l_stateMutex (
    action <- lift (method r) ;;
    if strcmp_eq action "configure" then
      inPort <- lift (parameter_ulong r 0) ;;
      outPort <- lift (parameter_ulong r 1) ;;
      zoom l_switch (set_switch_state inPort outPort)
    else throw (runtime_error err_msg._malinpt)).

(** The interface cannot be created. *)
Definition iswitch_initialize : outcome iswitch := Throw (runtime_error err_msg._stcimpl).

Definition iswitch_async_work {B} `{AsyncBuffer B} : M (async_env iswitch B) () :=
  throw (logic_error err_msg._unrchcd).

#[export] Instance iswitch_proc_unit : ProcUnit iswitch := {|
  pu_string_initialize_parameters s := zoom l_switch (switch_initialize_parameters s);
  pu_async_work B HB := iswitch_async_work;
  pu_proc_act_request := iswitch_proc_act_request;
  pu_proc_act_push := iswitch_proc_act_push;
  pu_dtor := ret tt;
|}.

#[export] Instance iswitch_safe : ProcUnitSafe iswitch.
Proof.
  split. intros B HB e He. simpl. split_and!; [done| |done].
  exists []. by rewrite app_nil_r.
Qed.
End iswitch.
Arguments iswitch C : clear implicits.
Arguments ISwitch {C} stateMutex switch.

(** ** [circulator_switch] *)

Inductive chirality := cw | ccw.

#[export] Instance chirality_eq_dec : EqDecision chirality.
Proof. solve_decision. Defined.

Definition chirality_to_string (state : chirality) : string :=
  match state with cw => "cw" | ccw => "ccw" end.

Context `{ZMQ} `{BoostOptions}.

(** The members without an initialiser have no value before they are assigned. *)
Record circulator_switch := CirculatorSwitch {
  dispatcher : option client;
  nIP : Z;
  portCount : option Z;
  state : option chirality;
}.

Definition circulator_switch_ctor : circulator_switch := CirculatorSwitch None 0 None None.

(** [new circulator_switch()], as a unit. *)
Definition circulator_initialize : outcome (iswitch circulator_switch) :=
  Ret (ISwitch false circulator_switch_ctor).

Definition l_dispatcher : lens circulator_switch (option client) := Lens dispatcher
  (λ x c, CirculatorSwitch x (nIP c) (portCount c) (state c)).
Definition l_nIP : lens circulator_switch Z := Lens nIP
  (λ x c, CirculatorSwitch (dispatcher c) x (portCount c) (state c)).
Definition l_portCount : lens circulator_switch (option Z) := Lens portCount
  (λ x c, CirculatorSwitch (dispatcher c) (nIP c) x (state c)).
Definition l_state : lens circulator_switch (option chirality) := Lens state
  (λ x c, CirculatorSwitch (dispatcher c) (nIP c) (portCount c) x).

(** A member that must have been assigned. *)
Definition initialized {S A} (l : lens S (option A)) : M S A :=
  o <- read l ;;
  match o with Some a => ret a | None => fail Undefined end.

(** The request both functions build. *)
Definition configure_qswitch (nIP : Z) (state : chirality) : outcome sim_request :=
  out_bind (sim_request_ctor "configure_qswitch" false) (λ rq,
  out_bind (add_uint (htonl nIP) rq) (λ rq,
  out_bind (add_cstr "circulator_switch" rq) (λ rq,
  add_cstr (chirality_to_string state) rq))).

Definition circulator_options : list opt_desc :=
  [OptDesc "e" OptString true; OptDesc "p" (OptNumber 64) true; OptDesc "td" OptString true].

(** The first assignment is the one [po::notify] makes. Only the low four bytes
    of [nIP] are ever written, so it is the number [parse_ip] computes. *)
Definition circulator_initialize_parameters (parameters : string) : M circulator_switch () :=
  vals <- options_or_exit circulator_options parameters ;;
  (match vals !! "p" with
   | Some (NumberOpt n) => assign l_portCount (Some n)
   | _ => ret tt
   end) ;;
  let address := opt_string vals "e" "" in
  let txDispatcherLocation := opt_string vals "td" "" in
  ip <- lift (parse_ip address) ;;
  assign l_nIP ip ;;
  d <- lift (client_ctor txDispatcherLocation) ;;
  assign l_dispatcher (Some d) ;;
  assign l_state (Some ccw) ;;
  rq <- lift (configure_qswitch ip ccw) ;;
  rspns <- call_through l_dispatcher rq ;;
  error <- lift (get_error rspns) ;;
  if error : bool then throw (runtime_error "Dispatcher call failed") else ret tt.

(** The rotation that is taken to connect the two ports of a switch with [n]. *)
Definition chirality_of (n inPort outPort : Z) : chirality :=
  if decide (wrap 64 (inPort + 1) = outPort ∨ wrap 64 (inPort + 1) = n) then cw else ccw.

Definition circulator_get_switch_state (inPort outPort : Z) : M circulator_switch bool :=
  n <- initialized l_portCount ;;
  st <- initialized l_state ;;
  match chirality_of n inPort outPort with
  | cw => ret (bool_decide (st = cw))
  | ccw => ret (bool_decide (st = ccw))
  end.

Definition circulator_set_switch_state (inPort outPort : Z) : M circulator_switch bool :=
  n <- initialized l_portCount ;;
  if decide (n ≤ inPort ∨ n ≤ outPort)%Z then ret false
  else
    let newState := chirality_of n inPort outPort in
    st <- initialized l_state ;;
    if decide (newState ≠ st) then
      assign l_state (Some newState) ;;
      ip <- read l_nIP ;;
      rq <- lift (configure_qswitch ip newState) ;;
      result <- call_through l_dispatcher rq ;;
      error <- lift (get_error result) ;;
      ret (negb error)
    else ret true.

#[export] Instance circulator_switch_unit : SwitchUnit circulator_switch := {|
  get_switch_state := circulator_get_switch_state;
  set_switch_state := circulator_set_switch_state;
  switch_initialize_parameters := circulator_initialize_parameters;
|}.

(** ** Helper lemmas *)

Lemma configure_qswitch_eq ip st :
  configure_qswitch ip st
  = Ret (SimRequest (sim_value "configure_qswitch"
      [NumValue (htonl ip); StringValue (chars "circulator_switch");
       StringValue (chars (chirality_to_string st))]) []).
Proof.
  unfold configure_qswitch, add_uint, add_cstr. rewrite sim_request_ctor_eq. cbn [out_bind].
  by rewrite !sim_add_eq; cbn [out_bind app]; rewrite !sim_add_eq; cbn [out_bind app];
    rewrite !sim_add_eq.
Qed.

(** The message that asks the simulator for a rotation. *)
Definition configure_message (ip : Z) (st : chirality) : list ascii :=
  sim_message "configure_qswitch"
    [NumValue (htonl ip); StringValue (chars "circulator_switch");
     StringValue (chars (chirality_to_string st))].

(** A switch that has been initialised, with at most [2^64 - 1] ports. *)
Definition switch_ready (u : circulator_switch) (c : client) (n : Z) (st : chirality) : Prop :=
  dispatcher u = Some c ∧ portCount u = Some n ∧ state u = Some st ∧ (n < 2 ^ 64)%Z.

Lemma chirality_of_cw n i o :
  (0 <= i < n)%Z → (n < 2 ^ 64)%Z → chirality_of n i o = cw ↔ (o = i + 1 ∨ i + 1 = n)%Z.
Proof.
  intros Hi Hn. unfold chirality_of. rewrite wrap_small by lia. case_decide; split; intros; try done; lia.
Qed.

Lemma get_switch_state_eq u c n st i o :
  switch_ready u c n st →
  circulator_get_switch_state i o u = (Ret (bool_decide (st = chirality_of n i o)), u).
Proof.
  intros (_ & Hn & Hs & _). unfold circulator_get_switch_state, initialized. mrun. rewrite Hn. simpl.
  rewrite Hs. simpl. by destruct (chirality_of n i o).
Qed.

(** The cases of [set_switch_state], its message included. *)
Lemma set_switch_state_eq u c n st i o :
  switch_ready u c n st →
  circulator_set_switch_state i o u =
    if decide (n ≤ i ∨ n ≤ o)%Z then (Ret false, u)
    else if decide (chirality_of n i o = st) then (Ret true, u)
    else
      let r := exchange (configure_message (nIP u) (chirality_of n i o)) c in
      (out_bind r.1 (λ rsp, out_bind (get_error rsp) (λ e, Ret (negb e))),
       CirculatorSwitch (Some r.2) (nIP u) (Some n) (Some (chirality_of n i o))).
Proof.
  intros (Hd & Hn & Hs & _). unfold circulator_set_switch_state.
  assert (∀ B (k : Z → M circulator_switch B), bind (initialized l_portCount) k u = k n u) as Hpc.
  { intros. unfold initialized. mrun. by rewrite Hn. }
  rewrite Hpc. case_decide; [done|].
  assert (∀ B (k : chirality → M circulator_switch B), bind (initialized l_state) k u = k st u) as Hst.
  { intros. unfold initialized. mrun. by rewrite Hs. }
  rewrite Hst. destruct (decide (chirality_of n i o = st)).
  { by rewrite decide_False by naive_solver. }
  rewrite decide_True by done.
  unfold bind at 1, assign, modify. unfold bind at 1, read, gets. cbn [view l_nIP nIP upd l_state].
  rewrite configure_qswitch_eq. unfold bind at 1, lift. unfold bind at 1.
  rewrite (call_through_eq l_dispatcher _ _ _ c) by done. unfold configure_message.
  destruct (exchange _ c) as [[rsp|e|f] c']; simpl; rewrite ?Hn; [|done..].
  unfold bind, ret. by destruct (get_error rsp) as [[]| |]; simpl; rewrite ?Hn.
Qed.

(** Initialisation once the options are known to be good. *)
Lemma circulator_initialize_eq parameters u vals n ip c :
  parse_options circulator_options parameters = Ret (Some vals) →
  vals !! "p" = Some (NumberOpt n) →
  parse_ip (opt_string vals "e" "") = Ret ip →
  client_ctor (opt_string vals "td" "") = Ret c →
  circulator_initialize_parameters parameters u =
    let x := exchange (configure_message ip ccw) c in
    (out_bind x.1 (λ rsp, out_bind (get_error rsp) (λ e : bool,
       if e then Throw (runtime_error "Dispatcher call failed") else Ret tt)),
     CirculatorSwitch (Some x.2) ip (Some n) (Some ccw)).
Proof.
  intros Ho Hp Hip Hc. unfold circulator_initialize_parameters, options_or_exit.
  unfold bind at 1 2, lift at 1. rewrite Ho. cbv beta iota. unfold ret at 1. rewrite Hp.
  unfold bind at 1, assign at 1, modify at 1. unfold bind at 1, lift at 1. rewrite Hip.
  unfold bind at 1, assign at 1, modify at 1. unfold bind at 1, lift at 1. rewrite Hc.
  unfold bind at 1, assign at 1, modify at 1. unfold bind at 1, assign at 1, modify at 1.
  unfold bind at 1, lift at 1. rewrite configure_qswitch_eq. unfold bind at 1.
  rewrite (call_through_eq l_dispatcher _ _ _ c) by done. fold (configure_message ip ccw).
  destruct (exchange _ c) as [[rsp| |] cx]; simpl; [|done..].
  unfold bind, lift. by destruct (get_error rsp) as [[]| |].
Qed.

(** The two handlers of a switch on a client's message. *)
Section dispatch_helpers.
Context {C : Type} `{!SwitchUnit C}.

Lemma iswitch_get_state_eq a ps i o (u : C) :
  ps !! 0 = Some (NumValue i) → ps !! 1 = Some (NumValue o) →
  (0 <= i < 2 ^ 64)%Z → (0 <= o < 2 ^ 64)%Z →
  iswitch_proc_act_request (client_request a "get_state" ps) (ISwitch false u)
  = match get_switch_state i o u with
    | (Ret b, u') =>
        (Ret (Some (Response (Write (ObjectValue
          [(chars "result", BoolValue b); (chars "error", BoolValue false)])))), ISwitch false u')
    | (Throw e, u') => (Throw e, ISwitch false u')
    | (Fatal f, u') => (Fatal f, ISwitch true u')
    end.
Proof.
  intros Hi Ho Hbi Hbo. unfold iswitch_proc_act_request, with_lock, bind, lift, zoom. simpl.
  rewrite method_value by (apply (bool_decide_unpack _); vm_compute; exact I). unfold strcmp_eq. simpl.
  rewrite (parameter_ulong_value a _ ps 0 i), (parameter_ulong_value a _ ps 1 o) by done.
  destruct (get_switch_state i o u) as [[b| |] u']; simpl; [|done..].
  unfold response_bool. by rewrite response_of_value.
Qed.

Lemma iswitch_configure_eq a ps i o (u : C) :
  ps !! 0 = Some (NumValue i) → ps !! 1 = Some (NumValue o) →
  (0 <= i < 2 ^ 64)%Z → (0 <= o < 2 ^ 64)%Z →
  iswitch_proc_act_push (client_request a "configure" ps) (ISwitch false u)
  = match set_switch_state i o u with
    | (Ret b, u') => (Ret b, ISwitch false u')
    | (Throw e, u') => (Throw e, ISwitch false u')
    | (Fatal f, u') => (Fatal f, ISwitch true u')
    end.
Proof.
  intros Hi Ho Hbi Hbo. unfold iswitch_proc_act_push, with_lock, bind, lift, zoom. simpl.
  rewrite method_value by (apply (bool_decide_unpack _); vm_compute; exact I). unfold strcmp_eq. simpl.
  rewrite (parameter_ulong_value a _ ps 0 i), (parameter_ulong_value a _ ps 1 o) by done.
  by destruct (set_switch_state i o u) as [[b| |] u'].
Qed.

Lemma iswitch_request_other a m ps (u : C) :
  nul_free m → m ≠ "get_state" →
  iswitch_proc_act_request (client_request a m ps) (ISwitch false u)
  = (Throw (runtime_error err_msg._malinpt), ISwitch false u).
Proof.
  intros Hm Hne. unfold iswitch_proc_act_request, with_lock, bind, lift. simpl.
  rewrite method_value by done. unfold strcmp_eq. by rewrite bool_decide_false.
Qed.

Lemma iswitch_push_other a m ps (u : C) :
  nul_free m → m ≠ "configure" →
  iswitch_proc_act_push (client_request a m ps) (ISwitch false u)
  = (Throw (runtime_error err_msg._malinpt), ISwitch false u).
Proof.
  intros Hm Hne. unfold iswitch_proc_act_push, with_lock, bind, lift. simpl.
  rewrite method_value by done. unfold strcmp_eq. by rewrite bool_decide_false.
Qed.
End dispatch_helpers.

(** ** Properties *)

(** Setting the switch: ports outside the switch are refused and nothing is
    sent; a rotation the switch already has is confirmed without a message;
    otherwise exactly one [configure_qswitch] message goes to the dispatcher,
    naming the switch's address in network order and the new rotation, and the
    answer is whether the dispatcher reported no error. A lost connection is
    [std::runtime_error] "network down". *)
Theorem set_switch_state_spec u c n st i o :
  switch_ready u c n st →
  ((n ≤ i ∨ n ≤ o)%Z → circulator_set_switch_state i o u = (Ret false, u))
  ∧ ((i < n ∧ o < n)%Z →
     (chirality_of n i o = st → circulator_set_switch_state i o u = (Ret true, u))
     ∧ (chirality_of n i o ≠ st →
        let msg := configure_message (nIP u) (chirality_of n i o) in
        let u' sk := CirculatorSwitch (Some (Client (endpoint c) sk)) (nIP u) (Some n)
                       (Some (chirality_of n i o)) in
        (∀ sk1 reply sk2, zmq_send msg (socket c) = (Ret true, sk1) →
           zmq_recv sk1 = (Ret (Some reply), sk2) →
           ∀ e, get_error (sim_response_ctor reply) = Ret e →
           circulator_set_switch_state i o u = (Ret (negb e), u' sk2))
        ∧ (∀ sk1, zmq_send msg (socket c) = (Ret false, sk1) →
           circulator_set_switch_state i o u = (Throw (runtime_error err_msg._ntwrkdn), u' sk1))
        ∧ (∀ sk1 sk2, zmq_send msg (socket c) = (Ret true, sk1) → zmq_recv sk1 = (Ret None, sk2) →
           circulator_set_switch_state i o u = (Throw (runtime_error err_msg._ntwrkdn), u' sk2)))).
Proof.
  intros Hr. rewrite (set_switch_state_eq u c n st i o Hr). split.
  { intros. by rewrite decide_True. }
  intros Hio. rewrite decide_False by lia. split; intros Hst.
  { by rewrite decide_True. }
  rewrite decide_False by done. intros msg u'. unfold exchange. split_and!.
  - intros sk1 reply sk2 Hs Hv e He. fold msg. mrun. rewrite Hs. simpl. rewrite Hv. simpl. by rewrite He.
  - intros sk1 Hs. fold msg. mrun. by rewrite Hs.
  - intros sk1 sk2 Hs Hv. fold msg. mrun. rewrite Hs. simpl. by rewrite Hv.
Qed.

(** C38. The rotation chosen is the one whose circulant matrix connects the two
    ports, for every pair of neighbouring ports except one: from the last port
    to the one before it the switch is turned clockwise, which connects the
    last port to the first instead. *)
Theorem circulant_direction n i o :
  (3 ≤ n < 2 ^ 64)%Z → (0 ≤ i < n)%Z → (0 ≤ o < n)%Z →
  let next := ((i + 1) mod n)%Z in
  let previous := ((i - 1) mod n)%Z in
  (o = next → chirality_of n i o = cw)
  ∧ (o = previous → i ≠ (n - 1)%Z → chirality_of n i o = ccw)
  ∧ (o = previous → i = (n - 1)%Z → chirality_of n i o = cw ∧ o ≠ next).
Proof.
  intros Hn Hi Ho next previous. pose proof (chirality_of_cw n i o Hi ltac:(lia)) as Hc.
  assert (next = if decide (i + 1 = n)%Z then 0%Z else (i + 1)%Z) as Hnext.
  { unfold next. case_decide as Hd; [rewrite Hd; apply Z_mod_same_full|apply Z.mod_small; lia]. }
  assert (previous = if decide (i = 0)%Z then (n - 1)%Z else (i - 1)%Z) as Hprev.
  { unfold previous. destruct (decide (i = 0)%Z) as [->|Hd].
    - symmetry. apply (Z.mod_unique_pos _ _ (-1)); lia.
    - apply Z.mod_small; lia. }
  clearbody next previous. subst next previous. split_and!.
  - intros ->. apply Hc. case_decide; lia.
  - intros -> Hl. destruct (chirality_of n i _) eqn:E; [|done]. exfalso.
    destruct (proj1 Hc eq_refl) as [Hx|Hx]; revert Hx; case_decide; lia.
  - intros -> ->. split; [apply Hc; lia|]. repeat case_decide; lia.
Qed.

(** After a set of two ports of the switch, whether it answered [true],
    answered [false] because the dispatcher reported an error, or threw because
    the dispatcher was unreachable, the switch reports the ports as connected,
    and a second set answers [true] without contacting the dispatcher: the
    rotation is recorded before the dispatcher is asked. *)
Theorem set_then_get u c n st i o :
  switch_ready u c n st → (i < n)%Z → (o < n)%Z →
  let r := circulator_set_switch_state i o u in
  circulator_get_switch_state i o r.2 = (Ret true, r.2)
  ∧ circulator_set_switch_state i o r.2 = (Ret true, r.2).
Proof.
  intros Hr Hi Ho r.
  assert (∃ c', switch_ready r.2 c' n (chirality_of n i o)) as [c' Hr'].
  { unfold r. rewrite (set_switch_state_eq u c n st i o Hr), decide_False by lia.
    destruct Hr as (? & ? & ? & ?). case_decide; subst; eexists; split_and!; eauto. }
  rewrite (get_switch_state_eq _ _ _ _ _ _ Hr'), (set_switch_state_eq _ _ _ _ _ _ Hr').
  rewrite bool_decide_true, decide_False, decide_True by (done || lia). done.
Qed.

(** Initialisation: bad options end the process; otherwise the address, the
    port count and a new connection are stored, the switch is told to turn
    counter-clockwise, and it is ready in that rotation. A dispatcher that
    reports an error makes the initialisation fail with
    [std::runtime_error] after the switch has been marked ready. *)
Theorem circulator_initialize_spec parameters u vals n ip c :
  parse_options circulator_options parameters = Ret (Some vals) →
  vals !! "p" = Some (NumberOpt n) → (n < 2 ^ 64)%Z →
  parse_ip (opt_string vals "e" "") = Ret ip →
  client_ctor (opt_string vals "td" "") = Ret c →
  let r := circulator_initialize_parameters parameters u in
  let x := exchange (configure_message ip ccw) c in
  switch_ready r.2 x.2 n ccw ∧ nIP r.2 = ip
  ∧ (∀ rsp, x.1 = Ret rsp → get_error rsp = Ret false → r.1 = Ret tt)
  ∧ (∀ rsp, x.1 = Ret rsp → get_error rsp = Ret true →
       r.1 = Throw (runtime_error "Dispatcher call failed"))
  ∧ (∀ e, x.1 = Throw e → r.1 = Throw e)
  ∧ (∀ parameters', parse_options circulator_options parameters' = Ret None →
       circulator_initialize_parameters parameters' u = (Fatal (ExitProcess (-1)), u)).
Proof.
  intros Ho Hp Hn Hip Hc r x. unfold r. rewrite (circulator_initialize_eq _ u _ _ _ _ Ho Hp Hip Hc).
  fold x. clearbody x. destruct x as [ox cx]. cbn [fst snd]. split; [done|]. split_and!; try done.
  - intros rsp -> He. cbn [out_bind]. by rewrite He.
  - intros rsp -> He. cbn [out_bind]. by rewrite He.
  - by intros e ->.
  - intros ps' Hps. unfold circulator_initialize_parameters, options_or_exit.
    unfold bind at 1 2, lift at 1. by rewrite Hps.
Qed.

(** Dispatch of a switch, for any implementation of the two virtual
    functions: the request "get_state" answers with their result, the push
    "configure" returns theirs, any other method is [std::runtime_error]
    "malformed input" and does not touch the switch. The mutex is free again
    after every return and every exception. *)
Theorem iswitch_dispatch {C} `{!SwitchUnit C} a m ps (u : C) :
  nul_free m →
  (∀ i o, ps !! 0 = Some (NumValue i) → ps !! 1 = Some (NumValue o) →
     (0 <= i < 2 ^ 64)%Z → (0 <= o < 2 ^ 64)%Z →
     (m = "get_state" →
       iswitch_proc_act_request (client_request a m ps) (ISwitch false u)
       = match get_switch_state i o u with
         | (Ret b, u') =>
             (Ret (Some (Response (Write (ObjectValue
               [(chars "result", BoolValue b); (chars "error", BoolValue false)])))), ISwitch false u')
         | (Throw e, u') => (Throw e, ISwitch false u')
         | (Fatal f, u') => (Fatal f, ISwitch true u')
         end)
     ∧ (m = "configure" →
       iswitch_proc_act_push (client_request a m ps) (ISwitch false u)
       = match set_switch_state i o u with
         | (Ret b, u') => (Ret b, ISwitch false u')
         | (Throw e, u') => (Throw e, ISwitch false u')
         | (Fatal f, u') => (Fatal f, ISwitch true u')
         end))
  ∧ (m ≠ "get_state" →
     iswitch_proc_act_request (client_request a m ps) (ISwitch false u)
     = (Throw (runtime_error err_msg._malinpt), ISwitch false u))
  ∧ (m ≠ "configure" →
     iswitch_proc_act_push (client_request a m ps) (ISwitch false u)
     = (Throw (runtime_error err_msg._malinpt), ISwitch false u)).
Proof.
  intros Hm. split_and!.
  - intros i o Hi Ho Hbi Hbo. split; intros ->.
    + by apply iswitch_get_state_eq.
    + by apply iswitch_configure_eq.
  - by apply iswitch_request_other.
  - by apply iswitch_push_other.
Qed.
End trabea.

(** ** Witnesses *)

(** A three-port switch, counter-clockwise, whose dispatcher answers once with
    an error. *)
Definition sample_error_reply : list ascii :=
  Write (ObjectValue [(chars "error", BoolValue true)]) ++ [NUL].

Definition sample_client : client :=
  Client (chars "tcp://sim:5555" ++ replicate 114 NUL) (Scripted [Some sample_error_reply] true []).

Definition idle_client : client :=
  Client (chars "tcp://sim:5555" ++ replicate 114 NUL) (Scripted [] true []).

Definition sample_switch : circulator_switch :=
  CirculatorSwitch (Some sample_client) 167772161 (Some 3%Z) (Some ccw).

Lemma sample_switch_ready : switch_ready sample_switch sample_client 3 ccw.
Proof. repeat split. Qed.

Lemma set_switch_state_spec_witness :
  (circulator_set_switch_state 3 0 sample_switch = (Ret false, sample_switch))
  ∧ circulator_set_switch_state 1 0 sample_switch = (Ret true, sample_switch)
  ∧ (circulator_set_switch_state 0 1 sample_switch).1 = Ret false.
Proof.
  destruct (set_switch_state_spec sample_switch sample_client 3 ccw 3 0 sample_switch_ready) as [H1 _].
  destruct (set_switch_state_spec sample_switch sample_client 3 ccw 1 0 sample_switch_ready) as [_ H2].
  destruct (set_switch_state_spec sample_switch sample_client 3 ccw 0 1 sample_switch_ready) as [_ H3].
  split_and!.
  - apply H1. lia.
  - apply H2; [lia|reflexivity].
  - destruct H3 as [_ H3]; [lia|]. destruct H3 as [H3 _]; [discriminate|].
    erewrite H3; [|reflexivity..|vm_compute; reflexivity]. reflexivity.
Defined.

Lemma circulant_direction_witness :
  chirality_of 3 2 0 = cw ∧ chirality_of 3 1 0 = ccw ∧ chirality_of 3 2 1 = cw.
Proof.
  split_and!.
  - destruct (circulant_direction 3 2 0) as (H & _); [lia..|]. apply H; reflexivity.
  - destruct (circulant_direction 3 1 0) as (_ & H & _); [lia..|]. apply H; [reflexivity|lia].
  - destruct (circulant_direction 3 2 1) as (_ & _ & H); [lia..|].
    apply H; reflexivity.
Defined.

Lemma set_then_get_witness :
  circulator_get_switch_state 0 1 (circulator_set_switch_state 0 1 sample_switch).2
  = (Ret true, (circulator_set_switch_state 0 1 sample_switch).2).
Proof.
  apply (set_then_get sample_switch sample_client 3 ccw 0 1 sample_switch_ready); lia.
Defined.

Definition sample_options : gmap string opt_value :=
  <["e" := StringOpt "10.0.0.1"]> (<["p" := NumberOpt 3]> {["td" := StringOpt "tcp://sim:5555"]}).

#[local] Instance sample_boost : BoostOptions := constant_options sample_options.

Lemma circulator_initialize_spec_witness :
  let r := circulator_initialize_parameters "" circulator_switch_ctor in
  portCount r.2 = Some 3%Z ∧ state r.2 = Some ccw ∧ nIP r.2 = 167772161%Z.
Proof.
  destruct (circulator_initialize_spec "" circulator_switch_ctor
    sample_options 3 167772161 idle_client)
    as (H1 & H2 & _); [reflexivity|reflexivity|lia|reflexivity|reflexivity|].
  split_and!; [apply H1|apply H1|exact H2].
Defined.

Lemma iswitch_dispatch_witness :
  let u := ISwitch false sample_switch in
  let rq m := client_request REQUEST m [NumValue 0; NumValue 1] in
  (iswitch_proc_act_request (rq "get_state") u).1
    = Ret (Some (Response (Write (ObjectValue
        [(chars "result", BoolValue false); (chars "error", BoolValue false)]))))
  ∧ iswitch_proc_act_request (rq "set_state") u = (Throw (runtime_error "malformed input"), u).
Proof.
  assert (∀ m : string, bool_decide (nul_free m) = true → nul_free m) as Hn
    by (intros m Hm; exact (bool_decide_eq_true_1 _ Hm)).
  split.
  - destruct (iswitch_dispatch REQUEST "get_state" [NumValue 0; NumValue 1] sample_switch) as (H1 & _);
      [apply Hn; vm_compute; reflexivity|].
    destruct (H1 0 1)%Z as [H2 _]; [reflexivity|reflexivity|lia|lia|].
    etransitivity; [exact (f_equal fst (H2 eq_refl))|reflexivity].
  - apply (iswitch_dispatch REQUEST "set_state" [NumValue 0; NumValue 1] sample_switch);
      [apply Hn; vm_compute; reflexivity|discriminate].
Defined.
