(* ===== verification/Modules.v ===== *)
(** * Modules and their factory (module/imodule.hpp, imodule.cpp)

    A module owns at most one processing unit of type [P] (an instance of
    [ProcUnit]), the buffer its thread fills, and the thread. The thread is
    interleaved with the other calls one [async_work] at a time. *)

From Stdlib Require Import Sorted.
From S2P Require Import Prelude Actions BufferItem QueueBuffer Json MiddlewareMessages ProcUnit.

(** What the thread of a module is doing. *)
Inductive async_thread :=
| NotJoinable
| Working
| Finished.

#[export] Instance async_thread_eq_dec : EqDecision async_thread.
Proof. solve_decision. Defined.

Section imodule.
Context `{RapidJSON} {P : Type} `{!ProcUnit P}.

(** The constructors by name, in the order of the map; a constructor may throw. *)
Abbreviation proc_unit_list_t := (list (string * outcome P)).

Record imodule := IModule {
  supportedActions : Z;
  procUnits : proc_unit_list_t;
  loadedProcUnit : option P;
  isRunning : bool;
  doExit : bool;
  asyncBuffer : queue_buffer;
  asyncProcThread : async_thread;
  stateMutex : bool;
}.

(** Constructor, and [register_proc_units] in the derived class. *)
Definition imodule_ctor (actions : Z) : imodule :=
  IModule actions [] None false false queue_buffer_init NotJoinable false.

Definition register_proc_units (l : proc_unit_list_t) (m : imodule) : imodule :=
  IModule (supportedActions m) l (loadedProcUnit m) (isRunning m) (doExit m) (asyncBuffer m)
    (asyncProcThread m) (stateMutex m).

Definition l_loadedProcUnit : lens imodule (option P) := Lens loadedProcUnit
  (λ x m, IModule (supportedActions m) (procUnits m) x (isRunning m) (doExit m) (asyncBuffer m)
    (asyncProcThread m) (stateMutex m)).
Definition l_isRunning : lens imodule bool := Lens isRunning
  (λ x m, IModule (supportedActions m) (procUnits m) (loadedProcUnit m) x (doExit m) (asyncBuffer m)
    (asyncProcThread m) (stateMutex m)).
Definition l_doExit : lens imodule bool := Lens doExit
  (λ x m, IModule (supportedActions m) (procUnits m) (loadedProcUnit m) (isRunning m) x (asyncBuffer m)
    (asyncProcThread m) (stateMutex m)).
Definition l_asyncBuffer : lens imodule queue_buffer := Lens asyncBuffer
  (λ x m, IModule (supportedActions m) (procUnits m) (loadedProcUnit m) (isRunning m) (doExit m) x
    (asyncProcThread m) (stateMutex m)).
Definition l_asyncProcThread : lens imodule async_thread := Lens asyncProcThread
  (λ x m, IModule (supportedActions m) (procUnits m) (loadedProcUnit m) (isRunning m) (doExit m)
    (asyncBuffer m) x (stateMutex m)).
Definition l_stateMutex : lens imodule bool := Lens stateMutex
  (λ x m, IModule (supportedActions m) (procUnits m) (loadedProcUnit m) (isRunning m) (doExit m)
    (asyncBuffer m) (asyncProcThread m) x).

(** A call of a virtual function of the loaded unit: through the member pointer,
    and through [loaded_proc_unit()]. *)
Definition on_unit {A} (body : M P A) : M imodule A :=
  o <- read l_loadedProcUnit ;;
  match o with
  | Some p =>
      let r := body p in
      assign l_loadedProcUnit (Some r.2) ;;
      lift r.1
  | None => fail Undefined
  end.

Definition loaded_proc_unit {A} (body : M P A) : M imodule A :=
  o <- read l_loadedProcUnit ;;
  match o with
  | Some _ => on_unit body
  | None => throw (runtime_error err_msg._nllpntr)
  end.

(** [check<REPLY>(supportedActions) || check<WAIT>(supportedActions)] *)
Definition wants_async (m : imodule) : bool :=
  check REPLY (supportedActions m) || check WAIT (supportedActions m).

(** Assigning a new thread over a joinable one ends the program. *)
Definition _start_async_proc : M imodule () :=
  o <- read l_loadedProcUnit ;;
  match o with
  | None => ret tt
  | Some _ =>
      running <- read l_isRunning ;;
      if running : bool then ret tt
      else
        t <- read l_asyncProcThread ;;
        (if decide (t = NotJoinable) then assign l_asyncProcThread Working else fail Terminate) ;;
        assign l_isRunning true
  end.

(** [join] waits for the loop to see [doExit]; joining a thread that is not
    joinable is a [std::system_error]. *)
Definition join_async_proc : M imodule () :=
  t <- read l_asyncProcThread ;;
  exiting <- read l_doExit ;;
  match t with
  | NotJoinable => throw std_exception
  | Finished => assign l_asyncProcThread NotJoinable
  | Working => if exiting : bool then assign l_asyncProcThread NotJoinable else fail Deadlock
  end.

Definition _stop_async_proc : M imodule () :=
  o <- read l_loadedProcUnit ;;
  match o with
  | None => ret tt
  | Some _ =>
      running <- read l_isRunning ;;
      if running : bool then
        assign l_doExit true ;;
        join_async_proc ;;
        assign l_doExit false ;;
        assign l_isRunning false
      else ret tt
  end.

(** The loop of [load_proc_unit] over the registered units. *)
Fixpoint load_from (units : proc_unit_list_t) (name parameters : string) : M imodule () :=
  match units with
  | [] => throw (invalid_argument err_msg._tpntfnd)
  | item :: units' =>
      if strcmp_eq item.1 name then
        p <- lift item.2 ;;
        assign l_loadedProcUnit (Some p) ;;
        on_unit (pu_string_initialize_parameters parameters) ;;
        async <- gets wants_async ;;
        if async : bool then _start_async_proc else ret tt
      else load_from units' name parameters
  end.

Definition load_proc_unit (name parameters : string) : M imodule () :=
  with_lock l_stateMutex (
    o <- read l_loadedProcUnit ;;
    match o with
    | Some _ => ret tt
    | None => units <- gets procUnits ;; load_from units name parameters
    end).

(** The destructor of the unit may not throw. *)
Definition delete_unit : M imodule () := λ m,
  match on_unit pu_dtor m with
  | (Throw _, m') => (Fatal Terminate, m')
  | r => r
  end.

Definition unload_proc_unit : M imodule () :=
  with_lock l_stateMutex (
    o <- read l_loadedProcUnit ;;
    match o with
    | None => ret tt
    | Some _ =>
        async <- gets wants_async ;;
        (if async : bool then _stop_async_proc else ret tt) ;;
        delete_unit ;;
        assign l_loadedProcUnit None
    end).

Definition is_proc_unit_loaded : M imodule bool :=
  with_lock l_stateMutex (
    o <- read l_loadedProcUnit ;;
    ret (bool_decide (is_Some o))).

Definition supported_actions : M imodule Z := gets supportedActions.
Definition async_buffer : M imodule queue_buffer := gets asyncBuffer.

(** Destructor: an exception out of it, or destroying a joinable thread, ends
    the program. *)
Definition imodule_dtor : M imodule () := λ m,
  match unload_proc_unit m with
  | (Throw _, m') => (Fatal Terminate, m')
  | (Ret _, m') => if decide (asyncProcThread m' = NotJoinable) then (Ret tt, m') else (Fatal Terminate, m')
  | r => r
  end.

(** One round of the loop in [_async_proc_wrapper], on the thread's own state:
    the module and the heap its unit allocates items on. An exception leaves the
    thread function, which calls [std::terminate]. *)
Definition async_round : M (imodule * heap) () := λ s,
  let '(m, h) := s in
  match asyncProcThread m with
  | Working =>
      if doExit m then (Ret tt, (upd l_asyncProcThread Finished m, h))
      else
        match loadedProcUnit m with
        | None => (Fatal Undefined, s)
        | Some p =>
            let r := pu_async_work (AsyncEnv p h (asyncBuffer m)) in
            let m' := upd l_asyncBuffer (env_buffer r.2)
                        (upd l_loadedProcUnit (Some (env_unit r.2)) m) in
            (match r.1 with
             | Ret _ => Ret tt
             | Throw _ => Fatal Terminate
             | Fatal f => Fatal f
             end, (m', env_heap r.2))
        end
  | _ => (Ret tt, s)
  end.
End imodule.

Arguments imodule : clear implicits.

(** ** [module_factory], [module_register]

    The keys are pointers to the names, in the order of the pointers. *)
Section factory.
Context {Md : Type}.

Record module_entry := ModuleEntry {
  key : positive;
  key_name : string;
  constructor : outcome Md;
}.

Fixpoint instantiate (map : list module_entry) (name : string) : outcome Md :=
  match map with
  | [] => Throw (invalid_argument err_msg._tpntfnd)
  | item :: map' =>
      if strcmp_eq (key_name item) name then constructor item else instantiate map' name
  end.

(** [std::map::insert]: nothing is inserted when the key is there. *)
Fixpoint map_insert (e : module_entry) (map : list module_entry) : option (list module_entry) :=
  match map with
  | [] => Some [e]
  | item :: map' =>
      if decide (key e = key item) then None
      else if decide (key e < key item)%positive then Some (e :: map)
      else cons item <$> map_insert e map'
  end.

Definition module_register (e : module_entry) : M (list module_entry) () :=
  map <- get ;;
  match map_insert e map with
  | Some map' => modify (λ _, map')
  | None => throw (runtime_error err_msg._rgstrfl)
  end.
End factory.

Arguments module_entry : clear implicits.

(** ** Executions of a module

    The calls that do not end the program, the rounds of the thread and the
    outgoing thread's [pop_all], in any order. *)
Definition survives {A} (o : outcome A) : Prop := ∀ f, o ≠ Fatal f.

Section executions.
Context `{RapidJSON} {P : Type} `{!ProcUnit P, !ProcUnitSafe P}.

(** The items a round has added to the queue. *)
Definition new_items (q q' : queue_buffer) : list buffer_item := drop (length (queue q)) (queue q').

(** What a step pushed and popped. *)
Inductive module_step : imodule P * heap → list buffer_item → list buffer_item → imodule P * heap → Prop :=
| step_load name parameters m h o m' :
    load_proc_unit name parameters m = (o, m') → survives o →
    module_step (m, h) [] [] (m', h)
| step_unload m h o m' :
    unload_proc_unit m = (o, m') → survives o → module_step (m, h) [] [] (m', h)
| step_call A (body : M P A) m h o m' :
    loaded_proc_unit body m = (o, m') → survives o → module_step (m, h) [] [] (m', h)
| step_round m h m' h' :
    async_round (m, h) = (Ret tt, (m', h')) →
    module_step (m, h) (new_items (asyncBuffer m) (asyncBuffer m')) [] (m', h')
| step_pop items b' m h :
    pop_all (asyncBuffer m) = (Ret items, b') →
    module_step (m, h) [] items (upd l_asyncBuffer b' m, h).

Inductive module_trace (s : imodule P * heap) : list buffer_item → list buffer_item → imodule P * heap → Prop :=
| trace_nil : module_trace s [] [] s
| trace_snoc pushed popped s1 ins outs s2 :
    module_trace s pushed popped s1 → module_step s1 ins outs s2 →
    module_trace s (pushed ++ ins) (popped ++ outs) s2.

(** Between calls the mutex is free, and a thread exists exactly while
    [isRunning], which takes a loaded unit and asynchronous actions. *)
Record module_inv (m : imodule P) : Prop := {
  mi_free : stateMutex m = false;
  mi_exit : doExit m = false;
  mi_thread : asyncProcThread m = if isRunning m then Working else NotJoinable;
  mi_running : isRunning m = true → is_Some (loadedProcUnit m) ∧ wants_async m = true;
  mi_buffer : qinv (asyncBuffer m);
}.

Lemma module_inv_ctor actions units : module_inv (register_proc_units units (imodule_ctor actions)).
Proof. by split. Qed.

(** The effect of the operations on a module between calls. *)
Definition set_loaded (o : option P) (m : imodule P) : imodule P := upd l_loadedProcUnit o m.

(** The module while its thread runs, [running], and while it does not. *)
Definition set_thread (running : bool) (m : imodule P) : imodule P :=
  upd l_asyncProcThread (if running then Working else NotJoinable) (upd l_isRunning running m).

Lemma module_eta m : module_inv m → m = set_thread (isRunning m) (upd l_doExit false (upd l_stateMutex false m)).
Proof. intros []. destruct m; simpl in *. unfold set_thread; simpl. by subst. Qed.

(** The unit [load_proc_unit] finds. *)
Definition find_unit (units : list (string * outcome P)) (name : string) : option (outcome P) :=
  snd <$> head (filter (λ item, item.1 = name) units).

Lemma load_from_find units name parameters m :
  load_from units name parameters m =
    match find_unit units name with
    | None => (Throw (invalid_argument err_msg._tpntfnd), m)
    | Some c =>
        (p <- lift c ;;
         assign l_loadedProcUnit (Some p) ;;
         on_unit (pu_string_initialize_parameters parameters) ;;
         async <- gets wants_async ;;
         if async : bool then _start_async_proc else ret tt) m
    end.
Proof.
  induction units as [|[k c] units IH]; [done|]. simpl. unfold find_unit, strcmp_eq. simpl.
  rewrite filter_cons. simpl. case_decide as Hd.
  - by rewrite bool_decide_true.
  - rewrite bool_decide_false by done. apply IH.
Qed.

Lemma load_proc_unit_eq name parameters m :
  module_inv m →
  load_proc_unit name parameters m =
    match loadedProcUnit m with
    | Some _ => (Ret tt, m)
    | None =>
        match find_unit (procUnits m) name with
        | None => (Throw (invalid_argument err_msg._tpntfnd), m)
        | Some (Throw e) => (Throw e, m)
        | Some (Fatal f) => (Fatal f, upd l_stateMutex true m)
        | Some (Ret p) =>
            match pu_string_initialize_parameters parameters p with
            | (Ret _, p') => (Ret tt, set_thread (wants_async m) (set_loaded (Some p') m))
            | (Throw e, p') => (Throw e, set_loaded (Some p') m)
            | (Fatal f, p') => (Fatal f, upd l_stateMutex true (set_loaded (Some p') m))
            end
        end
    end.
Proof.
  intros Hm. assert (loadedProcUnit m = None → isRunning m = false) as Hr.
  { intros Hn. destruct (isRunning m) eqn:E; [|done].
    destruct (mi_running _ Hm E) as [[? ?] _]. congruence. }
  destruct Hm as [Hf Hx Ht _ _]. destruct m as [acts units ld run ex buf th mx].
  simpl in *. subst mx ex.
  unfold load_proc_unit, with_lock. mrun. destruct ld as [p|]; [done|].
  rewrite Hr in * by done. subst th. rewrite load_from_find. simpl.
  destruct (find_unit units name) as [[p|e|f]|]; mrun; try done.
  unfold on_unit, set_loaded, set_thread. mrun.
  destruct (pu_string_initialize_parameters parameters p) as [[[]|e|f] p']; simpl; try done.
  change (wants_async (IModule acts units (Some p') false false buf NotJoinable true))
    with (wants_async (IModule acts units None false false buf NotJoinable false)).
  by destruct (wants_async _).
Qed.

Lemma unload_proc_unit_eq m :
  module_inv m →
  unload_proc_unit m =
    match loadedProcUnit m with
    | None => (Ret tt, m)
    | Some p =>
        match pu_dtor p with
        | (Ret _, _) => (Ret tt, set_thread false (set_loaded None m))
        | (Throw _, p') => (Fatal Terminate, upd l_stateMutex true (set_thread false (set_loaded (Some p') m)))
        | (Fatal f, p') => (Fatal f, upd l_stateMutex true (set_thread false (set_loaded (Some p') m)))
        end
    end.
Proof.
  intros Hm. pose proof (mi_running _ Hm) as Hr. destruct Hm as [Hf Hx Ht _ _].
  destruct m as [acts units ld run ex buf th mx]. simpl in *. subst mx ex th.
  unfold unload_proc_unit, with_lock. mrun. destruct ld as [p|]; [|done].
  unfold set_loaded, set_thread, delete_unit, on_unit, _stop_async_proc, join_async_proc.
  destruct run; simpl.
  - destruct (Hr eq_refl) as [_ Hw].
    change (wants_async (IModule acts units (Some p) true false buf Working true) = true) in Hw.
    mrun. rewrite Hw. simpl. destruct (pu_dtor p) as [[[]| |] ?]; reflexivity.
  - mrun. destruct (wants_async _); simpl; destruct (pu_dtor p) as [[[]| |] ?]; reflexivity.
Qed.
Lemma loaded_proc_unit_eq {A} (body : M P A) m :
  loaded_proc_unit body m =
    match loadedProcUnit m with
    | None => (Throw (runtime_error err_msg._nllpntr), m)
    | Some p => let r := body p in (r.1, set_loaded (Some r.2) m)
    end.
Proof. unfold loaded_proc_unit, on_unit. mrun. by destruct (loadedProcUnit m) eqn:E; mrun; rewrite ?E. Qed.

Lemma inv_set_loaded o m :
  module_inv m → (isRunning m = true → is_Some o) → module_inv (set_loaded o m).
Proof. intros [? ? ? Hr ?] Ho. split; simpl; try done. intros Hrun. split; [auto|apply (Hr Hrun)]. Qed.

Lemma inv_set_thread b m :
  module_inv m → (b = true → is_Some (loadedProcUnit m) ∧ wants_async m = true) →
  module_inv (set_thread b m).
Proof. intros [? ? ? ? ?] Hb. split; simpl; done. Qed.

Lemma inv_loaded_some m p : module_inv m → loadedProcUnit m = Some p → ∀ p', module_inv (set_loaded (Some p') m).
Proof. intros Hm _ p'. apply inv_set_loaded; eauto. Qed.

(** The round of a running thread. *)
Lemma async_round_inv m h m' h' :
  module_inv m → async_round (m, h) = (Ret tt, (m', h')) →
  module_inv m' ∧ queue (asyncBuffer m) ++ new_items (asyncBuffer m) (asyncBuffer m') = queue (asyncBuffer m').
Proof.
  intros Hm. assert (∀ q, queue q ++ new_items q q = queue q) as Hnew.
  { intros q. unfold new_items. by rewrite drop_ge, app_nil_r. }
  unfold async_round. rewrite (mi_thread _ Hm), (mi_exit _ Hm).
  destruct (isRunning m) eqn:Hr; [|by intros [= <- <-]].
  destruct (mi_running _ Hm Hr) as [[p Hp] Hw]. rewrite Hp.
  destruct (async_work_appends queue_buffer queue_buffer_async (AsyncEnv p h (asyncBuffer m)) (mi_buffer _ Hm))
    as (Hq & [items Hitems] & _). simpl in Hq, Hitems.
  destruct (pu_async_work _) as [[[]| |] e]; simpl; [|done..]. simpl in Hq, Hitems. intros [= <- <-].
  split.
  - by destruct Hm; split; simpl; eauto.
  - simpl. unfold new_items. by rewrite Hitems, drop_app_length.
Qed.

Lemma module_step_inv s ins outs s' :
  module_step s ins outs s' → module_inv s.1 →
  module_inv s'.1
  ∧ queue (asyncBuffer s.1) ++ ins = outs ++ queue (asyncBuffer s'.1).
Proof.
  intros Hstep Hm.
  destruct Hstep as [name ps m h o m' Hc Ho|m h o m' Hc Ho|A body m h o m' Hc Ho|m h m' h' Hc|items b' m h Hc];
    simpl in *.
  - rewrite app_nil_r. rewrite load_proc_unit_eq in Hc by done.
    destruct (loadedProcUnit m) eqn:Hl; simplify_eq; [done|].
    destruct (find_unit _ _) as [[p|e|f]|]; simplify_eq; try done; [|by destruct (Ho f)].
    assert (isRunning m = false) as Hr.
    { destruct (isRunning m) eqn:E; [|done]. destruct (mi_running _ Hm E) as [[? ?] _]. congruence. }
    destruct (pu_string_initialize_parameters ps p) as [[u|e|f] p']; simplify_eq; simpl.
    + split; [|done]. apply inv_set_thread; [apply inv_set_loaded; [done|congruence]|]. intros Hw. eauto.
    + split; [|done]. apply inv_set_loaded; [done|congruence].
    + by destruct (Ho f).
  - rewrite app_nil_r. rewrite unload_proc_unit_eq in Hc by done.
    destruct (loadedProcUnit m) eqn:Hl; [|by simplify_eq].
    destruct (pu_dtor _) as [[u|e|f] p']; simplify_eq; [|by destruct (Ho Terminate)|by destruct (Ho f)].
    split; [|done]. split; simpl; try done; apply Hm.
  - rewrite app_nil_r, loaded_proc_unit_eq in *. destruct (loadedProcUnit m) eqn:Hl; simplify_eq; [|done].
    simpl in Hc. injection Hc as <- <-. split; [|done]. by eapply inv_loaded_some.
  - by apply async_round_inv with h h'.
  - rewrite pop_all_eq in Hc by apply Hm. simplify_eq. rewrite !app_nil_r. split; [|done].
    destruct Hm as [? ? ? ? Hq]. split; simpl; try done. destruct Hq; by split.
Qed.

Lemma find_unit_None units name : name ∉ units.*1 → find_unit units name = None.
Proof.
  induction units as [|[k c] units IH]; [done|]. rewrite fmap_cons. intros [? ?]%not_elem_of_cons.
  unfold find_unit. rewrite filter_cons_False by (simpl in *; congruence). by apply IH.
Qed.

Lemma find_unit_Some units name c :
  NoDup units.*1 → (name, c) ∈ units → find_unit units name = Some c.
Proof.
  induction units as [|[k d] units IH]; [set_solver|]. rewrite fmap_cons. intros [Hk Hnd]%NoDup_cons Hin.
  unfold find_unit. destruct (decide (k = name)) as [->|Hne].
  - rewrite filter_cons_True by done. apply elem_of_cons in Hin as [[= ->]|Hin]; [done|].
    destruct Hk. apply list_elem_of_fmap. by exists (name, c).
  - rewrite filter_cons_False by done. apply IH; [done|]. set_solver.
Qed.

(** A module with no unit is one whose thread does not run. *)
Lemma inv_unloaded m : module_inv m → loadedProcUnit m = None →
  isRunning m = false ∧ set_thread false (set_loaded None m) = m.
Proof.
  intros Hm Hl. assert (isRunning m = false) as Hr.
  { destruct (isRunning m) eqn:E; [|done]. destruct (mi_running _ Hm E) as [[? ?] _]. congruence. }
  split; [done|]. rewrite (module_eta m Hm) at 2. rewrite Hr. destruct Hm. destruct m; simpl in *; subst.
  done.
Qed.

(** ** Properties *)

(** C10. In every interleaving of loading and unloading units, calls into the
    loaded unit, rounds of the module's thread and [pop_all] by the server: the
    mutex is free and the exit flag clear between calls, the thread exists
    exactly while the module says it is running, which takes a loaded unit and
    asynchronous actions (so a round never dereferences a null unit), and the
    items taken out are the items pushed, in order, nothing lost, even across
    an unload and the load of another unit. *)
Theorem module_executions actions units h pushed popped m h' :
  module_trace (register_proc_units units (imodule_ctor actions), h) pushed popped (m, h') →
  stateMutex m = false ∧ doExit m = false
  ∧ (asyncProcThread m = Working ↔ isRunning m = true)
  ∧ (asyncProcThread m = Working → is_Some (loadedProcUnit m)
       ∧ (check REPLY (supportedActions m) = true ∨ check WAIT (supportedActions m) = true))
  ∧ pushed = popped ++ queue (asyncBuffer m).
Proof.
  intros Htr.
  assert (module_inv m ∧ pushed = popped ++ queue (asyncBuffer m)) as [Hm Hq].
  { change m with (m, h').1. remember (m, h') as s' eqn:Hs. clear Hs.
    induction Htr as [|pushed popped s1 ins outs s2 Htr [IHm IHq] Hstep].
    - split; [apply module_inv_ctor|done].
    - destruct (module_step_inv _ _ _ _ Hstep IHm) as [Hm2 Hf]. split; [done|].
      rewrite IHq, <-app_assoc, Hf. by rewrite app_assoc. }
  split_and!; [apply Hm|apply Hm| | |done].
  - rewrite (mi_thread _ Hm). by destruct (isRunning m).
  - rewrite (mi_thread _ Hm). destruct (isRunning m) eqn:Hr; [|done]. intros _.
    destruct (mi_running _ Hm Hr) as [? Hw]. split; [done|]. by apply orb_true_iff in Hw.
Qed.

(** Loading a unit: with a unit loaded it does nothing; an unknown name is
    [std::invalid_argument] and changes nothing; otherwise the unit is created
    and initialised and the thread starts exactly when the module has
    asynchronous actions. A unit whose initialisation throws stays loaded
    without its thread, and every later load is then ignored. *)
Theorem load_proc_unit_spec m name parameters :
  module_inv m → NoDup (procUnits m).*1 →
  (is_Some (loadedProcUnit m) → load_proc_unit name parameters m = (Ret tt, m))
  ∧ (loadedProcUnit m = None →
     (name ∉ (procUnits m).*1 →
        load_proc_unit name parameters m = (Throw (invalid_argument err_msg._tpntfnd), m))
     ∧ (∀ e, (name, Throw e) ∈ procUnits m → load_proc_unit name parameters m = (Throw e, m))
     ∧ (∀ p u p', (name, Ret p) ∈ procUnits m →
          pu_string_initialize_parameters parameters p = (Ret u, p') →
          ∃ m', load_proc_unit name parameters m = (Ret tt, m')
              ∧ loadedProcUnit m' = Some p' ∧ asyncBuffer m' = asyncBuffer m
              ∧ (asyncProcThread m' = Working ↔ wants_async m = true))
     ∧ (∀ p e p', (name, Ret p) ∈ procUnits m →
          pu_string_initialize_parameters parameters p = (Throw e, p') →
          ∃ m', load_proc_unit name parameters m = (Throw e, m')
              ∧ loadedProcUnit m' = Some p' ∧ asyncProcThread m' = NotJoinable
              ∧ ∀ name' parameters', load_proc_unit name' parameters' m' = (Ret tt, m'))).
Proof.
  intros Hm Hnd. split.
  { intros [p Hp]. by rewrite load_proc_unit_eq, Hp. }
  intros Hn. destruct (inv_unloaded m Hm Hn) as [Hr _].
  rewrite (load_proc_unit_eq name parameters m Hm), Hn. split_and!.
  - intros Hname. by rewrite find_unit_None.
  - intros e Hin. by rewrite (find_unit_Some _ _ _ Hnd Hin).
  - intros p u p' Hin Hi. rewrite (find_unit_Some _ _ _ Hnd Hin), Hi. eexists; split_and!; [done..|].
    simpl. by destruct (wants_async m).
  - intros p e p' Hin Hi. rewrite (find_unit_Some _ _ _ Hnd Hin), Hi. eexists; split_and!; [done..| |].
    + simpl. by rewrite (mi_thread _ Hm), Hr.
    + intros name' ps'. rewrite load_proc_unit_eq; [done|]. apply inv_set_loaded; [done|congruence].
Qed.

(** Unloading undoes loading: whether the initialisation succeeded or threw,
    unloading the unit stops and joins its thread, destroys it, and leaves the
    module exactly as it was before the load, its buffer included; but a unit
    whose destructor throws takes the program down. *)
Theorem load_unload m name parameters p o p' :
  module_inv m → loadedProcUnit m = None →
  NoDup (procUnits m).*1 → (name, Ret p) ∈ procUnits m →
  pu_string_initialize_parameters parameters p = (o, p') → survives o →
  let m1 := (load_proc_unit name parameters m).2 in
  (∀ u p'', pu_dtor p' = (Ret u, p'') → unload_proc_unit m1 = (Ret tt, m))
  ∧ (∀ e p'', pu_dtor p' = (Throw e, p'') → (unload_proc_unit m1).1 = Fatal Terminate).
Proof.
  intros Hm Hn Hnd Hin Hi Ho m1.
  destruct (inv_unloaded m Hm Hn) as [Hr Heta].
  assert (module_inv m1 ∧ loadedProcUnit m1 = Some p'
    ∧ set_thread false (set_loaded None m1) = set_thread false (set_loaded None m)) as (Hm1 & Hl1 & He1).
  { unfold m1. rewrite (load_proc_unit_eq name parameters m Hm), Hn,
      (find_unit_Some _ _ _ Hnd Hin), Hi.
    destruct o as [u|e|f]; [| |by destruct (Ho f)]; simpl; split_and!; try done.
    - apply inv_set_thread; [apply inv_set_loaded; [done|congruence]|]. intros Hw. eauto.
    - apply inv_set_loaded; [done|congruence]. }
  clearbody m1. rewrite (unload_proc_unit_eq m1 Hm1), Hl1. split.
  - intros u p'' ->. by rewrite He1, Heta.
  - by intros e p'' ->.
Qed.
End executions.

(** ** The factory *)
Section factory_properties.
Context {Md : Type}.
Implicit Types map : list (module_entry Md).

Lemma instantiate_Throw map name :
  name ∉ (key_name <$> map) → instantiate map name = Throw (invalid_argument err_msg._tpntfnd).
Proof.
  induction map as [|e map IH]; [done|]. rewrite fmap_cons. intros [? ?]%not_elem_of_cons.
  simpl. unfold strcmp_eq. rewrite bool_decide_false by congruence. auto.
Qed.

Lemma map_insert_instantiate e map map' name :
  map_insert e map = Some map' → key_name e ∉ (key_name <$> map) →
  instantiate map' name = if decide (name = key_name e) then constructor e else instantiate map name.
Proof.
  revert map'; induction map as [|x map IH]; intros map'; simpl; unfold strcmp_eq.
  - intros [= <-] _. simpl. unfold strcmp_eq. case_decide as Hd.
    + by rewrite bool_decide_true.
    + by rewrite bool_decide_false by congruence.
  - destruct (decide (key e = key x)); [done|]. destruct (decide (key e < key x)%positive).
    + intros [= <-] _. simpl. unfold strcmp_eq. case_decide as Hd.
      * by rewrite bool_decide_true.
      * by rewrite bool_decide_false by congruence.
    + destruct (map_insert e map) as [map1|] eqn:Hi; [|done]. intros [= <-] [Hx Hn]%not_elem_of_cons.
      simpl. unfold strcmp_eq. rewrite (IH _ eq_refl Hn).
      case_bool_decide as Hb; [|done]. case_decide; [congruence|done].
Qed.

Lemma map_insert_None e map :
  StronglySorted (λ x y, key x < key y)%positive map →
  map_insert e map = None ↔ key e ∈ (key <$> map).
Proof.
  induction 1 as [|x map Hs IH Hx]; [set_solver|]. rewrite fmap_cons, elem_of_cons. simpl.
  destruct (decide (key e = key x)) as [He|He]; [naive_solver|].
  destruct (decide (key e < key x)%positive) as [Hl|Hl].
  - split; [done|]. intros [?|(y & Hy & Hin)%list_elem_of_fmap]; [done|].
    rewrite Forall_forall in Hx. specialize (Hx y Hin). lia.
  - rewrite <-IH. destruct (map_insert e map); simpl; naive_solver.
Qed.

Lemma map_insert_sorted e map map' :
  StronglySorted (λ x y, key x < key y)%positive map → map_insert e map = Some map' →
  StronglySorted (λ x y, key x < key y)%positive map'
  ∧ ∀ x, x ∈ map' ↔ x = e ∨ x ∈ map.
Proof.
  intros Hs. revert map'; induction Hs as [|y map Hs IH Hy]; intros map'; simpl.
  - intros [= <-]. split; [by repeat constructor|]. set_solver.
  - case_decide; [done|]. case_decide as Hl.
    + intros [= <-]. split; [|set_solver]. constructor; [by constructor|].
      rewrite Forall_forall in *. intros z [->|Hz]%elem_of_cons; [done|]. specialize (Hy z Hz). lia.
    + destruct (map_insert e map) as [map1|]; [|done]. intros [= <-].
      destruct (IH map1 eq_refl) as [Hs1 Hin]. split; [|set_solver]. constructor; [done|].
      rewrite Forall_forall in *. intros z [->|Hz]%Hin; [lia|by apply Hy].
Qed.

(** The module factory: registering a module under a new name makes exactly
    that name available, changes no other and keeps the map in the order of its
    keys; registering an address twice is
    [std::runtime_error] and changes nothing; instantiating an unknown name is
    [std::invalid_argument]. *)
Theorem module_register_spec e map :
  StronglySorted (λ x y, key x < key y)%positive map →
  (key e ∈ (key <$> map) →
     module_register e map = (Throw (runtime_error err_msg._rgstrfl), map))
  ∧ (key e ∉ (key <$> map) → key_name e ∉ (key_name <$> map) →
     ∃ map', module_register e map = (Ret tt, map')
       ∧ StronglySorted (λ x y, key x < key y)%positive map'
       ∧ instantiate map' (key_name e) = constructor e
       ∧ (∀ name, name ≠ key_name e → instantiate map' name = instantiate map name)
       ∧ ∀ name, name ∉ (key_name <$> map) → name ≠ key_name e →
           instantiate map' name = Throw (invalid_argument err_msg._tpntfnd)).
Proof.
  intros Hs. pose proof (map_insert_None e map Hs) as Hn. unfold module_register. mrun. split.
  - intros Hin. by rewrite (proj2 Hn Hin).
  - intros Hin Hname. destruct (map_insert e map) as [map'|] eqn:Hi; [|naive_solver].
    pose proof (map_insert_instantiate e map map') as Hinst. exists map'. split_and!; [done| | | |].
    + by apply (map_insert_sorted e map).
    + by rewrite Hinst, decide_True.
    + intros name Hne. by rewrite Hinst, decide_False.
    + intros name Hnn Hne. rewrite Hinst, decide_False by done. by apply instantiate_Throw.
Qed.
End factory_properties.

(** ** Witnesses

    A unit that counts the items it has pushed; it refuses the parameter "bad". *)
Definition tick_item (n : nat) : buffer_item := BufferItem None n (Parameters None 0 false).

#[local] Instance ticker : ProcUnit nat := {|
  pu_string_initialize_parameters s :=
    if strcmp_eq s "bad" then throw (invalid_argument err_msg._malinpt) else ret tt;
  pu_async_work B HB :=
    n <- read l_unit ;;
    assign l_unit (S n) ;;
    zoom l_buffer (ab_push (tick_item n)) ;; ret tt;
  pu_proc_act_request _ := ret None;
  pu_proc_act_push _ := ret true;
  pu_dtor := ret tt;
|}.

#[local] Instance ticker_safe : ProcUnitSafe nat.
Proof.
  split. intros B HB [n h b] Hb. simpl in *. mrun.
  destruct (ab_push_spec (tick_item n) b Hb) as (b' & Hp & Hi & Hc).
  rewrite Hp. simpl. split_and!; [done|by exists [tick_item n]|done].
Qed.

Definition sample_units : list (string * outcome nat) := [("ticker", Ret 0)].
Definition sample_module : imodule nat :=
  register_proc_units sample_units (imodule_ctor (pack PUSH [WAIT])).

Definition sample_loaded : imodule nat := (load_proc_unit "ticker" "" sample_module).2.
Definition sample_round (m : imodule nat) : imodule nat := (async_round (m, ∅)).2.1.

Lemma sample_inv : module_inv sample_module.
Proof. by split. Qed.

Lemma sample_names : NoDup (procUnits sample_module).*1.
Proof. repeat constructor; set_solver. Qed.

Lemma sample_step m m' items :
  async_round (m, ∅) = (Ret tt, (m', ∅)) → new_items (asyncBuffer m) (asyncBuffer m') = items →
  module_step (m, ∅) items [] (m', ∅).
Proof. intros Hr <-. by apply step_round. Qed.

Lemma module_executions_witness :
  let m := sample_round (sample_round sample_loaded) in
  module_trace (sample_module, ∅) [tick_item 0; tick_item 1] [] (m, ∅)
  ∧ asyncProcThread m = Working ∧ queue (asyncBuffer m) = [tick_item 0; tick_item 1]
  ∧ is_Some (loadedProcUnit m).
Proof.
  assert (module_trace (sample_module, ∅) [tick_item 0; tick_item 1] []
            (sample_round (sample_round sample_loaded), ∅)) as Htr.
  { assert (module_trace (sample_module, ∅) ([] ++ []) ([] ++ []) (sample_loaded, ∅)) as H1.
    { eapply trace_snoc; [apply trace_nil|]. apply (step_load "ticker" "" _ _ (Ret tt)); [reflexivity|discriminate]. }
    assert (module_trace (sample_module, ∅) ([] ++ [tick_item 0]) ([] ++ [])
              (sample_round sample_loaded, ∅)) as H2.
    { eapply trace_snoc; [exact H1|]. apply sample_step; reflexivity. }
    eapply (trace_snoc _ [tick_item 0] []); [exact H2|].
    apply sample_step; reflexivity. }
  destruct (module_executions (pack PUSH [WAIT]) sample_units ∅ _ _ _ _ Htr) as (_ & _ & _ & H & Hq).
  split_and!; [exact Htr|reflexivity|symmetry; exact Hq|apply H; reflexivity].
Defined.

Lemma load_proc_unit_spec_witness :
  load_proc_unit "tick" "" sample_module
    = (Throw (invalid_argument "type not found by name"), sample_module)
  ∧ ∃ m', load_proc_unit "ticker" "bad" sample_module
            = (Throw (invalid_argument "malformed input"), m')
        ∧ load_proc_unit "ticker" "good" m' = (Ret tt, m').
Proof.
  split.
  - destruct (load_proc_unit_spec sample_module "tick" "" sample_inv sample_names) as [_ H].
    destruct (H eq_refl) as [H1 _]. apply H1. apply (bool_decide_unpack _). vm_compute. exact I.
  - destruct (load_proc_unit_spec sample_module "ticker" "bad" sample_inv sample_names) as [_ H].
    destruct (H eq_refl) as (_ & _ & _ & H4).
    destruct (H4 0 (invalid_argument err_msg._malinpt) 0) as (m' & H5 & _ & _ & H6);
      [apply list_elem_of_singleton; reflexivity|reflexivity|].
    exists m'. split; [exact H5|apply H6].
Defined.

Lemma load_unload_witness :
  unload_proc_unit sample_loaded = (Ret tt, sample_module).
Proof.
  destruct (load_unload sample_module "ticker" "" 0 (Ret tt) 0 sample_inv eq_refl sample_names) as [H _];
    [apply list_elem_of_singleton; reflexivity|reflexivity|discriminate|].
  exact (H tt 0 eq_refl).
Defined.

Lemma module_register_spec_witness :
  let brazil := ModuleEntry 3 "brazil" (Ret 1) in
  let trabea := ModuleEntry 5 "trabea" (Ret 2) in
  (∃ map, module_register trabea [brazil] = (Ret tt, map) ∧ instantiate map "trabea" = Ret 2
          ∧ instantiate map "brazil" = Ret 1)
  ∧ module_register brazil [brazil] = (Throw (runtime_error "failed to register child"), [brazil]).
Proof.
  assert (StronglySorted (λ x y : module_entry nat, key x < key y)%positive
            [ModuleEntry 3 "brazil" (Ret 1)]) as Hs by (repeat constructor).
  split.
  - destruct (module_register_spec (ModuleEntry 5 "trabea" (Ret 2)) _ Hs) as [_ H].
    destruct H as (map & H1 & _ & H2 & H3 & _);
      [apply (bool_decide_unpack _); vm_compute; exact I..|].
    exists map. split_and!; [exact H1|exact H2|]. rewrite H3; [reflexivity|discriminate].
  - destruct (module_register_spec (ModuleEntry 3 "brazil" (Ret 1)) _ Hs) as [H _].
    apply H. apply list_elem_of_singleton. reflexivity.
Defined.
