(* ===== verification/ModuleManager.v ===== *)
(** * The module manager (module/module_manager.hpp, module_manager.cpp)

    The object every thread goes through to reach the loaded module. It is
    written against the interface of modules, the class [IModule]; Program.v gives
    the modules of the repository as instances. *)

From S2P Require Import Prelude Actions Json MiddlewareMessages Modules.

(** ** What a module offers the manager

    The virtual and public functions of [imodule]. *)
Class IModule `{RapidJSON} (Md : Type) := {
  md_string_initialize_parameters : string → M Md ();
  md_proc_act_request : request → M Md (option response);
  md_proc_act_push : request → M Md bool;
  md_load_proc_unit : string → string → M Md ();
  md_unload_proc_unit : M Md ();
  md_is_proc_unit_loaded : M Md bool;
  md_supported_actions : M Md Z;
  md_dtor : M Md ();
}.

(** The contract: seen from outside a module is idle or not and has a unit or
    not. A load that returns leaves a unit loaded, an unload leaves none, calls
    do not change that. *)
Class IModuleContract `{RapidJSON} (Md : Type) `{!IModule Md} := {
  md_idle : Md → Prop;
  md_loaded : Md → bool;
  md_loaded_spec m : md_idle m → md_is_proc_unit_loaded m = (Ret (md_loaded m), m);
  md_initialize_spec s m o m' : md_idle m → md_string_initialize_parameters s m = (o, m') →
    survives o → md_idle m' ∧ md_loaded m' = md_loaded m;
  md_load_spec name ps m o m' : md_idle m → md_load_proc_unit name ps m = (o, m') → survives o →
    md_idle m' ∧ (o = Ret tt → md_loaded m' = true);
  md_unload_spec m o m' : md_idle m → md_unload_proc_unit m = (o, m') → survives o →
    md_idle m' ∧ o = Ret tt ∧ md_loaded m' = false;
  md_request_spec r m o m' : md_idle m → md_proc_act_request r m = (o, m') → survives o →
    md_idle m' ∧ md_loaded m' = md_loaded m;
  md_push_spec r m o m' : md_idle m → md_proc_act_push r m = (o, m') → survives o →
    md_idle m' ∧ md_loaded m' = md_loaded m;
  md_actions_spec m : ∃ acts, md_supported_actions m = (Ret acts, m);
  md_dtor_spec m o m' : md_idle m → md_dtor m = (o, m') → survives o → o = Ret tt;
}.

Section manager.
Context `{RapidJSON} {Md : Type} `{!IModule Md}.

(** The object the callback is bound to, and the modules that are registered. *)
Context {W : Type} (factory : list (module_entry Md)).

(** [callback_t]: whether the instance pointer is not null, and the member
    function. It receives the module's buffer, by the module's address. *)
Record callback_t := Callback {
  instance : bool;
  callback : option (nat → Z → M W ());
}.

(** A pointer to a module is its address and the object there; [nextAddress] is
    where the next [new] puts one. [world] is what the callback acts on. *)
Record module_manager := ModuleManager {
  loadedModule : option (nat * Md);
  nextAddress : nat;
  serverCallback : callback_t;
  stateMutex : bool;
  world : W;
}.

(** Constructor. *)
Definition module_manager_ctor (w : W) : module_manager :=
  ModuleManager None 0 (Callback false None) false w.

Definition l_loadedModule : lens module_manager (option (nat * Md)) := Lens loadedModule
  (λ x m, ModuleManager x (nextAddress m) (serverCallback m) (stateMutex m) (world m)).
Definition l_nextAddress : lens module_manager nat := Lens nextAddress
  (λ x m, ModuleManager (loadedModule m) x (serverCallback m) (stateMutex m) (world m)).
Definition l_serverCallback : lens module_manager callback_t := Lens serverCallback
  (λ x m, ModuleManager (loadedModule m) (nextAddress m) x (stateMutex m) (world m)).
Definition l_stateMutex : lens module_manager bool := Lens stateMutex
  (λ x m, ModuleManager (loadedModule m) (nextAddress m) (serverCallback m) x (world m)).
Definition l_world : lens module_manager W := Lens world
  (λ x m, ModuleManager (loadedModule m) (nextAddress m) (serverCallback m) (stateMutex m) x).

(** [loadedModule->f()] *)
Definition on_module {A} (body : M Md A) : M module_manager A :=
  o <- read l_loadedModule ;;
  match o with
  | Some (a, md) =>
      let r := body md in
      assign l_loadedModule (Some (a, r.2)) ;;
      lift r.1
  | None => fail Undefined
  end.

(** [loadedModule = NULL || !loadedModule->is_proc_unit_loaded()], negated. *)
Definition unit_loaded : M module_manager bool :=
  o <- read l_loadedModule ;;
  match o with
  | Some _ => on_module md_is_proc_unit_loaded
  | None => ret false
  end.

Definition load_module (name parameters : string) : M module_manager () :=
  with_lock l_stateMutex (
    o <- read l_loadedModule ;;
    match o with
    | Some _ => ret tt
    | None =>
        md <- lift (instantiate factory name) ;;
        a <- read l_nextAddress ;;
        assign l_nextAddress (S a) ;;
        assign l_loadedModule (Some (a, md)) ;;
        on_module (md_string_initialize_parameters parameters)
    end).

Definition load_proc_unit (name parameters : string) : M module_manager () :=
  with_lock l_stateMutex (
    o <- read l_loadedModule ;;
    match o with
    | None => ret tt
    | Some (a, _) =>
        loaded <- on_module md_is_proc_unit_loaded ;;
        if loaded : bool then ret tt
        else
          on_module (md_load_proc_unit name parameters) ;;
          cb <- read l_serverCallback ;;
          match instance cb, callback cb with
          | true, Some f =>
              acts <- on_module md_supported_actions ;;
              zoom l_world (f a acts)
          | _, _ => throw (runtime_error err_msg._nllpntr)
          end
    end).

(** [delete loadedModule]: an exception from the destructor ends the program. *)
Definition delete_module : M module_manager () := λ s,
  match on_module md_dtor s with
  | (Throw _, s') => (Fatal Terminate, s')
  | r => r
  end.

Definition unload_module : M module_manager () :=
  with_lock l_stateMutex (
    o <- read l_loadedModule ;;
    match o with
    | None => ret tt
    | Some _ =>
        on_module md_unload_proc_unit ;;
        delete_module ;;
        assign l_loadedModule None
    end).

Definition unload_proc_unit : M module_manager () :=
  with_lock l_stateMutex (
    o <- read l_loadedModule ;;
    match o with
    | None => ret tt
    | Some _ => on_module md_unload_proc_unit
    end).

Definition proc_act_request (r : request) : M module_manager (option response) :=
  with_lock l_stateMutex (
    loaded <- unit_loaded ;;
    if loaded : bool then on_module (md_proc_act_request r)
    else throw (runtime_error err_msg._nllpntr)).

Definition proc_act_push (r : request) : M module_manager bool :=
  with_lock l_stateMutex (
    loaded <- unit_loaded ;;
    if loaded : bool then on_module (md_proc_act_push r)
    else throw (runtime_error err_msg._nllpntr)).

Definition is_module_loaded : M module_manager bool :=
  with_lock l_stateMutex (
    o <- read l_loadedModule ;;
    ret (bool_decide (is_Some o))).

Definition is_proc_unit_loaded : M module_manager bool :=
  with_lock l_stateMutex unit_loaded.

(** The guard calls [is_module_loaded] with the mutex held. *)
Definition supported_actions : M module_manager Z :=
  with_lock l_stateMutex (
    b <- is_module_loaded ;;
    (if b : bool then
       loaded <- on_module md_is_proc_unit_loaded ;;
       if loaded : bool then ret tt else throw (runtime_error err_msg._nllpntr)
     else throw (runtime_error err_msg._nllpntr)) ;;
    on_module md_supported_actions).

Definition register_callback (cb : callback_t) : M module_manager () :=
  with_lock l_stateMutex (assign l_serverCallback cb).

Definition unregister_callback : M module_manager () :=
  with_lock l_stateMutex (
    cb <- read l_serverCallback ;;
    assign l_serverCallback (Callback false (callback cb)) ;;
    cb <- read l_serverCallback ;;
    assign l_serverCallback (Callback (instance cb) None)).

Definition is_callback_registered : M module_manager bool :=
  with_lock l_stateMutex (
    cb <- read l_serverCallback ;;
    ret (negb (instance cb) && bool_decide (callback cb = None))).

(** Destructor. *)
Definition module_manager_dtor : M module_manager () := λ s,
  match unload_module s with
  | (Throw _, s') => (Fatal Terminate, s')
  | r => r
  end.
End manager.

Arguments module_manager : clear implicits.
Arguments callback_t : clear implicits.

Section properties.
Context `{RapidJSON} {Md : Type} `{!IModule Md, !IModuleContract Md}.
Context {W : Type} (factory : list (module_entry Md)).
Abbreviation manager := (module_manager Md W).
Implicit Types s : manager.

(** The modules the factory makes are idle and empty. *)
Definition fresh_factory : Prop :=
  ∀ name md, instantiate factory name = Ret md → md_idle md ∧ md_loaded md = false.

(** Between calls: the mutex is free and the module, if any, is idle. *)
Record manager_inv (s : manager) : Prop := {
  mm_free : stateMutex s = false;
  mm_idle a md : loadedModule s = Some (a, md) → md_idle md;
}.

(** What the manager shows: whether there is a module, and a unit in it. *)
Definition has_module (s : manager) : bool := bool_decide (is_Some (loadedModule s)).
Definition has_unit (s : manager) : bool :=
  match loadedModule s with Some (_, md) => md_loaded md | None => false end.

Lemma has_unit_module s : has_unit s = true → has_module s = true.
Proof. unfold has_unit, has_module. by destruct (loadedModule s). Qed.

Lemma on_module_eq {A} (body : M Md A) s a md :
  loadedModule s = Some (a, md) →
  on_module body s = ((body md).1, upd l_loadedModule (Some (a, (body md).2)) s).
Proof. intros Hl. unfold on_module. mrun. by rewrite Hl. Qed.

Lemma same_module s a md : loadedModule s = Some (a, md) → upd l_loadedModule (Some (a, md)) s = s.
Proof. destruct s; simpl. by intros ->. Qed.

(** [unit_loaded] only looks. *)
Lemma unit_loaded_eq s :
  (∀ a md, loadedModule s = Some (a, md) → md_idle md) → unit_loaded s = (Ret (has_unit s), s).
Proof.
  intros Hi. unfold unit_loaded, has_unit. mrun. destruct (loadedModule s) as [[a md]|] eqn:Hl; [|done].
  rewrite (on_module_eq _ _ _ _ Hl), md_loaded_spec by eauto. cbn [fst snd]. by rewrite same_module.
Qed.

(** The calls with their guards evaluated. *)
Lemma is_proc_unit_loaded_eq s : manager_inv s → is_proc_unit_loaded s = (Ret (has_unit s), s).
Proof.
  intros Hs. pose proof (mm_free _ Hs) as Hf.
  unfold is_proc_unit_loaded, with_lock. simpl. rewrite Hf, unit_loaded_eq by apply Hs.
  by destruct s; simpl in *; subst.
Qed.

Lemma load_module_eq name ps s :
  manager_inv s →
  load_module factory name ps s =
    match loadedModule s, instantiate factory name with
    | Some _, _ => (Ret tt, s)
    | None, Throw e => (Throw e, s)
    | None, Fatal f => (Fatal f, upd l_stateMutex true s)
    | None, Ret md =>
        let r := md_string_initialize_parameters ps md in
        let s' := upd l_loadedModule (Some (nextAddress s, r.2))
                    (upd l_nextAddress (S (nextAddress s)) s) in
        match r.1 with
        | Fatal f => (Fatal f, upd l_stateMutex true s')
        | o => (o, s')
        end
    end.
Proof.
  intros [Hf _]. destruct s as [ld na cb mx w]. simpl in *. subst mx.
  unfold load_module, with_lock. mrun. destruct ld; [done|].
  destruct (instantiate factory name) as [md| |]; mrun; [|done..].
  unfold on_module. mrun. by destruct (md_string_initialize_parameters ps md) as [[[]| |] ?].
Qed.

(** Whether a call of the observer follows the load of a unit. *)
Definition observe (s : manager) (a : nat) : M manager () :=
  match instance (serverCallback s), callback (serverCallback s) with
  | true, Some f => acts <- on_module md_supported_actions ;; zoom l_world (f a acts)
  | _, _ => throw (runtime_error err_msg._nllpntr)
  end.

Lemma manager_load_proc_unit_eq name ps s :
  manager_inv s →
  load_proc_unit name ps s =
    match loadedModule s with
    | None => (Ret tt, s)
    | Some (a, md) =>
        if md_loaded md then (Ret tt, s)
        else
          let r := md_load_proc_unit name ps md in
          let s' := upd l_stateMutex true (upd l_loadedModule (Some (a, r.2)) s) in
          match r.1 with
          | Fatal f => (Fatal f, s')
          | Throw e => (Throw e, upd l_stateMutex false s')
          | Ret _ =>
              match observe s a s' with
              | (Fatal f, s'') => (Fatal f, s'')
              | (o, s'') => (o, upd l_stateMutex false s'')
              end
          end
    end.
Proof.
  intros [Hf Hi]. destruct s as [ld na cb mx w]. simpl in *. subst mx.
  unfold load_proc_unit, with_lock, observe. mrun. destruct ld as [[a md]|]; [|done].
  unfold on_module at 1. mrun. rewrite md_loaded_spec by eauto. simpl.
  destruct (md_loaded md); [done|]. unfold on_module at 1. mrun.
  destruct (md_load_proc_unit name ps md) as [[[]|e|f] md']; simpl; [|done..].
  by destruct (instance cb), (callback cb).
Qed.

Lemma call_eq {A} (body : M Md A) s :
  manager_inv s →
  with_lock l_stateMutex (
    loaded <- unit_loaded ;;
    if loaded : bool then on_module body else throw (runtime_error err_msg._nllpntr)) s =
    match loadedModule s with
    | Some (a, md) =>
        if md_loaded md then
          let r := body md in
          let s' := upd l_loadedModule (Some (a, r.2)) s in
          match r.1 with
          | Fatal f => (Fatal f, upd l_stateMutex true s')
          | o => (o, s')
          end
        else (Throw (runtime_error err_msg._nllpntr), s)
    | None => (Throw (runtime_error err_msg._nllpntr), s)
    end.
Proof.
  intros [Hf Hi]. destruct s as [ld na cb mx w]. simpl in *. subst mx.
  unfold with_lock. simpl. unfold bind at 1. rewrite unit_loaded_eq by done. unfold has_unit. simpl.
  destruct ld as [[a md]|]; [|done]. destruct (md_loaded md); [|done].
  unfold on_module. mrun. by destruct (body md) as [[]].
Qed.

Lemma manager_unload_proc_unit_eq s :
  manager_inv s →
  unload_proc_unit s =
    match loadedModule s with
    | None => (Ret tt, s)
    | Some (a, md) =>
        let r := md_unload_proc_unit md in
        let s' := upd l_loadedModule (Some (a, r.2)) s in
        match r.1 with
        | Fatal f => (Fatal f, upd l_stateMutex true s')
        | o => (o, s')
        end
    end.
Proof.
  intros [Hf Hi]. destruct s as [ld na cb mx w]. simpl in *. subst mx.
  unfold unload_proc_unit, with_lock. mrun. destruct ld as [[a md]|]; [|done].
  unfold on_module. mrun. by destruct (md_unload_proc_unit md) as [[]].
Qed.

(** Unloading the module either ends the program or leaves none. *)
Lemma unload_module_survives s o s' :
  manager_inv s → unload_module s = (o, s') → survives o →
  o = Ret tt ∧ s' = upd l_loadedModule None s.
Proof.
  intros [Hf Hi]. destruct s as [ld na cb mx w]. simpl in *. subst mx.
  unfold unload_module, with_lock. mrun. destruct ld as [[a md]|]; [|by intros [= <- <-]].
  unfold on_module at 1. mrun.
  destruct (md_unload_proc_unit md) as [o1 md1] eqn:Hu.
  destruct o1 as [[]|e|f]; simpl.
  - destruct (md_unload_spec md _ _ (Hi _ _ eq_refl) Hu) as (Hi1 & _); [discriminate|].
    unfold delete_module, on_module. mrun.
    destruct (md_dtor md1) as [[[]|e|f] md2]; intros [= <- <-] Ho; simpl; [done| |].
    + by destruct (Ho Terminate).
    + by destruct (Ho f).
  - destruct (md_unload_spec md _ _ (Hi _ _ eq_refl) Hu) as (_ & ? & _); done.
  - intros [= <- <-] Ho. by destruct (Ho f).
Qed.
(** ** Executions

    The calls of the threads of the program, each one critical section, and the
    steps of the observer's own threads, as long as the program lives. *)
Inductive manager_step : manager → manager → Prop :=
| ms_load_module name ps s o s' :
    load_module factory name ps s = (o, s') → survives o → manager_step s s'
| ms_load_unit name ps s o s' :
    load_proc_unit name ps s = (o, s') → survives o → manager_step s s'
| ms_unload_module s o s' : unload_module s = (o, s') → survives o → manager_step s s'
| ms_unload_unit s o s' : unload_proc_unit s = (o, s') → survives o → manager_step s s'
| ms_request r s o s' : proc_act_request r s = (o, s') → survives o → manager_step s s'
| ms_push r s o s' : proc_act_push r s = (o, s') → survives o → manager_step s s'
| ms_register cb s o s' : register_callback cb s = (o, s') → survives o → manager_step s s'
| ms_unregister s o s' : unregister_callback s = (o, s') → survives o → manager_step s s'
| ms_world w s : manager_step s (upd l_world w s).

Definition manager_reach : manager → manager → Prop := rtc manager_step.

Lemma manager_inv_ctor w : manager_inv (module_manager_ctor w).
Proof. by split. Qed.

Lemma inv_set_module s a md :
  manager_inv s → md_idle md → manager_inv (upd l_loadedModule (Some (a, md)) s).
Proof. intros [Hf _] Hi. split; [done|]. simpl. by intros ?? [= <- <-]. Qed.

(** The observer cannot leave the manager in a bad state. *)
Lemma observe_inv s0 a s o s' :
  (∀ a md, loadedModule s = Some (a, md) → md_idle md) → is_Some (loadedModule s) →
  observe s0 a s = (o, s') → survives o → 
  ∀ a md, loadedModule s' = Some (a, md) → md_idle md.
Proof.
  intros Hi [[a1 md1] Hl]. unfold observe.
  destruct (instance (serverCallback s0)), (callback (serverCallback s0)) as [f|];
    try (intros [= <- <-]; by eauto).
  unfold bind at 1. rewrite (on_module_eq _ _ _ _ Hl).
  destruct (md_actions_spec md1) as [acts ->]. cbn [fst snd]. unfold zoom.
  intros [= <- <-] _ a2 md2. simpl. intros [= <- <-]. eauto.
Qed.

Lemma call_inv {A} (body : M Md A) s o s' :
  manager_inv s →
  (∀ md o md', md_idle md → body md = (o, md') → survives o → md_idle md') →
  with_lock l_stateMutex (
    loaded <- unit_loaded ;;
    if loaded : bool then on_module body else throw (runtime_error err_msg._nllpntr)) s = (o, s') →
  survives o → manager_inv s'.
Proof.
  intros Hs Hb. rewrite call_eq by done. destruct (loadedModule s) as [[a md]|] eqn:Hl.
  - destruct (md_loaded md); [|by intros [= <- <-]].
    destruct (body md) as [[x|e|f] md'] eqn:Hbody; cbn [fst snd]; intros [= <- <-] Ho.
    + apply inv_set_module; [done|]. eapply (Hb md); [by eapply mm_idle|done|discriminate].
    + apply inv_set_module; [done|]. eapply (Hb md); [by eapply mm_idle|done|discriminate].
    + by destruct (Ho f).
  - by intros [= <- <-].
Qed.

Lemma load_module_inv name ps s o s' :
  fresh_factory → manager_inv s → load_module factory name ps s = (o, s') → survives o →
  manager_inv s'.
Proof.
  intros Hfac Hs. rewrite load_module_eq by done.
  destruct (loadedModule s) as [[a md]|] eqn:Hl; [by intros [= <- <-]|].
  destruct (instantiate factory name) as [md|e|f] eqn:Hn; [|by intros [= <- <-]|intros [= <- <-] Ho; by destruct (Ho f)].
  destruct (Hfac _ _ Hn) as [Hidle _].
  destruct (md_string_initialize_parameters ps md) as [oi mdi] eqn:Hi. cbn [fst snd].
  intros Hr Ho. assert (survives oi) as Hoi.
  { intros f ->. simpl in Hr. simplify_eq. by destruct (Ho f). }
  destruct (md_initialize_spec _ _ _ _ Hidle Hi Hoi) as [Hidle' _].
  destruct oi as [[]|e|f]; simplify_eq; [..|by destruct (Hoi f)];
    by apply inv_set_module; [split; [apply Hs|simpl; congruence]|].
Qed.

Lemma load_proc_unit_inv name ps s o s' :
  manager_inv s → load_proc_unit name ps s = (o, s') → survives o → manager_inv s'.
Proof.
  intros Hs. rewrite manager_load_proc_unit_eq by done.
  destruct (loadedModule s) as [[a md]|] eqn:Hl; [|by intros [= <- <-]].
  pose proof (mm_idle _ Hs _ _ Hl) as Hidle. destruct (md_loaded md); [by intros [= <- <-]|].
  destruct (md_load_proc_unit name ps md) as [[[]|e|f] md'] eqn:Hload; cbn [fst snd].
  - destruct (md_load_spec _ _ _ _ _ Hidle Hload) as [Hidle' _]; [discriminate|].
    destruct (observe s a _) as [oo s2] eqn:Hobs. intros Hr Ho.
    assert (survives oo) as Hoo by (intros f ->; simplify_eq; by destruct (Ho f)).
    assert (∀ a md, loadedModule s2 = Some (a, md) → md_idle md) as Hidle2.
    { eapply observe_inv; [| |exact Hobs|exact Hoo]; simpl; [|by eexists]. by intros ?? [= <- <-]. }
    destruct oo as [?|e|f]; simplify_eq; [..|by destruct (Hoo f)]; by split.
  - destruct (md_load_spec _ _ _ _ _ Hidle Hload) as [Hidle' _]; [discriminate|].
    intros [= <- <-] _. split; [done|]. simpl. by intros ?? [= <- <-].
  - intros [= <- <-] Ho. by destruct (Ho f).
Qed.

Lemma unload_proc_unit_inv s o s' :
  manager_inv s → unload_proc_unit s = (o, s') → survives o → manager_inv s'.
Proof.
  intros Hs. rewrite manager_unload_proc_unit_eq by done.
  destruct (loadedModule s) as [[a md]|] eqn:Hl; [|by intros [= <- <-]].
  pose proof (mm_idle _ Hs _ _ Hl) as Hidle.
  destruct (md_unload_proc_unit md) as [[[]|e|f] md'] eqn:Hu; cbn [fst snd]; intros [= <- <-] Ho.
  - destruct (md_unload_spec _ _ _ Hidle Hu) as (? & _); [discriminate|]. by apply inv_set_module.
  - destruct (md_unload_spec _ _ _ Hidle Hu) as (_ & ? & _); done.
  - by destruct (Ho f).
Qed.

Lemma manager_step_inv s s' : fresh_factory → manager_step s s' → manager_inv s → manager_inv s'.
Proof.
  intros Hfac Hstep Hs. destruct Hstep as
    [name ps s o s' Hc Ho|name ps s o s' Hc Ho|s o s' Hc Ho|s o s' Hc Ho
    |r s o s' Hc Ho|r s o s' Hc Ho|cb s o s' Hc Ho|s o s' Hc Ho|w s].
  - by eapply load_module_inv.
  - by eapply load_proc_unit_inv.
  - destruct (unload_module_survives _ _ _ Hs Hc Ho) as [_ ->]. split; [apply Hs|done].
  - by eapply unload_proc_unit_inv.
  - eapply call_inv; [done| |exact Hc|done]. intros md o1 md' Hi Hb Ho1.
    by destruct (md_request_spec _ _ _ _ Hi Hb Ho1).
  - eapply call_inv; [done| |exact Hc|done]. intros md o1 md' Hi Hb Ho1.
    by destruct (md_push_spec _ _ _ _ Hi Hb Ho1).
  - revert Hc. unfold register_callback, with_lock. mrun. rewrite (mm_free _ Hs). intros [= <- <-].
    split; [done|apply Hs].
  - revert Hc. unfold unregister_callback, with_lock. mrun. rewrite (mm_free _ Hs). intros [= <- <-].
    split; [done|apply Hs].
  - destruct Hs; by split.
Qed.

Lemma manager_reach_inv s s' : fresh_factory → manager_reach s s' → manager_inv s → manager_inv s'.
Proof. intros Hfac. induction 1; eauto using manager_step_inv. Qed.
(** ** Properties *)

(** Guards of the manager, in every state the program can reach: the two
    queries answer what is loaded and change nothing; a request or a push without
    a module and a unit is [std::runtime_error] "null ptr" and touches nothing;
    with both it is exactly the module's own handler, whose result and
    exceptions come back with the manager's mutex free. *)
Theorem manager_guards w s r :
  fresh_factory → manager_reach (module_manager_ctor w) s →
  is_module_loaded s = (Ret (has_module s), s)
  ∧ is_proc_unit_loaded s = (Ret (has_unit s), s)
  ∧ (has_unit s = false →
       proc_act_request r s = (Throw (runtime_error err_msg._nllpntr), s)
       ∧ proc_act_push r s = (Throw (runtime_error err_msg._nllpntr), s))
  ∧ (has_unit s = true →
       ∃ a md, loadedModule s = Some (a, md)
         ∧ (∀ o md', md_proc_act_request r md = (o, md') → survives o →
              ∃ s', proc_act_request r s = (o, s') ∧ loadedModule s' = Some (a, md')
                  ∧ stateMutex s' = false)
         ∧ (∀ o md', md_proc_act_push r md = (o, md') → survives o →
              ∃ s', proc_act_push r s = (o, s') ∧ loadedModule s' = Some (a, md')
                  ∧ stateMutex s' = false)).
Proof.
  intros Hfac Hr. pose proof (manager_reach_inv _ _ Hfac Hr (manager_inv_ctor w)) as Hs. clear Hr.
  pose proof (mm_free _ Hs) as Hf. split_and!.
  - unfold is_module_loaded, with_lock. mrun. rewrite Hf. by destruct s; simpl in *; subst.
  - by apply is_proc_unit_loaded_eq.
  - unfold has_unit. intros Hu. unfold proc_act_request, proc_act_push. rewrite !call_eq by done.
    destruct (loadedModule s) as [[a md]|]; [by rewrite Hu|done].
  - unfold has_unit. intros Hu. destruct (loadedModule s) as [[a md]|] eqn:Hl; [|done].
    exists a, md. split; [done|]. unfold proc_act_request, proc_act_push.
    split; intros o md' Hc Ho; rewrite call_eq, Hl, Hu, Hc by done; cbn [fst snd];
      destruct o as [x|e|f]; try (by destruct (Ho f)); eexists; split_and!; done.
Qed.

(** Loading through the manager, in every reachable state: a second module
    and a second unit are ignored, and so is a unit without a module. Loading a
    unit into an empty module tells the observer once, with the module's buffer
    and its actions. Without a callback the load fails with
    [std::runtime_error] "null ptr" after the unit has been loaded, and since
    later loads are ignored an observer registered afterwards is never told. *)
Theorem manager_load w s name parameters :
  fresh_factory → manager_reach (module_manager_ctor w) s →
  (has_module s = true → load_module factory name parameters s = (Ret tt, s))
  ∧ (has_module s = false ∨ has_unit s = true → load_proc_unit name parameters s = (Ret tt, s))
  ∧ (∀ a md md', loadedModule s = Some (a, md) → md_loaded md = false →
       md_load_proc_unit name parameters md = (Ret tt, md') →
       (∀ f acts w', serverCallback s = Callback true (Some f) →
          md_supported_actions md' = (Ret acts, md') → f a acts (world s) = (Ret tt, w') →
          ∃ s', load_proc_unit name parameters s = (Ret tt, s')
              ∧ loadedModule s' = Some (a, md') ∧ has_unit s' = true ∧ world s' = w')
       ∧ (∀ i, serverCallback s = Callback i None ∨ (∃ c, serverCallback s = Callback false c) →
          ∃ s', load_proc_unit name parameters s = (Throw (runtime_error err_msg._nllpntr), s')
              ∧ has_unit s' = true ∧ world s' = world s
              ∧ ∀ cb name' parameters',
                  let s2 := (register_callback cb s').2 in
                  serverCallback s2 = cb
                  ∧ load_proc_unit name' parameters' s2 = (Ret tt, s2))).
Proof.
  intros Hfac Hr. pose proof (manager_reach_inv _ _ Hfac Hr (manager_inv_ctor w)) as Hs. clear Hr.
  split_and!.
  - unfold has_module. intros Hm%bool_decide_eq_true. rewrite load_module_eq by done.
    by destruct Hm as [? ->].
  - unfold has_module, has_unit. intros Hc. rewrite manager_load_proc_unit_eq by done.
    destruct (loadedModule s) as [[a md]|]; [|done]. destruct Hc as [Hc| ->]; [|done].
    by apply bool_decide_eq_false in Hc as [].
  - intros a md md' Hl Hu Hload.
    destruct (md_load_spec _ _ _ _ _ (mm_idle _ Hs _ _ Hl) Hload) as [Hidle Hloaded]; [discriminate|].
    specialize (Hloaded eq_refl). rewrite manager_load_proc_unit_eq, Hl, Hu, Hload by done. cbn [fst snd].
    unfold observe. split.
    + intros f acts w' Hcb Hacts Hw. rewrite Hcb. cbn [instance callback].
      unfold bind at 1. rewrite (on_module_eq _ _ a md') by done. rewrite Hacts. cbn [fst snd].
      unfold zoom. simpl. rewrite Hw. simpl. eexists; split_and!; done.
    + intros i Hcb.
      assert (match instance (serverCallback s), callback (serverCallback s) with
              | true, Some f => acts <- on_module md_supported_actions ;; zoom l_world (f a acts)
              | _, _ => throw (runtime_error err_msg._nllpntr)
              end = throw (S := manager) (A := ()) (runtime_error err_msg._nllpntr)) as ->.
      { destruct Hcb as [->|[c ->]]; simpl; [by destruct i|done]. }
      eexists; split_and!; [reflexivity|done|done|]. intros cb name' ps'.
      unfold register_callback, with_lock. mrun. split; [done|].
      rewrite manager_load_proc_unit_eq; simpl; [by rewrite Hloaded|].
      split; [done|]. simpl. by intros ?? [= <- <-].
Qed.

(** Unloading the module, in every reachable state, either ends the program
    (a destructor that throws) or returns and leaves the manager without module,
    with its callback; the module can then be loaded again. *)
Theorem manager_unload w s o s' :
  fresh_factory → manager_reach (module_manager_ctor w) s →
  unload_module s = (o, s') → survives o →
  o = Ret tt ∧ has_module s' = false ∧ has_unit s' = false
  ∧ serverCallback s' = serverCallback s
  ∧ ∀ name parameters md md', instantiate factory name = Ret md →
      md_string_initialize_parameters parameters md = (Ret tt, md') →
      ∃ s'', load_module factory name parameters s' = (Ret tt, s'')
           ∧ loadedModule s'' = Some (nextAddress s', md').
Proof.
  intros Hfac Hr Hu Ho. pose proof (manager_reach_inv _ _ Hfac Hr (manager_inv_ctor w)) as Hs.
  destruct (unload_module_survives _ _ _ Hs Hu Ho) as [-> ->]. split_and!; try done.
  intros name ps md md' Hn Hi. rewrite load_module_eq by (split; [apply Hs|done]).
  simpl. rewrite Hn, Hi. by eexists.
Qed.

(** [supported_actions] never returns: in every reachable state it locks the
    mutex it already holds. [is_callback_registered] answers the opposite of its
    name: [false] after a callback has been registered, [true] after
    [unregister_callback]. *)
Theorem manager_queries w s :
  fresh_factory → manager_reach (module_manager_ctor w) s →
  (supported_actions s).1 = Fatal Deadlock
  ∧ (∀ f, let s1 := (register_callback (Callback true (Some f)) s).2 in
       is_callback_registered s1 = (Ret false, s1))
  ∧ (let s1 := (unregister_callback s).2 in is_callback_registered s1 = (Ret true, s1)).
Proof.
  intros Hfac Hr. pose proof (manager_reach_inv _ _ Hfac Hr (manager_inv_ctor w)) as Hs. clear Hr.
  destruct Hs as [Hf _]. destruct s as [ld na cb mx w']. simpl in Hf. subst mx. split_and!.
  - unfold supported_actions, is_module_loaded, with_lock. by mrun.
  - intros f. unfold register_callback, is_callback_registered, with_lock. by mrun.
  - unfold unregister_callback, is_callback_registered, with_lock. by mrun.
Qed.
End properties.

(** ** Witnesses

    A module that is nothing but the fact that its unit is loaded; it answers
    every push with [true]. *)
#[local] Program Instance switchboard : IModule bool := {|
  md_string_initialize_parameters _ := ret tt;
  md_proc_act_request _ := ret None;
  md_proc_act_push _ := ret true;
  md_load_proc_unit _ _ := modify (λ _, true);
  md_unload_proc_unit := modify (λ _, false);
  md_is_proc_unit_loaded := get;
  md_supported_actions := ret 3%Z;
  md_dtor := ret tt;
|}.

#[local] Program Instance switchboard_contract : IModuleContract bool := {|
  md_idle _ := True;
  md_loaded m := m;
|}.
Solve All Obligations with (simpl; unfold ret, get, modify; intros; simplify_eq; eauto).

Definition sample_factory : list (module_entry bool) := [ModuleEntry 1 "brazil" (Ret false)].

Lemma sample_fresh : fresh_factory sample_factory.
Proof.
  intros name md. simpl. destruct (strcmp_eq _ _); [|done]. by intros [= <-].
Qed.

(** The observer remembers what it was told. *)
Definition log_call (a : nat) (acts : Z) : M (list (nat * Z)) () := modify (cons (a, acts)).

Definition manager0 : module_manager bool (list (nat * Z)) := module_manager_ctor [].
Definition manager1 : module_manager bool (list (nat * Z)) :=
  (load_module sample_factory "brazil" "" manager0).2.
Definition manager2 : module_manager bool (list (nat * Z)) :=
  (register_callback (Callback true (Some log_call)) manager1).2.
Definition manager3 : module_manager bool (list (nat * Z)) := (load_proc_unit "x" "" manager2).2.

Lemma manager1_reach : manager_reach sample_factory manager0 manager1.
Proof. apply rtc_once. apply (ms_load_module _ "brazil" "" _ (Ret tt)); [reflexivity|discriminate]. Qed.

Lemma manager2_reach : manager_reach sample_factory manager0 manager2.
Proof.
  eapply rtc_r; [apply manager1_reach|].
  apply (ms_register _ (Callback true (Some log_call)) _ (Ret tt)); [reflexivity|discriminate].
Qed.

Lemma manager3_reach : manager_reach sample_factory manager0 manager3.
Proof.
  eapply rtc_r; [apply manager2_reach|].
  apply (ms_load_unit _ "x" "" _ (Ret tt)); [reflexivity|discriminate].
Qed.

Definition any_request : request := client_request PUSH "tx" [].

Lemma manager_guards_witness :
  proc_act_push any_request manager2 = (Throw (runtime_error "null ptr"), manager2)
  ∧ (proc_act_push any_request manager3).1 = Ret true.
Proof.
  split.
  - destruct (manager_guards sample_factory [] manager2 any_request sample_fresh manager2_reach)
      as (_ & _ & H & _).
    exact (proj2 (H eq_refl)).
  - destruct (manager_guards sample_factory [] manager3 any_request sample_fresh manager3_reach)
      as (_ & _ & _ & H).
    destruct (H eq_refl) as (a & md & _ & _ & H2).
    destruct (H2 (Ret true) md eq_refl) as (s' & H3 & _); [discriminate|].
    rewrite H3. reflexivity.
Defined.

Lemma manager_load_witness :
  (∃ s', load_proc_unit "x" "" manager2 = (Ret tt, s') ∧ world s' = [(0, 3%Z)])
  ∧ load_module sample_factory "trabea" "" manager2 = (Ret tt, manager2)
  ∧ ∃ s', load_proc_unit "x" "" manager1 = (Throw (runtime_error "null ptr"), s') ∧ has_unit s' = true.
Proof.
  split_and!.
  - destruct (manager_load sample_factory [] manager2 "x" "" sample_fresh manager2_reach)
      as (_ & _ & H).
    destruct (H 0 false true eq_refl eq_refl eq_refl) as [H1 _].
    destruct (H1 log_call 3%Z [(0, 3%Z)] eq_refl eq_refl eq_refl) as (s' & Hs & _ & _ & Hw).
    exists s'. exact (conj Hs Hw).
  - apply (manager_load sample_factory [] manager2 "trabea" "" sample_fresh manager2_reach).
    reflexivity.
  - destruct (manager_load sample_factory [] manager1 "x" "" sample_fresh manager1_reach)
      as (_ & _ & H).
    destruct (H 0 false true eq_refl eq_refl eq_refl) as [_ H1].
    destruct (H1 false (or_introl eq_refl)) as (s' & Hs & Hu & _).
    exists s'. exact (conj Hs Hu).
Defined.

Lemma manager_unload_witness :
  unload_module manager3 = (Ret tt, (unload_module manager3).2)
  ∧ has_module (unload_module manager3).2 = false.
Proof.
  assert (unload_module manager3 = (Ret tt, (unload_module manager3).2)) as He
    by (vm_compute; reflexivity).
  destruct (manager_unload sample_factory [] manager3 (Ret tt) (unload_module manager3).2
    sample_fresh manager3_reach He) as (_ & H & _); [discriminate|].
  split; [reflexivity|exact H].
Defined.

Lemma manager_queries_witness :
  (supported_actions manager3).1 = Fatal Deadlock
  ∧ (is_callback_registered manager3).1 = Ret false.
Proof.
  destruct (manager_queries sample_factory [] manager3 sample_fresh manager3_reach) as (H1 & _ & _).
  destruct (manager_queries sample_factory [] manager1 sample_fresh manager1_reach) as (_ & H2 & _).
  split; [exact H1|exact (f_equal fst (H2 log_call))].
Defined.
