(* ===== verification/ManagerSpec.v ===== *)
(** * The contract of the module manager (module/module_manager.hpp)

    What the comments of the header promise a caller, as an abstract machine: is
    there a module, is a unit loaded in it, who is told about it. It knows
    neither the module object nor the mutex. The theorems relate the sequences of
    calls and answers of the manager to the runs of this machine. *)

From S2P Require Import Prelude Json MiddlewareMessages Modules ModuleManager.

(** ** What a module does by itself

    Between two calls the module's own thread and the server's outgoing thread
    change it, without the manager's mutex: [md_meanwhile]. They leave it idle
    and its unit loaded. *)
Class ModuleThreads (Md : Type) := {
  md_meanwhile : Md → Md → Prop;
}.

Class ModuleThreadsSafe `{RapidJSON} (Md : Type) `{!IModule Md, !IModuleContract Md, !ModuleThreads Md} : Prop := {
  md_meanwhile_spec m m' : md_idle m → md_meanwhile m m' → md_idle m' ∧ md_loaded m' = md_loaded m;
}.

(** ** Calls and answers *)

Section manager_spec.
Context `{RapidJSON} {Md : Type} `{!IModule Md, !ModuleThreads Md}.
Context {W : Type} (factory : list (module_entry Md)).
Abbreviation manager := (module_manager Md W).

(** The public functions. *)
Inductive call :=
| LoadModule (name parameters : string)
| LoadUnit (name parameters : string)
| UnloadModule
| UnloadUnit
| Request (r : request)
| Push (r : request)
| IsModuleLoaded
| IsUnitLoaded
| SupportedActions
| Register (cb : callback_t W)
| Unregister
| IsRegistered.

Inductive answer :=
| Nothing
| Response (rsp : option response)
| Flag (b : bool)
| Actions (acts : Z).

Definition answering {A} (f : A → answer) (m : M manager A) : M manager answer :=
  a <- m ;; ret (f a).

Definition perform (c : call) : M manager answer :=
  match c with
  | LoadModule name ps => answering (λ _, Nothing) (load_module factory name ps)
  | LoadUnit name ps => answering (λ _, Nothing) (load_proc_unit name ps)
  | UnloadModule => answering (λ _, Nothing) unload_module
  | UnloadUnit => answering (λ _, Nothing) unload_proc_unit
  | Request r => answering Response (proc_act_request r)
  | Push r => answering Flag (proc_act_push r)
  | IsModuleLoaded => answering Flag is_module_loaded
  | IsUnitLoaded => answering Flag is_proc_unit_loaded
  | SupportedActions => answering Actions supported_actions
  | Register cb => answering (λ _, Nothing) (register_callback cb)
  | Unregister => answering (λ _, Nothing) unregister_callback
  | IsRegistered => answering Flag is_callback_registered
  end.

(** What happens: a call of some thread with its outcome, a step of the threads
    of the module, or a step of the observer's own threads. *)
Inductive event :=
| Called (c : call) (o : outcome answer)
| Meanwhile
| Elsewhere (w : W).

(** A sequence of calls on the manager, as long as the program lives. *)
Inductive manager_run (s : manager) : list event → manager → Prop :=
| run_nil : manager_run s [] s
| run_call tr c o s1 s2 :
    manager_run s tr s1 → perform c s1 = (o, s2) → survives o → manager_run s (tr ++ [Called c o]) s2
| run_meanwhile tr a md md' s1 :
    manager_run s tr s1 → loadedModule s1 = Some (a, md) → md_meanwhile md md' →
    manager_run s (tr ++ [Meanwhile]) (upd l_loadedModule (Some (a, md')) s1)
| run_elsewhere tr w s1 :
    manager_run s tr s1 → manager_run s (tr ++ [Elsewhere w]) (upd l_world w s1).

(** ** The machine *)

(** The address of the module and whether it has a unit. *)
Record spec := Spec {
  sp_module : option (nat * bool);
  sp_next : nat;
  sp_callback : callback_t W;
  sp_world : W;
}.

Definition spec_init (w : W) : spec := Spec None 0 (Callback false None) w.

Definition with_module (x : option (nat * bool)) (σ : spec) : spec :=
  Spec x (sp_next σ) (sp_callback σ) (sp_world σ).

Definition spec_loaded (σ : spec) : bool :=
  match sp_module σ with Some (_, l) => l | None => false end.

(** A call that is up to the unit. *)
Definition any {A} (f : A → answer) (o : outcome answer) : Prop :=
  (∃ x, o = Ret (f x)) ∨ ∃ e, o = Throw e.

(** Telling the observer about the unit of the module at [a]. *)
Definition tell (a : nat) (σ : spec) (o : outcome answer) (σ' : spec) : Prop :=
  match instance (sp_callback σ), callback (sp_callback σ) with
  | true, Some f => ∃ acts r w, f a acts (sp_world σ) = (r, w)
      ∧ o = out_bind r (λ _, Ret Nothing)
      ∧ σ' = Spec (sp_module σ) (sp_next σ) (sp_callback σ) w
  | _, _ => o = Throw (runtime_error err_msg._nllpntr) ∧ σ' = σ
  end.

(** The outcomes the contract allows a call, and what they lead to. *)
Definition spec_call (c : call) (σ : spec) (o : outcome answer) (σ' : spec) : Prop :=
  match c with
  | LoadModule name _ =>
      match sp_module σ with
      | Some _ => o = Ret Nothing ∧ σ' = σ
      | None =>
          if decide (name ∈ (key_name <$> factory)) then
            (∃ e, o = Throw e ∧ σ' = σ)
            ∨ (any (λ _ : (), Nothing) o
               ∧ σ' = Spec (Some (sp_next σ, false)) (S (sp_next σ)) (sp_callback σ) (sp_world σ))
          else o = Throw (invalid_argument err_msg._tpntfnd) ∧ σ' = σ
      end
  | LoadUnit _ _ =>
      match sp_module σ with
      | Some (a, false) =>
          (∃ e l, o = Throw e ∧ σ' = with_module (Some (a, l)) σ)
          ∨ tell a (with_module (Some (a, true)) σ) o σ'
      | _ => o = Ret Nothing ∧ σ' = σ
      end
  | UnloadModule => o = Ret Nothing ∧ σ' = with_module None σ
  | UnloadUnit =>
      o = Ret Nothing ∧ σ' = with_module ((λ m, (m.1, false)) <$> sp_module σ) σ
  | Request _ =>
      σ' = σ ∧ if spec_loaded σ then any Response o else o = Throw (runtime_error err_msg._nllpntr)
  | Push _ =>
      σ' = σ ∧ if spec_loaded σ then any Flag o else o = Throw (runtime_error err_msg._nllpntr)
  | IsModuleLoaded => σ' = σ ∧ o = Ret (Flag (bool_decide (is_Some (sp_module σ))))
  | IsUnitLoaded => σ' = σ ∧ o = Ret (Flag (spec_loaded σ))
  | SupportedActions => False
  | Register cb => o = Ret Nothing ∧ σ' = Spec (sp_module σ) (sp_next σ) cb (sp_world σ)
  | Unregister =>
      o = Ret Nothing ∧ σ' = Spec (sp_module σ) (sp_next σ) (Callback false None) (sp_world σ)
  | IsRegistered =>
      σ' = σ ∧ o = Ret (Flag (negb (instance (sp_callback σ)) && bool_decide (callback (sp_callback σ) = None)))
  end.

Inductive spec_run (σ : spec) : list event → spec → Prop :=
| spec_nil : spec_run σ [] σ
| spec_called tr c o σ1 σ2 :
    spec_run σ tr σ1 → spec_call c σ1 o σ2 → spec_run σ (tr ++ [Called c o]) σ2
| spec_meanwhile tr σ1 : spec_run σ tr σ1 → spec_run σ (tr ++ [Meanwhile]) σ1
| spec_elsewhere tr w σ1 :
    spec_run σ tr σ1 →
    spec_run σ (tr ++ [Elsewhere w]) (Spec (sp_module σ1) (sp_next σ1) (sp_callback σ1) w).
End manager_spec.
Arguments event {_} W.
Arguments call {_} W.

Section refinement.
Context `{RapidJSON} {Md : Type} `{!IModule Md, !IModuleContract Md, !ModuleThreads Md, !ModuleThreadsSafe Md}.
Context {W : Type} (factory : list (module_entry Md)).
Abbreviation manager := (module_manager Md W).
Implicit Types s : manager.

(** What the machine sees of a manager. *)
Definition abs s : spec (W := W) :=
  Spec (prod_map id md_loaded <$> loadedModule s) (nextAddress s) (serverCallback s) (world s).

Lemma abs_loaded s : spec_loaded (abs s) = has_unit s.
Proof. unfold spec_loaded, has_unit. simpl. by destruct (loadedModule s) as [[]|]. Qed.

Lemma answering_inv {A} (f : A → answer) (m : M manager A) s o s' :
  answering f m s = (o, s') → survives o →
  ∃ o1, m s = (o1, s') ∧ survives o1 ∧ o = out_bind o1 (λ a, Ret (f a)).
Proof.
  unfold answering, bind, ret. destruct (m s) as [[x|e|e] s1]; intros [= <- <-] Ho; eexists;
    (split_and!; [done| |done]); [discriminate..|by destruct (Ho e)].
Qed.

Lemma any_intro {A} (f : A → answer) (o : outcome A) :
  survives o → any f (out_bind o (λ a, Ret (f a))).
Proof.
  intros Ho. destruct o as [x|e|e]; [left|right|by destruct (Ho e)]; by eexists.
Qed.

(** ** One call *)

Lemma load_module_spec name ps s o s' :
  fresh_factory factory → manager_inv s → load_module factory name ps s = (o, s') → survives o →
  spec_call factory (LoadModule name ps) (abs s) (out_bind o (λ _, Ret Nothing)) (abs s').
Proof.
  intros Hfac Hs. rewrite load_module_eq by done. simpl.
  destruct (loadedModule s) as [[a md]|] eqn:Hl; simpl; [by intros [= <- <-]|].
  case_decide as Hn.
  - destruct (instantiate factory name) as [md|e|f] eqn:Hi.
    + destruct (Hfac _ _ Hi) as [Hidle Hun].
      destruct (md_string_initialize_parameters ps md) as [o1 md1] eqn:Hc. cbn [fst snd].
      intros Heq Ho. assert (survives o1) as Ho1 by (intros f ->; by simplify_eq; destruct (Ho f)).
      destruct (md_initialize_spec _ _ _ _ Hidle Hc Ho1) as [_ Hl1].
      right. destruct o1 as [[]|e|f]; [..|by destruct (Ho1 f)]; simplify_eq;
        (split; [by apply any_intro|]); unfold abs; simpl; by rewrite Hl1, Hun.
    + intros [= <- <-] _. left. by exists e.
    + intros [= <- <-] Ho. by destruct (Ho f).
  - rewrite instantiate_Throw by done. by intros [= <- <-].
Qed.

Lemma load_unit_spec name ps s o s' :
  manager_inv s → load_proc_unit name ps s = (o, s') → survives o →
  spec_call factory (LoadUnit name ps) (abs s) (out_bind o (λ _, Ret Nothing)) (abs s').
Proof.
  intros Hs. rewrite manager_load_proc_unit_eq by done. simpl.
  destruct (loadedModule s) as [[a md]|] eqn:Hl; simpl; [|by intros [= <- <-]].
  destruct (md_loaded md) eqn:Hu; [by intros [= <- <-]|].
  destruct (md_load_proc_unit name ps md) as [o1 md1] eqn:Hc. cbn [fst snd].
  destruct o1 as [[]|e|f].
  - destruct (md_load_spec _ _ _ _ _ (mm_idle _ Hs _ _ Hl) Hc) as [_ Hl1]; [discriminate|].
    specialize (Hl1 eq_refl). intros Heq Ho. right. unfold tell, observe in *. simpl.
    destruct (instance (serverCallback s)), (callback (serverCallback s)) as [f|];
      try (unfold throw in Heq; simplify_eq; unfold abs; simpl; by rewrite Hl1).
    destruct (md_actions_spec md1) as [acts Ha]. revert Heq. unfold bind at 1.
    rewrite (on_module_eq _ _ a md1) by done. rewrite Ha. cbn [fst snd].
    unfold zoom. simpl. destruct (f a acts (world s)) as [r w] eqn:Hf. simpl. intros Heq.
    exists acts, r, w. destruct r as [[]|e|f1]; simplify_eq; [..|by destruct (Ho f1)];
      (split_and!; [done..|]); unfold abs; simpl; by rewrite Hl1.
  - intros [= <- <-] _. left. by exists e, (md_loaded md1).
  - intros [= <- <-] Ho. by destruct (Ho f).
Qed.

Lemma unload_unit_spec s o s' :
  manager_inv s → unload_proc_unit s = (o, s') → survives o →
  spec_call factory UnloadUnit (abs s) (out_bind o (λ _, Ret Nothing)) (abs s').
Proof.
  intros Hs. rewrite manager_unload_proc_unit_eq by done. simpl.
  destruct (loadedModule s) as [[a md]|] eqn:Hl; simpl.
  - destruct (md_unload_proc_unit md) as [o1 md1] eqn:Hc. cbn [fst snd]. intros Heq Ho.
    assert (survives o1) as Ho1 by (intros f ->; by simplify_eq; destruct (Ho f)).
    destruct (md_unload_spec _ _ _ (mm_idle _ Hs _ _ Hl) Hc Ho1) as (_ & -> & Hl1).
    simplify_eq. split; [done|]. unfold abs; simpl. by rewrite Hl1.
  - intros [= <- <-] _. split; [done|]. unfold abs, with_module. simpl. by rewrite Hl.
Qed.

Lemma unload_module_spec s o s' :
  manager_inv s → unload_module s = (o, s') → survives o →
  spec_call factory UnloadModule (abs s) (out_bind o (λ _, Ret Nothing)) (abs s').
Proof. intros Hs Hc Ho. by destruct (unload_module_survives _ _ _ Hs Hc Ho) as [-> ->]. Qed.

(** A call that the unit answers. *)
Lemma unit_call_spec {A} (f : A → answer) (body : M Md A) s o s' :
  manager_inv s →
  (∀ md o md', md_idle md → body md = (o, md') → survives o → md_idle md' ∧ md_loaded md' = md_loaded md) →
  with_lock l_stateMutex (
    loaded <- unit_loaded ;;
    if loaded : bool then on_module body else throw (runtime_error err_msg._nllpntr)) s = (o, s') →
  survives o →
  abs s' = abs s
  ∧ if spec_loaded (abs s) then any f (out_bind o (λ a, Ret (f a)))
    else out_bind o (λ a, Ret (f a)) = Throw (runtime_error err_msg._nllpntr).
Proof.
  intros Hs Hb. rewrite call_eq by done. unfold spec_loaded, abs. simpl.
  destruct (loadedModule s) as [[a md]|] eqn:Hl; simpl.
  - destruct (md_loaded md) eqn:Hu; [|intros [= <- <-]; by rewrite Hl; simpl; rewrite Hu].
    destruct (body md) as [o1 md1] eqn:Hc. cbn [fst snd]. intros Heq Ho.
    assert (survives o1) as Ho1 by (intros x ->; by simplify_eq; destruct (Ho x)).
    destruct (Hb _ _ _ (mm_idle _ Hs _ _ Hl) Hc Ho1) as [_ Hl1].
    destruct o1 as [x|e|x]; simplify_eq; simpl; [..|by destruct (Ho1 x)];
      (split; [by rewrite Hl1, Hu|by apply (any_intro f (Ret x)) || by apply (any_intro f (Throw e))]).
  - intros [= <- <-]. rewrite Hl. done.
Qed.

(** The calls that only look, or only set the callback. *)
Lemma quick_call_spec (c : call W) s o s' :
  manager_inv s →
  match c with
  | IsModuleLoaded | IsUnitLoaded | SupportedActions | Register _ | Unregister | IsRegistered => True
  | _ => False
  end →
  perform factory c s = (o, s') → survives o →
  spec_call factory c (abs s) o (abs s') ∧ manager_inv s'.
Proof.
  intros Hs Hc. pose proof (mm_free _ Hs) as Hf.
  destruct c; try done; clear Hc; unfold perform, answering.
  - unfold is_module_loaded, with_lock. mrun. rewrite Hf. intros [= <- <-] _.
    assert (upd l_stateMutex false (upd l_stateMutex true s) = s) as Heq by (by destruct s; simpl in *; subst).
    simpl in Heq. rewrite Heq. split_and!; [done| |done]. unfold abs. simpl. by destruct (loadedModule s).
  - unfold bind. rewrite is_proc_unit_loaded_eq by done. intros [= <- <-] _. simpl. by rewrite abs_loaded.
  - unfold supported_actions, is_module_loaded, with_lock. mrun. rewrite Hf. intros [= <- <-] Ho.
    by destruct (Ho Deadlock).
  - unfold register_callback, with_lock. mrun. rewrite Hf. intros [= <- <-] _.
    split; [done|]. split; [done|apply Hs].
  - unfold unregister_callback, with_lock. mrun. rewrite Hf. intros [= <- <-] _.
    split; [done|]. split; [done|apply Hs].
  - unfold is_callback_registered, with_lock. mrun. rewrite Hf. intros [= <- <-] _.
    split; [done|]. split; [done|apply Hs].
Qed.

Lemma perform_spec (c : call W) s o s' :
  fresh_factory factory → manager_inv s → perform factory c s = (o, s') → survives o →
  spec_call factory c (abs s) o (abs s') ∧ manager_inv s'.
Proof.
  intros Hfac Hs Hc Ho. destruct c; try (by eapply quick_call_spec);
    destruct (answering_inv _ _ _ _ _ Hc Ho) as (o1 & Hc1 & Ho1 & ->).
  - split; [by eapply load_module_spec|]. by eapply load_module_inv.
  - split; [by eapply load_unit_spec|]. by eapply load_proc_unit_inv.
  - split; [by eapply unload_module_spec|]. by eapply manager_step_inv; [done|eapply ms_unload_module|].
  - split; [by eapply unload_unit_spec|]. by eapply unload_proc_unit_inv.
  - split; [|by eapply manager_step_inv; [done|eapply ms_request|]].
    eapply (unit_call_spec Response); [done| |exact Hc1|done]. intros. by eapply md_request_spec.
  - split; [|by eapply manager_step_inv; [done|eapply ms_push|]].
    eapply (unit_call_spec Flag); [done| |exact Hc1|done]. intros. by eapply md_push_spec.
Qed.

(** ** Runs *)

Lemma run_simulates s tr s' :
  fresh_factory factory → manager_inv s → manager_run factory s tr s' →
  spec_run factory (abs s) tr (abs s') ∧ manager_inv s'.
Proof.
  intros Hfac Hs. induction 1 as [|tr c o s1 s2 _ [IH Hi] Hc Ho|tr a md md' s1 _ [IH Hi] Hl Hw|tr w s1 _ [IH [Hf Hi]]].
  - split; [constructor|done].
  - destruct (perform_spec _ _ _ _ Hfac Hi Hc Ho) as [? ?]. split; [|done]. by econstructor.
  - destruct (md_meanwhile_spec _ _ (mm_idle _ Hi _ _ Hl) Hw) as [Hidle Hld].
    split; [|by apply inv_set_module]. apply spec_meanwhile.
    assert (abs (upd l_loadedModule (Some (a, md')) s1) = abs s1) as ->; [|done].
    unfold abs. simpl. by rewrite Hl, Hld.
  - split; [by apply (spec_elsewhere _ _ _ _ (abs s1))|by split].
Qed.
End refinement.

(** ** Where an answer comes from *)

Section origin.
Context `{RapidJSON} {Md : Type} `{!IModule Md, !IModuleContract Md, !ModuleThreads Md, !ModuleThreadsSafe Md}.
Context {W : Type} (factory : list (module_entry Md)) (w : W).
Abbreviation manager := (module_manager Md W).
Implicit Types (s : manager) (e : event W) (tr : list (event W)).

(** The calls that leave the module, or the unit, where it is. *)
Definition keeps_module e : Prop :=
  match e with Called UnloadModule _ => False | _ => True end.
Definition keeps_unit e : Prop :=
  match e with Called UnloadModule _ | Called UnloadUnit _ => False | _ => True end.

(** The address of the module. *)
Definition module_at s : option nat := fst <$> loadedModule s.

(** A call of a run, from the state before it to the state after it, and the
    events since. *)
Record happened (c : call W) s1 s2 (K : event W → Prop) (tr1 tr : list (event W)) : Prop := {
  hp_run : manager_run factory (module_manager_ctor w) tr1 s1;
  hp_call : ∃ o tr2, perform factory c s1 = (o, s2) ∧ survives o
    ∧ tr = tr1 ++ Called c o :: tr2 ∧ Forall K tr2;
}.

(** A registered module was made at [a], where there was none, and has not been
    unloaded since. *)
Definition module_made (a : nat) tr : Prop :=
  ∃ name ps tr1 s1 s2, happened (LoadModule name ps) s1 s2 keeps_module tr1 tr
    ∧ name ∈ (key_name <$> factory) ∧ module_at s1 = None ∧ module_at s2 = Some a.

(** A unit was put into the module at [a], which had been made and had none, and
    neither has been unloaded since. *)
Definition unit_made (a : nat) tr : Prop :=
  ∃ name ps tr1 s1 s2, happened (LoadUnit name ps) s1 s2 keeps_unit tr1 tr
    ∧ module_made a tr1 ∧ module_at s1 = Some a ∧ has_unit s1 = false
    ∧ module_at s2 = Some a ∧ has_unit s2 = true.

Lemma happened_last c s1 s2 o K tr :
  manager_run factory (module_manager_ctor w) tr s1 → perform factory c s1 = (o, s2) → survives o →
  happened c s1 s2 K tr (tr ++ [Called c o]).
Proof. intros Hr Hc Ho. split; [done|]. by exists o, []. Qed.

Lemma happened_snoc c s1 s2 K tr1 tr e :
  happened c s1 s2 K tr1 tr → K e → happened c s1 s2 K tr1 (tr ++ [e]).
Proof.
  intros [Hr (o & tr2 & Hc & Ho & -> & Hk)] He. split; [done|]. exists o, (tr2 ++ [e]).
  rewrite <-app_assoc. split_and!; [done..|]. apply Forall_app. by repeat constructor.
Qed.

Lemma module_made_snoc a tr e : module_made a tr → keeps_module e → module_made a (tr ++ [e]).
Proof.
  intros (name & ps & tr1 & s1 & s2 & Hh & Hrest) He. exists name, ps, tr1, s1, s2.
  split; [by apply happened_snoc|done].
Qed.

Lemma unit_made_snoc a tr e : unit_made a tr → keeps_unit e → unit_made a (tr ++ [e]).
Proof.
  intros (name & ps & tr1 & s1 & s2 & Hh & Hrest) He. exists name, ps, tr1, s1, s2.
  split; [by apply happened_snoc|done].
Qed.

(** The state and the events agree. *)
Record origin (σ : spec (W := W)) tr : Prop := {
  or_module a : fst <$> sp_module σ = Some a → module_made a tr;
  or_unit a : sp_module σ = Some (a, true) → unit_made a tr;
}.

(** Nothing that matters has changed. *)
Lemma origin_same σ σ' tr e :
  origin σ tr → sp_module σ' = sp_module σ → keeps_unit e → origin σ' (tr ++ [e]).
Proof.
  intros [Hm Hu] Hs He. assert (keeps_module e) as Hk by (destruct e as [[]| |]; done).
  split; intros a; rewrite Hs; intros Ha.
  - apply module_made_snoc; auto.
  - apply unit_made_snoc; auto.
Qed.

Lemma origin_none σ tr : sp_module σ = None → origin σ tr.
Proof. intros Hn. by split; intros a; rewrite Hn. Qed.

Lemma abs_module s : module_at s = fst <$> sp_module (abs s).
Proof. unfold module_at, abs. simpl. by destruct (loadedModule s) as [[]|]. Qed.

Lemma abs_unit s a : sp_module (abs s) = Some (a, true) → module_at s = Some a ∧ has_unit s = true.
Proof. rewrite abs_module, <-abs_loaded. unfold spec_loaded. by intros ->. Qed.

Lemma origin_load_unit name ps s1 s2 o a l tr :
  manager_run factory (module_manager_ctor w) tr s1 → perform factory (LoadUnit name ps) s1 = (o, s2) →
  survives o → origin (abs s1) tr → sp_module (abs s1) = Some (a, false) → sp_module (abs s2) = Some (a, l) →
  origin (abs s2) (tr ++ [Called (LoadUnit name ps) o]).
Proof.
  intros Hr Hc Ho [Hm _] H1 H2. assert (module_made a tr) as Hma by (apply Hm; by rewrite H1).
  split; intros b Hb.
  - rewrite H2 in Hb. simplify_eq/=. by apply module_made_snoc.
  - destruct (abs_unit _ _ Hb) as [Hb1 Hb2]. rewrite H2 in Hb. simplify_eq.
    exists name, ps, tr, s1, s2. split; [by apply happened_last|].
    rewrite abs_module, H1, <-abs_loaded. unfold spec_loaded at 1. by rewrite H1.
Qed.

Lemma origin_call c s1 s2 o tr :
  manager_run factory (module_manager_ctor w) tr s1 → perform factory c s1 = (o, s2) → survives o →
  spec_call factory c (abs s1) o (abs s2) → origin (abs s1) tr → origin (abs s2) (tr ++ [Called c o]).
Proof.
  intros Hr Hc Ho Hs Hor. pose proof Hor as [Hm Hu].
  destruct c as [name ps|name ps| | |r|r| | | |cb| |]; cbn [spec_call] in Hs;
    try (eapply origin_same; [done| |done]; by destruct Hs as [-> _]).
  - destruct (sp_module (abs s1)) as [[a l]|] eqn:H1.
    { destruct Hs as [_ ->]. by eapply origin_same. }
    case_decide as Hn; [|by destruct Hs as [_ ->]; apply origin_none].
    destruct Hs as [(e & _ & ->)|[_ Hs]]; [by apply origin_none|].
    assert (sp_module (abs s2) = Some (sp_next (abs s1), false)) as H2 by by rewrite Hs.
    split; intros a; rewrite H2; [intros [= <-]|done].
    exists name, ps, tr, s1, s2. split; [by apply happened_last|]. by rewrite !abs_module, H1, H2.
  - destruct (sp_module (abs s1)) as [[a [|]]|] eqn:H1; [|destruct Hs as [(e & l & _ & H2)|Hs]|].
    + destruct Hs as [_ ->]. by eapply origin_same.
    + eapply (origin_load_unit name ps s1 s2 o a l); try done. by rewrite H2.
    + eapply (origin_load_unit name ps s1 s2 o a true); try done. revert Hs. unfold tell.
      repeat case_match; [intros (acts & r & w' & _ & _ & ->)|intros [_ ->]..]; done.
    + destruct Hs as [_ ->]. by apply origin_none.
  - destruct Hs as [_ ->]. by apply origin_none.
  - destruct Hs as [_ H2].
    assert (sp_module (abs s2) = (λ m, (m.1, false)) <$> sp_module (abs s1)) as H3 by by rewrite H2.
    split; intros a; rewrite H3; destruct (sp_module (abs s1)) as [[b l]|] eqn:H1; try done; simpl.
    intros [= ->]. apply module_made_snoc; [|done]. by apply Hm.
  - done.
  - destruct Hs as [_ Hs]. eapply origin_same; [done|by rewrite Hs|done].
  - destruct Hs as [_ Hs]. eapply origin_same; [done|by rewrite Hs|done].
Qed.

Lemma run_origin tr s :
  fresh_factory factory → manager_run factory (module_manager_ctor w) tr s → origin (abs s) tr.
Proof.
  intros Hfac Hr. induction Hr as [|tr c o s1 s2 Hr IH Hc Ho|tr a md md' s1 Hr IH Hl Hw|tr w1 s1 Hr IH].
  - by apply origin_none.
  - destruct (run_simulates factory _ _ _ Hfac (manager_inv_ctor w) Hr) as [_ Hi].
    destruct (perform_spec factory _ _ _ _ Hfac Hi Hc Ho) as [Hs _]. by eapply origin_call.
  - destruct (run_simulates factory _ _ _ Hfac (manager_inv_ctor w) Hr) as [_ Hi].
    destruct (md_meanwhile_spec _ _ (mm_idle _ Hi _ _ Hl) Hw) as [_ Hld].
    eapply origin_same; [done| |done]. unfold abs. simpl. by rewrite Hl; simpl; rewrite Hld.
  - by eapply origin_same.
Qed.
End origin.

(** ** Properties *)

Section properties.
Context `{RapidJSON} {Md : Type} `{!IModule Md, !IModuleContract Md, !ModuleThreads Md, !ModuleThreadsSafe Md}.
Context {W : Type} (factory : list (module_entry Md)).
Abbreviation manager := (module_manager Md W).

(** C7. The manager implements its contract: every sequence of calls and outcomes that
    a manager takes part in, from its construction on, whatever the threads
    interleave and the module's own thread does in between, is a run of the
    abstract machine, which ends with a module, a
    unit, a callback and an observer exactly where the manager has them. So a
    second load does nothing, an unknown module is "type not found by name", a
    call without module and unit is "null ptr", a unit that has been loaded is
    told to the observer once, with the address of its module; no unloading
    fails, and [supported_actions] never returns. The mutex is free at the end. *)
Theorem manager_implements w tr (s : manager) :
  fresh_factory factory → manager_run factory (module_manager_ctor w) tr s →
  spec_run factory (spec_init w) tr (abs s) ∧ stateMutex s = false
  ∧ ∀ o, Called SupportedActions o ∉ tr.
Proof.
  intros Hfac Hr. destruct (run_simulates _ _ _ _ Hfac (manager_inv_ctor w) Hr) as [Hsp Hi].
  split_and!; [done|apply Hi|]. intros o. clear - Hsp. revert Hsp.
  change (abs (module_manager_ctor w)) with (spec_init w). generalize (abs s). intros σ Hsp.
  induction Hsp as [|tr c o' σ1 σ2 _ IH Hc|tr σ1 _ IH|tr w' σ1 _ IH].
  - apply not_elem_of_nil.
  - intros [Hin|Hin]%elem_of_app; [done|]. apply list_elem_of_singleton in Hin. by simplify_eq.
  - intros [Hin|Hin]%elem_of_app; [done|]. by apply list_elem_of_singleton in Hin.
  - intros [Hin|Hin]%elem_of_app; [done|]. by apply list_elem_of_singleton in Hin.
Qed.

(** C11. Whoever gets an answer from the unit gets it from one that is there, and
    was put there: when a request or a push returns, the module at some address
    was made from a registered name when there was none, after that a call of
    [load_proc_unit] found it without a unit and left it with one, and since then
    neither has been unloaded, whatever else has been called and the threads have
    done; the answer is the one of the handler of the module at that address. The
    call that left the unit there may itself have thrown, because of the unit's
    initialisation or of the observer: the unit stays nevertheless. *)
Theorem answers_from_a_unit w tr c o (s : manager) :
  fresh_factory factory → manager_run factory (module_manager_ctor w) (tr ++ [Called c (Ret o)]) s →
  (∃ r, c = Request r ∨ c = Push r) →
  ∃ a, unit_made factory w a tr
    ∧ ∃ md md', loadedModule s = Some (a, md') ∧ md_loaded md = true
      ∧ ((∃ r rsp, c = Request r ∧ o = Response rsp ∧ md_proc_act_request r md = (Ret rsp, md'))
         ∨ (∃ r b, c = Push r ∧ o = Flag b ∧ md_proc_act_push r md = (Ret b, md'))).
Proof.
  intros Hfac Hr Hc.
  inversion Hr as [Hn|tr1 c1 o1 s1 s2 Hr1 Hp Ho Heq|tr1 a md md' s1 Hr1 _ _ Heq|tr1 w1 s1 Hr1 Heq]; simplify_list_eq.
  { by destruct tr. }
  destruct (run_simulates _ _ _ _ Hfac (manager_inv_ctor w) Hr1) as [_ Hi].
  destruct (run_origin factory w _ _ Hfac Hr1) as [_ Hu].
  assert (∀ A (f : A → answer) (body : M Md A),
    answering f (with_lock l_stateMutex (
      loaded <- unit_loaded ;;
      if loaded : bool then on_module body else throw (runtime_error err_msg._nllpntr))) s1 = (Ret o, s) →
    ∃ a md x md', unit_made factory w a tr ∧ loadedModule s = Some (a, md') ∧ md_loaded md = true
      ∧ o = f x ∧ body md = (Ret x, md')) as Hans.
  { intros A f body (x & s2 & Hcall & Hret)%bind_Ret_inv. unfold ret in Hret. simplify_eq.
    rewrite call_eq in Hcall by done.
    destruct (loadedModule s1) as [[a md]|] eqn:Hl; [|done]. destruct (md_loaded md) eqn:Hld; [|done].
    destruct (body md) as [[y|e|f'] md'] eqn:Hb; simplify_eq/=.
    exists a, md, x, md'. split_and!; [|done..]. apply Hu. unfold abs. simpl. by rewrite Hl; simpl; rewrite Hld. }
  destruct Hc as [r [-> | ->]]; destruct (Hans _ _ _ Hp) as (a & md & x & md' & Ha & Hl & Hld & -> & Hb);
    exists a; (split; [done|]); exists md, md'; (split_and!; [done..|]); [left|right]; by exists r, x.
Qed.
End properties.

(** ** Witnesses

    The switchboard of [ModuleManager], observed. *)
#[local] Existing Instance switchboard.
#[local] Existing Instance switchboard_contract.

(** It has no thread. *)
#[local] Instance no_threads : ModuleThreads bool := {| md_meanwhile _ _ := False |}.
#[local] Instance no_threads_safe : ModuleThreadsSafe bool.
Proof. by split. Qed.

Abbreviation observed := (list (nat * Z)).
Abbreviation step_of c := (perform (W := observed) sample_factory c).

(** A life of a manager: a request too early, the loads, a push, the unload. *)
Definition sample_calls : list (call observed) :=
  [Push any_request; LoadModule "brazil" ""; Register (Callback true (Some log_call));
   LoadUnit "x" ""; LoadUnit "y" ""; Push any_request; UnloadModule; IsModuleLoaded].

Fixpoint run_calls (cs : list (call observed)) (s : module_manager bool observed) :
    list (event observed) * module_manager bool observed :=
  match cs with
  | [] => ([], s)
  | c :: cs' =>
      let r := perform sample_factory c s in
      let rest := run_calls cs' r.2 in
      (Called c r.1 :: rest.1, rest.2)
  end.

Definition returns (e : event observed) : bool :=
  match e with Called _ (Fatal _) => false | _ => true end.

Lemma run_calls_run cs s0 tr s :
  manager_run sample_factory s0 tr s → forallb returns (run_calls cs s).1 = true →
  manager_run sample_factory s0 (tr ++ (run_calls cs s).1) (run_calls cs s).2.
Proof.
  revert tr s. induction cs as [|c cs IH]; intros tr s Hr; simpl; [by rewrite app_nil_r|].
  intros [Ho Hrest]%andb_prop. rewrite cons_middle, app_assoc. apply IH; [|done].
  econstructor; [done|apply surjective_pairing|]. intros f Hf. by rewrite Hf in Ho.
Qed.

Lemma sample_returns : forallb returns (run_calls sample_calls manager0).1 = true.
Proof. vm_compute. reflexivity. Qed.

Lemma sample_run :
  manager_run sample_factory manager0 (run_calls sample_calls manager0).1 (run_calls sample_calls manager0).2.
Proof. apply (run_calls_run _ _ []); [constructor|exact sample_returns]. Qed.

Lemma manager_implements_witness :
  spec_run sample_factory (spec_init [])
    [Called (Push any_request) (Throw (runtime_error "null ptr"));
     Called (LoadModule "brazil" "") (Ret Nothing);
     Called (Register (Callback true (Some log_call))) (Ret Nothing);
     Called (LoadUnit "x" "") (Ret Nothing); Called (LoadUnit "y" "") (Ret Nothing);
     Called (Push any_request) (Ret (Flag true)); Called UnloadModule (Ret Nothing);
     Called IsModuleLoaded (Ret (Flag false))]
    (Spec None 1 (Callback true (Some log_call)) [(0, 3%Z)]).
Proof.
  destruct (manager_implements sample_factory [] _ _ sample_fresh sample_run) as [Hr _].
  exact Hr.
Defined.

Definition loaded_calls : list (call observed) := take 5 sample_calls.
Definition loaded_manager : module_manager bool observed := (run_calls loaded_calls manager0).2.

Lemma loaded_push :
  (perform sample_factory (Push any_request) loaded_manager).1 = Ret (Flag true).
Proof. vm_compute. reflexivity. Qed.

Lemma loaded_run :
  manager_run sample_factory manager0
    ((run_calls loaded_calls manager0).1 ++ [Called (Push any_request) (Ret (Flag true))])
    (perform sample_factory (Push any_request) loaded_manager).2.
Proof.
  econstructor; [|exact (result_pair _ _ loaded_push)|discriminate].
  apply (run_calls_run loaded_calls _ []); [constructor|vm_compute; reflexivity].
Qed.

(** The first load throws, since nobody has registered for its notification, and the
    second one does nothing; still the unit answers. *)
Definition unobserved_calls : list (call observed) :=
  [LoadModule "brazil" ""; LoadUnit "x" ""; LoadUnit "y" ""].
Definition unobserved_manager : module_manager bool observed := (run_calls unobserved_calls manager0).2.

Lemma unobserved_run :
  manager_run sample_factory manager0
    ((run_calls unobserved_calls manager0).1 ++ [Called (Push any_request) (Ret (Flag true))])
    (perform sample_factory (Push any_request) unobserved_manager).2.
Proof.
  econstructor; [|refine (result_pair _ _ _); vm_compute; reflexivity|discriminate].
  apply (run_calls_run unobserved_calls _ []); [constructor|vm_compute; reflexivity].
Qed.

Lemma answers_from_a_unit_witness :
  unit_made sample_factory [] 0 (run_calls loaded_calls manager0).1
  ∧ unit_made (W := observed) sample_factory [] 0
      [Called (LoadModule "brazil" "") (Ret Nothing);
       Called (LoadUnit "x" "") (Throw (runtime_error "null ptr"));
       Called (LoadUnit "y" "") (Ret Nothing)].
Proof.
  split.
  - destruct (answers_from_a_unit sample_factory [] _ (Push any_request) (Flag true) _
      sample_fresh loaded_run (ex_intro _ any_request (or_intror eq_refl))) as (a & Hu & md & md' & Hl & _).
    assert (0 = a) as <- by (exact (f_equal (λ m : option (nat * bool), default 0 (fst <$> m)) Hl)). exact Hu.
  - destruct (answers_from_a_unit sample_factory [] _ (Push any_request) (Flag true) _
      sample_fresh unobserved_run (ex_intro _ any_request (or_intror eq_refl))) as (a & Hu & md & md' & Hl & _).
    assert (0 = a) as <- by (exact (f_equal (λ m : option (nat * bool), default 0 (fst <$> m)) Hl)). exact Hu.
Defined.
