(* ===== verification/ZmqServer.v ===== *)
(** * The worker threads of the server (net/middleware/zmq_server.hpp, zmq_server.cpp)

    [sync_work] answers the client's requests; [async_work] sends what the module
    has put into its buffer. Each is a loop around one socket of the thread's own;
    [do_exit] is set by another thread, so the number of rounds is a parameter. *)

From S2P Require Import Prelude Actions BufferItem QueueBuffer Json MiddlewareMessages Zmq.

(** ** Timeouts and counts *)
Definition sync_send_to : Z := 300.
Definition sync_receive_to : Z := 300.
Definition async_send_to : Z := 300.
Definition async_receive_to : Z := 100.
Definition async_wait_to : Z := 300.
Definition async_wait_count : Z := 100.
Definition async_wait_fail : Z := 4.
Definition EXIT_FAILURE : Z := 1.

(** What a worker asks of the rest of the program: the module manager's two
    handlers and the server's [notify_thread_started]. *)
Class Middleware `{RapidJSON} (Mg : Type) := {
  mw_proc_act_request : request → M Mg (option response);
  mw_proc_act_push : request → M Mg bool;
  mw_thread_started : M Mg bool;
}.

Section workers.
Context `{RapidJSON} `{ZMQ} {Mg : Type} `{!Middleware Mg}.

(** [catch(const zmq::error_t&) { exit(EXIT_FAILURE); }] around the body of a
    thread; any other exception ends the program. *)
Definition thread_function {S} (body : M S ()) : M S () := λ s,
  match body s with
  | (Throw (zmq_error _), s') => (Fatal (ExitProcess EXIT_FAILURE), s')
  | (Throw _, s') => (Fatal Terminate, s')
  | r => r
  end.

(** ** [sync_work] *)

Record sync_env := SyncEnv {
  s_socket : Socket;
  s_manager : Mg;
}.

Definition l_s_socket : lens sync_env Socket := Lens s_socket (λ x e, SyncEnv x (s_manager e)).
Definition l_s_manager : lens sync_env Mg := Lens s_manager (λ x e, SyncEnv (s_socket e) x).

(** [rspns = new response(e.what(), true)] *)
Definition error_response (e : exn) : M sync_env (option response) :=
  r <- lift (response_cstr (Some (exn_what e)) true) ;;
  ret (Some r).

(** The [switch] on the action. *)
Definition dispatch (rqst : request) (a : actions_t) : M sync_env (option response) :=
  match a with
  | REQUEST => try_catch (zoom l_s_manager (mw_proc_act_request rqst)) error_response
  | PUSH =>
      try_catch
        (b <- zoom l_s_manager (mw_proc_act_push rqst) ;;
         r <- lift (response_bool b false) ;;
         ret (Some r))
        error_response
  | WAIT | REPLY => throw (runtime_error err_msg._malinpt)
  end.

(** A message that has been received. The last character of an empty one is read
    outside the array. The answer of [send] is not looked at. *)
Definition serve (data : list ascii) : M sync_env () :=
  (match last data with
   | Some c => if decide (c = NUL) then ret tt else throw (runtime_error err_msg._malinpt)
   | None => fail Undefined
   end) ;;
  rqst <- lift (request_ctor data) ;;
  a <- lift (action rqst) ;;
  rspns <- dispatch rqst a ;;
  match rspns with
  | None => throw (runtime_error err_msg._nllpntr)
  | Some r => zoom l_s_socket (zmq_send (take (response_size r) (json r))) ;; ret tt
  end.

Definition sync_round : M sync_env () :=
  rcvMsg <- zoom l_s_socket zmq_recv ;;
  match rcvMsg with
  | None => ret tt
  | Some data => serve data
  end.

Definition sync_work (iEndpoint : string) (rounds : nat) : M sync_env () :=
  thread_function (
    assign l_s_socket (open_socket ZMQ_PAIR) ;;
    zoom l_s_socket (zmq_setsockopt ZMQ_SNDTIMEO sync_send_to) ;;
    zoom l_s_socket (zmq_setsockopt ZMQ_RCVTIMEO sync_receive_to) ;;
    zoom l_s_socket (zmq_bind iEndpoint) ;;
    zoom l_s_manager mw_thread_started ;;
    for_loop 0 rounds (λ _, sync_round) ;;
    zoom l_s_socket (zmq_unbind iEndpoint) ;;
    zoom l_s_socket zmq_close).

(** ** [async_work] *)

Context {B : Type} `{!AsyncBuffer B}.

Record async_state := AsyncState {
  a_socket : Socket;
  a_manager : Mg;
  a_buffer : B;
  a_heap : heap;
  failCount : Z;
}.

Definition l_a_socket : lens async_state Socket := Lens a_socket
  (λ x e, AsyncState x (a_manager e) (a_buffer e) (a_heap e) (failCount e)).
Definition l_a_manager : lens async_state Mg := Lens a_manager
  (λ x e, AsyncState (a_socket e) x (a_buffer e) (a_heap e) (failCount e)).
Definition l_a_buffer : lens async_state B := Lens a_buffer
  (λ x e, AsyncState (a_socket e) (a_manager e) x (a_heap e) (failCount e)).
Definition l_a_heap : lens async_state heap := Lens a_heap
  (λ x e, AsyncState (a_socket e) (a_manager e) (a_buffer e) x (failCount e)).
Definition l_failCount : lens async_state Z := Lens failCount
  (λ x e, AsyncState (a_socket e) (a_manager e) (a_buffer e) (a_heap e) x).

(** The bytes [data()], ..., [data() + size() - 1]. *)
Definition item_bytes (it : buffer_item) : M heap (list ascii) :=
  match item_data it with
  | None => if decide (item_size it = 0) then ret [] else fail Undefined
  | Some l =>
      cs <- load_chars l ;;
      if decide (item_size it ≤ length cs) then ret (take (item_size it) cs) else fail Undefined
  end.

(** One item of the popped queue: moved out of it, sent without copying, and
    destroyed by the message when it has been sent or given up. *)
Definition send_item (front : buffer_item) : M async_state () :=
  let r := buffer_item_move front in
  zoom l_a_heap (buffer_item_dtor r.2) ;;
  bs <- zoom l_a_heap (item_bytes r.1) ;;
  try_catch
    (zoom l_a_socket (zmq_send bs) ;; ret tt)
    (λ e, zoom l_a_heap (buffer_item_dtor r.1) ;; throw e) ;;
  zoom l_a_heap (buffer_item_dtor r.1).

(** [push_wait(async_wait_to) || ++failCount == async_wait_fail], given what
    [push_wait] answered. *)
Definition wait_or_give_up (woken : bool) : M async_state bool :=
  if woken then ret true
  else
    n <- read l_failCount ;;
    assign l_failCount (wrap 64 (n + 1)) ;;
    n <- read l_failCount ;;
    ret (bool_decide (n = async_wait_fail)).

Definition async_flush : M async_state () :=
  assign l_failCount 0%Z ;;
  localBuffer <- zoom l_a_buffer ab_pop_all ;;
  traverse send_item localBuffer ;;
  ret tt.

Definition async_round (woken : bool) : M async_state () :=
  flush <- wait_or_give_up woken ;;
  if flush : bool then async_flush else ret tt.

(** The second option set is the send timeout again. *)
Definition async_work (oEndpoint : string) (waits : list bool) : M async_state () :=
  thread_function (
    assign l_a_socket (open_socket ZMQ_PAIR) ;;
    zoom l_a_socket (zmq_setsockopt ZMQ_SNDTIMEO async_send_to) ;;
    zoom l_a_socket (zmq_setsockopt ZMQ_SNDTIMEO async_send_to) ;;
    zoom l_a_socket (zmq_bind oEndpoint) ;;
    zoom l_a_buffer (ab_set_push_wait_threshold async_wait_count) ;;
    assign l_failCount 0%Z ;;
    zoom l_a_manager mw_thread_started ;;
    traverse async_round waits ;;
    zoom l_a_socket (zmq_unbind oEndpoint) ;;
    zoom l_a_socket zmq_close).
End workers.

Arguments sync_env {_} Mg.
Arguments async_state {_} Mg B.

(** ** What a request is answered with *)

Section sync_properties.
Context `{RapidJSON} `{ZMQ} {Mg : Type} `{!Middleware Mg}.

(** The text of a response. *)
Definition text_of (result : Value) (error : bool) : list ascii :=
  Write (ObjectValue [(chars "result", result); (chars "error", BoolValue error)]).

(** The message of a client. *)
Definition client_message (a : actions_t) (m : string) (ps : list Value) : list ascii :=
  Write (request_value a m ps) ++ [NUL].

(** The handler's result as the text the client receives: its own response, or
    its exception as an error response. *)
Definition reply (a : actions_t) (rq : request) : M Mg (list ascii) := λ mg,
  match a with
  | REQUEST =>
      match mw_proc_act_request rq mg with
      | (Ret (Some r), mg') => (Ret (json r), mg')
      | (Ret None, mg') => (Throw (runtime_error err_msg._nllpntr), mg')
      | (Throw e, mg') => (Ret (text_of (StringValue (chars (exn_what e))) true), mg')
      | (Fatal f, mg') => (Fatal f, mg')
      end
  | PUSH =>
      match mw_proc_act_push rq mg with
      | (Ret b, mg') => (Ret (text_of (BoolValue b) false), mg')
      | (Throw e, mg') => (Ret (text_of (StringValue (chars (exn_what e))) true), mg')
      | (Fatal f, mg') => (Fatal f, mg')
      end
  | WAIT | REPLY => (Throw (runtime_error err_msg._malinpt), mg)
  end.

Lemma error_response_eq e (s : sync_env Mg) :
  error_response e s = (Ret (Some (Response (text_of (StringValue (chars (exn_what e))) true))), s).
Proof. unfold error_response, response_cstr, lift. mrun. by rewrite response_of_value. Qed.

Lemma last_terminated bs : last (bs ++ [NUL]) = Some NUL.
Proof. by rewrite last_snoc. Qed.

Lemma take_json r : take (response_size r) (json r) = json r.
Proof. apply firstn_all. Qed.

(** A terminated text whose value is known. *)
Lemma serve_value v (e : sync_env Mg) :
  exact_value v →
  serve (Write v ++ [NUL]) e =
    (rqst <- lift (request_ctor (Write v ++ [NUL])) ;;
     a <- lift (action rqst) ;;
     rspns <- dispatch rqst a ;;
     match rspns with
     | None => throw (runtime_error err_msg._nllpntr)
     | Some r => zoom l_s_socket (zmq_send (json r)) ;; ret tt
     end) e.
Proof.
  intros Hv. unfold serve. rewrite last_terminated. unfold bind at 1. rewrite decide_True by done. mrun.
  destruct (request_ctor _) as [rq| |]; [|done..]. destruct (action rq); [|done..].
  destruct (dispatch rq _ e) as [[[r|]| |] e']; [|done..]. by rewrite take_json.
Qed.

Lemma serve_request a m ps (e : sync_env Mg) :
  Forall exact_value ps →
  serve (client_message a m ps) e =
    (bs <- zoom l_s_manager (reply a (client_request a m ps)) ;;
     zoom l_s_socket (zmq_send bs) ;; ret tt) e.
Proof.
  intros Hps. unfold client_message. rewrite serve_value by by apply request_value_exact.
  assert (request_ctor (Write (request_value a m ps) ++ [NUL]) = Ret (client_request a m ps)) as ->.
  { rewrite request_ctor_value by by apply request_value_exact. unfold request_value.
    rewrite HasMember_Object, member_Object. simpl. rewrite GetString_String. simpl.
    rewrite json_cstring_nul_free by apply action_name_nul_free. by rewrite str_map_name. }
  destruct e as [sk mg]. unfold bind at 1 2, lift at 1 2. cbn [action client_request _action json_get].
  unfold dispatch, reply. destruct a; mrun; try done.
  - destruct (mw_proc_act_push _ mg) as [[b|x|f] mg']; simpl; [|by rewrite error_response_eq|done].
    unfold response_bool. by rewrite response_of_value.
  - destruct (mw_proc_act_request _ mg) as [[[r|]|x|f] mg']; simpl; try done.
    by rewrite error_response_eq.
Qed.

(** Messages the server does not understand. *)
Inductive malformed : list ascii → Prop :=
| not_terminated data c : last data = Some c → c ≠ NUL → malformed data
| no_action ms : exact_value (ObjectValue ms) → find_member (chars "action") ms = None →
    malformed (Write (ObjectValue ms) ++ [NUL])
| unknown_action ms s : exact_value (ObjectValue ms) → nul_free s →
    find_member (chars "action") ms = Some (StringValue (chars s)) → (∀ a, s ≠ action_name a) →
    malformed (Write (ObjectValue ms) ++ [NUL])
| asynchronous_action a m ps : Forall exact_value ps → a = WAIT ∨ a = REPLY →
    malformed (client_message a m ps).

Lemma serve_malformed data (e : sync_env Mg) :
  malformed data → ∃ what, serve data e = (Throw (runtime_error what), e).
Proof.
  intros Hm. destruct Hm as [data c Hl Hc|ms He Hf|ms s He Hn Hf Ha|a m ps Hps Ha].
  - exists err_msg._malinpt. unfold serve. rewrite Hl. unfold bind at 1. by rewrite decide_False.
  - exists err_msg._malinpt. rewrite serve_value by done.
    by rewrite request_ctor_value, HasMember_Object, Hf by done.
  - exists err_msg._undhcse. rewrite serve_value by done.
    rewrite request_ctor_value, HasMember_Object, member_Object, Hf by done. simpl.
    rewrite GetString_String. simpl. rewrite json_cstring_nul_free by done.
    by rewrite str_map_Throw.
  - exists err_msg._malinpt. rewrite serve_request by done. destruct e. by destruct Ha as [-> | ->].
Qed.

(** ** Properties *)

(** C23. Every request and push of the client is answered with exactly one
    message: the module's response, the result of the push, or, when the handler
    threw, an error response that carries the exception's message; the text of
    the error parses back to that message and the error flag. The server's other
    state is the handler's. *)
Theorem sync_serve a m ps (e : sync_env Mg) :
  Forall exact_value ps →
  let rq := client_request a m ps in
  let answered bs mg' :=
    serve (client_message a m ps) e
    = let r := zmq_send bs (s_socket e) in
      (match r.1 with Ret _ => Ret tt | Throw x => Throw x | Fatal f => Fatal f end, SyncEnv r.2 mg') in
  (∀ r mg', a = REQUEST → mw_proc_act_request rq (s_manager e) = (Ret (Some r), mg') →
     answered (json r) mg')
  ∧ (∀ b mg', a = PUSH → mw_proc_act_push rq (s_manager e) = (Ret b, mg') →
     answered (text_of (BoolValue b) false) mg')
  ∧ (∀ x mg', (a = REQUEST ∧ mw_proc_act_request rq (s_manager e) = (Throw x, mg')
               ∨ a = PUSH ∧ mw_proc_act_push rq (s_manager e) = (Throw x, mg')) →
     answered (text_of (StringValue (chars (exn_what x))) true) mg'
     ∧ Parse (text_of (StringValue (chars (exn_what x))) true)
       = ObjectValue [(chars "result", StringValue (chars (exn_what x))); (chars "error", BoolValue true)]).
Proof.
  intros Hps rq answered. unfold answered. rewrite serve_request by done. fold rq. destruct e as [sk mg].
  assert (∀ bs mg',
    reply a rq mg = (Ret bs, mg') →
    (bs <- zoom l_s_manager (reply a rq) ;; zoom l_s_socket (zmq_send bs) ;; ret tt) (SyncEnv sk mg)
    = let r := zmq_send bs sk in
      (match r.1 with Ret _ => Ret tt | Throw x => Throw x | Fatal f => Fatal f end, SyncEnv r.2 mg'))
    as Hreply.
  { intros bs mg' Hr. mrun. rewrite Hr. simpl. by destruct (zmq_send bs sk) as [[]]. }
  simpl. split_and!.
  - intros r mg' -> Hc. apply Hreply. simpl. by rewrite Hc.
  - intros b mg' -> Hc. apply Hreply. simpl. by rewrite Hc.
  - intros x mg' Hc. split.
    + apply Hreply. destruct Hc as [[-> Hc]|[-> Hc]]; simpl; by rewrite Hc.
    + unfold text_of. apply Parse_Write. eauto 10 with json.
Qed.

(** C24. One malformed message ends the program: a message without terminator,
    without an action, with an unknown action, or asking for WAIT or REPLY makes
    the round throw an exception that is not [zmq::error_t], which leaves the
    thread function; so does a module that answers a request with a null
    pointer. No handler has run for the malformed ones. *)
Theorem malformed_ends_program data (e : sync_env Mg) sk n :
  zmq_recv (s_socket e) = (Ret (Some data), sk) →
  (malformed data →
     thread_function (for_loop 0 (S n) (λ _, sync_round)) e = (Fatal Terminate, SyncEnv sk (s_manager e)))
  ∧ (∀ m ps mg', Forall exact_value ps → data = client_message REQUEST m ps →
     mw_proc_act_request (client_request REQUEST m ps) (s_manager e) = (Ret None, mg') →
     thread_function (for_loop 0 (S n) (λ _, sync_round)) e = (Fatal Terminate, SyncEnv sk mg')).
Proof.
  intros Hrecv. unfold thread_function. simpl for_loop.
  assert (∀ (k : () → M (sync_env Mg) ()) what e',
    serve data (SyncEnv sk (s_manager e)) = (Throw (runtime_error what), e') →
    bind sync_round k e = (Throw (runtime_error what), e')) as Hround.
  { intros k what e' Hs. unfold bind, sync_round, zoom. mrun. rewrite Hrecv. simpl. by rewrite Hs. }
  split.
  - intros Hm. destruct (serve_malformed data (SyncEnv sk (s_manager e)) Hm) as [what Hw].
    by rewrite (Hround _ _ _ Hw).
  - intros m ps mg' Hps -> Hc.
    rewrite (Hround _ err_msg._nllpntr (SyncEnv sk mg')); [done|].
    rewrite serve_request by done. unfold zoom. mrun. by rewrite Hc.
Qed.
End sync_properties.

(** ** What the outgoing thread sends *)

Section async_properties.
Context `{RapidJSON} `{ZMQ} {Mg B : Type} `{!Middleware Mg, !AsyncBuffer B}.
Implicit Types e : async_state Mg B.

(** Items that own distinct arrays with the given contents, as the transceivers
    make them: no parameters. *)
Definition owns (h : heap) (it : buffer_item) (bs : list ascii) : Prop :=
  ∃ l, b_data it = Some l ∧ h !! l = Some (Chars bs) ∧ b_size it = length bs
     ∧ p_isAllocated (b_parameters it) = false.

Definition own_all (h : heap) (items : list buffer_item) (texts : list (list ascii)) : Prop :=
  Forall2 (owns h) items texts ∧ NoDup (omap b_data items).

(** One send per text, in order, whatever each send answers. *)
Fixpoint send_all (texts : list (list ascii)) : M Socket () :=
  match texts with
  | [] => ret tt
  | bs :: texts' => zmq_send bs ;; send_all texts'
  end.

Lemma owns_bytes h it bs : owns h it bs → item_bytes it h = (Ret bs, h).
Proof.
  intros (l & Hd & Hl & Hs & _). unfold item_bytes, item_data, item_size, load_chars. rewrite Hd. mrun. rewrite Hl. simpl.
  rewrite decide_True by lia. by rewrite Hs, firstn_all.
Qed.

Lemma owns_dtor h it bs :
  owns h it bs → ∃ l, b_data it = Some l ∧ buffer_item_dtor it h = (Ret tt, delete l h).
Proof.
  intros (l & Hd & Hl & _ & Hp). exists l. split; [done|].
  unfold buffer_item_dtor, parameters_dtor. rewrite Hd, Hp. simpl. mrun. by rewrite Hl.
Qed.

Lemma moved_dtor it h : buffer_item_dtor (buffer_item_move it).2 h = (Ret tt, h).
Proof. by destruct it as [d n [a m al]]. Qed.

Lemma send_item_eq it bs e rc sk :
  owns (a_heap e) it bs → zmq_send bs (a_socket e) = (Ret rc, sk) →
  ∃ l, b_data it = Some l
     ∧ send_item it e = (Ret tt, AsyncState sk (a_manager e) (a_buffer e) (delete l (a_heap e)) (failCount e)).
Proof.
  intros Ho Hs. destruct e as [s m b h fc]. simpl in *.
  destruct (owns_dtor h it bs Ho) as (l & Hd & Hdtor). exists l. split; [done|].
  unfold send_item. rewrite move_fields. unfold bind, zoom, try_catch, ret, throw.
  cbn -[buffer_item_dtor item_bytes buffer_item_move].
  rewrite moved_dtor. cbn -[buffer_item_dtor item_bytes].
  rewrite (owns_bytes h it bs Ho). cbn -[buffer_item_dtor]. rewrite Hs.
  cbn -[buffer_item_dtor]. by rewrite Hdtor.
Qed.

Lemma send_items_eq items texts e sk :
  own_all (a_heap e) items texts → send_all texts (a_socket e) = (Ret tt, sk) →
  ∃ us, traverse send_item items e
    = (Ret us, AsyncState sk (a_manager e) (a_buffer e)
                 (delete_all (rev (omap b_data items)) (a_heap e)) (failCount e)).
Proof.
  intros [Ho Hnd]. revert e sk Ho. revert texts. induction items as [|it items IH]; intros texts e sk Ho Hs.
  - apply Forall2_nil_inv_l in Ho as ->. simpl in Hs. unfold ret in Hs. simplify_eq.
    exists []. by destruct e.
  - apply Forall2_cons_inv_l in Ho as (bs & texts' & Hit & Ho & ->).
    simpl in Hs. apply bind_Ret_inv in Hs as (rc & s1 & Hs1 & Hs).
    destruct (send_item_eq it bs e rc s1 Hit Hs1) as (l & Hl & Hsend).
    cbn in Hnd. rewrite Hl in Hnd. apply NoDup_cons in Hnd as [Hfresh Hnd].
    destruct (IH Hnd texts' (AsyncState s1 (a_manager e) (a_buffer e) (delete l (a_heap e)) (failCount e)) sk)
      as [us Hus]; [|done|].
    { simpl. eapply Forall2_impl with (P := λ x t, owns (a_heap e) x t ∧ b_data x ≠ Some l).
      - rewrite Forall2_same_length_lookup in Ho |- *. destruct Ho as [Hlen Ho]. split; [done|].
        intros i x t Hx Ht. split; [by eapply Ho|]. intros Hd. apply Hfresh.
        apply list_elem_of_omap. exists x. split; [by eapply list_elem_of_lookup_2|done].
      - intros x t [(l' & ? & ? & ? & ?) Hne]. exists l'. split_and!; try done.
        rewrite lookup_delete_ne; [done|]. intros ->. congruence. }
    exists (tt :: us). simpl. rewrite (bind_Ret _ _ _ _ _ Hsend). rewrite (bind_Ret _ _ _ _ _ Hus).
    unfold ret. do 2 f_equal. cbn. rewrite Hl. simpl. by rewrite delete_all_app.
Qed.

(** C17. Flushing: everything in the buffer is sent, one message per item with
    exactly the item's bytes, in the order it was pushed; the buffer is empty
    afterwards and every array has been freed once. An item whose send times
    out is dropped like one that was sent. *)
Theorem async_flush_fifo e items texts sk :
  ab_idle (a_buffer e) → ab_contents (a_buffer e) = items → own_all (a_heap e) items texts →
  send_all texts (a_socket e) = (Ret tt, sk) →
  ∃ b', async_flush e = (Ret tt, AsyncState sk (a_manager e) b'
                           (delete_all (rev (omap b_data items)) (a_heap e)) 0)
      ∧ ab_idle b' ∧ ab_contents b' = [].
Proof.
  intros Hi Hc Ho Hs. destruct (ab_pop_all_spec (a_buffer e) Hi) as (b' & Hpop & Hi' & Hc').
  exists b'. split; [|done]. destruct e as [s m b h fc]. simpl in *.
  destruct (send_items_eq items texts (AsyncState s m b' h 0) sk Ho Hs) as [us Hus].
  unfold async_flush, assign, modify. unfold bind at 1. unfold bind at 1, zoom at 1. simpl.
  rewrite Hpop, Hc. simpl. by rewrite (bind_Ret _ _ _ _ _ Hus).
Qed.

(** A failed wait that is not the fourth, and one that is. *)
Lemma async_round_fails e :
  (0 ≤ failCount e < 3)%Z → async_round false e = (Ret tt, upd l_failCount (failCount e + 1)%Z e).
Proof.
  intros Hf. unfold async_round, wait_or_give_up, async_wait_fail. destruct e; simpl in Hf. mrun.
  rewrite wrap_small by lia. by rewrite bool_decide_false by lia.
Qed.

Lemma async_round_gives_up e : failCount e = 3%Z → async_round false e = async_flush e.
Proof. destruct e; simpl. by intros ->. Qed.

Lemma failing_rounds k e :
  (0 ≤ failCount e)%Z → (failCount e + Z.of_nat k < 4)%Z →
  traverse async_round (replicate k false) e
  = (Ret (replicate k tt), upd l_failCount (failCount e + Z.of_nat k)%Z e).
Proof.
  revert e; induction k as [|k IH]; intros e Hf Hk; simpl traverse.
  - unfold ret. f_equal. destruct e; simpl. by rewrite Z.add_0_r.
  - rewrite (bind_Ret _ _ _ _ _ (async_round_fails e ltac:(lia))).
    rewrite (bind_Ret _ _ _ _ _ (IH (upd l_failCount (failCount e + 1)%Z e)
      ltac:(simpl; lia) ltac:(simpl; lia))).
    unfold ret. simpl. do 2 f_equal. lia.
Qed.

(** C32. When the outgoing thread flushes: at once whenever [push_wait] succeeds,
    and otherwise exactly at the fourth failure in a row; the first three
    failures send nothing and touch nothing but the count. So no item waits in
    the buffer for more than four time-outs. *)
Theorem async_cadence e :
  async_round true e = async_flush e
  ∧ (failCount e = 0%Z → ∀ k, (k < 4)%nat →
       traverse async_round (replicate k false) e
       = (Ret (replicate k tt), upd l_failCount (Z.of_nat k) e))
  ∧ (failCount e = 0%Z →
       traverse async_round (replicate 4 false) e
       = (async_flush ;; ret (replicate 4 tt)) e).
Proof.
  split_and!.
  - done.
  - intros Hf k Hk. rewrite failing_rounds by (rewrite Hf; lia). by rewrite Hf.
  - intros Hf. simpl traverse. destruct e as [s m b h fc]. simpl in Hf. subst fc.
    rewrite (bind_Ret _ _ _ _ _ (async_round_fails (AsyncState s m b h 0) ltac:(simpl; lia))).
    rewrite bind_assoc, (bind_Ret _ _ _ _ _ (async_round_fails (AsyncState s m b h 1) ltac:(simpl; lia))).
    rewrite !bind_assoc, (bind_Ret _ _ _ _ _ (async_round_fails (AsyncState s m b h 2) ltac:(simpl; lia))).
    unfold bind. rewrite async_round_gives_up by done.
    change (async_flush (upd l_failCount _ _)) with (async_flush (AsyncState s m b h 0)).
    by destruct (async_flush (AsyncState s m b h 0)) as [[[]| |] e'].
Qed.
End async_properties.

(** ** Witnesses

    A manager that counts requests, answers pushes with [false], throws at the
    method "fail" and answers every other request with a null pointer. *)
#[local] Instance counting : Middleware nat := {|
  mw_proc_act_request r :=
    m <- lift (method r) ;;
    modify S ;;
    if strcmp_eq m "fail" then throw (runtime_error "malformed input") else ret None;
  mw_proc_act_push r := ret false;
  mw_thread_started := ret true;
|}.

Definition sample_sync (inb : list (option (list ascii))) : sync_env nat :=
  SyncEnv (Scripted inb true []) 0.

Lemma sync_serve_witness :
  (serve (client_message PUSH "tx" []) (sample_sync [])).2
    = SyncEnv (Scripted [] true [text_of (BoolValue false) false]) 0
  ∧ (serve (client_message REQUEST "fail" []) (sample_sync [])).2
    = SyncEnv (Scripted [] true [text_of (StringValue (chars "malformed input")) true]) 1.
Proof.
  split.
  - destruct (sync_serve PUSH "tx" [] (sample_sync [])) as (_ & H & _); [constructor|].
    rewrite (H false 0 eq_refl eq_refl). reflexivity.
  - destruct (sync_serve REQUEST "fail" [] (sample_sync [])) as (_ & _ & H); [constructor|].
    destruct (H (runtime_error "malformed input") 1) as [H1 _]; [left; split; reflexivity|].
    rewrite H1. reflexivity.
Defined.

Lemma malformed_ends_program_witness :
  thread_function (for_loop 0 1 (λ _, sync_round)) (sample_sync [Some (chars "x")])
    = (Fatal Terminate, sample_sync [])
  ∧ thread_function (for_loop 0 1 (λ _, sync_round)) (sample_sync [Some (client_message REQUEST "get" [])])
    = (Fatal Terminate, SyncEnv (Scripted [] true []) 1).
Proof.
  split.
  - destruct (malformed_ends_program (chars "x") (sample_sync [Some (chars "x")])
      (Scripted [] true []) 0 eq_refl) as [H _].
    apply H. apply (not_terminated _ "x"%char); [reflexivity|discriminate].
  - destruct (malformed_ends_program (client_message REQUEST "get" [])
      (sample_sync [Some (client_message REQUEST "get" [])]) (Scripted [] true []) 0 eq_refl) as [_ H].
    apply (H "get" [] 1); [constructor|reflexivity|reflexivity].
Defined.

Definition two_items : list buffer_item :=
  [BufferItem (Some 1%positive) 2 (Parameters None 0 false);
   BufferItem (Some 2%positive) 1 (Parameters None 0 false)].

Definition two_texts : list (list ascii) := [chars "00"; chars "1"].

Definition two_heap : heap :=
  <[1%positive := Chars (chars "00")]> {[2%positive := Chars (chars "1")]}.

Definition sample_async : async_state nat queue_buffer :=
  AsyncState (Scripted [] true []) 0 (upd l_queue two_items queue_buffer_init) two_heap 0.

Lemma async_flush_fifo_witness :
  ∃ b', async_flush sample_async
        = (Ret tt, AsyncState (Scripted [] true two_texts) 0 b' ∅ 0) ∧ queue b' = [].
Proof.
  destruct (async_flush_fifo sample_async two_items two_texts (Scripted [] true two_texts))
    as (b' & H1 & _ & H2).
  - constructor; reflexivity.
  - reflexivity.
  - split.
    + repeat constructor; eexists; split_and!; reflexivity.
    + apply (bool_decide_unpack _). vm_compute. exact I.
  - reflexivity.
  - exists b'. split; [|exact H2]. rewrite H1. reflexivity.
Defined.

Lemma async_cadence_witness :
  traverse async_round (replicate 3 false) sample_async
    = (Ret (replicate 3 tt), upd l_failCount 3%Z sample_async)
  ∧ traverse async_round (replicate 4 false) sample_async
    = (async_flush ;; ret (replicate 4 tt)) sample_async.
Proof.
  destruct (async_cadence sample_async) as (_ & H1 & H2).
  split; [exact (H1 eq_refl 3 ltac:(lia))|exact (H2 eq_refl)].
Defined.
