(* ===== verification/NetMessages.v ===== *)
(** * Messages between transceivers and the TCP client (net/request.hpp,
    net/response.hpp, net/tcp_client.hpp, and the hardware messages of
    module/brazil/proc_unit/lcc_and_fpga.hpp)

    Boost.Asio is a dependency: a connected socket is a parameter, with the
    documented behaviour of [read] and [write] with [transfer_all]. *)

From S2P Require Import Prelude.

(** ** Sockets

    A socket shows the bytes the peer has sent before closing its side and the
    bytes it has been given; [read] and [write] answer the bytes or the number
    of bytes, or the text of the error code. *)
Class TCP := {
  Tcp : Type;
  tcp_connect : Z → Z → outcome Tcp;
  tcp_read : nat → M Tcp (list Z + string);
  tcp_write : list Z → M Tcp (nat + string);
  tcp_set_linger : M Tcp ();
  tcp_shutdown : M Tcp ();
  tcp_close : M Tcp ();

  incoming : Tcp → list Z;
  outgoing : Tcp → list Z;
  writable : Tcp → Prop;
  tcp_read_enough n s : n ≤ length (incoming s) →
    ∃ s', tcp_read n s = (Ret (inl (take n (incoming s))), s')
        ∧ incoming s' = drop n (incoming s) ∧ outgoing s' = outgoing s
        ∧ (writable s → writable s');
  tcp_read_short n s : length (incoming s) < n →
    ∃ what s', tcp_read n s = (Ret (inr what), s') ∧ outgoing s' = outgoing s;
  tcp_write_all bs s : writable s →
    ∃ s', tcp_write bs s = (Ret (inl (length bs)), s')
        ∧ incoming s' = incoming s ∧ outgoing s' = outgoing s ++ bs ∧ writable s';
}.

(** A pair of byte streams, for the witnesses; a peer answers a connection with
    the bytes given. *)
Program Definition stream_tcp_from (answer : list Z) : TCP := {|
  Tcp := list Z * list Z;
  tcp_connect _ _ := Ret (answer, []);
  tcp_read n := λ s,
    if decide (n ≤ length s.1) then (Ret (inl (take n s.1)), (drop n s.1, s.2))
    else (Ret (inr "End of file"), s);
  tcp_write bs := λ s, (Ret (inl (length bs)), (s.1, s.2 ++ bs));
  tcp_set_linger := ret tt;
  tcp_shutdown := ret tt;
  tcp_close := ret tt;
  incoming := fst;
  outgoing := snd;
  writable _ := True;
|}.
Next Obligation. intros answer n [i o]; simpl; intros. rewrite decide_True by done. eauto. Qed.
Next Obligation. intros answer n [i o]; simpl; intros. rewrite decide_False by lia. eauto. Qed.
Next Obligation. intros answer bs [i o] _; simpl. eauto. Qed.

#[export] Instance stream_tcp : TCP := stream_tcp_from [].

(** ** What the client and the server ask of a message type *)

(** [data()] is the array of [length()] bytes; [store] fills its front. *)
Class Message (Msg : Type) := {
  msg_empty : Msg;
  msg_header_length : nat;
  msg_data : Msg → list Z;
  msg_allocate : nat → Msg → Msg;
  msg_store : list Z → Msg → Msg;
}.

Definition msg_length {Msg} `{!Message Msg} (m : Msg) : nat := length (msg_data m).

(** The promise: [allocate] makes room where the type has a header, and storing a
    full array makes it the data. *)
Class MessageLaws (Msg : Type) `{!Message Msg} : Prop := {
  msg_header_small : msg_header_length (Msg := Msg) < 8;
  msg_allocate_length n m : msg_header_length (Msg := Msg) ≠ 0 → msg_length (msg_allocate n m) = n;
  msg_store_data bs m : length bs = msg_length m → msg_data (msg_store bs m) = bs;
}.

(** ** [net::request] *)

Record request := Request { r_data : list Z }.

Definition request_empty : request := Request [0; 0; 0; 0]%Z.

(** The parameters are [unsigned char]. *)
Definition request_init (protocol action flags : Z) : request :=
  Request (<[3 := 0%Z]> (<[2 := flags]> (<[1 := action]> (<[0 := protocol]> (r_data request_empty))))).

(** The copies and moves. *)
Definition request_copy (old : request) : request :=
  Request (memcpy (replicate 4 0%Z) (r_data old) 4).
Definition request_assign (self old : request) : request :=
  Request (memcpy (r_data self) (r_data old) 4).

Definition protocol (r : request) : Z := nth 0 (r_data r) 0%Z.
Definition request_action (r : request) : Z := nth 1 (r_data r) 0%Z.
Definition flags (r : request) : Z := nth 2 (r_data r) 0%Z.

#[export] Instance request_message : Message request := {|
  msg_empty := request_empty;
  msg_header_length := 0;
  msg_data := r_data;
  msg_allocate _ m := m;
  msg_store bs m := Request (memcpy (r_data m) bs (length bs));
|}.

#[export] Instance request_laws : MessageLaws request.
Proof.
  split; [simpl; lia|done|]. intros bs m Hl. simpl. by apply memcpy_full.
Qed.

(** ** [net::response] *)

Inductive response_status_code := EMPTY | OK | NO | PROBLEM.

Record response := Response { p_data : list Z }.

Definition response_empty : response := Response [0; 0; 0; 0]%Z.

(** The assignment is commented out. *)
Definition set_status (status : response_status_code) (r : response) : response := r.
Definition response_init (status : response_status_code) : response :=
  set_status status response_empty.

#[export] Instance response_message : Message response := {|
  msg_empty := response_empty;
  msg_header_length := 0;
  msg_data := p_data;
  msg_allocate _ m := m;
  msg_store bs m := Response (memcpy (p_data m) bs (length bs));
|}.

#[export] Instance response_laws : MessageLaws response.
Proof. split; [simpl; lia|done|]. intros bs m Hl. simpl. by apply memcpy_full. Qed.

(** ** The hardware's messages (lcc_and_fpga.hpp) *)
Module lcc.
Record request := Request { _data : list Z }.
Definition request_ctor (doCorrelate : bool) : request :=
  Request (<[0 := (if doCorrelate then 1 else 0)%Z]> [0%Z]).

Record response := Response { _length : nat; data : list Z }.
Definition response_ctor : response := Response 0 [].
Definition allocate (length : nat) (r : response) : response :=
  Response length (replicate length 0%Z).

#[global] Instance hardware_request_message : Message request := {|
  msg_empty := Request [0%Z];
  msg_header_length := 0;
  msg_data := _data;
  msg_allocate _ m := m;
  msg_store bs m := Request (memcpy (_data m) bs (length bs));
|}.

#[global] Instance hardware_response_message : Message response := {|
  msg_empty := response_ctor;
  msg_header_length := 4;
  msg_data := data;
  msg_allocate := allocate;
  msg_store bs m := Response (_length m) (memcpy (data m) bs (length bs));
|}.

#[global] Instance response_laws : MessageLaws response.
Proof.
  split; [simpl; lia| |].
  - intros n m _. apply length_replicate.
  - intros bs m Hl. simpl. by apply memcpy_full.
Qed.
End lcc.

(** ** [tcp_client] *)

Section tcp_client.
Context `{TCP}.

(** [throw std::runtime_error(ec.message())] *)
Definition transferred {S A} (r : A + string) : M S A :=
  match r with
  | inl a => ret a
  | inr what => throw (runtime_error what)
  end.

(** The base class's [read]. The header's bytes are the low bytes of [size]. A
    message whose array is shorter than what is read into it is overrun. *)
Definition base_read {I} `{!Message I} : M Tcp I :=
  let message := msg_empty in
  sized <- (if decide (msg_header_length (Msg := I) ≠ 0) then
              r <- tcp_read (msg_header_length (Msg := I)) ;;
              hdr <- transferred r ;;
              let size := Z.to_nat (le_value hdr) in
              ret (size, msg_allocate size message)
            else ret (msg_length message, message)) ;;
  (if decide (msg_length sized.2 < sized.1) then fail Undefined else ret tt) ;;
  r <- tcp_read sized.1 ;;
  bs <- transferred r ;;
  ret (msg_store bs sized.2).

Definition base_write {O} `{!Message O} (message : O) : M Tcp nat :=
  r <- tcp_write (msg_data message) ;;
  transferred r.

(** An exception from the destructor ends the program. *)
Definition base_dtor : M Tcp () := λ s,
  match (tcp_shutdown ;; tcp_close) s with
  | (Throw _, s') => (Fatal Terminate, s')
  | r => r
  end.

(** The thread-safe client: the mutex is on the heap, [None] is the null pointer
    a move leaves behind. *)
Record tcp_client := TcpClient {
  socket : Tcp;
  socketMutex : option bool;
}.

Definition l_socket : lens tcp_client Tcp := Lens socket (λ x c, TcpClient x (socketMutex c)).

(** The base's constructor for IPv4; an endpoint's port is an [unsigned short]. *)
Definition base_ctor (address port : Z) : outcome Tcp := tcp_connect address (wrap 16 port).

Definition tcp_client_ctor (address port : Z) : outcome tcp_client :=
  out_bind (base_ctor address port) (λ s, Ret (TcpClient s (Some false))).

(** The new client and what is left of the source. *)
Definition tcp_client_move (old : tcp_client) (closed : Tcp) : tcp_client * tcp_client :=
  (TcpClient (socket old) (socketMutex old), TcpClient closed None).

(** [lock_t lock( *socketMutex); body] *)
Definition locked {A} (body : M Tcp A) : M tcp_client A := λ c,
  match socketMutex c with
  | None => (Fatal Undefined, c)
  | Some true => (Fatal Deadlock, c)
  | Some false =>
      let r := zoom l_socket body (TcpClient (socket c) (Some true)) in
      match r.1 with
      | Fatal f => (Fatal f, r.2)
      | o => (o, TcpClient (socket r.2) (Some false))
      end
  end.

Definition read_message {I} `{!Message I} : M tcp_client I := locked base_read.
Definition write_message {O} `{!Message O} (message : O) : M tcp_client nat :=
  locked (base_write message).

(** ** What goes over the wire *)

(** What a peer sends for a message. *)
Definition wire {I} `{!Message I} (payload : list Z) : list Z :=
  (if decide (msg_header_length (Msg := I) ≠ 0)
   then le_bytes (msg_header_length (Msg := I)) (Z.of_nat (length payload)) else []) ++ payload.

(** The payloads a type can carry. *)
Definition fits {I} `{!Message I} (payload : list Z) : Prop :=
  if decide (msg_header_length (Msg := I) ≠ 0)
  then (Z.of_nat (length payload) < 256 ^ Z.of_nat (msg_header_length (Msg := I)))%Z
  else length payload = msg_length (msg_empty (Msg := I)).

Lemma base_read_wire {I} `{!Message I, !MessageLaws I} payload rest s :
  fits (I := I) payload → incoming s = wire (I := I) payload ++ rest →
  ∃ msg s', base_read (I := I) s = (Ret msg, s') ∧ msg_data msg = payload
    ∧ incoming s' = rest ∧ outgoing s' = outgoing s ∧ (writable s → writable s').
Proof.
  unfold fits, wire, base_read. intros Hf Hin. destruct (decide _) as [Hh|Hh].
  - destruct (tcp_read_enough (msg_header_length (Msg := I)) s) as (s1 & Hr1 & Hi1 & Ho1 & Hw1).
    { rewrite Hin, !length_app, le_bytes_length. lia. }
    assert (take (msg_header_length (Msg := I)) (incoming s)
      = le_bytes (msg_header_length (Msg := I)) (Z.of_nat (length payload))) as Htake.
    { rewrite Hin, <-app_assoc. apply take_app_length'. by rewrite le_bytes_length. }
    assert (incoming s1 = payload ++ rest) as Hi1'.
    { rewrite Hi1, Hin, <-app_assoc. apply drop_app_length'. by rewrite le_bytes_length. }
    destruct (tcp_read_enough (length payload) s1) as (s2 & Hr2 & Hi2 & Ho2 & Hw2).
    { rewrite Hi1', length_app. lia. }
    rewrite bind_assoc, (bind_Ret _ _ _ _ _ Hr1), Htake. unfold transferred at 1.
    rewrite bind_assoc, bind_ret, le_value_bytes, Nat2Z.id by lia. rewrite bind_ret. cbn [fst snd].
    rewrite decide_False by (rewrite msg_allocate_length by done; lia). rewrite bind_ret.
    rewrite (bind_Ret _ _ _ _ _ Hr2), Hi1', take_app_length. unfold transferred. rewrite bind_ret.
    eexists _, s2. split_and!; [done| | | |auto].
    + apply msg_store_data. by rewrite msg_allocate_length.
    + by rewrite Hi2, Hi1', drop_app_length.
    + congruence.
  - rewrite app_nil_l in Hin.
    destruct (tcp_read_enough (length payload) s) as (s2 & Hr2 & Hi2 & Ho2 & Hw2).
    { rewrite Hin, length_app. lia. }
    rewrite bind_ret. cbn [fst snd]. rewrite decide_False by lia. rewrite bind_ret, <-Hf.
    rewrite (bind_Ret _ _ _ _ _ Hr2), Hin, take_app_length. unfold transferred. rewrite bind_ret.
    eexists _, s2. split_and!; [done| | |done|done].
    + by apply msg_store_data.
    + by rewrite Hi2, Hin, drop_app_length.
Qed.
Lemma locked_free {A} (body : M Tcp A) c :
  socketMutex c = Some false →
  locked body c =
    match body (socket c) with
    | (Fatal f, s) => (Fatal f, TcpClient s (Some true))
    | (o, s) => (o, TcpClient s (Some false))
    end.
Proof. intros Hm. unfold locked, zoom. rewrite Hm. simpl. by destruct (body (socket c)) as [[]]. Qed.

(** ** Properties *)

(** Reading a message: from a stream that starts with a message of its type,
    header and payload, [read] returns exactly the payload and leaves the rest of
    the stream for the next read, whatever the type; a stream that ends inside
    a message without header is [std::runtime_error]. [write] sends exactly the
    bytes of the message and returns their number. The mutex is free again in
    each case. *)
Theorem tcp_client_messages {I} `{!Message I, !MessageLaws I} c :
  socketMutex c = Some false →
  (∀ payload rest, fits (I := I) payload →
     incoming (socket c) = wire (I := I) payload ++ rest →
     ∃ msg c', read_message (I := I) c = (Ret msg, c') ∧ msg_data msg = payload
       ∧ incoming (socket c') = rest ∧ socketMutex c' = Some false)
  ∧ (msg_header_length (Msg := I) = 0 →
     length (incoming (socket c)) < msg_length (msg_empty (Msg := I)) →
     ∃ what c', read_message (I := I) c = (Throw (runtime_error what), c')
       ∧ socketMutex c' = Some false)
  ∧ (∀ message : I, writable (socket c) →
     ∃ c', write_message message c = (Ret (msg_length message), c')
       ∧ outgoing (socket c') = outgoing (socket c) ++ msg_data message
       ∧ socketMutex c' = Some false).
Proof.
  intros Hm. split_and!.
  - intros payload rest Hf Hin. destruct (base_read_wire payload rest (socket c) Hf Hin)
      as (msg & s' & Hr & Hd & Hi & _).
    unfold read_message. rewrite locked_free, Hr by done. by eexists _, (TcpClient s' (Some false)).
  - intros Hh Hl. destruct (tcp_read_short _ _ Hl) as (what & s' & Hr & _).
    unfold read_message. rewrite locked_free by done. unfold base_read.
    rewrite decide_False by (rewrite Hh; auto). rewrite bind_ret. cbn [fst snd].
    rewrite decide_False by lia. rewrite bind_ret, (bind_Ret _ _ _ _ _ Hr).
    by eexists _, (TcpClient s' (Some false)).
  - intros message Hw. destruct (tcp_write_all (msg_data message) _ Hw) as (s' & Hr & _ & Ho & _).
    unfold write_message. rewrite locked_free by done. unfold base_write.
    rewrite (bind_Ret _ _ _ _ _ Hr). by eexists (TcpClient s' (Some false)).
Qed.

(** The request header: the protocol, action and flags a transceiver writes
    are the ones its peer reads, through any of the copies; the fourth byte is
    zero. The response carries no status at all: whatever status it is given,
    the peer reads four zero bytes. *)
Theorem net_header_roundtrip protocol' action' flags' c c2 :
  socketMutex c = Some false → writable (socket c) → outgoing (socket c) = [] →
  let r := request_init protocol' action' flags' in
  (∀ c', write_message r c = (Ret 4, c') →
     incoming (socket c2) = outgoing (socket c') → socketMutex c2 = Some false →
     ∃ r' c2', read_message c2 = (Ret r', c2') ∧ r' = r
       ∧ protocol r' = protocol' ∧ request_action r' = action' ∧ flags r' = flags'
       ∧ incoming (socket c2') = [])
  ∧ request_copy r = r ∧ (∀ self, length (r_data self) = 4 → request_assign self r = r)
  ∧ ∀ status, p_data (response_init status) = [0; 0; 0; 0]%Z.
Proof.
  intros Hm Hw Ho r. split_and!.
  - intros c' Hc Hi2 Hm2. revert Hc. unfold write_message. rewrite locked_free by done. unfold base_write.
    destruct (tcp_write_all (msg_data r) _ Hw) as (s' & Hr & _ & Ho' & _).
    rewrite (bind_Ret _ _ _ _ _ Hr). intros [= <-]. simpl in Hi2. rewrite Ho', Ho in Hi2.
    destruct (base_read_wire (I := request) (r_data r) [] (socket c2)) as (r' & s2 & Hr2 & Hd & Hi & _);
      [done|by rewrite Hi2|].
    unfold read_message. rewrite locked_free, Hr2 by done.
    assert (r' = r) as -> by (destruct r'; simpl in *; by subst).
    by eexists _, (TcpClient s2 (Some false)).
  - done.
  - intros [d] Hd. simpl in Hd. unfold request_assign. simpl r_data.
    rewrite memcpy_full by done. done.
  - by intros [].
Qed.
End tcp_client.

(** ** Witnesses *)

Definition sample_peer (bs : list Z) : tcp_client := TcpClient ((bs, []) : Tcp) (Some false).
Definition sample_sent (bs : list Z) : tcp_client := TcpClient (([], bs) : Tcp) (Some false).

Lemma tcp_client_messages_witness :
  (∃ msg : lcc.response, ∃ c',
     read_message (sample_peer [3; 0; 0; 0; 2; 2; 1; 9]%Z) = (Ret msg, c')
     ∧ lcc.data msg = [2; 2; 1]%Z ∧ incoming (socket c') = [9]%Z)
  ∧ ∃ what c', read_message (I := response) (sample_peer [0; 0]%Z) = (Throw (runtime_error what), c').
Proof.
  split.
  - destruct (tcp_client_messages (I := lcc.response) (sample_peer [3; 0; 0; 0; 2; 2; 1; 9]%Z) eq_refl)
      as [H _].
    destruct (H [2; 2; 1]%Z [9]%Z) as (msg & c' & H1 & H2 & H3 & _); [vm_compute; reflexivity..|].
    exists msg, c'. exact (conj H1 (conj H2 H3)).
  - destruct (tcp_client_messages (I := response) (sample_peer [0; 0]%Z) eq_refl) as (_ & H & _).
    destruct H as (what & c' & H1 & _); [reflexivity|vm_compute; lia|].
    exists what, c'. exact H1.
Defined.

Lemma net_header_roundtrip_witness :
  ∃ r' c2', read_message (sample_peer [0; 1; 0; 0]%Z) = (Ret r', c2') ∧ request_action r' = 1%Z.
Proof.
  destruct (net_header_roundtrip 0 1 0 (sample_peer []) (sample_peer [0; 1; 0; 0]%Z)
    eq_refl I eq_refl) as [H _].
  destruct (H (sample_sent [0; 1; 0; 0]%Z) eq_refl eq_refl eq_refl)
    as (r' & c2' & H1 & _ & _ & H2 & _).
  exists r', c2'. exact (conj H1 H2).
Defined.
