(* ===== verification/TcpClient.v ===== *)
(** * The TCP client with its mutex on the heap (net/tcp_client.hpp)

    [NetMessages] has the client as its users see it: a socket and whether its
    mutex is held. Here is the class with the pointer it really keeps: the
    constructors for both families of addresses, the queries, the moves and the
    destructor, and what any sequence of reads and writes does. Three members of
    the class cannot be instantiated and so have no behaviour: the constructor from
    a string (the base class has none), [ip6] (it calls [base().ip6()]) and the
    move assignment of the thread-safe client (it names [stateMutex]). *)

From S2P Require Import Prelude NetMessages.

(** ** Addresses

    Boost's [ip::address] holds an address of either family; the conversions
    throw [std::bad_cast] for the wrong one. An [address_v6] is an array of
    sixteen bytes in network order. [tcp_moved] is a socket that has been moved
    from, which is as if it had never been opened. *)
Class TCPAddress `{TCP} := {
  Address : Type;
  remote_endpoint : Tcp → outcome (Address * Z);
  is_v6 : Address → bool;
  to_v4 : Address → outcome Z;
  to_v6 : Address → outcome (list Z);
  is_v4_compatible : list Z → bool;
  tcp_connect6 : list Z → Z → outcome Tcp;
  tcp_moved : Tcp;

  to_v4_v4 a : is_v6 a = false → ∃ n, to_v4 a = Ret n ∧ (0 <= n < 2 ^ 32)%Z;
  to_v4_v6 a : is_v6 a = true → to_v4 a = Throw bad_cast;
  to_v6_v4 a : is_v6 a = false → to_v6 a = Throw bad_cast;
  to_v6_v6 a : is_v6 a = true → ∃ bs, to_v6 a = Ret bs ∧ length bs = 16;
  remote_port s a p : remote_endpoint s = Ret (a, p) → (0 <= p < 2 ^ 16)%Z;
  shutdown_moved : ∃ what s, tcp_shutdown tcp_moved = (Throw (boost_error what), s);
}.

Section tcp_client.
Context `{TCPAddress}.

(** ** [_tcp_client_base] *)

(** The constructor for IPv6: the address is given in host order. *)
Definition base_ctor6 (address : list Z) (port : Z) : outcome Tcp :=
  tcp_connect6 (rev address) (wrap 16 port).

(** Moves: the target and what is left of the source. *)
Definition base_move (old : Tcp) : Tcp * Tcp := (old, tcp_moved).
Definition base_move_assign (self old : Tcp) : Tcp * Tcp := (old, tcp_moved).

Definition base_ip4 : M Tcp Z :=
  s <- get ;;
  ep <- lift (remote_endpoint s) ;;
  let address := ep.1 in
  (if is_v6 address then
     v6 <- lift (to_v6 address) ;;
     if negb (is_v4_compatible v6) then throw (logic_error err_msg._malinpt) else ret tt
   else ret tt) ;;
  lift (to_v4 address).

Definition base_ipv6 : M Tcp (list Z) :=
  s <- get ;;
  ep <- lift (remote_endpoint s) ;;
  address <- lift (to_v6 ep.1) ;;
  ret (rev address).

Definition base_port : M Tcp Z :=
  s <- get ;;
  ep <- lift (remote_endpoint s) ;;
  ret ep.2.

(** ** [tcp_client<_, _, false>]: the base and nothing else *)

Definition plain_ctor (address port : Z) : outcome Tcp := base_ctor address port.
Definition plain_ctor6 (address : list Z) (port : Z) : outcome Tcp := base_ctor6 address port.
Definition plain_move (old : Tcp) : Tcp * Tcp := base_move old.
Definition plain_move_assign (self old : Tcp) : Tcp * Tcp := base_move_assign self old.
Definition plain_dtor : M Tcp () := base_dtor.

(** ** [tcp_client<_, _, true>]

    The mutexes on the heap, each with whether it is locked. *)
Abbreviation mutexes := (gmap nat bool).

Record client := Client {
  c_socket : Tcp;
  c_mutex : option nat;
}.

(** A client and the heap. *)
Abbreviation state := (mutexes * client)%type.

(** [socketMutex = new std::mutex], once the base has been constructed. *)
Definition new_mutex (base : outcome Tcp) : M mutexes client := λ mx,
  match base with
  | Ret s => let p := fresh (dom mx) in (Ret (Client s (Some p)), <[p := false]> mx)
  | Throw e => (Throw e, mx)
  | Fatal f => (Fatal f, mx)
  end.

Definition client_ctor (address port : Z) : M mutexes client := new_mutex (base_ctor address port).
Definition client_ctor6 (address : list Z) (port : Z) : M mutexes client :=
  new_mutex (base_ctor6 address port).

Definition client_move (old : client) : client * client :=
  let r := base_move (c_socket old) in (Client r.1 (c_mutex old), Client r.2 None).

(** Destructor: its body, then the base's. Destroying a locked mutex is
    undefined. *)
Definition client_dtor : M state () := λ s,
  let base mx :=
    let r := base_dtor (c_socket s.2) in (r.1, (mx, Client r.2 (c_mutex s.2))) in
  match c_mutex s.2 with
  | None => base s.1
  | Some p =>
      match s.1 !! p with
      | Some false => base (delete p s.1)
      | _ => (Fatal Undefined, s)
      end
  end.

(** [lock_t lock( *socketMutex); return base().f();] *)
Definition client_locked {A} (body : M Tcp A) : M state A := λ s,
  match c_mutex s.2 with
  | None => (Fatal Undefined, s)
  | Some p =>
      match s.1 !! p with
      | None => (Fatal Undefined, s)
      | Some true => (Fatal Deadlock, s)
      | Some false =>
          let r := body (c_socket s.2) in
          let after (held : bool) := (<[p := held]> s.1, Client r.2 (c_mutex s.2)) in
          match r.1 with
          | Fatal f => (Fatal f, after true)
          | o => (o, after false)
          end
      end
  end.

Definition client_ip4 : M state Z := client_locked base_ip4.
Definition client_port : M state Z := client_locked base_port.
Definition client_read {I} `{!Message I} : M state I := client_locked base_read.
Definition client_write {O} `{!Message O} (message : O) : M state nat :=
  client_locked (base_write message).

(** ** Calls with the mutex free *)

Lemma client_locked_free {A} (body : M Tcp A) mx sk p :
  mx !! p = Some false →
  client_locked body (mx, Client sk (Some p)) =
    match body sk with
    | (Fatal f, sk') => (Fatal f, (<[p := true]> mx, Client sk' (Some p)))
    | (o, sk') => (o, (mx, Client sk' (Some p)))
    end.
Proof.
  intros Hp. unfold client_locked. simpl. rewrite Hp.
  destruct (body sk) as [[a|e|f] sk']; simpl; [|by rewrite (insert_id mx p false)|done].
  by rewrite (insert_id mx p false).
Qed.

Lemma client_locked_Ret {A} (body : M Tcp A) mx sk p a sk' :
  mx !! p = Some false → body sk = (Ret a, sk') →
  client_locked body (mx, Client sk (Some p)) = (Ret a, (mx, Client sk' (Some p))).
Proof. intros Hp Hb. by rewrite client_locked_free, Hb. Qed.

Lemma client_locked_Throw {A} (body : M Tcp A) mx sk p e sk' :
  mx !! p = Some false → body sk = (Throw e, sk') →
  client_locked body (mx, Client sk (Some p)) = (Throw e, (mx, Client sk' (Some p))).
Proof. intros Hp Hb. by rewrite client_locked_free, Hb. Qed.

Lemma base_write_eq {O} `{!Message O} (message : O) sk :
  writable sk →
  ∃ sk', base_write message sk = (Ret (msg_length message), sk')
    ∧ incoming sk' = incoming sk ∧ outgoing sk' = outgoing sk ++ msg_data message ∧ writable sk'.
Proof.
  intros Hw. destruct (tcp_write_all (msg_data message) sk Hw) as (sk' & Hr & Hi & Ho & Hw').
  exists sk'. unfold base_write. by rewrite (bind_Ret _ _ _ _ _ Hr).
Qed.

(** A stream that ends inside a message. *)
Lemma base_read_cut {I} `{!Message I, !MessageLaws I} payload k sk :
  fits (I := I) payload → incoming sk = take k (wire (I := I) payload) →
  k < length (wire (I := I) payload) →
  ∃ what sk', base_read (I := I) sk = (Throw (runtime_error what), sk').
Proof.
  unfold fits, wire, base_read. intros Hf Hin Hk. destruct (decide _) as [Hh|Hh].
  - rewrite length_app, le_bytes_length in Hk.
    destruct (decide (k < msg_header_length (Msg := I))) as [Hs|Hs].
    { destruct (tcp_read_short (msg_header_length (Msg := I)) sk) as (what & sk' & Hr & _).
      { rewrite Hin, length_take, length_app, le_bytes_length. lia. }
      rewrite bind_assoc, (bind_Ret _ _ _ _ _ Hr). by eexists _, _. }
    rewrite take_app_ge in Hin by (rewrite le_bytes_length; lia). rewrite le_bytes_length in Hin.
    destruct (tcp_read_enough (msg_header_length (Msg := I)) sk) as (s1 & Hr1 & Hi1 & _).
    { rewrite Hin, length_app, le_bytes_length. lia. }
    rewrite Hin, take_app_length' in Hr1 by by rewrite le_bytes_length.
    rewrite Hin, drop_app_length' in Hi1 by by rewrite le_bytes_length.
    destruct (tcp_read_short (length payload) s1) as (what & s2 & Hr2 & _).
    { rewrite Hi1, length_take. lia. }
    rewrite bind_assoc, (bind_Ret _ _ _ _ _ Hr1). unfold transferred at 1.
    rewrite bind_assoc, bind_ret, le_value_bytes, Nat2Z.id by lia. rewrite bind_ret. cbn [fst snd].
    rewrite decide_False by (rewrite msg_allocate_length by done; lia).
    rewrite bind_ret, (bind_Ret _ _ _ _ _ Hr2). by eexists _, _.
  - rewrite app_nil_l in Hin, Hk. rewrite bind_ret. cbn [fst snd]. rewrite decide_False by lia.
    rewrite bind_ret, <-Hf. destruct (tcp_read_short (length payload) sk) as (what & s2 & Hr2 & _).
    { rewrite Hin, length_take. lia. }
    rewrite (bind_Ret _ _ _ _ _ Hr2). by eexists _, _.
Qed.

(** ** Conversations

    Any sequence of calls of the two functions, with the messages read. *)
Inductive message_call (O : Type) :=
| ReadMessage
| WriteMessage (message : O).
Arguments ReadMessage {O}.
Arguments WriteMessage {O} message.

Fixpoint converse {I O} `{!Message I, !Message O} (calls : list (message_call O)) : M state (list I) :=
  match calls with
  | [] => ret []
  | ReadMessage :: calls' =>
      message <- client_read ;;
      messages <- converse calls' ;;
      ret (message :: messages)
  | WriteMessage message :: calls' => client_write message ;; converse calls'
  end.

Definition reads {O} (calls : list (message_call O)) : nat :=
  length (omap (λ c, match c with ReadMessage => Some () | WriteMessage _ => None end) calls).

Definition written_bytes {O} `{!Message O} (calls : list (message_call O)) : list Z :=
  concat (omap (λ c, match c with WriteMessage m => Some (msg_data m) | ReadMessage => None end) calls).

Lemma converse_eq {I O} `{!Message I, !MessageLaws I, !Message O} (calls : list (message_call O)) mx p :
  mx !! p = Some false →
  ∀ payloads rest sk,
  Forall (fits (I := I)) payloads → reads calls = length payloads → writable sk →
  incoming sk = concat (wire (I := I) <$> payloads) ++ rest →
  ∃ messages sk', converse (I := I) calls (mx, Client sk (Some p)) = (Ret messages, (mx, Client sk' (Some p)))
    ∧ msg_data <$> messages = payloads ∧ incoming sk' = rest
    ∧ outgoing sk' = outgoing sk ++ written_bytes calls.
Proof.
  intros Hp. unfold reads, written_bytes.
  induction calls as [|[|m] calls IH]; intros payloads rest sk Hf Hn Hw Hin; simpl in *.
  - destruct payloads; [|done]. exists [], sk. by rewrite app_nil_r.
  - destruct payloads as [|payload payloads]; [done|]. simpl in *. inversion_clear Hf as [|? ? Hf1 Hf2].
    rewrite <-app_assoc in Hin. destruct (base_read_wire payload _ sk Hf1 Hin) as (m & sk1 & Hr & Hd & Hi & Ho & Hw1).
    destruct (IH payloads rest sk1 Hf2 (eq_add_S _ _ Hn) (Hw1 Hw) Hi) as (ms & sk2 & Hc & Hds & Hi2 & Ho2).
    exists (m :: ms), sk2. unfold client_read. rewrite (bind_Ret _ _ _ _ _ (client_locked_Ret _ _ _ _ _ _ Hp Hr)).
    rewrite (bind_Ret _ _ _ _ _ Hc). split_and!; [done| |done|by rewrite Ho2, Ho].
    by rewrite fmap_cons, Hd, Hds.
  - destruct (base_write_eq m sk Hw) as (sk1 & Hr & Hi & Ho & Hw1). rewrite <-Hi in Hin.
    destruct (IH payloads rest sk1 Hf Hn Hw1 Hin) as (ms & sk2 & Hc & Hds & Hi2 & Ho2).
    exists ms, sk2. unfold client_write. rewrite (bind_Ret _ _ _ _ _ (client_locked_Ret _ _ _ _ _ _ Hp Hr)).
    split_and!; [done|done|done|]. by rewrite Ho2, Ho, app_assoc.
Qed.

(** ** Properties *)

(** C26. The thread-safe client over the byte streams of its socket. Any sequence of
    reads and writes returns, if the peer has sent a message for each read: the
    messages read are the peer's, payload by payload in the order in which they
    were sent, with or without a length before each; what follows them is left
    for the next read, and what is sent is the bytes of the messages written, in
    order. A read from a stream that ends inside a message, in the length or in
    the payload, is [std::runtime_error], and so is a write that fails, with the
    text of the error. A write answers the number of its bytes. After all of these
    the mutex is free again, and no other mutex has been touched; a client that
    has been moved from locks a null pointer. *)
Theorem client_conversation {I O} `{!Message I, !MessageLaws I, !Message O} mx sk p :
  mx !! p = Some false →
  let self sk := (mx, Client sk (Some p)) in
  (∀ (calls : list (message_call O)) payloads rest,
     Forall (fits (I := I)) payloads → reads calls = length payloads → writable sk →
     incoming sk = concat (wire (I := I) <$> payloads) ++ rest →
     ∃ messages sk', converse (I := I) calls (self sk) = (Ret messages, self sk')
       ∧ msg_data <$> messages = payloads ∧ incoming sk' = rest
       ∧ outgoing sk' = outgoing sk ++ written_bytes calls)
  ∧ (∀ payload k, fits (I := I) payload → incoming sk = take k (wire (I := I) payload) →
       k < length (wire (I := I) payload) →
       ∃ what sk', client_read (I := I) (self sk) = (Throw (runtime_error what), self sk'))
  ∧ (∀ message : O, writable sk →
       ∃ sk', client_write message (self sk) = (Ret (msg_length message), self sk')
         ∧ outgoing sk' = outgoing sk ++ msg_data message)
  ∧ (∀ (message : O) what sk', tcp_write (msg_data message) sk = (Ret (inr what), sk') →
       client_write message (self sk) = (Throw (runtime_error what), self sk'))
  ∧ (∀ h message, let null := (h, Client sk None) in
       client_read (I := I) null = (Fatal Undefined, null)
       ∧ client_write (O := O) message null = (Fatal Undefined, null)).
Proof.
  intros Hp self. split_and!; [| | | |done].
  - intros calls payloads rest Hf Hn Hw Hin. by apply converse_eq.
  - intros payload k Hf Hin Hk. destruct (base_read_cut payload k sk Hf Hin Hk) as (what & sk' & Hr).
    exists what, sk'. by apply client_locked_Throw.
  - intros message Hw. destruct (base_write_eq message sk Hw) as (sk' & Hr & _ & Ho & _).
    exists sk'. split; [by apply client_locked_Ret|done].
  - intros message what sk' Hr. apply client_locked_Throw; [done|].
    unfold base_write. by rewrite (bind_Ret _ _ _ _ _ Hr).
Qed.

(** A chain of moves: the clients left behind, and the one that has the socket. *)
Fixpoint client_moves (n : nat) (c : client) : list client * client :=
  match n with
  | O => ([], c)
  | S n' => let m := client_move c in let r := client_moves n' m.1 in (m.2 :: r.1, r.2)
  end.

Lemma client_moves_eq n c :
  (client_moves n c).2 = c ∧ Forall (λ l, l = Client tcp_moved None) (client_moves n c).1
  ∧ length (client_moves n c).1 = n.
Proof.
  revert c. induction n as [|n IH]; intros [sk p]; simpl; [done|].
  destruct (IH (Client sk p)) as (-> & Hf & ->). split_and!; [done| |done]. by constructor.
Qed.

Lemma new_mutex_Ret base mx c mx' :
  new_mutex base mx = (Ret c, mx') →
  ∃ p, c_mutex c = Some p ∧ mx !! p = None ∧ mx' = <[p := false]> mx.
Proof.
  unfold new_mutex. destruct base as [sk|e|f]; intros [= <- <-]. eexists. split_and!; [done| |done].
  apply not_elem_of_dom, is_fresh.
Qed.

(** C28. The life of a client of either family of addresses, through any number of
    moves. A constructor that throws allocates nothing; one that returns has
    allocated a mutex of its own, which the last of the moves still has, with the
    socket. The clients left behind have none: reading from one is undefined, and
    destroying one frees nothing, but calls [shutdown] on a socket that is not
    open, which throws, and so ends the program. Destroying the last one shuts the
    socket down, closes it and frees exactly the mutex allocated; if [shutdown]
    throws there, as after a reset by the peer, the program ends too. *)
Theorem client_lifetime address address6 port mx c mx' n :
  client_ctor address port mx = (Ret c, mx') ∨ client_ctor6 address6 port mx = (Ret c, mx') →
  let r := client_moves n c in
  (∃ p, c_mutex c = Some p ∧ mx !! p = None ∧ mx' = <[p := false]> mx)
  ∧ r.2 = c ∧ length r.1 = n
  ∧ (∀ left h, left ∈ r.1 →
       c_mutex left = None
       ∧ (∃ left', client_dtor (h, left) = (Fatal Terminate, (h, left')))
       ∧ ∀ A (body : M Tcp A), client_locked body (h, left) = (Fatal Undefined, (h, left)))
  ∧ (∀ s1 s2, tcp_shutdown (c_socket c) = (Ret tt, s1) → tcp_close s1 = (Ret tt, s2) →
       ∃ c', client_dtor (mx', r.2) = (Ret tt, (mx, c')) ∧ c_socket c' = s2)
  ∧ (∀ e s1, tcp_shutdown (c_socket c) = (Throw e, s1) → (client_dtor (mx', r.2)).1 = Fatal Terminate)
  ∧ (∀ e h h', client_ctor address port h = (Throw e, h') ∨ client_ctor6 address6 port h = (Throw e, h') → h' = h).
Proof.
  intros Hc r. subst r. destruct (client_moves_eq n c) as (-> & Hl & ->).
  assert (∃ p, c_mutex c = Some p ∧ mx !! p = None ∧ mx' = <[p := false]> mx) as Hown
    by (destruct Hc as [Hc|Hc]; by eapply new_mutex_Ret).
  split_and!; [done|done|done| | | |].
  - intros left h Hin. rewrite Forall_forall in Hl. rewrite (Hl left Hin). split_and!; [done| |done].
    destruct shutdown_moved as (what & s & Hs). eexists (Client s None). unfold client_dtor, base_dtor. simpl.
    by rewrite (bind_Throw _ _ _ _ _ Hs).
  - intros s1 s2 Hs Hcl. destruct c as [sk p], Hown as (q & Hq & Hn & ->). simpl in *. subst p.
    eexists (Client s2 (Some q)). unfold client_dtor, base_dtor. simpl.
    by rewrite lookup_insert_eq, delete_insert_id, (bind_Ret _ _ _ _ _ Hs), Hcl.
  - intros e s1 Hs. destruct c as [sk p], Hown as (q & Hq & Hn & ->). simpl in *. subst p.
    unfold client_dtor, base_dtor. simpl. by rewrite lookup_insert_eq, (bind_Throw _ _ _ _ _ Hs).
  - unfold client_ctor, client_ctor6, new_mutex. intros e h h' [Hd|Hd]; revert Hd; case_match; congruence.
Qed.

(** C39. Addresses, through the lock and without it. Of a peer with an IPv4 address,
    [ip4] is that address as a 32-bit number, with which a client can connect to it
    again, and [ipv6] is an exception; of a peer with an IPv6 address, [ip4] is
    never an address: it is [std::logic_error] if the address does not hold an
    IPv4 one and [std::bad_cast] if it does; [ipv6] is the sixteen bytes in host
    order, and a connection to them is to the same address. [port] is the port of the
    peer, 16 bits wide; on the way in ports are truncated. On a socket without
    peer each query throws what the socket throws. No query changes the client or
    leaves its mutex locked. *)
Theorem client_addresses mx sk p a port :
  mx !! p = Some false → remote_endpoint sk = Ret (a, port) →
  let self := (mx, Client sk (Some p)) in
  (is_v6 a = false → ∃ n, to_v4 a = Ret n ∧ (0 <= n < 2 ^ 32)%Z
     ∧ base_ip4 sk = (Ret n, sk) ∧ client_ip4 self = (Ret n, self)
     ∧ base_ctor n port = tcp_connect n port
     ∧ base_ipv6 sk = (Throw bad_cast, sk))
  ∧ (is_v6 a = true → ∃ bs, to_v6 a = Ret bs ∧ length bs = 16
     ∧ base_ip4 sk = (Throw (if is_v4_compatible bs then bad_cast else logic_error err_msg._malinpt), sk)
     ∧ client_ip4 self = (Throw (if is_v4_compatible bs then bad_cast else logic_error err_msg._malinpt), self)
     ∧ base_ipv6 sk = (Ret (rev bs), sk)
     ∧ base_ctor6 (rev bs) port = tcp_connect6 bs port)
  ∧ base_port sk = (Ret port, sk) ∧ client_port self = (Ret port, self) ∧ (0 <= port < 2 ^ 16)%Z
  ∧ (∀ address x, base_ctor address (port + 2 ^ 16 * x) = tcp_connect address port)
  ∧ (∀ e alone, remote_endpoint alone = Throw e →
       let other := (mx, Client alone (Some p)) in
       client_ip4 other = (Throw e, other) ∧ client_port other = (Throw e, other)
       ∧ base_ipv6 alone = (Throw e, alone)).
Proof.
  intros Hp Hr self. pose proof (remote_port _ _ _ Hr) as Hb.
  assert (base_port sk = (Ret port, sk)) as Hport by (unfold base_port; mrun; by rewrite Hr).
  assert (∀ address x, base_ctor address (port + 2 ^ 16 * x) = tcp_connect address port) as Hx.
  { intros address x. unfold base_ctor, wrap. rewrite Z.mul_comm, Z_mod_plus_full. by rewrite Z.mod_small. }
  split_and!; [| |done|by apply client_locked_Ret|lia|lia|done|].
  - intros Hv. destruct (to_v4_v4 a Hv) as (n & Hn & Hle). exists n.
    assert (base_ip4 sk = (Ret n, sk)) as Hq by (unfold base_ip4; mrun; rewrite Hr; simpl; by rewrite Hv, Hn).
    split_and!; [done|lia|lia|done|by apply client_locked_Ret| |].
    + by rewrite <-(Hx n 0%Z), Z.mul_0_r, Z.add_0_r.
    + unfold base_ipv6. mrun. rewrite Hr. simpl. by rewrite (to_v6_v4 a Hv).
  - intros Hv. destruct (to_v6_v6 a Hv) as (bs & Hbs & Hl). exists bs.
    assert (base_ip4 sk = (Throw (if is_v4_compatible bs then bad_cast else logic_error err_msg._malinpt), sk)) as Hq.
    { unfold base_ip4. mrun. rewrite Hr. simpl. rewrite Hv, Hbs. simpl.
      by destruct (is_v4_compatible bs); simpl; rewrite ?(to_v4_v6 a Hv). }
    split_and!; [done|done|done|by apply client_locked_Throw| |].
    + unfold base_ipv6. mrun. rewrite Hr. simpl. by rewrite Hbs.
    + unfold base_ctor6. by rewrite rev_involutive, wrap_small.
  - intros e alone He other.
    split_and!; [apply client_locked_Throw; [done|]..|];
      unfold base_ip4, base_port, base_ipv6; mrun; by rewrite He.
Qed.
End tcp_client.

Arguments client {_}.
Arguments ReadMessage {O}.
Arguments WriteMessage {O} message.

(** ** Witnesses

    Sockets that know their peer; the last member is whether the socket is
    open. *)
Record peer_socket := PeerSocket { ps_peer : (bool * list Z) * Z; ps_in : list Z; ps_out : list Z; ps_open : bool }.

Program Definition peer_tcp : TCP := {|
  Tcp := peer_socket;
  tcp_connect a p := Ret (PeerSocket ((false, [a]), p) [7; 0; 0; 0]%Z [] true);
  tcp_read n := λ s,
    if decide (n ≤ length (ps_in s))
    then (Ret (inl (take n (ps_in s))), PeerSocket (ps_peer s) (drop n (ps_in s)) (ps_out s) (ps_open s))
    else (Ret (inr "End of file"), s);
  tcp_write bs := λ s, (Ret (inl (length bs)), PeerSocket (ps_peer s) (ps_in s) (ps_out s ++ bs) (ps_open s));
  tcp_set_linger := ret tt;
  tcp_shutdown := λ s, (if ps_open s then Ret tt else Throw (boost_error "Bad file descriptor"), s);
  tcp_close := λ s, (Ret tt, PeerSocket (ps_peer s) (ps_in s) (ps_out s) false);
  incoming := ps_in;
  outgoing := ps_out;
  writable _ := True;
|}.
Next Obligation. intros n s; simpl; intros. rewrite decide_True by done. eauto. Qed.
Next Obligation. intros n s; simpl; intros. rewrite decide_False by lia. eauto. Qed.
Next Obligation. intros bs s _; simpl. eauto. Qed.

#[local] Existing Instance peer_tcp.

(** IPv4 addresses are one number, IPv6 ones sixteen bytes. *)
#[local] Program Instance peer_addresses : TCPAddress := {|
  Address := bool * list Z;
  remote_endpoint (s : peer_socket) := Ret ((ps_peer s).1, wrap 16 (ps_peer s).2);
  is_v6 := fst;
  to_v4 a := if a.1 then Throw bad_cast else Ret (wrap 32 (nth 0 a.2 0%Z));
  to_v6 a := if a.1 then Ret (take 16 (a.2 ++ replicate 16 0%Z)) else Throw bad_cast;
  is_v4_compatible bs := forallb (Z.eqb 0) (take 12 bs);
  tcp_connect6 bs p := Ret (PeerSocket ((true, bs), p) [] [] true);
  tcp_moved := PeerSocket ((false, []), 0%Z) [] [] false;
|}.
Next Obligation. intros [v a]; simpl; intros ->. eexists; split; [done|]. by apply wrap_bounds. Qed.
Next Obligation. by intros [v a]; simpl; intros ->. Qed.
Next Obligation. by intros [v a]; simpl; intros ->. Qed.
Next Obligation.
  intros [v a]; simpl; intros ->. eexists; split; [done|].
  rewrite length_take, length_app. change (length _) with 16 at 2. lia.
Qed.
Next Obligation. intros s a p; simpl. intros [= <- <-]. by apply wrap_bounds. Qed.
Next Obligation. by eexists _, _. Qed.

Definition connected_with (sent : list Z) : client :=
  Client (PeerSocket ((false, [2130706433%Z]), 5000%Z) sent [] true) (Some 0).

(** Two messages of the detection board with a length each, and a third that is cut. *)
Lemma client_conversation_witness :
  let free : gmap nat bool := {[0 := false]} in
  let sent := [3; 0; 0; 0; 2; 2; 1; 1; 0; 0; 0; 5; 9]%Z in
  (∃ messages sk', converse (I := lcc.response) (O := request)
       [ReadMessage; WriteMessage (request_init 0 1 0); ReadMessage] (free, connected_with sent)
       = (Ret messages, (free, Client sk' (Some 0)))
     ∧ msg_data <$> messages = [[2; 2; 1]; [5]]%Z ∧ outgoing sk' = [0; 1; 0; 0]%Z)
  ∧ ∃ what sk', client_read (I := lcc.response) (free, connected_with [3; 0; 0; 0; 2]%Z)
      = (Throw (runtime_error what), (free, Client sk' (Some 0))).
Proof.
  intros free sent. split.
  - destruct (client_conversation (I := lcc.response) (O := request) free (c_socket (connected_with sent)) 0
      eq_refl) as (H & _).
    destruct (H [ReadMessage; WriteMessage (request_init 0 1 0); ReadMessage] [[2; 2; 1]; [5]]%Z [9]%Z)
      as (ms & sk' & H1 & H2 & _ & H3); [by repeat constructor|done|done|done|].
    exists ms, sk'. exact (conj H1 (conj H2 H3)).
  - destruct (client_conversation (I := lcc.response) (O := request) free
      (c_socket (connected_with [3; 0; 0; 0; 2]%Z)) 0 eq_refl) as (_ & H & _).
    apply (H [2; 2; 1]%Z 5); [done|done|vm_compute; lia].
Defined.

Definition connected : client := connected_with [7; 0; 0; 0]%Z.

Lemma client_lifetime_witness :
  let r := client_moves 2 connected in
  (∃ c', client_dtor ({[0 := false]}, r.2) = (Ret tt, (∅, c')))
  ∧ ∃ left left', left ∈ r.1 ∧ client_dtor ({[0 := false]}, left) = (Fatal Terminate, ({[0 := false]}, left')).
Proof.
  assert (client_ctor 2130706433 5000 ∅ = (Ret connected, {[0 := false]})) as Hc by (vm_compute; reflexivity).
  destruct (client_lifetime 2130706433 [] 5000 ∅ connected {[0 := false]} 2 (or_introl Hc))
    as (_ & _ & _ & H2 & H1 & _).
  split.
  - destruct (H1 _ _ eq_refl eq_refl) as (c' & Hd & _). exists c'. exact Hd.
  - assert (Client tcp_moved None ∈ (client_moves 2 connected).1) as Hin by (vm_compute; constructor).
    destruct (H2 _ {[0 := false]} Hin) as (_ & (left' & H3) & _).
    exists (Client tcp_moved None), left'. exact (conj Hin H3).
Defined.

Lemma client_addresses_witness :
  let free : gmap nat bool := {[0 := false]} in
  let v4 := (free, connected) in
  let v6 := (free, Client (PeerSocket ((true, replicate 12 0%Z ++ [127; 0; 0; 1]%Z), 5000%Z) [] [] true) (Some 0)) in
  client_ip4 v4 = (Ret 2130706433%Z, v4) ∧ client_port v4 = (Ret 5000%Z, v4)
  ∧ client_ip4 v6 = (Throw bad_cast, v6).
Proof.
  intros free v4 v6.
  destruct (client_addresses (H0 := peer_addresses) free (c_socket connected) 0 (false, [2130706433%Z]) 5000 eq_refl eq_refl)
    as (H1 & _ & _ & H2 & _).
  destruct (client_addresses (H0 := peer_addresses) free (c_socket v6.2) 0 (true, replicate 12 0%Z ++ [127; 0; 0; 1]%Z) 5000 eq_refl eq_refl)
    as (_ & H3 & _).
  destruct (H1 eq_refl) as (n & Hn & _ & _ & H4 & _). destruct (H3 eq_refl) as (bs & Hb & _ & _ & H5 & _).
  split; [|split; [exact H2|]].
  - refine (eq_trans H4 _). injection Hn as <-. reflexivity.
  - refine (eq_trans H5 _). injection Hb as <-. reflexivity.
Defined.
