(* ===== verification/NetServer.v ===== *)
(** * The transceivers' request server (net/server.hpp)

    One io_service thread accepts a client, serves its session until it
    disconnects, and accepts the next. The sessions are heap objects: each frees
    itself when it ends, and the server frees the one waiting for a client. *)

From S2P Require Import Prelude NetMessages.

Section server.
Context `{TCP} {T : Type}.

(** The member function that processes a message: it changes the instance and
    the outgoing message. *)
Context (process : request → response → M T response).

(** ** [session] *)

Record session := Session {
  _socket : Tcp;
  _instance : T;
}.

Definition l_socket : lens session Tcp := Lens _socket (λ x s, Session x (_instance s)).
Definition l_instance : lens session T := Lens _instance (λ x s, Session (_socket s) x).

(** Move constructor: the new session and what is left of the old one, whose
    socket is closed. *)
Definition session_move (old : session) (closed : Tcp) : session * session :=
  (Session (_socket old) (_instance old), Session closed (_instance old)).

(** One round of the loop of [run]; [false] is [break]. *)
Definition session_round : M session bool :=
  let incoming := request_empty in
  r <- zoom l_socket (tcp_read (msg_length incoming)) ;;
  match r with
  | inr _ => ret false
  | inl bs =>
      outgoing <- zoom l_instance (process (msg_store bs incoming) response_empty) ;;
      w <- zoom l_socket (tcp_write (msg_data outgoing)) ;;
      match w with
      | inr _ => ret false
      | inl _ => ret true
      end
  end.

(** The loop: whether it has been left, within [fuel] rounds. *)
Fixpoint session_loop (fuel : nat) : M session bool :=
  match fuel with
  | O => ret false
  | S fuel' => b <- session_round ;; if b : bool then session_loop fuel' else ret true
  end.

(** [run], up to [delete this]. *)
Definition session_run (fuel : nat) : M session bool :=
  zoom l_socket tcp_set_linger ;;
  session_loop fuel.

(** ** [server] *)

(** [live]: the sessions that are allocated; [accepting]: the session an
    [async_accept] is pending for. *)
Record server := Server {
  live : gset nat;
  next_session : nat;
  accepting : option nat;
  _lastUnusedSession : option nat;
  instance : T;
}.

Definition accept (s : server) : server :=
  let clientSession := next_session s in
  Server ({[clientSession]} ∪ live s) (S clientSession) (Some clientSession) (Some clientSession)
    (instance s).

(** Constructor. *)
Definition server_ctor (inst : T) : server := accept (Server ∅ 0 None None inst).

(** The handler of the pending accept, for a client connected on [sock]. An
    exception from [run] leaves the session allocated and the io_service. *)
Definition on_accept (sock : Tcp) (fuel : nat) : M server () := λ s,
  match accepting s with
  | None => (Ret tt, s)
  | Some clientSession =>
      let s1 := Server (live s) (next_session s) None None (instance s) in
      match session_run fuel (Session sock (instance s1)) with
      | (Ret true, ses) =>
          if decide (clientSession ∈ live s1) then
            (Ret tt, accept (Server (live s1 ∖ {[clientSession]}) (next_session s1) None None (_instance ses)))
          else (Fatal Undefined, s1)
      | (Ret false, ses) => (Fatal Deadlock, Server (live s1) (next_session s1) None None (_instance ses))
      | (Throw e, ses) => (Throw e, Server (live s1) (next_session s1) None None (_instance ses))
      | (Fatal f, ses) => (Fatal f, Server (live s1) (next_session s1) None None (_instance ses))
      end
  end.

(** Destructor; the pending accept is cancelled with the acceptor. *)
Definition server_dtor : M server () := λ s,
  match _lastUnusedSession s with
  | None => (Ret tt, s)
  | Some i =>
      if decide (i ∈ live s) then
        (Ret tt, Server (live s ∖ {[i]}) (next_session s) None (Some i) (instance s))
      else (Fatal Undefined, s)
  end.

(** Move constructor: the new server, and [_lastUnusedSession] of the old one.
    The pending accept moves along with the acceptor. *)
Definition server_move (old : server) : server * option nat :=
  (Server (live old) (next_session old) (accepting old) (_lastUnusedSession old) (instance old), None).

(** The old server as an object of its own. *)
Definition old_server (s : server * option nat) : server :=
  Server (live s.1) (next_session s.1) None s.2 (instance s.1).

(** The handler of the pending accept after a move. It has captured [this] of the
    old server: that one's [_lastUnusedSession] is reset, and it is that one that
    accepts again, on an acceptor which is no longer open. *)
Definition on_accept_moved (sock : Tcp) (fuel : nat) : M (server * option nat) () := λ s,
  match accepting s.1 with
  | None => (Ret tt, s)
  | Some clientSession =>
      let s1 inst := Server (live s.1) (next_session s.1) None (_lastUnusedSession s.1) inst in
      match session_run fuel (Session sock (instance s.1)) with
      | (Ret true, ses) =>
          if decide (clientSession ∈ live s.1) then
            let again := accept (Server (live s.1 ∖ {[clientSession]}) (next_session s.1) None None (_instance ses)) in
            (Ret tt, (Server (live again) (next_session again) None (_lastUnusedSession s.1) (instance again),
                      _lastUnusedSession again))
          else (Fatal Undefined, (s1 (_instance ses), None))
      | (Ret false, ses) => (Fatal Deadlock, (s1 (_instance ses), None))
      | (Throw e, ses) => (Throw e, (s1 (_instance ses), None))
      | (Fatal f, ses) => (Fatal f, (s1 (_instance ses), None))
      end
  end.

(** ** What a session does with a stream *)

(** The messages processed one after the other. *)
Fixpoint process_all (reqs : list request) : M T (list response) :=
  match reqs with
  | [] => ret []
  | r :: reqs' => p <- process r response_empty ;; ps <- process_all reqs' ;; ret (p :: ps)
  end.

Definition request_ok (r : request) : Prop := length (r_data r) = 4.

Lemma session_round_request r rest sock inst :
  request_ok r → incoming sock = r_data r ++ rest → writable sock →
  ∃ sock1, incoming sock1 = rest ∧ outgoing sock1 = outgoing sock ∧ writable sock1
    ∧ (∀ p inst', process r response_empty inst = (Ret p, inst') →
         ∃ sock', session_round (Session sock inst) = (Ret true, Session sock' inst')
           ∧ incoming sock' = rest ∧ outgoing sock' = outgoing sock ++ p_data p ∧ writable sock')
    ∧ (∀ e inst', process r response_empty inst = (Throw e, inst') →
         session_round (Session sock inst) = (Throw e, Session sock1 inst')).
Proof.
  intros Hr Hin Hw. destruct (tcp_read_enough 4 sock) as (s1 & Hr1 & Hi1 & Ho1 & Hw1).
  { rewrite Hin, length_app. unfold request_ok in Hr. lia. }
  rewrite Hin in Hr1, Hi1. unfold request_ok in Hr.
  rewrite take_app_length' in Hr1 by done. rewrite drop_app_length' in Hi1 by done.
  assert (msg_store (r_data r) request_empty = r) as Hstore.
  { destruct r as [d]. simpl in *. rewrite memcpy_full by done. done. }
  exists s1. split_and!; [done|done|auto| |].
  - intros p inst' Hp. destruct (tcp_write_all (p_data p) s1 (Hw1 Hw)) as (s2 & Hr2 & Hi2 & Ho2 & Hw2).
    exists s2. split_and!; [|congruence|congruence|done].
    unfold session_round, bind, zoom. simpl view. change (msg_length request_empty) with 4.
    rewrite Hr1. cbn -[msg_store]. rewrite Hstore, Hp. cbn. by rewrite Hr2.
  - intros e inst' Hp. unfold session_round, bind, zoom. simpl view. change (msg_length request_empty) with 4.
    rewrite Hr1. cbn -[msg_store]. by rewrite Hstore, Hp.
Qed.

Lemma session_loop_serves reqs rest sock inst outs inst' fuel :
  Forall request_ok reqs → length rest < 4 → incoming sock = concat (r_data <$> reqs) ++ rest →
  writable sock → process_all reqs inst = (Ret outs, inst') → length reqs < fuel →
  ∃ sock', session_loop fuel (Session sock inst) = (Ret true, Session sock' inst')
    ∧ outgoing sock' = outgoing sock ++ concat (p_data <$> outs).
Proof.
  intros Hreqs. revert sock inst outs fuel.
  induction Hreqs as [|r reqs Hr _ IH]; intros sock inst outs fuel Hrest Hin Hw Hp Hf;
    (destruct fuel as [|fuel]; [simpl in Hf; lia|]); simpl session_loop.
  - simpl in Hin, Hp. unfold ret in Hp. simplify_eq.
    destruct (tcp_read_short 4 sock) as (what & s' & Hr & Ho); [congruence|].
    exists s'. simpl. rewrite app_nil_r. split; [|done].
    unfold session_round. unfold bind, zoom. simpl view. change (msg_length request_empty) with 4.
    by rewrite Hr.
  - simpl in Hp. apply bind_Ret_inv in Hp as (p & inst1 & Hp & Hps).
    apply bind_Ret_inv in Hps as (ps & inst2 & Hps & Hout). unfold ret in Hout. simplify_eq.
    destruct (session_round_request r (concat (r_data <$> reqs) ++ rest) sock inst) as (_ & _ & _ & _ & H1 & _);
      [done|by rewrite Hin, fmap_cons; simpl; rewrite <-app_assoc|done|].
    destruct (H1 p inst1 Hp) as (s1 & Hround & Hi1 & Ho1 & Hw1).
    destruct (IH s1 inst1 ps fuel Hrest Hi1 Hw1 Hps) as (s2 & Hloop & Ho2); [simpl in Hf; lia|].
    exists s2. rewrite (bind_Ret _ _ _ _ _ Hround). split; [done|].
    rewrite Ho2, Ho1, fmap_cons. simpl. by rewrite app_assoc.
Qed.
(** Clients served one after the other, while the handlers return. *)
Inductive server_reach : server → Prop :=
| reach_ctor inst : server_reach (server_ctor inst)
| reach_accept sock fuel s s' :
    server_reach s → on_accept sock fuel s = (Ret tt, s') → server_reach s'.

(** One session is allocated, the one waiting for a client. *)
Definition waiting (s : server) : Prop :=
  ∃ i, live s = {[i]} ∧ i < next_session s ∧ accepting s = Some i ∧ _lastUnusedSession s = Some i.

Lemma accept_waiting s : live s = ∅ → waiting (accept s).
Proof. intros Hl. exists (next_session s). simpl. rewrite Hl. split_and!; [set_solver|lia|done..]. Qed.

Lemma reach_waiting s : server_reach s → waiting s.
Proof.
  induction 1 as [inst|sock fuel s s' _ (i & Hl & _ & Ha & _) Hc]; [by apply accept_waiting|].
  revert Hc. unfold on_accept. rewrite Ha. simpl.
  destruct (session_run fuel (Session sock (instance s))) as [[[]| |] ses]; simpl; try done.
  case_decide; [|done]. intros [= <-]. apply accept_waiting. simpl. rewrite Hl. set_solver.
Qed.

(** ** Properties *)

(** A session answers every complete request of its client, in order, with
    one response each, and ends when the client has disconnected; a request cut
    short by the disconnect is not processed. If processing throws, the
    exception leaves [run] after the responses to the requests before. The loop
    ends within one round more than there are requests. *)
Theorem session_serves reqs rest sock sock1 inst outs inst' fuel :
  Forall request_ok reqs → writable sock1 → length reqs < fuel →
  tcp_set_linger sock = (Ret tt, sock1) →
  process_all reqs inst = (Ret outs, inst') →
  (length rest < 4 → incoming sock1 = concat (r_data <$> reqs) ++ rest →
     ∃ sock', session_run fuel (Session sock inst) = (Ret true, Session sock' inst')
       ∧ outgoing sock' = outgoing sock1 ++ concat (p_data <$> outs))
  ∧ (∀ r e inst'', request_ok r → incoming sock1 = concat (r_data <$> reqs) ++ r_data r ++ rest →
     process r response_empty inst' = (Throw e, inst'') →
     ∃ sock', session_run fuel (Session sock inst) = (Throw e, Session sock' inst'')
       ∧ outgoing sock' = outgoing sock1 ++ concat (p_data <$> outs)).
Proof.
  intros Hreqs Hw Hf Hling Hp.
  assert (session_run fuel (Session sock inst) = session_loop fuel (Session sock1 inst)) as Hrun.
  { unfold session_run, bind, zoom. simpl. by rewrite Hling. }
  split.
  - intros Hrest Hin. destruct (session_loop_serves _ _ _ _ _ _ _ Hreqs Hrest Hin Hw Hp Hf) as (s' & Hl & Ho).
    exists s'. by rewrite Hrun.
  - intros r e inst'' Hr Hin Hthrow. rewrite Hrun. clear Hrun Hling.
    revert sock1 inst outs fuel Hf Hin Hw Hp. induction Hreqs as [|r1 reqs Hr1 _ IH];
      intros sock1 inst outs fuel Hf Hin Hw Hp; (destruct fuel as [|fuel]; [simpl in Hf; lia|]);
      simpl session_loop; simpl in Hp.
    + unfold ret in Hp. injection Hp as <- <-. simpl in Hin.
      destruct (session_round_request r rest sock1 inst Hr Hin Hw) as (s1 & _ & Ho & _ & _ & H2).
      exists s1. rewrite (bind_Throw _ _ _ _ _ (H2 e inst'' Hthrow)). simpl. by rewrite app_nil_r.
    + apply bind_Ret_inv in Hp as (p & inst1 & Hp & Hps).
      apply bind_Ret_inv in Hps as (ps & inst2 & Hps & Hout). unfold ret in Hout. injection Hout as <- <-.
      destruct (session_round_request r1 (concat (r_data <$> reqs) ++ r_data r ++ rest) sock1 inst)
        as (_ & _ & _ & _ & H1 & _); [done|by rewrite Hin, fmap_cons; simpl; rewrite <-app_assoc|done|].
      destruct (H1 p inst1 Hp) as (s1 & Hround & Hi1 & Ho1 & Hw1).
      destruct (IH s1 inst1 ps fuel) as (s2 & Hloop & Ho2); [simpl in Hf; lia|done..|].
      exists s2. rewrite (bind_Ret _ _ _ _ _ Hround). split; [done|].
      rewrite Ho2, Ho1, fmap_cons. simpl. by rewrite app_assoc.
Qed.

(** Ownership of the sessions: however many clients are served, exactly one
    session is allocated between clients, the one being waited on, and the
    destructor frees it, so none leaks and none is freed twice. But when
    processing throws, its session is never freed, and no further client is
    accepted. *)
Theorem server_sessions s :
  server_reach s →
  waiting s
  ∧ (∃ s', server_dtor s = (Ret tt, s') ∧ live s' = ∅)
  ∧ (∀ sock fuel ses, session_run fuel (Session sock (instance s)) = (Ret true, ses) →
       ∃ s', on_accept sock fuel s = (Ret tt, s') ∧ waiting s' ∧ instance s' = _instance ses)
  ∧ (∀ sock fuel e ses, session_run fuel (Session sock (instance s)) = (Throw e, ses) →
       ∃ s' i, on_accept sock fuel s = (Throw e, s') ∧ accepting s' = None
         ∧ live s' = {[i]} ∧ ∃ s'', server_dtor s' = (Ret tt, s'') ∧ live s'' = {[i]}).
Proof.
  intros Hr. pose proof (reach_waiting s Hr) as Hwait. split; [done|].
  destruct Hwait as (i & Hl & _ & Ha & Hu). split_and!.
  - unfold server_dtor. rewrite Hu, decide_True by set_solver. eexists; split; [done|]. simpl. set_solver.
  - intros sock fuel ses Hrun. unfold on_accept. rewrite Ha. simpl. rewrite Hrun.
    rewrite decide_True by set_solver. eexists; split_and!; [done| |done].
    apply accept_waiting. simpl. set_solver.
  - intros sock fuel e ses Hrun. unfold on_accept. rewrite Ha. simpl. rewrite Hrun.
    eexists _, i. split_and!; [done..|]. simpl. by eexists.
Qed.

(** Moving a server that waits for a client. Until one comes the new server owns
    the waiting session and frees it, and the old one owns nothing. But the
    handler of the accept belongs to the old server: once it has served a
    client, the new server still has a pointer to the session that has freed
    itself, and its destructor frees it again. *)
Theorem server_moved s :
  server_reach s →
  let moved := server_move s in
  (∃ s', server_dtor moved.1 = (Ret tt, s') ∧ live s' = ∅)
  ∧ server_dtor (old_server moved) = (Ret tt, old_server moved)
  ∧ ∀ sock fuel ses, session_run fuel (Session sock (instance s)) = (Ret true, ses) →
      ∃ moved', on_accept_moved sock fuel moved = (Ret tt, moved')
        ∧ (server_dtor moved'.1).1 = Fatal Undefined
        ∧ ∃ s'', server_dtor (old_server moved') = (Ret tt, s'') ∧ live s'' = ∅.
Proof.
  intros Hr moved. destruct (reach_waiting s Hr) as (i & Hl & Hi & Ha & Hu). split_and!.
  - unfold server_dtor. simpl. rewrite Hu, decide_True by set_solver. eexists; split; [done|]. simpl. set_solver.
  - done.
  - intros sock fuel ses Hrun. unfold on_accept_moved. simpl. rewrite Ha, Hrun, decide_True by set_solver.
    eexists. split_and!; [done| |].
    + unfold server_dtor. simpl. rewrite Hu, decide_False; [done|]. rewrite Hl.
      intros [->%elem_of_singleton|Hin]%elem_of_union; [lia|set_solver].
    + unfold server_dtor. simpl. rewrite decide_True by set_solver. eexists. split; [done|]. simpl.
      rewrite Hl. set_solver.
Qed.
End server.

Arguments session {_} T.
Arguments server T : clear implicits.

(** ** Witnesses

    A processor that counts, and refuses action 9. *)
Definition counter (r : request) (p : response) : M nat response :=
  if decide (request_action r = 9%Z) then throw (runtime_error err_msg._malinpt)
  else modify S ;; ret p.

Definition refused : Tcp := ([0; 9; 0; 0]%Z, []).
Definition drained : Tcp := ([], []).

Lemma session_serves_witness :
  let r a := request_init 0 a 0 in
  let sock : Tcp := ([0; 1; 0; 0; 0; 2; 0; 0; 7]%Z, []) in
  ∃ sock', session_run counter 3 (Session sock 0) = (Ret true, Session sock' 2)
    ∧ outgoing sock' = [0; 0; 0; 0; 0; 0; 0; 0]%Z.
Proof.
  intros r sock.
  destruct (session_serves counter [r 1%Z; r 2%Z] [7%Z] sock sock 0
    [response_empty; response_empty] 2 3) as [H _];
    [repeat constructor|exact I|simpl; lia|reflexivity|reflexivity|].
  destruct H as (sock' & H1 & H2); [simpl; lia|reflexivity|].
  exists sock'. exact (conj H1 H2).
Defined.

Lemma server_sessions_witness :
  let s := server_ctor 0 in
  (∃ s', server_dtor s = (Ret tt, s') ∧ live s' = ∅)
  ∧ ∃ s' i, on_accept counter refused 1 s
              = (Throw (runtime_error "malformed input"), s') ∧ live s' = {[i]}.
Proof.
  destruct (server_sessions counter (server_ctor 0) (reach_ctor counter 0)) as (_ & H1 & _ & H2).
  split; [exact H1|].
  destruct (H2 refused 1 (runtime_error err_msg._malinpt)
    (Session drained 0) eq_refl) as (s' & i & H3 & _ & H4 & _).
  exists s', i. exact (conj H3 H4).
Defined.

Lemma server_moved_witness :
  let moved := server_move (server_ctor 0) in
  (∃ s', server_dtor moved.1 = (Ret tt, s') ∧ live s' = ∅)
  ∧ ∃ moved', on_accept_moved counter drained 1 moved = (Ret tt, moved')
      ∧ (server_dtor moved'.1).1 = Fatal Undefined.
Proof.
  destruct (server_moved counter (server_ctor 0) (reach_ctor counter 0)) as (H1 & _ & H2).
  split; [exact H1|].
  destruct (H2 drained 1 (Session drained 0) eq_refl) as (moved' & H3 & H4 & _).
  exists moved'. exact (conj H3 H4).
Defined.
