(* ===== verification/Transceiver.v ===== *)
(** * The transceivers (module/brazil/itrx_proc_unit.hpp and, in proc_unit/,
    trx_circuit.cpp and bobwire_circuit.cpp)

    Both processing units share the base class [itrx_proc_unit] and all of their
    state but the bases file; the common part is the record [transceiver], with
    the file in its [extra] member. A communication is a pair of requests from
    the peer: the first makes the unit receive, the second waits for the
    simulated measurement and ends it. *)

From S2P Require Import Prelude NetMessages Actions BufferItem QueueBuffer Json.
From S2P Require Import MiddlewareMessages Zmq Simulation CString ProcUnit.

(** ** The operating system *)

(** [inet_aton]: the 32-bit address in network order, if the text is one; and
    opening a file: its bytes, if it can be read. *)
Class OS := {
  inet_aton : list ascii → option Z;
  open_file : string → option (list Z);
  inet_aton_bounds s n : inet_aton s = Some n → (0 <= n < 2 ^ 32)%Z;
}.

Section transceiver.
Context `{RapidJSON} `{ZMQ} `{BoostOptions} `{TCP} `{BoostEndian} `{OS}.

Section members.
Context {X : Type}.

(** ** Data members

    [netInfo] has no value until the endpoint is set; [requestThread] is whether
    the thread is joinable. *)
Record transceiver := Transceiver {
  requestMutex : bool;
  isReceiving : bool;
  hasReceived : bool;
  sin_addr : option Z;
  sin_port : option Z;
  requestThread : bool;
  dispatcher : option client;
  rx_socket : Socket;
  nIP : Z;
  nIP_hbo : Z;
  extra : X;
}.

(** Constructors of the base and of the units. *)
Definition transceiver_ctor (x : X) : transceiver :=
  Transceiver false false false None None false None (open_socket ZMQ_SUB) 0 0 x.

Definition l_requestMutex : lens transceiver bool := Lens requestMutex
  (λ y t, Transceiver y (isReceiving t) (hasReceived t) (sin_addr t) (sin_port t) (requestThread t)
    (dispatcher t) (rx_socket t) (nIP t) (nIP_hbo t) (extra t)).
Definition l_isReceiving : lens transceiver bool := Lens isReceiving
  (λ y t, Transceiver (requestMutex t) y (hasReceived t) (sin_addr t) (sin_port t) (requestThread t)
    (dispatcher t) (rx_socket t) (nIP t) (nIP_hbo t) (extra t)).
Definition l_hasReceived : lens transceiver bool := Lens hasReceived
  (λ y t, Transceiver (requestMutex t) (isReceiving t) y (sin_addr t) (sin_port t) (requestThread t)
    (dispatcher t) (rx_socket t) (nIP t) (nIP_hbo t) (extra t)).
Definition l_sin_addr : lens transceiver (option Z) := Lens sin_addr
  (λ y t, Transceiver (requestMutex t) (isReceiving t) (hasReceived t) y (sin_port t) (requestThread t)
    (dispatcher t) (rx_socket t) (nIP t) (nIP_hbo t) (extra t)).
Definition l_sin_port : lens transceiver (option Z) := Lens sin_port
  (λ y t, Transceiver (requestMutex t) (isReceiving t) (hasReceived t) (sin_addr t) y (requestThread t)
    (dispatcher t) (rx_socket t) (nIP t) (nIP_hbo t) (extra t)).
Definition l_requestThread : lens transceiver bool := Lens requestThread
  (λ y t, Transceiver (requestMutex t) (isReceiving t) (hasReceived t) (sin_addr t) (sin_port t) y
    (dispatcher t) (rx_socket t) (nIP t) (nIP_hbo t) (extra t)).
Definition l_dispatcher : lens transceiver (option client) := Lens dispatcher
  (λ y t, Transceiver (requestMutex t) (isReceiving t) (hasReceived t) (sin_addr t) (sin_port t)
    (requestThread t) y (rx_socket t) (nIP t) (nIP_hbo t) (extra t)).
Definition l_rx_socket : lens transceiver Socket := Lens rx_socket
  (λ y t, Transceiver (requestMutex t) (isReceiving t) (hasReceived t) (sin_addr t) (sin_port t)
    (requestThread t) (dispatcher t) y (nIP t) (nIP_hbo t) (extra t)).
Definition l_nIP : lens transceiver Z := Lens nIP
  (λ y t, Transceiver (requestMutex t) (isReceiving t) (hasReceived t) (sin_addr t) (sin_port t)
    (requestThread t) (dispatcher t) (rx_socket t) y (nIP_hbo t) (extra t)).
Definition l_nIP_hbo : lens transceiver Z := Lens nIP_hbo
  (λ y t, Transceiver (requestMutex t) (isReceiving t) (hasReceived t) (sin_addr t) (sin_port t)
    (requestThread t) (dispatcher t) (rx_socket t) (nIP t) y (extra t)).
Definition l_extra : lens transceiver X := Lens extra
  (λ y t, Transceiver (requestMutex t) (isReceiving t) (hasReceived t) (sin_addr t) (sin_port t)
    (requestThread t) (dispatcher t) (rx_socket t) (nIP t) (nIP_hbo t) y).

(** ** [itrx_proc_unit]: endpoints *)

(** A member that must have been assigned. *)
Definition assigned {S A} (l : lens S (option A)) : M S A :=
  o <- read l ;;
  match o with Some a => ret a | None => fail Undefined end.

(** The port is converted to [unsigned short]. *)
Definition set_request_endpoint (address : list ascii) (port : Z) : M transceiver () :=
  with_lock l_requestMutex (
    match inet_aton address with
    | None => throw (invalid_argument err_msg._malinpt)
    | Some a =>
        assign l_sin_addr (Some a) ;;
        assign l_sin_port (Some (HTN_BYTE_ORD 2 (wrap 16 port)))
    end).

Definition get_request_address : M transceiver Z := with_lock l_requestMutex (assigned l_sin_addr).
Definition get_request_port : M transceiver Z := with_lock l_requestMutex (assigned l_sin_port).

(** The address and port the request server of [work] listens on. *)
Definition work_endpoint : M transceiver (Z * Z) :=
  with_lock l_requestMutex (
    a <- assigned l_sin_addr ;;
    p <- assigned l_sin_port ;;
    ret (NTH_BYTE_ORD 4 a, NTH_BYTE_ORD 2 p)).

(** Assigning a thread over a joinable one ends the program. *)
Definition start_request_listening : M transceiver () :=
  t <- read l_requestThread ;;
  if t : bool then fail Terminate else assign l_requestThread true.

(** The base class cannot be created. *)
Definition itrx_initialize : outcome transceiver := Throw (runtime_error err_msg._stcimpl).

(** Destructor: the unit's own, which deletes the dispatcher, then the base's,
    which joins the thread. A join that returns is meant; [Unloading] says when it
    does. *)
Definition delete_dispatcher : M transceiver () :=
  o <- read l_dispatcher ;;
  match o with
  | None => ret tt
  | Some c =>
      match client_dtor c with
      | (Ret _, c') => assign l_dispatcher None
      | (Throw _, c') => fail Terminate
      | (Fatal f, c') => fail f
      end
  end.

Definition transceiver_dtor : M transceiver () :=
  delete_dispatcher ;;
  t <- read l_requestThread ;;
  if t : bool then assign l_requestThread false else throw std_exception.

(** ** [itrx_proc_unit]: communication requests of peers

    [process] up to its wait, and from a wake-up on; [prepare] is what the unit
    does when a communication begins. [Waiting] has released the mutex. *)
Inductive progress := Done | Waiting.

#[export] Instance progress_eq_dec : EqDecision progress.
Proof using. solve_decision. Defined.

Definition finish_receiving : M transceiver progress :=
  assign l_hasReceived false ;;
  r <- read l_isReceiving ;;
  assign l_isReceiving (negb r) ;;
  ret Done.

Definition process (prepare : M transceiver ()) : M transceiver progress :=
  with_lock l_requestMutex (
    receiving <- read l_isReceiving ;;
    if receiving : bool then
      got <- read l_hasReceived ;;
      if got : bool then finish_receiving else ret Waiting
    else
      prepare ;;
      r <- read l_isReceiving ;;
      assign l_isReceiving (negb r) ;;
      ret Done).

Definition process_resume : M transceiver progress :=
  with_lock l_requestMutex (
    got <- read l_hasReceived ;;
    if got : bool then finish_receiving else ret Waiting).

(** ** [itrx_proc_unit]: communicating with a peer *)

(** The connection is destroyed on every way out. *)
Definition destroy_connection (c : tcp_client) : outcome () := (base_dtor (NetMessages.socket c)).1.

Definition open_connection (ip : Z) (port : Z) : outcome tcp_client :=
  out_bind (tcp_client_ctor ip port) (λ c,
  match (write_message (request_init 0 1 0) ;; read_message (I := NetMessages.response)) c with
  | (Ret _, c') => Ret c'
  | (Throw e, c') => out_bind (destroy_connection c') (λ _, Throw e)
  | (Fatal f, c') => Fatal f
  end).

Definition close_connection : M tcp_client () :=
  write_message (request_init 0 2 0) ;;
  read_message (I := NetMessages.response) ;;
  ret tt.

(** The circuit for one character of the data. *)
Definition circuit_of (c : ascii) : string :=
  let base := "init 2" +:+ String "010" ("h 0" +:+ String "010" "c 0,1") in
  match N_of_ascii c with
  | 0 | 48 => base +:+ String "010" "i 0"
  | 1 | 49 => base +:+ String "010" "x 0"
  | 2 | 50 => base +:+ String "010" "z 0"
  | 3 | 51 => base +:+ String "010" "y 0"
  | _ => base
  end%N.

Definition NEWLINE_DELIMITER : string := String "010" "".

(** A request with an address and four strings, as all of them have. *)
Definition add_cstrs (l : list string) (r : outcome sim_request) : outcome sim_request :=
  foldl (λ o s, out_bind o (add_cstr s)) r l.

Definition tx_request (nIP : Z) (language : string) (c : ascii) : outcome sim_request :=
  add_cstrs [language; circuit_of c; NEWLINE_DELIMITER]
    (out_bind (sim_request_ctor "tx" false) (add_uint nIP)).

(** A connection that is a local variable of a block: its destructor runs when the
    block is left, by a return or by an exception. *)
Definition automatic {A} (conn : tcp_client) (block : M (transceiver * tcp_client) A) : M transceiver A := λ t,
  let r := block (t, conn) in
  match r.1 with
  | Fatal f => (Fatal f, r.2.1)
  | o => (out_bind (destroy_connection r.2.2) (λ _, o), r.2.1)
  end.

(** What happens in [transmit] once the connection is open, for any kind of
    connection; the answer is whether the dispatcher took the circuit. *)
Definition send_circuit {C} (close : M C ()) (language : string) (c : ascii) : M (transceiver * C) bool :=
  a <- zoom l_fst (read l_nIP) ;;
  rq <- lift (tx_request a language c) ;;
  response <- zoom l_fst (call_through l_dispatcher rq) ;;
  zoom l_snd close ;;
  error <- lift (get_error response) ;;
  ret (negb error).

(** One round of the loop of [transmit]. *)
Definition transmit_char (language : string) (ip port : Z) (c : ascii) : M transceiver bool :=
  conn <- lift (open_connection ip port) ;;
  automatic conn (send_circuit close_connection language c).

Fixpoint transmit (language : string) (ip port : Z) (buf : list ascii) : M transceiver bool :=
  match buf with
  | [] => ret true
  | c :: buf' =>
      ok <- transmit_char language ip port c ;;
      if ok : bool then transmit language ip port buf' else ret false
  end.

(** ** [itrx_proc_unit]: requests of the software layer *)

Definition proc_act_push (language : string) (r : request) : M transceiver bool :=
  method <- lift (method r) ;;
  if strcmp_eq method "tx" then
    rIP <- lift (parameter_uint r 0) ;;
    rPort <- lift (parameter_ushort r 1) ;;
    rData <- lift (parameter_cstr r 2) ;;
    rDataLen <- lift (parameter_str_size r 2) ;;
    transmit language rIP rPort (take rDataLen rData)
  else throw (runtime_error err_msg._malinpt).

(** ** [async_work], the same text in both units *)

(** [out.push(buffer_item(msg.data(), msg.size(), 0, 0, false))]: the bytes are
    copied to an array of the item's own; the temporary is destroyed. *)
Definition push_message {B} `{AsyncBuffer B} (msg : list ascii) : M (async_env transceiver B) () :=
  item <- (if decide (length msg = 0) then ret (BufferItem None 0 (Parameters None 0 false))
           else
             l <- zoom l_heap (new_array (Chars msg)) ;;
             ret (BufferItem (Some l) (length msg) (Parameters None 0 false))) ;;
  left <- zoom l_buffer (ab_push item) ;;
  zoom l_heap (buffer_item_dtor left).

(** The body under the lock; the second message is the data. *)
Definition receive_data {B} `{AsyncBuffer B} (topic : list ascii) : M (async_env transceiver B) () :=
  receiving <- read (lens_comp l_unit l_isReceiving) ;;
  (if receiving : bool then ret tt else throw (runtime_error err_msg._unrchcd)) ;;
  r <- zoom (lens_comp l_unit l_rx_socket) zmq_recv ;;
  push_message (match r with Some data => data | None => zmq_unreceived topic end) ;;
  assign (lens_comp l_unit l_hasReceived) true.

Definition async_work {B} `{AsyncBuffer B} : M (async_env transceiver B) () :=
  r <- zoom (lens_comp l_unit l_rx_socket) zmq_recv ;;
  match r with
  | None => ret tt
  | Some topic => with_lock (lens_comp l_unit l_requestMutex) (receive_data topic)
  end.

(** ** [string_initialize_parameters], the parts the units share *)

(** [find(':')] and the two [substr]. *)
Fixpoint split_colon (s : list ascii) : option (list ascii * list ascii) :=
  match s with
  | [] => None
  | c :: s' =>
      if decide (c = ":"%char) then Some ([], s')
      else (λ p, (c :: p.1, p.2)) <$> split_colon s'
  end.

Definition parse_endpoint (requestEndpoint : string) : outcome (list ascii * list ascii) :=
  match split_colon (chars requestEndpoint) with
  | None => Throw (invalid_argument err_msg._malinpt)
  | Some (requestAddress, requestPort) =>
      if decide (length requestAddress = 0) then Throw (invalid_argument err_msg._malinpt)
      else if decide (length requestPort = 0) then Throw (invalid_argument err_msg._malinpt)
      else Ret (requestAddress, requestPort)
  end.

(** From the endpoint to the new dispatcher client. *)
Definition initialize_endpoint (requestEndpoint txDispatcherLocation : string) : M transceiver () :=
  ep <- lift (parse_endpoint requestEndpoint) ;;
  port <- lift (stoul ep.2) ;;
  set_request_endpoint ep.1 port ;;
  a <- get_request_address ;;
  assign l_nIP a ;;
  assign l_nIP_hbo (NTH_BYTE_ORD 4 a) ;;
  d <- lift (client_ctor txDispatcherLocation) ;;
  assign l_dispatcher (Some d).

Definition rx_receive_timeout : Z := 20.

(** Subscribing to the bytes of the address in host order, as they are in
    memory, and starting the request server. *)
Definition initialize_listening (rxDispatcherLocation : string) : M transceiver () :=
  topic <- read l_nIP_hbo ;;
  zoom l_rx_socket (zmq_subscribe (le_bytes 4 topic)) ;;
  zoom l_rx_socket (zmq_setsockopt ZMQ_RCVTIMEO rx_receive_timeout) ;;
  zoom l_rx_socket (zmq_connect rxDispatcherLocation) ;;
  start_request_listening.

(** The request that sets the peer's measurement. *)
Definition configure_node (nIP : Z) (language measure : string) : outcome sim_request :=
  add_cstrs ["receiver"; language; measure; NEWLINE_DELIMITER]
    (out_bind (sim_request_ctor "configure_node" false) (add_uint nIP)).
End members.
Arguments transceiver : clear implicits.

(** ** [trx_circuit] *)

Definition TRX_CIRCUIT_LANGUAGE : string := "chpext".
Definition TRX_CIRCUIT_MEASURE : string :=
  "c 0,1" +:+ String "010" ("h 0" +:+ String "010" ("m 0" +:+ String "010" "m 1")).

Definition trx_circuit_ctor : transceiver () := transceiver_ctor tt.
Definition trx_initialize : outcome (transceiver ()) := Ret trx_circuit_ctor.

Definition trx_options : list opt_desc :=
  [OptDesc "e" OptString true; OptDesc "rd" OptString true; OptDesc "td" OptString true].

(** [dispatcher->call(request)] with the measurement; the answer is dropped. *)
Definition send_measure : M (transceiver ()) () :=
  a <- read l_nIP ;;
  rq <- lift (configure_node a TRX_CIRCUIT_LANGUAGE TRX_CIRCUIT_MEASURE) ;;
  call_through l_dispatcher rq ;;
  ret tt.

Definition trx_initialize_parameters (parameters : string) : M (transceiver ()) () :=
  vals <- options_or_exit trx_options parameters ;;
  initialize_endpoint (opt_string vals "e" "") (opt_string vals "td" "") ;;
  send_measure ;;
  initialize_listening (opt_string vals "rd" "").

(** The branch that handles the request runs off the end of the function. *)
Definition trx_proc_act_request (r : request) : M (transceiver ()) (option response) :=
  method <- lift (method r) ;;
  if strcmp_eq method "configure_detector" then
    send_measure ;;
    fail Undefined
  else throw (logic_error err_msg._unrchcd).

Definition trx_process : M (transceiver ()) progress := process (ret tt).

#[export] Instance trx_circuit : ProcUnit (transceiver ()) := {|
  pu_string_initialize_parameters := trx_initialize_parameters;
  pu_async_work B HB := async_work;
  pu_proc_act_request := trx_proc_act_request;
  pu_proc_act_push := proc_act_push TRX_CIRCUIT_LANGUAGE;
  pu_dtor := transceiver_dtor;
|}.
(** ** Receiving *)

Section receiving.
Context {X B : Type} `{!AsyncBuffer B}.
Implicit Types t : transceiver X.

Lemma fresh_heap_subseteq (h : heap) b : h ⊆ <[fresh (base.dom h) := b]> h.
Proof. apply insert_subseteq, not_elem_of_dom, is_fresh. Qed.

(** The item made of the bytes of a message, and the heap with its array. *)
Definition message_item (h : heap) (msg : list ascii) : buffer_item :=
  if decide (length msg = 0) then BufferItem None 0 (Parameters None 0 false)
  else BufferItem (Some (fresh (base.dom h))) (length msg) (Parameters None 0 false).
Definition message_heap (h : heap) (msg : list ascii) : heap :=
  if decide (length msg = 0) then h else <[fresh (base.dom h) := Chars msg]> h.

Lemma message_heap_subseteq h msg : h ⊆ message_heap h msg.
Proof. unfold message_heap. case_decide; [done|apply fresh_heap_subseteq]. Qed.

Lemma message_item_moved h msg h' :
  buffer_item_dtor (buffer_item_move (message_item h msg)).2 h' = (Ret tt, h').
Proof. unfold message_item. by case_decide. Qed.

Lemma push_message_eq msg t h (b : B) :
  ab_idle b →
  ∃ b', push_message msg (AsyncEnv t h b) = (Ret tt, AsyncEnv t (message_heap h msg) b')
      ∧ ab_idle b' ∧ ab_contents b' = ab_contents b ++ [message_item h msg].
Proof.
  intros Hb. destruct (ab_push_spec (message_item h msg) b Hb) as (b' & Hp & Hi & Hc).
  exists b'. split; [|done]. unfold push_message, bind.
  pose proof (message_item_moved h msg) as Hm.
  unfold message_item, message_heap in *. case_decide as Hl.
  - unfold ret, zoom. cbn -[buffer_item_dtor buffer_item_move]. rewrite Hp.
    cbn -[buffer_item_dtor buffer_item_move]. by rewrite Hm.
  - unfold ret, zoom, new_array. cbn -[buffer_item_dtor buffer_item_move]. rewrite Hp.
    cbn -[buffer_item_dtor buffer_item_move]. by rewrite Hm.
Qed.

(** [async_work] when nothing, or a message at the wrong time, has arrived. *)
Lemma async_work_quiet t h (b : B) s :
  zmq_recv (rx_socket t) = (Ret None, s) →
  async_work (AsyncEnv t h b) = (Ret tt, AsyncEnv (upd l_rx_socket s t) h b).
Proof. intros Hr. unfold async_work, bind, zoom. simpl. by rewrite Hr. Qed.

Lemma async_work_late t h (b : B) topic s :
  requestMutex t = false → isReceiving t = false →
  zmq_recv (rx_socket t) = (Ret (Some topic), s) →
  async_work (AsyncEnv t h b)
  = (Throw (runtime_error err_msg._unrchcd), AsyncEnv (upd l_rx_socket s t) h b).
Proof.
  intros Hm Hi Hr. destruct t; simpl in *; subst.
  unfold async_work, bind, zoom. simpl. rewrite Hr. simpl.
  unfold with_lock, receive_data. by mrun.
Qed.

(** The bytes that are taken as the data. *)
Definition data_of (topic : list ascii) (r : option (list ascii)) : list ascii :=
  match r with Some data => data | None => zmq_unreceived topic end.

Lemma async_work_data t h (b : B) topic r s1 s2 :
  requestMutex t = false → isReceiving t = true → ab_idle b →
  zmq_recv (rx_socket t) = (Ret (Some topic), s1) → zmq_recv s1 = (Ret r, s2) →
  ∃ b', async_work (AsyncEnv t h b)
        = (Ret tt, AsyncEnv (upd l_hasReceived true (upd l_rx_socket s2 t))
                     (message_heap h (data_of topic r)) b')
      ∧ ab_idle b' ∧ ab_contents b' = ab_contents b ++ [message_item h (data_of topic r)].
Proof.
  intros Hm Hi Hb Hr1 Hr2.
  destruct t as [mx rc hr sa sp th d sk ip ihbo x]; simpl in *; subst.
  destruct (push_message_eq (data_of topic r) (Transceiver true true hr sa sp th d s2 ip ihbo x) h b Hb)
    as (b' & Hp & Hrest).
  exists b'. split; [|done]. unfold async_work, bind at 1, zoom at 1. simpl. rewrite Hr1. simpl.
  unfold with_lock, receive_data, read, gets, assign, modify. simpl.
  unfold bind at 1 2 3, ret, zoom. simpl. rewrite Hr2. simpl. fold (data_of topic r).
  by rewrite (bind_Ret _ _ _ _ _ Hp).
Qed.

(** Whatever happens in [async_work]. *)
Lemma async_work_safe (e : async_env (transceiver X) B) :
  ab_idle (env_buffer e) →
  let e' := (async_work e).2 in
  ab_idle (env_buffer e')
  ∧ (∃ items, ab_contents (env_buffer e') = ab_contents (env_buffer e) ++ items)
  ∧ env_heap e ⊆ env_heap e'.
Proof.
  destruct e as [t h b]. simpl. intros Hb.
  assert (ab_idle b ∧ (∃ items, ab_contents b = ab_contents b ++ items) ∧ h ⊆ h) as Hsame.
  { split_and!; [done| |done]. exists []. by rewrite app_nil_r. }
  destruct (zmq_recv (rx_socket t)) as [[[topic|]|e|f] s1] eqn:Hr1.
  - destruct (requestMutex t) eqn:Hm.
    { unfold async_work, bind, zoom. simpl. rewrite Hr1. simpl. unfold with_lock. simpl.
      rewrite Hm. exact Hsame. }
    destruct (isReceiving t) eqn:Hi; [|rewrite (async_work_late _ _ _ _ _ Hm Hi Hr1); exact Hsame].
    destruct (zmq_recv s1) as [[r|e|f] s2] eqn:Hr2.
    + destruct (async_work_data t h b topic r s1 s2 Hm Hi Hb Hr1 Hr2) as (b' & -> & Hi' & Hc).
      simpl. split_and!; [done|by eexists|apply message_heap_subseteq].
    + destruct t; simpl in *; subst. unfold async_work, bind, zoom. simpl. rewrite Hr1. simpl.
      unfold with_lock, receive_data. mrun. rewrite Hr2. exact Hsame.
    + destruct t; simpl in *; subst. unfold async_work, bind, zoom. simpl. rewrite Hr1. simpl.
      unfold with_lock, receive_data. mrun. rewrite Hr2. exact Hsame.
  - rewrite (async_work_quiet _ _ _ _ Hr1). exact Hsame.
  - unfold async_work, bind, zoom. simpl. rewrite Hr1. exact Hsame.
  - unfold async_work, bind, zoom. simpl. rewrite Hr1. exact Hsame.
Qed.
End receiving.

(** ** Communications *)

Section protocol.
Context {X B : Type} `{!AsyncBuffer B} (prepare : M (transceiver X) ()).
Implicit Types t : transceiver X.

(** Preparing does not touch what the protocol is about. *)
Definition prepare_ok : Prop :=
  ∀ t, requestMutex (prepare t).2 = requestMutex t
     ∧ isReceiving (prepare t).2 = isReceiving t
     ∧ hasReceived (prepare t).2 = hasReceived t.

(** The steps of the two threads: a request of the peer, which may leave the
    io_service thread waiting; its wake-ups, spurious ones included; rounds of
    the module's thread. The first [recv] of a round happens before it takes the
    mutex; only the module's thread uses that socket, so a request that comes in
    between has the effect of one that came before the round. *)
Inductive comm_step : transceiver X * bool → transceiver X * bool → Prop :=
| cs_process p t t' :
    process prepare t = (Ret p, t') → comm_step (t, false) (t', bool_decide (p = Waiting))
| cs_resume p t t' :
    process_resume t = (Ret p, t') → comm_step (t, true) (t', bool_decide (p = Waiting))
| cs_async w t t' h h' (b b' : B) :
    ab_idle b → async_work (AsyncEnv t h b) = (Ret tt, AsyncEnv t' h' b') → comm_step (t, w) (t', w).

Record comm_inv (s : transceiver X * bool) : Prop := {
  ci_free : requestMutex s.1 = false;
  ci_received : hasReceived s.1 = true → isReceiving s.1 = true;
  ci_waiting : s.2 = true → isReceiving s.1 = true;
}.

(** A round that returns: nothing has come, or data while receiving. *)
Lemma async_work_returns t h (b : B) e' :
  requestMutex t = false → ab_idle b → async_work (AsyncEnv t h b) = (Ret tt, e') →
  (∃ s, zmq_recv (rx_socket t) = (Ret None, s) ∧ e' = AsyncEnv (upd l_rx_socket s t) h b)
  ∨ ∃ topic s1 r s2 b', zmq_recv (rx_socket t) = (Ret (Some topic), s1) ∧ zmq_recv s1 = (Ret r, s2)
      ∧ isReceiving t = true ∧ ab_idle b' ∧ ab_contents b' = ab_contents b ++ [message_item h (data_of topic r)]
      ∧ e' = AsyncEnv (upd l_hasReceived true (upd l_rx_socket s2 t)) (message_heap h (data_of topic r)) b'.
Proof.
  intros Hm Hb. destruct (zmq_recv (rx_socket t)) as [[[topic|]|e|f] s1] eqn:Hr1.
  - destruct (isReceiving t) eqn:Hi; [|by rewrite (async_work_late _ _ _ _ _ Hm Hi Hr1)].
    destruct (zmq_recv s1) as [[r|e|f] s2] eqn:Hr2.
    + destruct (async_work_data t h b topic r s1 s2 Hm Hi Hb Hr1 Hr2) as (b2 & -> & Hb2 & Hc).
      intros [= <-]. right. by exists topic, s1, r, s2, b2.
    + destruct t; simpl in *; subst. unfold async_work, bind, zoom. simpl. rewrite Hr1. simpl.
      unfold with_lock, receive_data. mrun. by rewrite Hr2.
    + destruct t; simpl in *; subst. unfold async_work, bind, zoom. simpl. rewrite Hr1. simpl.
      unfold with_lock, receive_data. mrun. by rewrite Hr2.
  - rewrite (async_work_quiet _ _ _ _ Hr1). intros [= <-]. left. by exists s1.
  - unfold async_work, bind, zoom. simpl. by rewrite Hr1.
  - unfold async_work, bind, zoom. simpl. by rewrite Hr1.
Qed.

Lemma async_work_Ret t h (b : B) t' h' b' :
  requestMutex t = false → ab_idle b → async_work (AsyncEnv t h b) = (Ret tt, AsyncEnv t' h' b') →
  requestMutex t' = false ∧ isReceiving t' = isReceiving t
  ∧ (hasReceived t' = true → hasReceived t = true ∨ isReceiving t = true).
Proof.
  intros Hm Hb Ha. destruct (async_work_returns t h b _ Hm Hb Ha)
    as [(s & _ & Heq)|(topic & s1 & r & s2 & b2 & _ & _ & Hi & _ & _ & Heq)]; simplify_eq/=; auto.
Qed.

(** The requests of the peer, on a unit whose mutex is free. *)
Lemma process_begin t :
  requestMutex t = false → isReceiving t = false →
  process prepare t =
    match prepare (upd l_requestMutex true t) with
    | (Ret _, t1) => (Ret Done, upd l_requestMutex false (upd l_isReceiving (negb (isReceiving t1)) t1))
    | (Throw e, t1) => (Throw e, upd l_requestMutex false t1)
    | (Fatal f, t1) => (Fatal f, t1)
    end.
Proof.
  intros Hm Hi. destruct t; simpl in *; subst. unfold process, with_lock. mrun.
  by destruct (prepare _) as [[]].
Qed.

Lemma process_end t :
  requestMutex t = false → isReceiving t = true → hasReceived t = true →
  process prepare t = (Ret Done, upd l_isReceiving false (upd l_hasReceived false t)).
Proof.
  intros Hm Hi Hr. destruct t; simpl in *; subst. unfold process, with_lock, finish_receiving. by mrun.
Qed.

Lemma process_waits t :
  requestMutex t = false → isReceiving t = true → hasReceived t = false →
  process prepare t = (Ret Waiting, t).
Proof.
  intros Hm Hi Hr. destruct t; simpl in *; subst. unfold process, with_lock, finish_receiving. by mrun.
Qed.

Lemma process_resume_eq t :
  requestMutex t = false →
  process_resume t =
    if hasReceived t then (Ret Done, upd l_isReceiving (negb (isReceiving t)) (upd l_hasReceived false t))
    else (Ret Waiting, t).
Proof.
  intros Hm. destruct t as [mx rc [] sa sp th d sk ip ihbo x]; simpl in *; subst;
    unfold process_resume, with_lock, finish_receiving; by mrun.
Qed.

Lemma comm_step_inv s s' : prepare_ok → comm_step s s' → comm_inv s → comm_inv s'.
Proof.
  intros Hok Hstep [Hm Hr Hw].
  destruct Hstep as [p t t' Hp|p t t' Hp|w t t' h h' b b' Hb Ha]; simpl in *.
  - destruct (isReceiving t) eqn:Hi.
    + destruct (hasReceived t) eqn:Hh.
      * rewrite process_end in Hp by done. injection Hp as <- <-. by split.
      * rewrite process_waits in Hp by done. injection Hp as <- <-.
        split; simpl; [done|by rewrite Hh|done].
    + rewrite process_begin in Hp by done.
      destruct (Hok (upd l_requestMutex true t)) as (_ & Hi' & Hr').
      destruct (prepare (upd l_requestMutex true t)) as [[u|e|f] t1]; [|done..].
      simpl in Hi', Hr'. injection Hp as <- <-. split; simpl; [done|by rewrite Hi', Hi|done].
  - rewrite process_resume_eq in Hp by done. destruct (hasReceived t) eqn:Hh.
    + injection Hp as <- <-. by split.
    + injection Hp as <- <-. split; simpl; [done|by rewrite Hh|auto].
  - destruct (async_work_Ret _ _ _ _ _ _ Hm Hb Ha) as (Hm' & Hi' & Hr').
    split; simpl; [done| |]; rewrite Hi'; naive_solver.
Qed.

(** C13. The receiving protocol, in every interleaving of the peer's requests, the
    wake-ups of the io_service thread and the rounds of the module's thread:
    the mutex is free between steps, data is flagged and a thread waits only
    while the unit is receiving. A waiting thread that wakes up without data
    goes on waiting; once data has arrived it finishes, and the unit is idle
    again. A message that arrives while the unit is not receiving is an
    exception in the module's thread, with nothing pushed. *)
Theorem transceiver_protocol t0 t w :
  prepare_ok → requestMutex t0 = false → hasReceived t0 = false →
  rtc comm_step (t0, false) (t, w) →
  requestMutex t = false
  ∧ (hasReceived t = true → isReceiving t = true)
  ∧ (w = true → isReceiving t = true)
  ∧ (hasReceived t = false → process_resume t = (Ret Waiting, t))
  ∧ (w = true → ∀ topic r s1 s2 h (b : B), ab_idle b →
       zmq_recv (rx_socket t) = (Ret (Some topic), s1) → zmq_recv s1 = (Ret r, s2) →
       ∃ t1 h1 b1 t2, async_work (AsyncEnv t h b) = (Ret tt, AsyncEnv t1 h1 b1)
         ∧ ab_contents b1 = ab_contents b ++ [message_item h (data_of topic r)]
         ∧ process_resume t1 = (Ret Done, t2)
         ∧ isReceiving t2 = false ∧ hasReceived t2 = false)
  ∧ (isReceiving t = false → ∀ topic s1 h (b : B),
       zmq_recv (rx_socket t) = (Ret (Some topic), s1) →
       ∃ t1, async_work (AsyncEnv t h b) = (Throw (runtime_error err_msg._unrchcd), AsyncEnv t1 h b)).
Proof.
  intros Hok Hm0 Hh0 Hsteps.
  assert (comm_inv (t, w)) as [Hm Hr Hw].
  { assert (comm_inv (t0, false)) as Hinit by (split; simpl; [done|congruence|done]).
    clear Hm0 Hh0. revert Hinit. induction Hsteps; eauto using comm_step_inv. }
  simpl in *. split_and!; [done|done|done| | |].
  - intros Hh. rewrite process_resume_eq, Hh by done. done.
  - intros Hwt topic r s1 s2 h b Hb Hr1 Hr2. specialize (Hw Hwt).
    destruct (async_work_data t h b topic r s1 s2 Hm Hw Hb Hr1 Hr2) as (b1 & Ha & _ & Hc).
    eexists _, _, b1, _. split_and!; [exact Ha|done|by rewrite process_resume_eq by done| |]; simpl; [|done].
    by rewrite Hw.
  - intros Hi topic s1 h b Hr1. eexists. by eapply async_work_late.
Qed.
End protocol.

#[export] Instance trx_safe : ProcUnitSafe (transceiver ()).
Proof. split. intros B HB e He. by apply async_work_safe. Qed.
(** ** Endpoints *)

Section endpoint.
Context {X : Type}.
Implicit Types t : transceiver X.

Lemma le_bytes_reversed n x : le_bytes n (le_value (rev (le_bytes n x))) = rev (le_bytes n x).
Proof.
  pose proof (le_bytes_value (rev (le_bytes n x)) (Forall_rev (le_bytes_byte n x))) as Hb.
  by rewrite length_rev, le_bytes_length in Hb.
Qed.

Lemma split_colon_app a p :
  ":"%char ∉ a → split_colon (a ++ ":"%char :: p) = Some (a, p).
Proof.
  induction a as [|c a IH]; intros Hc; simpl; [done|].
  apply not_elem_of_cons in Hc as [Hne Hc]. rewrite decide_False by congruence. by rewrite IH.
Qed.

Lemma split_colon_None s : ":"%char ∉ s → split_colon s = None.
Proof.
  induction s as [|c s IH]; intros Hc; simpl; [done|].
  apply not_elem_of_cons in Hc as [Hne Hc]. rewrite decide_False by congruence. by rewrite IH.
Qed.

Lemma initialize_endpoint_eq ep loc t a p n port c :
  requestMutex t = false →
  parse_endpoint ep = Ret (a, p) → stoul p = Ret port → inet_aton a = Some n →
  client_ctor loc = Ret c →
  initialize_endpoint ep loc t =
    (Ret tt, Transceiver false (isReceiving t) (hasReceived t) (Some n)
       (Some (HTN_BYTE_ORD 2 (wrap 16 port))) (requestThread t) (Some c) (rx_socket t)
       n (NTH_BYTE_ORD 4 n) (extra t)).
Proof.
  intros Hm Hep Hp Ha Hc. destruct t; simpl in *; subst.
  unfold initialize_endpoint, set_request_endpoint, get_request_address, assigned, with_lock. mrun.
  rewrite Hep. simpl. rewrite Hp, Ha. simpl. by rewrite Hc.
Qed.

(** Endpoints: from "address:port", where the parts before and after the
    first colon are an address and a decimal number, the unit keeps the address
    in network order and listens on the address in host order and on the number
    modulo 2^16; the messages of the simulator it subscribes to begin with the
    address's bytes in reverse, host order. Without a colon, with an empty part or
    with an unreadable address or number, initialisation throws and leaves the
    unit as it was. *)
Theorem endpoint_spec t ep loc a p n ds c :
  requestMutex t = false → chars ep = a ++ ":"%char :: p → ":"%char ∉ a → a ≠ [] → p ≠ [] →
  client_ctor loc = Ret c →
  (inet_aton a = Some n → p = ds → is_decimal ds → (decimal_value ds ≤ ULONG_MAX)%Z →
     ∃ t', initialize_endpoint ep loc t = (Ret tt, t')
       ∧ nIP t' = n ∧ dispatcher t' = Some c
       ∧ work_endpoint t' = (Ret (NTH_BYTE_ORD 4 n, wrap 16 (decimal_value ds)), t')
       ∧ le_bytes 4 (nIP_hbo t') = rev (le_bytes 4 n))
  ∧ (inet_aton a = None → ∀ port, stoul p = Ret port →
     initialize_endpoint ep loc t = (Throw (invalid_argument err_msg._malinpt), t))
  ∧ (∀ e, stoul p = Throw e → initialize_endpoint ep loc t = (Throw e, t))
  ∧ (∀ ep', (":"%char ∉ chars ep' ∨ (∃ q, chars ep' = ":"%char :: q)
             ∨ (∃ q, chars ep' = q ++ [":"%char] ∧ ":"%char ∉ q)) →
     initialize_endpoint ep' loc t = (Throw (invalid_argument err_msg._malinpt), t)).
Proof.
  intros Hm Hep Hcolon Hane Hpne Hc.
  assert (parse_endpoint ep = Ret (a, p)) as Hparse.
  { unfold parse_endpoint. rewrite Hep, split_colon_app by done.
    rewrite decide_False by (by destruct a). by rewrite decide_False by (by destruct p). }
  split_and!.
  - intros Ha -> Hd Hv. pose proof (inet_aton_bounds _ _ Ha) as Hn.
    rewrite (initialize_endpoint_eq _ _ _ _ _ _ _ _ Hm Hparse (stoul_decimal ds Hd Hv) Ha Hc).
    eexists; split_and!; [done..| |]; cbn [nIP_hbo].
    + unfold work_endpoint, assigned, with_lock. mrun. do 3 f_equal.
      apply byte_order_roundtrip. simpl. pose proof (wrap_bounds 16 (decimal_value ds) ltac:(lia)). lia.
    + unfold NTH_BYTE_ORD. rewrite endian_reverse_bytes by (simpl; lia). apply le_bytes_reversed.
  - intros Ha port Hp. destruct t; simpl in *; subst.
    unfold initialize_endpoint, set_request_endpoint, with_lock. mrun.
    rewrite Hparse. simpl. rewrite Hp, Ha. done.
  - intros e Hp. unfold initialize_endpoint, bind at 1, lift at 1. rewrite Hparse.
    unfold bind at 1, lift at 1. simpl. by rewrite Hp.
  - intros ep' Hbad. assert (parse_endpoint ep' = Throw (invalid_argument err_msg._malinpt)) as Hthrow.
    { unfold parse_endpoint. destruct Hbad as [Hno|[[q Hq]|(q & Hq & Hnq)]].
      - by rewrite split_colon_None.
      - by rewrite Hq.
      - rewrite Hq, split_colon_app by done. by destruct q. }
    unfold initialize_endpoint, bind at 1, lift at 1. by rewrite Hthrow.
Qed.
End endpoint.

(** ** Transmitting *)

Section transmitting.
Context {X : Type}.
Implicit Types t : transceiver X.

Lemma add_cstrs_eq l m ps :
  add_cstrs l (Ret (SimRequest (sim_value m ps) []))
  = Ret (SimRequest (sim_value m (ps ++ ((λ s, StringValue (chars s)) <$> l))) []).
Proof.
  unfold add_cstrs. revert ps. induction l as [|s l IH]; intros ps; simpl; [by rewrite app_nil_r|].
  unfold add_cstr. rewrite sim_add_eq, IH. by rewrite <-app_assoc.
Qed.

(** The message for one character. *)
Definition tx_message (ip : Z) (language : string) (c : ascii) : list ascii :=
  sim_message "tx" [NumValue ip; StringValue (chars language); StringValue (chars (circuit_of c));
                    StringValue (chars NEWLINE_DELIMITER)].

Lemma tx_request_eq ip language c :
  tx_request ip language c
  = Ret (SimRequest (sim_value "tx" [NumValue ip; StringValue (chars language);
      StringValue (chars (circuit_of c)); StringValue (chars NEWLINE_DELIMITER)]) []).
Proof.
  unfold tx_request. rewrite sim_request_ctor_eq. cbn [out_bind]. unfold add_uint.
  by rewrite sim_add_eq, add_cstrs_eq.
Qed.

(** What is asked of the dispatcher for a string: one message per character, in
    order, until the dispatcher reports an error. *)
Fixpoint transmit_spec (ip : Z) (language : string) (buf : list ascii) : M client bool :=
  match buf with
  | [] => ret true
  | c :: buf' =>
      rsp <- exchange (tx_message ip language c) ;;
      error <- lift (get_error rsp) ;;
      if error : bool then ret false else transmit_spec ip language buf'
  end.

(** A peer that answers: its connection opens, closes and can be destroyed. *)
Definition peer_answers (ip port : Z) : Prop :=
  ∃ conn conn', open_connection ip port = Ret conn ∧ close_connection conn = (Ret tt, conn')
    ∧ destroy_connection conn = Ret tt ∧ destroy_connection conn' = Ret tt.

(** The block of [transmit] with its cases. *)
Lemma send_circuit_eq {C} (close : M C ()) language ch t c (k : C) :
  dispatcher t = Some c →
  send_circuit close language ch (t, k) =
    let r := exchange (tx_message (nIP t) language ch) c in
    let t' := upd l_dispatcher (Some r.2) t in
    match r.1 with
    | Ret rsp =>
        let x := close k in
        (out_bind x.1 (λ _, out_bind (get_error rsp) (λ e, Ret (negb e))), (t', x.2))
    | Throw e => (Throw e, (t', k))
    | Fatal f => (Fatal f, (t', k))
    end.
Proof.
  intros Hc. unfold send_circuit.
  erewrite bind_Ret by reflexivity. cbn [fst snd upd l_fst]. erewrite bind_Ret by (unfold lift; by rewrite tx_request_eq).
  unfold bind at 1, zoom at 1. simpl view. rewrite (call_through_eq l_dispatcher _ _ _ c) by done.
  fold (tx_message (nIP t) language ch). cbv zeta.
  destruct (exchange (tx_message (nIP t) language ch) c) as [[rsp|e|f] c']; cbn [fst snd upd l_fst]; [|done..].
  unfold bind, lift, zoom, ret. cbn [fst snd upd l_snd view].
  destruct (close k) as [[[]|e|f] k']; cbn [fst snd out_bind]; [|done..]. by destruct (get_error rsp).
Qed.

Lemma transmit_char_eq ip port language ch t c :
  peer_answers ip port → dispatcher t = Some c →
  transmit_char language ip port ch t =
    let r := (rsp <- exchange (tx_message (nIP t) language ch) ;; lift (get_error rsp)) c in
    (match r.1 with Ret error => Ret (negb error) | Throw e => Throw e | Fatal f => Fatal f end,
     upd l_dispatcher (Some r.2) t).
Proof.
  intros (conn & conn' & Ho & Hcl & Hd & Hd') Hc. unfold transmit_char.
  unfold bind at 1, lift at 1. rewrite Ho. unfold automatic. rewrite (send_circuit_eq _ _ _ _ c) by done.
  cbv zeta. unfold bind, lift.
  destruct (exchange (tx_message (nIP t) language ch) c) as [[rsp|e|f] c']; cbn [fst snd].
  - rewrite Hcl. cbn [fst snd out_bind]. by destruct (get_error rsp); cbn [out_bind]; rewrite ?Hd'.
  - by rewrite Hd.
  - done.
Qed.

Lemma transmit_eq ip port language buf t c :
  peer_answers ip port → dispatcher t = Some c →
  transmit language ip port buf t =
    let r := transmit_spec (nIP t) language buf c in (r.1, upd l_dispatcher (Some r.2) t).
Proof.
  intros Hp. revert t c. induction buf as [|ch buf IH]; intros t c Hc; simpl.
  - unfold ret. simpl. f_equal. destruct t; simpl in *; by subst.
  - unfold bind. rewrite (transmit_char_eq ip port language ch t c Hp Hc). unfold bind, lift, ret.
    destruct (exchange (tx_message (nIP t) language ch) c) as [[rsp|e|f] c1]; cbn [fst snd]; [|done..].
    destruct (get_error rsp) as [error| |]; cbn [fst snd]; [|done..].
    destruct error; simpl; [done|]. by rewrite (IH _ c1).
Qed.

(** The gate of a value from 0 to 3. *)
Definition gate (k : nat) : string := nth k ["i"; "x"; "z"; "y"] "".

(** C34. Transmitting, with a peer that answers: the push "tx" sends the
    dispatcher one circuit per character of its third parameter, in order, and
    answers [true]; at the first error the dispatcher reports it stops and
    answers [false]; an unreachable dispatcher is an exception. The circuit
    encodes the values 0 to 3, as numbers or as digits, as the gates i, x, z and
    y after a Bell pair is prepared. Any other method is refused. *)
Theorem transmit_push t c language a m ps n port data :
  nul_free m → ps !! 0 = Some (NumValue n) → ps !! 1 = Some (NumValue port) →
  ps !! 2 = Some (StringValue data) → (0 <= n < 2 ^ 32)%Z → (0 <= port < 2 ^ 32)%Z →
  dispatcher t = Some c → peer_answers n (wrap 16 port) →
  (m = "tx" →
     proc_act_push language (client_request a m ps) t
     = let r := transmit_spec (nIP t) language data c in (r.1, upd l_dispatcher (Some r.2) t))
  ∧ (m ≠ "tx" →
     proc_act_push language (client_request a m ps) t = (Throw (runtime_error err_msg._malinpt), t))
  ∧ (∀ k, (k < 4)%nat →
       let bell := "init 2" +:+ String "010" ("h 0" +:+ String "010" "c 0,1") in
       circuit_of (ascii_of_nat k) = bell +:+ String "010" (gate k +:+ " 0")
       ∧ circuit_of (ascii_of_nat (48 + k)) = circuit_of (ascii_of_nat k)).
Proof.
  intros Hm Hn Hport Hdata Hbn Hbp Hc Hpeer. unfold proc_act_push, bind, lift.
  rewrite method_value by done. unfold strcmp_eq. split_and!.
  - intros ->. rewrite bool_decide_true by done.
    destruct (parameter_cstr_value a "tx" ps 2 data Hdata) as [Hcs Hsz].
    rewrite (parameter_uint_value _ _ _ _ n), (parameter_ushort_value _ _ _ _ port) by done.
    rewrite Hcs, Hsz, take_app_length. by apply transmit_eq.
  - intros Hne. by rewrite bool_decide_false.
  - intros k Hk. do 4 (destruct k as [|k]; [split; reflexivity|]). lia.
Qed.
End transmitting.

(** ** Initialisation *)

Section initialisation.

Lemma zoom_preserves {S F A} (I : S → Prop) (l : lens S F) (m : M F A) :
  (∀ f s, I s → I (upd l f s)) → preserves I (zoom l m).
Proof. intros HI s Hs. unfold zoom. simpl. by apply HI. Qed.

Lemma call_through_preserves {S} (I : S → Prop) (l : lens S (option client)) rq :
  (∀ f s, I s → I (upd l f s)) → preserves I (call_through l rq).
Proof.
  intros HI. unfold call_through. apply preserves_bind; [apply preserves_read|].
  intros [c|]; [|apply preserves_fail]. simpl.
  apply preserves_bind; [by apply preserves_assign; auto|]. intros _.
  apply preserves_bind; [apply preserves_lift|]. intros x. apply preserves_ret.
Qed.

(** The thread is the last thing initialisation touches. *)
Definition no_thread {X} (t : transceiver X) : Prop := requestThread t = false.

Lemma initialize_endpoint_no_thread {X} ep loc : preserves (no_thread (X := X)) (initialize_endpoint ep loc).
Proof.
  unfold initialize_endpoint, set_request_endpoint, get_request_address, assigned.
  repeat (apply preserves_bind || apply preserves_with_lock || apply preserves_lift
    || apply preserves_read || (apply preserves_assign; done) || apply preserves_ret
    || apply preserves_fail || apply preserves_throw || intros ? || case_match); done.
Qed.

Lemma send_measure_no_thread : preserves no_thread send_measure.
Proof.
  unfold send_measure. apply preserves_bind; [apply preserves_read|intros a].
  apply preserves_bind; [apply preserves_lift|intros rq].
  apply preserves_bind; [by apply call_through_preserves|intros _]. apply preserves_ret.
Qed.

(** How an operation that ends in starting the thread can end. *)
Definition throws_without_thread {X A} (m : M (transceiver X) A) : Prop :=
  ∀ t, no_thread t → match m t with (Throw _, t') => no_thread t' | _ => True end.
Definition returns_with_thread {X A} (m : M (transceiver X) A) : Prop :=
  ∀ t, match m t with (Ret _, t') => requestThread t' = true | _ => True end.

Lemma throws_bind {X A C} (m : M (transceiver X) A) (k : A → M (transceiver X) C) :
  preserves no_thread m → (∀ a, throws_without_thread (k a)) → throws_without_thread (bind m k).
Proof.
  intros Hm Hk t Ht. specialize (Hm t Ht). unfold bind.
  destruct (m t) as [[a|e|f] t']; [by apply Hk|done|done].
Qed.

Lemma returns_bind {X A C} (m : M (transceiver X) A) (k : A → M (transceiver X) C) :
  (∀ a, returns_with_thread (k a)) → returns_with_thread (bind m k).
Proof. intros Hk t. unfold bind. destruct (m t) as [[a|e|f] t']; [apply Hk|done|done]. Qed.

Lemma start_throws {X} : throws_without_thread (X := X) start_request_listening.
Proof. intros t Ht. unfold start_request_listening. mrun. by destruct (requestThread t). Qed.

Lemma start_returns {X} : returns_with_thread (X := X) start_request_listening.
Proof. intros t. unfold start_request_listening. mrun. by destruct (requestThread t). Qed.

Lemma options_preserve {S} (I : S → Prop) descs parameters :
  preserves I (options_or_exit (S := S) descs parameters).
Proof.
  unfold options_or_exit. apply preserves_bind; [apply preserves_lift|].
  intros [vals|]; [apply preserves_ret|apply preserves_fail].
Qed.

Ltac no_thread_tac := first
  [ apply options_preserve | apply initialize_endpoint_no_thread | apply send_measure_no_thread
  | by apply zoom_preserves | apply preserves_read ].

(** Without the thread the destructor does not return. *)
Lemma dtor_without_thread {X} (t : transceiver X) u : no_thread t → (transceiver_dtor t).1 ≠ Ret u.
Proof.
  intros Ht. unfold transceiver_dtor, delete_dispatcher. mrun.
  destruct (dispatcher t) as [c|]; simpl; [|by rewrite Ht].
  destruct (client_dtor c) as [[]]; simpl; by rewrite ?Ht.
Qed.

(** A unit whose initialisation throws, at any point, cannot be unloaded: its
    request server was never started, and its destructor joins that thread, so
    the destructor throws or ends the program. A unit that has been initialised
    can be destroyed whenever its dispatcher's socket can be closed. *)
Theorem failed_initialisation parameters :
  let r := trx_initialize_parameters parameters trx_circuit_ctor in
  (∀ e, r.1 = Throw e → requestThread r.2 = false ∧ ∀ u, (transceiver_dtor r.2).1 ≠ Ret u)
  ∧ (r.1 = Ret tt → ∀ c c', dispatcher r.2 = Some c → client_dtor c = (Ret tt, c') →
     ∃ t', transceiver_dtor r.2 = (Ret tt, t')).
Proof.
  intros r.
  assert (throws_without_thread (trx_initialize_parameters parameters)) as Hthrow.
  { unfold trx_initialize_parameters, initialize_listening.
    repeat lazymatch goal with
           | |- throws_without_thread (bind _ _) => apply throws_bind; [no_thread_tac|intros ?]
           end.
    apply start_throws. }
  assert (returns_with_thread (trx_initialize_parameters parameters)) as Hret.
  { unfold trx_initialize_parameters, initialize_listening.
    repeat lazymatch goal with
           | |- returns_with_thread (bind _ _) => apply returns_bind; intros ?
           end.
    apply start_returns. }
  specialize (Hthrow trx_circuit_ctor eq_refl). specialize (Hret trx_circuit_ctor).
  fold r in Hthrow, Hret. destruct r as [o t]. simpl in *. split.
  - intros e ->. split; [done|]. intros u. by apply dtor_without_thread.
  - intros -> c c' Hd Hc. unfold transceiver_dtor, delete_dispatcher. mrun. rewrite Hd. simpl. rewrite Hc.
    simpl. rewrite Hret. simpl. by eexists.
Qed.
End initialisation.
End transceiver.

Arguments transceiver {_} X.

(** ** Witnesses *)

(** [inet_aton] on dotted quads, and one file. *)
Definition dotted_quad (s : list ascii) : option Z :=
  match parse_ip (string_of_list_ascii s) with
  | Ret n => Some (htonl n)
  | _ => None
  end.

Lemma dotted_quad_bounds s n : dotted_quad s = Some n → (0 <= n < 2 ^ 32)%Z.
Proof.
  unfold dotted_quad. destruct (parse_ip _) as [m| |]; [|done..]. intros [= <-]. unfold htonl.
  pose proof (le_value_bounds (rev (le_bytes 4 (wrap 32 m)))
    (Forall_rev (le_bytes_byte 4 (wrap 32 m)))) as Hb.
  rewrite length_rev, le_bytes_length in Hb. exact Hb.
Qed.

Definition os_with (file : option (list Z)) : OS := {|
  inet_aton := dotted_quad;
  open_file _ := file;
  inet_aton_bounds := dotted_quad_bounds;
|}.

#[local] Instance sample_os : OS := os_with None.
#[local] Instance sample_net : TCP := stream_tcp_from (replicate 8 0%Z).
#[local] Instance sample_boost : BoostOptions :=
  constant_options (<["e" := StringOpt "nowhere"]> {["td" := StringOpt "tcp://sim:5555"]}).

Definition dispatcher_client (replies : list (option (list ascii))) : client :=
  Client (chars "tcp://sim:5555" ++ replicate 114 NUL) (Scripted replies true []).

(** A transceiver with some messages on their way. *)
Definition sample_trx (inb : list (option (list ascii))) (replies : list (option (list ascii))) :
    transceiver () :=
  Transceiver false false false None None false (Some (dispatcher_client replies))
    (Scripted inb true []) 7 0 tt.

Lemma endpoint_spec_witness :
  (∃ t', initialize_endpoint "10.0.0.1:5000" "tcp://sim:5555" (sample_trx [] []) = (Ret tt, t')
     ∧ work_endpoint t' = (Ret (167772161, 5000)%Z, t'))
  ∧ initialize_endpoint "10.0.0.1" "tcp://sim:5555" (sample_trx [] [])
    = (Throw (invalid_argument "malformed input"), sample_trx [] []).
Proof.
  destruct (endpoint_spec (sample_trx [] []) "10.0.0.1:5000" "tcp://sim:5555" (chars "10.0.0.1")
    (chars "5000") 16777226 (chars "5000") (dispatcher_client [])) as (H1 & _ & _ & H4);
    [reflexivity|reflexivity|apply (bool_decide_unpack _); vm_compute; exact I|discriminate
    |discriminate|reflexivity|].
  split.
  - destruct H1 as (t' & Hi & _ & _ & Hw & _);
      [reflexivity|reflexivity|apply (bool_decide_unpack _); vm_compute; exact I|vm_compute; discriminate|].
    exists t'. split; [exact Hi|]. rewrite Hw. vm_compute. reflexivity.
  - apply H4. left. apply (bool_decide_unpack _). vm_compute. exact I.
Defined.

Definition no_error_reply : list ascii :=
  Write (ObjectValue [(chars "error", BoolValue false)]) ++ [NUL].
Definition an_error_reply : list ascii :=
  Write (ObjectValue [(chars "error", BoolValue true)]) ++ [NUL].

Lemma sample_peer_answers : peer_answers 16777226 (wrap 16 5000).
Proof.
  unfold peer_answers. eexists _, _. split_and!; [reflexivity|reflexivity|reflexivity|reflexivity].
Qed.

Lemma transmit_push_witness :
  (proc_act_push "chpext"
     (client_request PUSH "tx" [NumValue 16777226; NumValue 5000; StringValue (chars "31")])
     (sample_trx [] [Some no_error_reply; Some an_error_reply])).1 = Ret false.
Proof.
  destruct (transmit_push (sample_trx [] [Some no_error_reply; Some an_error_reply])
    (dispatcher_client [Some no_error_reply; Some an_error_reply]) "chpext" PUSH "tx"
    [NumValue 16777226; NumValue 5000; StringValue (chars "31")] 16777226 5000 (chars "31"))
    as (H & _); [apply (bool_decide_unpack _); vm_compute; exact I|reflexivity..
    |lia|lia|reflexivity|exact sample_peer_answers|].
  rewrite (H eq_refl). vm_compute. reflexivity.
Defined.

Definition waiting_trx : transceiver () := (trx_process (trx_process (sample_trx
  [Some (chars "1234"); Some (chars "01")] [])).2).2.

Lemma transceiver_protocol_witness :
  isReceiving waiting_trx = true
  ∧ ∃ t1 h1 b1 t2,
      async_work (AsyncEnv waiting_trx ∅ queue_buffer_init) = (Ret tt, AsyncEnv t1 h1 b1)
      ∧ process_resume t1 = (Ret Done, t2) ∧ isReceiving t2 = false.
Proof.
  assert (rtc (comm_step (B := queue_buffer) (ret tt))
    (sample_trx [Some (chars "1234"); Some (chars "01")] [], false) (waiting_trx, true)) as Hsteps.
  { eapply rtc_l; [apply (cs_process _ Done); reflexivity|].
    apply rtc_once. apply (cs_process _ Waiting). reflexivity. }
  destruct (transceiver_protocol (B := queue_buffer) (ret tt)
    (sample_trx [Some (chars "1234"); Some (chars "01")] []) waiting_trx true)
    as (_ & _ & H3 & _ & H5 & _); [repeat split|reflexivity|reflexivity|exact Hsteps|].
  split; [exact (H3 eq_refl)|].
  destruct (H5 eq_refl (chars "1234") (Some (chars "01")) (Scripted [Some (chars "01")] true [])
    (Scripted [] true []) ∅ queue_buffer_init) as (t1 & h1 & b1 & t2 & Ha & _ & Hp & Hi & _);
    [constructor; reflexivity|reflexivity|reflexivity|].
  exists t1, h1, b1, t2. exact (conj Ha (conj Hp Hi)).
Defined.

Lemma failed_initialisation_witness :
  let r := trx_initialize_parameters "" trx_circuit_ctor in
  r.1 = Throw (invalid_argument "malformed input") ∧ (transceiver_dtor r.2).1 ≠ Ret tt.
Proof.
  destruct (failed_initialisation "") as [H _].
  split; [reflexivity|]. apply (H (invalid_argument err_msg._malinpt)). reflexivity.
Defined.
