(* ===== verification/Connections.v ===== *)
(** * The connections of [transmit] (itrx_proc_unit.hpp, net/tcp_client.hpp)

    [Transceiver] describes a transmission with the client of [NetMessages],
    whose mutex is a flag. Here the same functions use the class as it is, with
    the mutex on the heap: the local variable of [open_connection], which the
    compiler constructs in the caller's place, the connection of [transmit],
    destroyed on every way out of the loop's body, and the heap they share with
    every other client. *)

From S2P Require Import Prelude NetMessages TcpClient.
From S2P Require Import Json Zmq Simulation ProcUnit Transceiver.

Section connections.
Context `{TCPAddress}.
Abbreviation mutexes := (gmap nat bool).
Abbreviation connection := (mutexes * TcpClient.client)%type.

(** ** [open_connection] and [close_connection] *)

(** The local variable is the returned object: it is destroyed only if an
    exception leaves the function. *)
Definition open_client (ip port : Z) : M mutexes TcpClient.client := λ mx,
  match TcpClient.client_ctor ip port mx with
  | (Ret c, mx1) =>
      let r := (client_write (request_init 0 1 0) ;; client_read (I := NetMessages.response)) (mx1, c) in
      match r.1 with
      | Ret _ => (Ret r.2.2, r.2.1)
      | Throw e => let d := TcpClient.client_dtor r.2 in (out_bind d.1 (λ _, Throw e), d.2.1)
      | Fatal f => (Fatal f, r.2.1)
      end
  | (Throw e, mx1) => (Throw e, mx1)
  | (Fatal f, mx1) => (Fatal f, mx1)
  end.

(** [return connection;] as the language allows it, too: the result is moved out
    of the local variable, which is then destroyed. *)
Definition open_client_moved (ip port : Z) : M mutexes TcpClient.client := λ mx,
  match open_client ip port mx with
  | (Ret c, mx1) =>
      let m := TcpClient.client_move c in
      let d := TcpClient.client_dtor (mx1, m.2) in (out_bind d.1 (λ _, Ret m.1), d.2.1)
  | r => r
  end.

Definition close_client : M connection () :=
  client_write (request_init 0 2 0) ;;
  client_read (I := NetMessages.response) ;;
  ret tt.

(** ** What the client of [NetMessages] knows of them

    A connection in use: a mutex of its own, free, and the other mutexes. *)
Definition held (mx : mutexes) (p : nat) (sk : Tcp) : connection :=
  (<[p := false]> mx, TcpClient.Client sk (Some p)).

(** [m] does on the class what [v] does on the abstract client. *)
Definition simulates {A} (m : M connection A) (v : M tcp_client A) : Prop :=
  ∀ mx p sk, let r := m (held mx p sk) in let x := v (TcpClient sk (Some false)) in
    r.1 = x.1 ∧ ((∀ f, x.1 ≠ Fatal f) → ∃ sk', r.2 = held mx p sk' ∧ x.2 = TcpClient sk' (Some false)).

Lemma simulates_ret {A} (a : A) : simulates (ret a) (ret a).
Proof. intros mx p sk. split; [done|]. intros _. by exists sk. Qed.

Lemma simulates_bind {A B} (m : M connection A) v (k : A → M connection B) h :
  simulates m v → (∀ a, simulates (k a) (h a)) → simulates (bind m k) (bind v h).
Proof.
  intros Hm Hk mx p sk. destruct (Hm mx p sk) as [Ho Hs]. unfold bind.
  destruct (m (held mx p sk)) as [o s], (v (TcpClient sk (Some false))) as [x c]. simpl in *. subst o.
  destruct x as [a|e|f]; simpl.
  - destruct (Hs ltac:(discriminate)) as (sk' & -> & ->). apply Hk.
  - split; [done|]. intros _. by apply Hs.
  - split; [done|]. intros Hf. by destruct (Hf f).
Qed.

Lemma simulates_locked {A} (body : M Tcp A) : simulates (client_locked body) (locked body).
Proof.
  intros mx p sk. unfold client_locked, locked, held, zoom. simpl. rewrite lookup_insert_eq. simpl.
  destruct (body sk) as [[a|e|f] sk']; simpl; (split; [done|]); intros Hf; [..|by destruct (Hf f)];
    exists sk'; by rewrite insert_insert_eq.
Qed.

Lemma simulates_close : simulates close_client close_connection.
Proof.
  apply simulates_bind; [apply simulates_locked|]. intros _.
  apply simulates_bind; [apply simulates_locked|]. intros _. apply simulates_ret.
Qed.

(** Destroying a connection frees its mutex and no other. *)
Lemma held_dtor mx p sk :
  mx !! p = None →
  let d := TcpClient.client_dtor (held mx p sk) in
  d.1 = destroy_connection (TcpClient sk (Some false)) ∧ d.2.1 = mx.
Proof.
  intros Hp. unfold TcpClient.client_dtor, held, destroy_connection. simpl. rewrite lookup_insert_eq. simpl.
  by rewrite delete_insert_id.
Qed.

Lemma destroy_not_thrown c e : destroy_connection c ≠ Throw e.
Proof. unfold destroy_connection, base_dtor. by destruct ((tcp_shutdown;; tcp_close) _) as [[]]. Qed.

Lemma open_client_eq ip port mx :
  match open_connection ip port with
  | Ret c => ∃ p sk, mx !! p = None ∧ c = TcpClient sk (Some false)
      ∧ open_client ip port mx = (Ret (TcpClient.Client sk (Some p)), <[p := false]> mx)
  | Throw e => open_client ip port mx = (Throw e, mx)
  | Fatal f => (open_client ip port mx).1 = Fatal f
  end.
Proof.
  unfold open_connection, open_client, TcpClient.client_ctor, new_mutex, tcp_client_ctor.
  destruct (base_ctor ip port) as [sk|e|f]; [|done..]. cbn [out_bind].
  set (p := fresh _). assert (mx !! p = None) as Hp by (apply not_elem_of_dom, is_fresh). clearbody p.
  assert (simulates
    (client_write (request_init 0 1 0) ;; client_read (I := NetMessages.response))
    (write_message (request_init 0 1 0) ;; read_message (I := NetMessages.response))) as Hsim.
  { apply simulates_bind; [apply simulates_locked|]. intros _. apply simulates_locked. }
  destruct (Hsim mx p sk) as [Ho Hs].
  change (held mx p sk) with (<[p := false]> mx, TcpClient.Client sk (Some p)) in Ho, Hs.
  destruct ((client_write _ ;; _) _) as [o s] in Ho, Hs |- *.
  destruct ((write_message _ ;; _) _) as [x c] in Ho, Hs |- *. simpl in *. subst o.
  destruct x as [a|e|f]; [| |done].
  - destruct (Hs ltac:(discriminate)) as (sk' & -> & ->). by exists p, sk'.
  - destruct (Hs ltac:(discriminate)) as (sk' & -> & ->).
    destruct (held_dtor mx p sk' Hp) as [-> ->].
    destruct (destroy_connection _) as [[]|e'|f] eqn:Hd; [done|by apply destroy_not_thrown in Hd|done].
Qed.

(** ** [transmit] *)

Section transmit.
Context `{RapidJSON} `{ZMQ} `{BoostOptions} `{BoostEndian} `{OS} {X : Type}.
Implicit Types t : transceiver X.

(** The unit and the heap. *)
Abbreviation unit_heap := (transceiver X * mutexes)%type.

(** [auto connection = open_connection(ip, port)] in the body of the loop. *)
Definition automatic_client {A} (c : TcpClient.client) (block : M (transceiver X * connection) A) :
    M unit_heap A := λ s,
  let r := block (s.1, (s.2, c)) in
  match r.1 with
  | Fatal f => (Fatal f, (r.2.1, r.2.2.1))
  | o => let d := TcpClient.client_dtor r.2.2 in (out_bind d.1 (λ _, o), (r.2.1, d.2.1))
  end.

Definition heap_transmit_char (language : string) (ip port : Z) (ch : ascii) : M unit_heap bool :=
  c <- zoom l_snd (open_client ip port) ;;
  automatic_client c (send_circuit close_client language ch).

Fixpoint heap_transmit (language : string) (ip port : Z) (buf : list ascii) : M unit_heap bool :=
  match buf with
  | [] => ret true
  | ch :: buf' =>
      ok <- heap_transmit_char language ip port ch ;;
      if ok : bool then heap_transmit language ip port buf' else ret false
  end.

(** The outcome and the unit of the transmission without the heap, and the heap
    as it was unless the program has ended. *)
Definition frees {A} (r : outcome A * unit_heap) (v : outcome A * transceiver X) (mx : mutexes) : Prop :=
  r.1 = v.1 ∧ r.2.1 = v.2 ∧ ((∀ f, v.1 ≠ Fatal f) → r.2.2 = mx).

Lemma frees_bind {A B} (m : M unit_heap A) (v : M (transceiver X) A) (k : A → M unit_heap B) h t mx :
  frees (m (t, mx)) (v t) mx → (∀ a t', frees (k a (t', mx)) (h a t') mx) →
  frees (bind m k (t, mx)) (bind v h t) mx.
Proof.
  unfold frees, bind. destruct (m (t, mx)) as [o [t1 mx1]], (v t) as [x t2]. simpl.
  intros (-> & -> & Hmx) Hk. destruct x as [a|e|f]; simpl.
  - rewrite (Hmx ltac:(discriminate)). apply Hk.
  - split_and!; [done..|]. intros _. apply Hmx. discriminate.
  - split_and!; [done..|]. intros Hf. by destruct (Hf f).
Qed.

Lemma send_circuit_simulates language ch t mx p sk :
  let r := send_circuit close_client language ch (t, held mx p sk) in
  let x := send_circuit close_connection language ch (t, TcpClient sk (Some false)) in
  r.1 = x.1 ∧ r.2.1 = x.2.1
  ∧ ((∀ f, x.1 ≠ Fatal f) → ∃ sk', r.2.2 = held mx p sk' ∧ x.2.2 = TcpClient sk' (Some false)).
Proof.
  destruct (dispatcher t) as [c|] eqn:Hc; cbv zeta.
  - rewrite !(send_circuit_eq _ _ _ _ c) by done. cbv zeta.
    destruct (exchange _ c) as [[rsp|e|f] c']; cbn [fst snd]; [|by eauto..].
    destruct (simulates_close mx p sk) as [Ho Hs].
    destruct (close_client _) as [o k], (close_connection _) as [x k']. simpl in Ho, Hs |- *. subst o.
    split_and!; [done..|]. intros Hf. apply Hs. intros f ->. by apply (Hf f).
  - assert (∀ (K : Type) (close : M K ()) k,
      send_circuit close language ch (t, k) = (Fatal Undefined, (t, k))) as Heq.
    { intros K close k. unfold send_circuit. erewrite bind_Ret by reflexivity.
      erewrite bind_Ret by (unfold lift; by rewrite tx_request_eq).
      apply bind_Fatal. unfold zoom, call_through. mrun. by rewrite Hc. }
    rewrite !Heq. split_and!; [done..|]. intros Hf. by destruct (Hf Undefined).
Qed.

Lemma heap_transmit_char_frees language ip port ch t mx :
  frees (heap_transmit_char language ip port ch (t, mx)) (transmit_char language ip port ch t) mx.
Proof.
  assert (heap_transmit_char language ip port ch (t, mx) =
    match open_client ip port mx with
    | (Ret c, mx1) => automatic_client c (send_circuit close_client language ch) (t, mx1)
    | (Throw e, mx1) => (Throw e, (t, mx1))
    | (Fatal f, mx1) => (Fatal f, (t, mx1))
    end) as ->.
  { unfold heap_transmit_char, bind, zoom. simpl. by destruct (open_client ip port mx) as [[]]. }
  unfold frees, transmit_char, bind, lift.
  pose proof (open_client_eq ip port mx) as Ho. destruct (open_connection ip port) as [c|e|f].
  - destruct Ho as (p & sk & Hp & -> & ->). simpl. unfold automatic_client, automatic. simpl.
    destruct (send_circuit_simulates language ch t mx p sk) as (Hr & Ht & Hs).
    change (<[p := false]> mx, TcpClient.Client sk (Some p)) with (held mx p sk).
    destruct (send_circuit close_client _ _ _) as [o [t1 k1]], (send_circuit close_connection _ _ _) as [x [t2 k2]].
    cbn [fst snd] in *. subst o t2.
    assert ((∀ f, x ≠ Fatal f) → let d := TcpClient.client_dtor k1 in
      d.1 = destroy_connection k2 ∧ d.2.1 = mx) as Hd.
    { intros Hf. destruct (Hs Hf) as (sk' & -> & ->). by apply held_dtor. }
    destruct x as [b|e|f]; cbn [fst snd].
    + destruct Hd as [-> ->]; [discriminate|]. done.
    + destruct Hd as [-> ->]; [discriminate|]. done.
    + split_and!; [done..|]. intros Hf. by destruct (Hf f).
  - by rewrite Ho.
  - destruct (open_client ip port mx) as [o mx1]. cbn [fst snd] in *. subst o. cbn [fst snd].
    split_and!; [done..|]. intros Hf. by destruct (Hf f).
Qed.

Lemma heap_transmit_frees language ip port buf t mx :
  frees (heap_transmit language ip port buf (t, mx)) (transmit language ip port buf t) mx.
Proof.
  revert t. induction buf as [|ch buf IH]; intros t; [done|].
  apply frees_bind; [apply heap_transmit_char_frees|]. intros [] t'; [apply IH|done].
Qed.
End transmit.

(** ** Properties *)

(** C27. Transmitting with real clients. The outcome and the unit are those of the
    transmission described in [Transceiver], whose connections know nothing of
    the heap; and unless the program has ended, the heap is as it was: each
    connection's mutex has been freed once, on every way out of the loop, by
    exception or by return, and no other mutex was touched. This depends on the
    object being constructed in the caller's place: if [open_connection] moved
    its local variable out, no connection could be opened, since destroying what
    is left of it would end the program. *)
Theorem transmit_frees `{RapidJSON} `{ZMQ} `{BoostOptions} `{BoostEndian} `{OS} {X}
    language ip port buf (t : transceiver X) mx :
  let r := heap_transmit language ip port buf (t, mx) in
  let v := transmit language ip port buf t in
  r.1 = v.1 ∧ r.2.1 = v.2 ∧ ((∀ f, v.1 ≠ Fatal f) → r.2.2 = mx)
  ∧ (∀ c, open_connection ip port = Ret c → (open_client_moved ip port mx).1 = Fatal Terminate)
  ∧ ∀ c, (open_client_moved ip port mx).1 ≠ Ret c.
Proof.
  intros r v. destruct (heap_transmit_frees language ip port buf t mx) as (Ho & Ht & Hm).
  do 3 (split; [done|]). unfold open_client_moved. pose proof (open_client_eq ip port mx) as Hopen.
  assert (∀ mx1 sk p, (TcpClient.client_dtor (mx1, (TcpClient.client_move (TcpClient.Client sk p)).2)).1
    = Fatal Terminate) as Hleft.
  { intros mx1 sk p0. unfold TcpClient.client_dtor, TcpClient.client_move, base_move. simpl.
    destruct shutdown_moved as (what & s & Hs). unfold base_dtor. by rewrite (bind_Throw _ _ _ _ _ Hs). }
  destruct (open_connection ip port) as [c|e|f].
  - destruct Hopen as (p & sk & _ & _ & ->). cbv beta iota zeta. rewrite Hleft. by split.
  - rewrite Hopen. by split.
  - destruct (open_client ip port mx) as [o mx1]. simpl in Hopen. subst o. by split.
Qed.
End connections.

(** ** Witness

    A peer that answers the first request and then goes away. *)
#[local] Existing Instance peer_tcp.
#[local] Existing Instance peer_addresses.
#[local] Existing Instance sample_os.
#[local] Existing Instance sample_boost.

Lemma transmit_frees_witness :
  let mx : gmap nat bool := {[0 := true]} in
  heap_transmit "chpext" 2130706433 5000 (chars "1") (sample_trx [] [Some no_error_reply], mx)
    = (Throw (runtime_error "End of file"),
       ((transmit "chpext" 2130706433 5000 (chars "1") (sample_trx [] [Some no_error_reply])).2, mx))
  ∧ (open_client_moved 2130706433 5000 mx).1 = Fatal Terminate.
Proof.
  intros mx.
  destruct (transmit_frees "chpext" 2130706433 5000 (chars "1") (sample_trx [] [Some no_error_reply]) mx)
    as (Ho & Ht & Hm & Hmoved & _).
  assert ((transmit "chpext" 2130706433 5000 (chars "1") (sample_trx [] [Some no_error_reply])).1
    = Throw (runtime_error "End of file")) as Hv by (vm_compute; reflexivity).
  rewrite Hv in Ho, Hm. split.
  - specialize (Hm ltac:(discriminate)). destruct (heap_transmit _ _ _ _ _) as [o [u h]].
    cbn [fst snd] in *. rewrite Ho, Ht, Hm. reflexivity.
  - eapply Hmoved. reflexivity.
Defined.
