(* ===== verification/Bobwire.v ===== *)
(** * The transceiver that measures in recorded bases (module/brazil/proc_unit/
    bobwire_circuit.hpp, bobwire_circuit.cpp)

    A [transceiver] with a file of bases. The file is a standard input stream:
    its contents, position and state bits. *)

From S2P Require Import Prelude NetMessages Actions BufferItem QueueBuffer Json.
From S2P Require Import MiddlewareMessages Zmq Simulation CString ProcUnit Transceiver.

(** ** [std::ifstream] in binary mode *)

Record ifstream := IFStream {
  contents : list Z;
  position : nat;
  eofbit : bool;
  failbit : bool;
}.

(** [get(c)]: nothing is extracted when a state bit is set. The value is
    converted to [char], which is signed. *)
Definition stream_get : M ifstream (option Z) := λ f,
  if eofbit f || failbit f then
    (Ret None, IFStream (contents f) (position f) (eofbit f) true)
  else
    match contents f !! position f with
    | Some b => (Ret (Some (swrap 8 b)), IFStream (contents f) (S (position f)) false false)
    | None => (Ret None, IFStream (contents f) (position f) true true)
    end.

(** [seekg(0, beg)]: the end-of-file bit is cleared first; a stream that has
    failed is not moved. *)
Definition stream_seekg_begin : M ifstream () := λ f,
  if failbit f then (Ret tt, IFStream (contents f) (position f) false true)
  else (Ret tt, IFStream (contents f) 0 false false).

Section bobwire.
Context `{RapidJSON} `{ZMQ} `{BoostOptions} `{TCP} `{BoostEndian} `{OS}.

(** The members that are not in [transceiver]; a stream that is not open has
    failed. *)
Record bases := Bases {
  basesFile : ifstream;
  basisByte : Z;
  basisBytePos : Z;
}.

Definition l_basesFile : lens bases ifstream := Lens basesFile
  (λ x b, Bases x (basisByte b) (basisBytePos b)).
Definition l_basisByte : lens bases Z := Lens basisByte
  (λ x b, Bases (basesFile b) x (basisBytePos b)).
Definition l_basisBytePos : lens bases Z := Lens basisBytePos
  (λ x b, Bases (basesFile b) (basisByte b) x).

Definition bobwire_circuit_ctor : transceiver bases :=
  transceiver_ctor (Bases (IFStream [] 0 false true) 0 0).
Definition bobwire_initialize : outcome (transceiver bases) := Ret bobwire_circuit_ctor.

(** The jump back to [bfread], at most [fuel] times. *)
Fixpoint read_basis_byte (fuel : nat) : M bases () :=
  match fuel with
  | O => fail Deadlock
  | S fuel' =>
      c <- zoom l_basesFile stream_get ;;
      match c with
      | Some b => assign l_basisByte b
      | None =>
          f <- read l_basesFile ;;
          (if eofbit f then zoom l_basesFile stream_seekg_begin
           else throw (runtime_error "IO ERROR")) ;;
          read_basis_byte fuel'
      end
  end.

Definition get_next_basis : M bases Z :=
  pos <- read l_basisBytePos ;;
  (if decide (pos = 7%Z) then read_basis_byte 2 else ret tt) ;;
  pos <- read l_basisBytePos ;;
  assign l_basisBytePos (wrap 64 (pos + 1)) ;;
  b <- read l_basisByte ;;
  assign l_basisByte (Z.shiftr b 1) ;;
  b <- read l_basisByte ;;
  ret (Z.land b 1).

(** ** The unit *)

Definition bobwire_options : list opt_desc :=
  [OptDesc "b" OptString true; OptDesc "e" OptString true; OptDesc "rd" OptString true;
   OptDesc "td" OptString true].

Definition bobwire_initialize_parameters (parameters : string) : M (transceiver bases) () :=
  vals <- options_or_exit bobwire_options parameters ;;
  let basesLocation := opt_string vals "b" "" in
  (match open_file basesLocation with
   | Some bytes => assign (lens_comp l_extra l_basesFile) (IFStream bytes 0 false false)
   | None => throw (invalid_argument ("Could not open bases file: " +:+ basesLocation))
   end) ;;
  initialize_endpoint (opt_string vals "e" "") (opt_string vals "td" "") ;;
  initialize_listening (opt_string vals "rd" "").

Definition BOBWIRE_LANGUAGE : string := "chexp".

Definition bobwire_proc_act_request (r : request) : M (transceiver bases) (option response) :=
  method <- lift (method r) ;;
  if strcmp_eq method "configure_detector" then throw (logic_error "unimplemented")
  else throw (logic_error err_msg._unrchcd).

(** The measurement of a basis. *)
Definition basisChange (basis : Z) : string :=
  (if decide (basis = 1%Z) then "h 0" +:+ String "010" ("h 1" +:+ String "010" "") else "")
  +:+ "m 0" +:+ String "010" ("m 1" +:+ String "010" "").

(** What [process] does when a communication begins. *)
Definition bobwire_prepare : M (transceiver bases) () :=
  basis <- zoom l_extra get_next_basis ;;
  a <- read l_nIP ;;
  rq <- lift (configure_node a "chpext" (basisChange basis)) ;;
  call_through l_dispatcher rq ;;
  ret tt.

Definition bobwire_process : M (transceiver bases) progress := process bobwire_prepare.

(** The members whose text is that of [trx_circuit]'s: the loop of [transmit] with
    another language, [async_work], the destructor, and the start of the request
    server. *)
Definition bobwire_transmit : Z → Z → list ascii → M (transceiver bases) bool := transmit BOBWIRE_LANGUAGE.
Definition bobwire_async_work {B} `{AsyncBuffer B} : M (async_env (transceiver bases) B) () := async_work.
Definition bobwire_dtor : M (transceiver bases) () := transceiver_dtor.
Definition bobwire_start_request_listening : M (transceiver bases) () := start_request_listening.
Definition bobwire_work_endpoint : M (transceiver bases) (Z * Z) := work_endpoint.

#[export] Instance bobwire_circuit : ProcUnit (transceiver bases) := {|
  pu_string_initialize_parameters := bobwire_initialize_parameters;
  pu_async_work B HB := bobwire_async_work;
  pu_proc_act_request := bobwire_proc_act_request;
  pu_proc_act_push := proc_act_push BOBWIRE_LANGUAGE;
  pu_dtor := bobwire_dtor;
|}.

#[export] Instance bobwire_safe : ProcUnitSafe (transceiver bases).
Proof. split. intros B HB e He. by apply async_work_safe. Qed.

(** Preparing does not touch the protocol's flags, however it ends. *)
Lemma bobwire_prepare_ok : prepare_ok bobwire_prepare.
Proof.
  intros t. unfold bobwire_prepare, call_through, bind, zoom, read, gets, lift, ret, assign, modify.
  simpl. destruct (get_next_basis (extra t)) as [[basis| |] x]; simpl; [|done..].
  destruct (configure_node _ _ _) as [rq| |]; simpl; [|done..].
  destruct (dispatcher t) as [c|]; simpl; [|done].
  by destruct (client_call rq c) as [[]].
Qed.

(** ** The sequence of bases *)

(** A byte as a signed [char]. *)
Definition signed_byte (b : Z) : Z := swrap 8 b.

(** The first [n] bases. *)
Fixpoint take_bases (n : nat) : M bases (list Z) :=
  match n with
  | O => ret []
  | S n' => x <- get_next_basis ;; xs <- take_bases n' ;; ret (x :: xs)
  end.

Definition fresh_bases (bytes : list Z) : bases := Bases (IFStream bytes 0 false false) 0 0.

Lemma get_next_basis_eq f b pos :
  (0 <= pos < 2 ^ 64 - 1)%Z → pos ≠ 7%Z →
  get_next_basis (Bases f b pos)
  = (Ret (Z.land (Z.shiftr b 1) 1), Bases f (Z.shiftr b 1) (pos + 1)).
Proof.
  intros Hpos Hne. unfold get_next_basis. mrun. rewrite decide_False by done. simpl.
  by rewrite wrap_small by lia.
Qed.

Lemma get_next_basis_read bytes b0 rest b :
  bytes = b0 :: rest →
  get_next_basis (Bases (IFStream bytes 0 false false) b 7)
  = (Ret (Z.land (Z.shiftr (signed_byte b0) 1) 1),
     Bases (IFStream bytes 1 false false) (Z.shiftr (signed_byte b0) 1) 8).
Proof. by intros ->. Qed.

Lemma land_1_testbit b n : (0 <= n)%Z → Z.land (Z.shiftr b n) 1 = if Z.testbit b n then 1%Z else 0%Z.
Proof.
  intros Hn. rewrite (Z.land_ones _ 1) by lia. rewrite <-Z.bit0_mod, Z.shiftr_spec, Z.add_0_l by lia.
  by destruct (Z.testbit b n).
Qed.

Definition bit (b i : Z) : Z := if Z.testbit b i then 1%Z else 0%Z.

Lemma shifted_bit b k : (0 <= k)%Z → Z.land (Z.shiftr (Z.shiftr b k) 1) 1 = bit b (k + 1).
Proof. intros Hk. rewrite Z.shiftr_shiftr by lia. by apply land_1_testbit; lia. Qed.

(** From the read on. *)
Lemma take_bases_after f b k pos n :
  (0 <= k)%Z → (8 <= pos)%Z → (pos + Z.of_nat n < 2 ^ 64 - 1)%Z →
  ∃ s', take_bases n (Bases f (Z.shiftr b k) pos)
  = (Ret ((λ i, bit b (k + Z.of_nat i)) <$> seq 1 n), s').
Proof.
  revert k pos. induction n as [|n IH]; intros k pos Hk Hp Hn; [by eexists|].
  destruct (IH (k + 1)%Z (pos + 1)%Z ltac:(lia) ltac:(lia) ltac:(lia)) as [s' Hs].
  exists s'. cbn [take_bases].
  rewrite (bind_Ret _ _ _ _ _ (get_next_basis_eq f (Z.shiftr b k) pos ltac:(lia) ltac:(lia))).
  rewrite shifted_bit, Z.shiftr_shiftr by lia. rewrite (bind_Ret _ _ _ _ _ Hs).
  unfold ret. cbn [seq]. rewrite fmap_cons. do 3 f_equal.
  rewrite <-(fmap_S_seq 1 n), <-list_fmap_compose. apply list_fmap_ext. intros i x _. simpl. f_equal. lia.
Qed.

(** Before the read, with the byte the constructor sets. *)
Lemma take_bases_before f pos n k :
  (0 <= pos)%Z → (pos + Z.of_nat n = 7)%Z →
  take_bases (n + k) (Bases f 0 pos)
  = (xs <- take_bases k ;; ret (replicate n 0%Z ++ xs)) (Bases f 0 7).
Proof.
  revert pos. induction n as [|n IH]; intros pos Hp Hn.
  - replace pos with 7%Z by lia. simpl. unfold bind, ret. by destruct (take_bases k _) as [[]].
  - cbn [take_bases plus].
    rewrite (bind_Ret _ _ _ _ _ (get_next_basis_eq f 0 pos ltac:(lia) ltac:(lia))).
    change (Z.shiftr 0 1) with 0%Z. unfold bind at 1. rewrite (IH (pos + 1)%Z) by lia.
    unfold bind, ret. by destruct (take_bases k _) as [[]].
Qed.

(** The bits of a byte as a signed [char]: the last one repeats. *)
Lemma signed_byte_bit b i :
  is_byte b → (0 <= i)%Z → bit (signed_byte b) i = bit b (Z.min i 7).
Proof.
  intros Hb Hi. unfold is_byte in Hb.
  assert (signed_byte b = if decide (b < 128)%Z then b else (b - 256)%Z) as Hs.
  { unfold signed_byte, swrap. rewrite wrap_small by lia. done. }
  assert (∀ j, (0 <= j < 8)%Z → Z.testbit (signed_byte b) j = Z.testbit b j) as Hlow.
  { intros j Hj. rewrite <-(Z.mod_pow2_bits_low (signed_byte b) 8 j) by lia.
    unfold signed_byte. fold (wrap 8 (swrap 8 b)). rewrite wrap_swrap by lia.
    by rewrite wrap_small by lia. }
  unfold bit. destruct (decide (i < 8)%Z).
  - rewrite Hlow by lia. replace (Z.min i 7) with i by lia. done.
  - replace (Z.min i 7) with 7%Z by lia. rewrite <-Hlow by lia.
    assert (∀ j, (7 <= j)%Z → Z.testbit (signed_byte b) j = bool_decide (signed_byte b < 0)%Z) as Hhigh.
    { intros j Hj. rewrite Z.testbit_odd, Z.shiftr_div_pow2 by lia.
      assert (2 ^ 7 <= 2 ^ j)%Z by (apply Z.pow_le_mono_r; lia). change (2 ^ 7)%Z with 128%Z in *.
      assert (-128 <= signed_byte b < 128)%Z by (rewrite Hs; case_decide; lia).
      case_bool_decide as Hneg.
      - replace (signed_byte b `div` 2 ^ j)%Z with (-1)%Z; [done|].
        apply (Z.div_unique_pos _ _ _ (signed_byte b + 2 ^ j)); lia.
      - by rewrite Z.div_small by lia. }
    by rewrite !Hhigh by lia.
Qed.

Lemma read_basis_byte_terminates s : (read_basis_byte 2 s).1 ≠ Fatal Deadlock.
Proof.
  destruct s as [[cs p e fl] b pos]. unfold read_basis_byte, stream_get, stream_seekg_begin. mrun.
  destruct e, fl; simpl; try done; try (destruct (cs !! p) eqn:E; simpl; done).
Qed.

(** C35. The bases the unit measures in: seven times 0, then bits 1, 2, ..., 7 of
    the first byte of the file, and from then on its bit 7 for ever; bit 0 and
    every other byte of the file are never used. With an empty file the eighth
    communication throws "IO ERROR". Reading a byte always ends: it never goes
    round its loop a third time. *)
Theorem bobwire_bases bytes n :
  Forall is_byte bytes → (Z.of_nat n < 2 ^ 62)%Z →
  (∀ b0 rest, bytes = b0 :: rest →
     ∃ s', take_bases (7 + n) (fresh_bases bytes)
       = (Ret (replicate 7 0%Z ++ ((λ i, bit b0 (Z.min (Z.of_nat i) 7)) <$> seq 1 n)), s'))
  ∧ (bytes = [] →
     (∃ s', take_bases 7 (fresh_bases bytes) = (Ret (replicate 7 0%Z), s'))
     ∧ ∃ s', take_bases 8 (fresh_bases bytes) = (Throw (runtime_error "IO ERROR"), s'))
  ∧ ∀ s, (read_basis_byte 2 s).1 ≠ Fatal Deadlock.
Proof.
  intros Hb Hn. split_and!; [| |apply read_basis_byte_terminates].
  - intros b0 rest Hcons. unfold fresh_bases. rewrite take_bases_before by lia.
    destruct n as [|n]; [by eexists|].
    destruct (take_bases_after (IFStream bytes 1 false false) (signed_byte b0) 1 8 n
      ltac:(lia) ltac:(lia) ltac:(lia)) as [s' Hs].
    exists s'. cbn [take_bases]. rewrite bind_assoc.
    rewrite (bind_Ret _ _ _ _ _ (get_next_basis_read bytes b0 rest 0 Hcons)).
    rewrite bind_assoc, (bind_Ret _ _ _ _ _ Hs). unfold bind, ret. cbn [seq]. rewrite fmap_cons.
    do 2 f_equal. subst bytes. inversion Hb as [|? ? Hb0 _]; subst.
    f_equal. f_equal.
    + change (Z.shiftr (signed_byte b0) 1) with (Z.shiftr (Z.shiftr (signed_byte b0) 0) 1).
      rewrite shifted_bit by lia. by rewrite signed_byte_bit by (done || lia).
    + rewrite <-(fmap_S_seq 1 n), <-list_fmap_compose. apply list_fmap_ext. intros i x _. simpl.
      rewrite signed_byte_bit by (done || lia). do 2 f_equal. lia.
  - intros ->. unfold fresh_bases. split.
    + rewrite (take_bases_before _ 0 7 0) by lia. by eexists.
    + rewrite (take_bases_before _ 0 7 1) by lia. by eexists.
Qed.
End bobwire.

Lemma bobwire_bases_witness :
  ∃ s', take_bases 16 (fresh_bases [165; 255]%Z)
    = (Ret [0; 0; 0; 0; 0; 0; 0; 0; 1; 0; 0; 1; 0; 1; 1; 1]%Z, s').
Proof.
  destruct (bobwire_bases [165; 255]%Z 9) as [H _]; [repeat constructor; lia|lia|].
  exact (H 165%Z [255]%Z eq_refl).
Defined.
