(* ===== verification/LccMessages.v ===== *)
(** * The detection board's messages and the crystal controllers' serial line
    (module/brazil/proc_unit/lcc_and_fpga.hpp)

    [lcc_and_fpga::response] owns an array of characters; [NetMessages.lcc] has
    it as the list of its bytes. Here it is with its pointer, on the heap of
    [BufferItem], and the theorem that ties the two together. Then
    [serial_connection], over a serial port of Boost.Asio's. *)

From S2P Require Import Prelude BufferItem NetMessages.

(** ** [lcc_and_fpga::request] *)

(** The moves copy the byte. *)
Definition request_move (old : lcc.request) : lcc.request * lcc.request :=
  (lcc.Request (memcpy [0%Z] (lcc._data old) 1), old).
Definition request_move_assign (self old : lcc.request) : lcc.request * lcc.request :=
  (lcc.Request (memcpy (lcc._data self) (lcc._data old) 1), old).

(** ** [lcc_and_fpga::response] *)

Record response := Response {
  _length : nat;
  _data : option loc;
}.

Definition response_ctor : response := Response 0 None.

(** Moves: the target and what is left of the source, whose length stays. *)
Definition response_move (old : response) : response * response :=
  (Response (_length old) (_data old), Response (_length old) None).
Definition response_move_assign (self old : response) : response * response :=
  (Response (_length old) (_data old), Response (_length old) None).

(** [if(_data != 0) delete[] _data;] *)
Definition release (r : response) : M heap () :=
  match _data r with
  | None => ret tt
  | Some l => delete_array (Some l)
  end.

Definition response_dtor (r : response) : M heap () := release r.

(** The contents of a new array are indeterminate; here they are zeros. *)
Definition allocate (length : nat) (r : response) : M heap response :=
  release r ;;
  l <- new_array (Chars (replicate length NUL)) ;;
  ret (Response length (Some l)).

(** Writing to and reading from [data()]. *)
Definition store_data (bs : list ascii) (r : response) : M heap () :=
  match _data r with
  | None => fail Undefined
  | Some l => cs <- load_chars l ;; modify (<[l := Chars (memcpy cs bs (length bs))]>)
  end.

Definition load_data (r : response) : M heap (list ascii) :=
  match _data r with
  | None => ret []
  | Some l => load_chars l
  end.

(** The life of a message in [process]: [read] makes it from the bytes the board
    has sent and returns it by move, its bytes are counted, it is destroyed. *)
Definition receive_response (bs : list ascii) : M heap (list ascii) :=
  message <- allocate (length bs) response_ctor ;;
  store_data bs message ;;
  let r := response_move message in
  response_dtor r.2 ;;
  cs <- load_data r.1 ;;
  response_dtor r.1 ;;
  ret cs.

(** A response that owns its array, and the value [NetMessages] has for it. *)
Definition owns_response (h : heap) (r : response) (cs : list ascii) : Prop :=
  match _data r with
  | None => cs = []
  | Some l => h !! l = Some (Chars cs) ∧ length cs = _length r
  end.

Definition char_value (c : ascii) : Z := Z.of_N (N_of_ascii c).

Definition response_value (r : response) (cs : list ascii) : lcc.response :=
  lcc.Response (_length r) (char_value <$> cs).

(** The heap without the array of a response. *)
Definition without (r : response) (h : heap) : heap :=
  match _data r with None => h | Some l => delete l h end.

Lemma release_eq h r cs : owns_response h r cs → release r h = (Ret tt, without r h).
Proof.
  unfold owns_response, release, without. destruct (_data r) as [l|]; [|done]. intros [Hl _].
  apply delete_array_Some. by rewrite Hl.
Qed.

Lemma allocate_eq n r h cs : owns_response h r cs →
  let l := fresh (dom (without r h)) in
  allocate n r h = (Ret (Response n (Some l)), <[l := Chars (replicate n NUL)]> (without r h)).
Proof. intros Ho l. unfold allocate. by rewrite (bind_Ret _ _ _ _ _ (release_eq h r cs Ho)). Qed.

Lemma char_values_zero n : char_value <$> replicate n NUL = replicate n 0%Z.
Proof. apply fmap_replicate. Qed.

(** C37. The board's messages on the heap. [allocate] frees the array the message had,
    and is [allocate] of [NetMessages] on the values; after a move the source
    and the target are destroyed in either order with one deletion of the array,
    though the source still gives its old length for no data; a message that
    is read, used and destroyed as [process] does leaves the heap as it was and
    is the bytes received. Move assignment, though, forgets the array of its
    target. *)
Theorem hardware_responses h r cs :
  owns_response h r cs →
  (∀ n, ∃ l h' cs', allocate n r h = (Ret (Response n (Some l)), h') ∧ h' = <[l := Chars cs']> (without r h)
     ∧ without r h !! l = None
     ∧ response_value (Response n (Some l)) cs' = lcc.allocate n (response_value r cs))
  ∧ (let m := response_move r in
     (response_dtor m.1 ;; response_dtor m.2) h = (Ret tt, without r h)
     ∧ (response_dtor m.2 ;; response_dtor m.1) h = (Ret tt, without r h)
     ∧ _length m.2 = _length r ∧ load_data m.2 h = (Ret [], h))
  ∧ (∀ bs, receive_response bs h = (Ret bs, h))
  ∧ (∀ self l cs', _data self = Some l → _data r ≠ Some l → owns_response h self cs' →
       let m := response_move_assign self r in
       ∃ h', (response_dtor m.1 ;; response_dtor m.2) h = (Ret tt, h') ∧ h' !! l = Some (Chars cs')).
Proof.
  intros Ho.
  assert (release (Response (_length r) (_data r)) = release r) as Hrel by (by destruct r).
  split_and!.
  - intros n. eexists _, _, _. split_and!; [by eapply allocate_eq|done| |].
    + apply not_elem_of_dom, is_fresh.
    + unfold response_value, lcc.allocate. cbn [_length]. f_equal. apply char_values_zero.
  - intros m. unfold m, response_dtor, response_move. cbn [fst snd]. rewrite Hrel. split_and!; try done.
    + by rewrite (bind_Ret _ _ _ _ _ (release_eq h r cs Ho)).
    + by rewrite (bind_Ret _ _ _ tt h), (release_eq h r cs Ho).
  - intros bs. unfold receive_response.
    rewrite (bind_Ret _ _ _ _ _ (allocate_eq (length bs) response_ctor h [] eq_refl)).
    unfold without. cbn [_data response_ctor]. set (l := fresh (dom h)).
    unfold store_data, load_data, load_chars, response_dtor, release, response_move. mrun.
    rewrite !lookup_insert_eq. mrun.
    rewrite memcpy_full by (rewrite ?length_replicate; done).
    rewrite insert_insert_eq, delete_insert_id by (apply not_elem_of_dom, is_fresh). done.
  - intros self l cs' Hl Hne Hs m. unfold m, response_dtor, response_move_assign. cbn [fst snd]. rewrite Hrel.
    rewrite (bind_Ret _ _ _ _ _ (release_eq h r cs Ho)). eexists. split; [done|].
    unfold owns_response in Hs. rewrite Hl in Hs. destruct Hs as [Hs _].
    unfold without. destruct (_data r) as [l'|]; [|done]. rewrite lookup_delete_ne by congruence. done.
Qed.

(** ** [serial_connection] *)

(** A serial port opened and set to a speed, or the exception. [serial_read]
    reads one character or answers whether the error is the end of the input;
    [serial_input] is what will be read, and [serial_ended] the error that comes
    when that is used up. *)
Class SerialPort := {
  Serial : Type;
  serial_open : string → Z → outcome Serial;
  serial_write : list ascii → M Serial ();
  serial_read : M Serial (ascii + bool);
  serial_input : Serial → list ascii;
  serial_ended : Serial → bool;
  serial_read_char s c rest : serial_input s = c :: rest →
    ∃ s', serial_read s = (Ret (inl c), s') ∧ serial_input s' = rest ∧ serial_ended s' = serial_ended s;
  serial_read_end s : serial_input s = [] →
    ∃ s', serial_read s = (Ret (inr (serial_ended s)), s') ∧ serial_input s' = []
        ∧ serial_ended s' = serial_ended s;
}.

Section serial_connection.
Context `{SerialPort}.

(** Constructor: the port is opened and the speed set. *)
Definition serial_connection_ctor (address : string) (baud : Z) : outcome Serial := serial_open address baud.

(** [write(str)]: without the terminator. *)
Definition write (str : string) : M Serial () := serial_write (chars str).

Definition CR : ascii := "013".

(** The loop of [dump], from the value of [c]; whether it ended at the end of the
    input, or [None] if it has not ended within [fuel] rounds. A failed read
    leaves [c] as it is. *)
Fixpoint dump_loop (fuel : nat) (c : ascii) : M Serial (option bool) :=
  match fuel with
  | O => ret None
  | S fuel' =>
      r <- serial_read ;;
      let c' := match r with inl x => x | inr _ => c end in
      let eof := match r with inl _ => false | inr e => e end in
      if decide (c' ≠ CR ∧ eof = false) then dump_loop fuel' c' else ret (Some eof)
  end.

(** [dump()]; [false] while it has not returned. The last read has no error code
    and throws instead. *)
Definition dump (fuel : nat) : M Serial bool :=
  r <- dump_loop fuel "0" ;;
  match r with
  | None => ret false
  | Some true => ret true
  | Some false =>
      r <- serial_read ;;
      match r with
      | inl _ => ret true
      | inr _ => throw (boost_error "read")
      end
  end.

Lemma dump_loop_line line rest s fuel c :
  CR ∉ line → c ≠ CR → serial_input s = line ++ rest →
  ∃ s' c', dump_loop (length line + fuel) c s = dump_loop fuel c' s' ∧ c' ≠ CR
    ∧ serial_input s' = rest ∧ serial_ended s' = serial_ended s.
Proof.
  revert s c. induction line as [|x line IH]; intros s c Hcr Hc Hin; [by exists s, c|].
  apply not_elem_of_cons in Hcr as [Hx Hcr].
  destruct (serial_read_char s x (line ++ rest) Hin) as (s1 & Hr & Hi1 & He1).
  destruct (IH s1 x Hcr (not_eq_sym Hx) Hi1) as (s2 & c2 & Hl & Hc2 & Hi2 & He2).
  exists s2, c2. split_and!; [|done|done|congruence]. simpl.
  rewrite (bind_Ret _ _ _ _ _ Hr). simpl. rewrite decide_True by (split; [congruence|done]). done.
Qed.

Lemma dump_loop_error fuel line s c :
  CR ∉ line → serial_input s = line → serial_ended s = false → c ≠ CR →
  ∃ s', dump_loop fuel c s = (Ret None, s').
Proof.
  revert line s c. induction fuel as [|fuel IH]; intros line s c Hcr Hin He Hc; [by exists s|].
  destruct line as [|x line]; simpl.
  - destruct (serial_read_end s Hin) as (s1 & Hr & Hi1 & He1). rewrite He in *.
    rewrite (bind_Ret _ _ _ _ _ Hr). simpl. rewrite decide_True by done. by apply (IH []).
  - apply not_elem_of_cons in Hcr as [Hx Hcr].
    destruct (serial_read_char s x line Hin) as (s1 & Hr & Hi1 & He1).
    rewrite (bind_Ret _ _ _ _ _ Hr). simpl. rewrite decide_True by (split; [congruence|done]).
    apply (IH line); congruence.
Qed.

(** Reading an answer of a controller: [dump] consumes the input up to and with
    the first carriage return and the character after it, within one round more
    than the answer is long; it returns at the end of the input too. A port that
    fails for any other reason keeps it in its loop for ever. *)
Theorem dump_line s line :
  CR ∉ line →
  (∀ c rest fuel, serial_input s = line ++ CR :: c :: rest → length line < fuel →
     ∃ s', dump fuel s = (Ret true, s') ∧ serial_input s' = rest)
  ∧ (serial_input s = line → serial_ended s = true → ∀ fuel, length line < fuel →
     ∃ s', dump fuel s = (Ret true, s') ∧ serial_input s' = [])
  ∧ (serial_input s = line → serial_ended s = false → ∀ fuel, ∃ s', dump fuel s = (Ret false, s')).
Proof.
  intros Hcr. assert ("0"%char ≠ CR) as H0 by done. split_and!.
  - intros c rest fuel Hin Hf. destruct (Nat.le_exists_sub (S (length line)) fuel Hf) as (k & -> & _).
    destruct (dump_loop_line line (CR :: c :: rest) s (S k) "0" Hcr H0 Hin) as (s1 & c1 & Hl & _ & Hi1 & _).
    destruct (serial_read_char s1 _ _ Hi1) as (s2 & Hr2 & Hi2 & _).
    destruct (serial_read_char s2 _ _ Hi2) as (s3 & Hr3 & Hi3 & _).
    exists s3. split; [|done]. unfold dump. replace (k + S (length line)) with (length line + S k) by lia.
    unfold bind at 1. rewrite Hl. simpl. rewrite (bind_Ret _ _ _ _ _ Hr2). simpl.
    by rewrite (bind_Ret _ _ _ _ _ Hr3).
  - intros Hin He fuel Hf. destruct (Nat.le_exists_sub (S (length line)) fuel Hf) as (k & -> & _).
    destruct (dump_loop_line line [] s (S k) "0" Hcr H0) as (s1 & c1 & Hl & _ & Hi1 & He1);
      [by rewrite app_nil_r|].
    destruct (serial_read_end s1 Hi1) as (s2 & Hr2 & Hi2 & _). rewrite He1, He in Hr2.
    exists s2. split; [|done]. unfold dump. replace (k + S (length line)) with (length line + S k) by lia.
    unfold bind at 1. rewrite Hl. simpl. rewrite (bind_Ret _ _ _ _ _ Hr2). simpl.
    by rewrite decide_False by naive_solver.
  - intros Hin He fuel. unfold dump.
    destruct (dump_loop_error fuel line s "0"%char Hcr Hin He H0) as (s' & Hl).
    exists s'. by rewrite (bind_Ret _ _ _ _ _ Hl).
Qed.
End serial_connection.

(** ** Witnesses *)

Lemma hardware_responses_witness :
  let h : heap := {[ 1%positive := Chars ["a"; "b"]%char ]} in
  let r := Response 2 (Some 1%positive) in
  receive_response (chars "0123") h = (Ret (chars "0123"), h)
  ∧ (response_dtor (response_move r).1 ;; response_dtor (response_move r).2) h = (Ret tt, delete 1%positive h).
Proof.
  intros h r. destruct (hardware_responses h r ["a"; "b"]%char) as (_ & [H1 _] & H2 & _); [done|].
  split; [apply H2|exact H1].
Defined.

(** Lines held in memory; the second member is how the input ends. *)
#[local] Program Instance memory_serial : SerialPort := {|
  Serial := list ascii * bool;
  serial_open device baud := Ret ([], true);
  serial_write bs := ret tt;
  serial_read := λ s,
    match s.1 with
    | [] => (Ret (inr s.2), s)
    | c :: rest => (Ret (inl c), (rest, s.2))
    end;
  serial_input := fst;
  serial_ended := snd;
|}.
Next Obligation. intros [i e] c rest; simpl; intros ->. eauto. Qed.
Next Obligation. intros [i e]; simpl; intros ->. eauto. Qed.

Lemma dump_line_witness :
  (∃ s' : Serial, dump 5 (chars "mode" ++ [CR; ">"%char; "x"%char], true) = (Ret true, s')
     ∧ serial_input s' = ["x"%char])
  ∧ ∀ fuel, ∃ s', dump fuel (chars "mode", false) = (Ret false, s').
Proof.
  assert (CR ∉ chars "mode") as Hcr by (apply (bool_decide_unpack _); vm_compute; exact I).
  split.
  - destruct (dump_line (H := memory_serial) (chars "mode" ++ [CR; ">"%char; "x"%char], true) (chars "mode") Hcr) as (H1 & _).
    destruct (H1 ">"%char ["x"%char] 5 eq_refl) as (s' & Hd & Hi); [simpl; lia|].
    exists s'. exact (conj Hd Hi).
  - destruct (dump_line (H := memory_serial) (chars "mode", false) (chars "mode") Hcr) as (_ & _ & H3).
    exact (H3 eq_refl eq_refl).
Defined.
