(* ===== verification/LccFpga.v ===== *)
(** * The hardware transceiver (module/brazil/proc_unit/lcc_and_fpga.hpp,
    lcc_and_fpga.cpp)

    Its configuration is read and checked, but the connection to the hardware and
    the request server are commented out in the source; [process] is what they
    would run. Serial ports are Boost.Asio's, a parameter. *)

From S2P Require Import Prelude BufferItem LccMessages NetMessages Actions QueueBuffer Json.
From S2P Require Import MiddlewareMessages CString ProcUnit.

(** The serial ports and the options of a configuration file. *)
Class Hardware := {
  hardware_serial :: SerialPort;
  parse_config_file : list opt_desc → string → outcome (option (gmap string opt_value));
}.

Section lcc_and_fpga.
Context `{RapidJSON} `{BoostOptions} `{TCP} `{Hardware}.

(** Data members; [isRx] and [hardwareConnection] have no initial value. *)
Record lcc_and_fpga := LccAndFpga {
  controller0 : option Serial;
  controller1 : option Serial;
  hardwareConnection : option tcp_client;
  isRx : option bool;
  isReceiving : bool;
  _bufferMutex : bool;
  _buffer : list Z;
  nIp : Z;
  qPort : Z;
}.

(** Constructor. *)
Definition lcc_and_fpga_ctor : lcc_and_fpga := LccAndFpga None None None None false false [] 0 0.
Definition lcc_initialize : outcome lcc_and_fpga := Ret lcc_and_fpga_ctor.

Definition l_controller0 : lens lcc_and_fpga (option Serial) := Lens controller0
  (λ x u, LccAndFpga x (controller1 u) (hardwareConnection u) (isRx u) (isReceiving u)
    (_bufferMutex u) (_buffer u) (nIp u) (qPort u)).
Definition l_controller1 : lens lcc_and_fpga (option Serial) := Lens controller1
  (λ x u, LccAndFpga (controller0 u) x (hardwareConnection u) (isRx u) (isReceiving u)
    (_bufferMutex u) (_buffer u) (nIp u) (qPort u)).
Definition l_hardwareConnection : lens lcc_and_fpga (option tcp_client) := Lens hardwareConnection
  (λ x u, LccAndFpga (controller0 u) (controller1 u) x (isRx u) (isReceiving u)
    (_bufferMutex u) (_buffer u) (nIp u) (qPort u)).
Definition l_isRx : lens lcc_and_fpga (option bool) := Lens isRx
  (λ x u, LccAndFpga (controller0 u) (controller1 u) (hardwareConnection u) x (isReceiving u)
    (_bufferMutex u) (_buffer u) (nIp u) (qPort u)).
Definition l_isReceiving : lens lcc_and_fpga bool := Lens isReceiving
  (λ x u, LccAndFpga (controller0 u) (controller1 u) (hardwareConnection u) (isRx u) x
    (_bufferMutex u) (_buffer u) (nIp u) (qPort u)).
Definition l__bufferMutex : lens lcc_and_fpga bool := Lens _bufferMutex
  (λ x u, LccAndFpga (controller0 u) (controller1 u) (hardwareConnection u) (isRx u) (isReceiving u)
    x (_buffer u) (nIp u) (qPort u)).
Definition l__buffer : lens lcc_and_fpga (list Z) := Lens _buffer
  (λ x u, LccAndFpga (controller0 u) (controller1 u) (hardwareConnection u) (isRx u) (isReceiving u)
    (_bufferMutex u) x (nIp u) (qPort u)).
Definition l_nIp : lens lcc_and_fpga Z := Lens nIp
  (λ x u, LccAndFpga (controller0 u) (controller1 u) (hardwareConnection u) (isRx u) (isReceiving u)
    (_bufferMutex u) (_buffer u) x (qPort u)).
Definition l_qPort : lens lcc_and_fpga Z := Lens qPort
  (λ x u, LccAndFpga (controller0 u) (controller1 u) (hardwareConnection u) (isRx u) (isReceiving u)
    (_bufferMutex u) (_buffer u) (nIp u) x).

(** ** [string_initialize_parameters] *)

Definition voltage_options : list string :=
  ["ppVoltage1"; "ppVoltage2"; "pspVoltage1"; "pspVoltage2";
   "pmVoltage1"; "pmVoltage2"; "psmVoltage1"; "psmVoltage2"].

Definition lcc_options : list opt_desc :=
  [OptDesc "config" OptString true;
   OptDesc "lccDev0" OptString false; OptDesc "lccSpeed0" (OptNumber 64) false;
   OptDesc "lccDev1" OptString false; OptDesc "lccSpeed1" (OptNumber 64) false;
   OptDesc "zedboardIp" OptString false; OptDesc "zedboardPort" (OptNumber 64) false;
   OptDesc "handshakeIp" OptString false; OptDesc "handshakePort" (OptNumber 64) false]
  ++ ((λ name, OptDesc name OptString false) <$> voltage_options).

(** Both stores; a value given on the line is not replaced by the file's. *)
Definition lcc_parse (parameters : string) : M lcc_and_fpga (gmap string opt_value) :=
  vals <- options_or_exit lcc_options parameters ;;
  o <- lift (parse_config_file lcc_options (opt_string vals "config" "")) ;;
  match o with
  | Some cfg => ret (vals ∪ cfg)
  | None => fail (ExitProcess (-1))
  end.

(** [s.empty()] *)
Definition empty (s : string) : bool := bool_decide (s = "").

(** The liquid crystal controllers. *)
Definition initialize_controllers (vals : gmap string opt_value) : M lcc_and_fpga () :=
  let lccDev0 := opt_string vals "lccDev0" "" in
  let lccDev1 := opt_string vals "lccDev1" "" in
  let lccSpeed0 := opt_number vals "lccSpeed0" 0 in
  let lccSpeed1 := opt_number vals "lccSpeed1" 0 in
  if negb (Bool.eqb (empty lccDev0) (empty lccDev1)) then
    throw (invalid_argument "Missing lc controller")
  else if negb (empty lccDev0) then
    if decide (lccSpeed0 = 0%Z ∨ lccSpeed1 = 0%Z) then
      throw (invalid_argument "Missing lc controller speed")
    else
      c0 <- lift (serial_connection_ctor lccDev0 lccSpeed0) ;;
      assign l_controller0 (Some c0) ;;
      c1 <- lift (serial_connection_ctor lccDev1 lccSpeed1) ;;
      assign l_controller1 (Some c1) ;;
      if existsb (λ name, empty (opt_string vals name "")) voltage_options
      then throw (invalid_argument "Missing voltage") else ret tt
  else ret tt.

(** The detection board. *)
Definition initialize_zedboard (vals : gmap string opt_value) : M lcc_and_fpga () :=
  let zedboardIp := opt_string vals "zedboardIp" "" in
  let zedboardPort := opt_number vals "zedboardPort" 0 in
  if negb (empty zedboardIp) && bool_decide (zedboardPort = 0%Z) then
    throw (invalid_argument "Missing zedboard port")
  else if negb (empty zedboardIp) then
    assign l_isRx (Some true) ;;
    ip <- lift (parse_ip (opt_string vals "handshakeIp" "")) ;;
    assign l_nIp ip
  else assign l_isRx (Some false).

Definition lcc_initialize_parameters (parameters : string) : M lcc_and_fpga () :=
  assign l_nIp 0%Z ;;
  assign l_qPort 0%Z ;;
  vals <- lcc_parse parameters ;;
  assign l_qPort (opt_number vals "handshakePort" 0) ;;
  initialize_controllers vals ;;
  initialize_zedboard vals.

(** ** [process] *)

(** The counters after the loop over the data. *)
Definition count (k : Z) (data : list Z) : nat := length (filter (λ x, x = k) data).

(** [std::max_element] over the four counters. *)
Definition max_count (data : list Z) : nat :=
  Nat.max (Nat.max (count 0 data) (count 1 data)) (Nat.max (count 2 data) (count 3 data)).

Definition majority (data : list Z) : outcome Z :=
  let max := max_count data in
  if decide (max = count 0 data) then Ret 0%Z
  else if decide (max = count 1 data) then Ret 1%Z
  else if decide (max = count 2 data) then Ret 2%Z
  else if decide (max = count 3 data) then Ret 3%Z
  else Throw std_exception.

(** [hardwareConnection->f()] *)
Definition on_hardware {A} (body : M tcp_client A) : M lcc_and_fpga A :=
  o <- read l_hardwareConnection ;;
  match o with
  | Some c =>
      let r := body c in
      assign l_hardwareConnection (Some r.2) ;;
      lift r.1
  | None => fail Undefined
  end.

(** Setting the outgoing message's status does nothing to it. *)
Definition process (outgoing : NetMessages.response) : M lcc_and_fpga NetMessages.response :=
  let outgoing := set_status OK outgoing in
  receiving <- read l_isReceiving ;;
  (if receiving : bool then
     on_hardware (write_message (lcc.request_ctor false)) ;;
     data <- on_hardware (read_message (I := lcc.response)) ;;
     temp <- lift (majority (lcc.data data)) ;;
     with_lock l__bufferMutex (
       b <- read l__buffer ;;
       assign l__buffer (b ++ [temp]))
   else
     on_hardware (write_message (lcc.request_ctor true)) ;; ret tt) ;;
  r <- read l_isReceiving ;;
  assign l_isReceiving (negb r) ;;
  ret outgoing.

(** [work]: the request server is commented out, so the thread runs an io_service
    that has nothing to do until it is stopped, and then frees the copy of the
    address that was made for it. *)
Definition work (run : M heap ()) (address : option loc) : M heap () :=
  run ;; delete_array address.

(** ** The unit *)

Definition lcc_async_work {B} `{AsyncBuffer B} : M (async_env lcc_and_fpga B) () := ret tt.
Definition lcc_proc_act_request (r : MiddlewareMessages.request) :
    M lcc_and_fpga (option MiddlewareMessages.response) := ret None.
Definition lcc_proc_act_push (r : MiddlewareMessages.request) : M lcc_and_fpga bool := ret false.

(** Destructor: closing a serial port does not throw. *)
Definition lcc_dtor : M lcc_and_fpga () :=
  assign l_controller0 None ;;
  assign l_controller1 None.

#[export] Instance lcc_unit : ProcUnit lcc_and_fpga := {|
  pu_string_initialize_parameters := lcc_initialize_parameters;
  pu_async_work B HB := lcc_async_work;
  pu_proc_act_request := lcc_proc_act_request;
  pu_proc_act_push := lcc_proc_act_push;
  pu_dtor := lcc_dtor;
|}.

#[export] Instance lcc_safe : ProcUnitSafe lcc_and_fpga.
Proof. split. intros B HB e He. simpl. split_and!; [done| |done]. exists []. by rewrite app_nil_r. Qed.

(** ** Helper lemmas *)

Lemma existsb_empty (str : string → string) l :
  existsb (λ name, bool_decide (str name = "")) l
  = if decide (Forall (λ name, str name ≠ "") l) then false else true.
Proof.
  induction l as [|x l IH]; simpl; [done|]. rewrite IH. case_bool_decide as Hx; simpl.
  - rewrite decide_False; [done|]. by intros [? ?]%Forall_cons.
  - destruct (decide (Forall _ l)) as [Hl|Hl].
    + by rewrite decide_True by (by constructor).
    + rewrite decide_False; [done|]. by intros [? ?]%Forall_cons.
Qed.

Lemma majority_spec data :
  ∃ m, majority data = Ret m ∧ (0 ≤ m < 4)%Z
     ∧ ∀ k, (0 ≤ k < 4)%Z → count k data ≤ count m data ∧ ((k < m)%Z → count k data < count m data).
Proof.
  assert (∀ P : Z → Prop, P 0%Z → P 1%Z → P 2%Z → P 3%Z → ∀ k, (0 ≤ k < 4)%Z → P k) as Hall.
  { intros P HP0 HP1 HP2 HP3 k Hk. assert (k = 0 ∨ k = 1 ∨ k = 2 ∨ k = 3)%Z as [->|[->|[->| ->]]] by lia; done. }
  unfold majority, max_count.
  repeat case_decide;
    [exists 0%Z|exists 1%Z|exists 2%Z|exists 3%Z|exfalso; lia];
    (split; [done|split; [lia|apply Hall; lia]]).
Qed.

Lemma hardware_write (msg : lcc.request) u c :
  hardwareConnection u = Some c → socketMutex c = Some false → writable (socket c) →
  ∃ n c', on_hardware (write_message msg) u = (Ret n, upd l_hardwareConnection (Some c') u)
    ∧ socketMutex c' = Some false ∧ incoming (socket c') = incoming (socket c).
Proof.
  intros Hc Hm Hw. destruct (tcp_write_all (msg_data msg) _ Hw) as (s' & Hr & Hi & _ & _).
  exists (length (msg_data msg)), (TcpClient s' (Some false)). split_and!; [|done|done].
  unfold on_hardware. mrun. rewrite Hc. unfold write_message. rewrite locked_free by done.
  unfold base_write. by rewrite (bind_Ret _ _ _ _ _ Hr).
Qed.

Lemma hardware_read payload rest u c :
  hardwareConnection u = Some c → socketMutex c = Some false →
  fits (I := lcc.response) payload → incoming (socket c) = wire (I := lcc.response) payload ++ rest →
  ∃ msg c', on_hardware (read_message (I := lcc.response)) u
      = (Ret msg, upd l_hardwareConnection (Some c') u) ∧ lcc.data msg = payload.
Proof.
  intros Hc Hm Hf Hin. destruct (base_read_wire payload rest (socket c) Hf Hin) as (msg & s' & Hr & Hd & _).
  exists msg, (TcpClient s' (Some false)). split; [|done].
  unfold on_hardware. mrun. rewrite Hc. unfold read_message. by rewrite locked_free, Hr by done.
Qed.

(** ** Properties *)

(** The configuration check, on every branch: one controller without the
    other, a missing speed, a missing voltage, or a detection board without port
    is refused with its own message and nothing after it is done; without
    controllers and board the unit only transmits; with a board the unit
    receives, and the address must be given too, for the parser reads past the
    end of an empty one. *)
Theorem lcc_configuration vals u :
  let str name := opt_string vals name "" in
  let num name := opt_number vals name 0 in
  (empty (str "lccDev0") ≠ empty (str "lccDev1") →
     initialize_controllers vals u = (Throw (invalid_argument "Missing lc controller"), u))
  ∧ (str "lccDev0" ≠ "" → str "lccDev1" ≠ "" →
     (num "lccSpeed0" = 0%Z ∨ num "lccSpeed1" = 0%Z →
        initialize_controllers vals u = (Throw (invalid_argument "Missing lc controller speed"), u))
     ∧ (num "lccSpeed0" ≠ 0%Z → num "lccSpeed1" ≠ 0%Z → ∀ c0 c1,
        serial_open (str "lccDev0") (num "lccSpeed0") = Ret c0 →
        serial_open (str "lccDev1") (num "lccSpeed1") = Ret c1 →
        initialize_controllers vals u =
          (if decide (Forall (λ name, str name ≠ "") voltage_options) then Ret tt
           else Throw (invalid_argument "Missing voltage"),
           upd l_controller1 (Some c1) (upd l_controller0 (Some c0) u))))
  ∧ (str "lccDev0" = "" → str "lccDev1" = "" → initialize_controllers vals u = (Ret tt, u))
  ∧ (str "zedboardIp" = "" → initialize_zedboard vals u = (Ret tt, upd l_isRx (Some false) u))
  ∧ (str "zedboardIp" ≠ "" →
     (num "zedboardPort" = 0%Z →
        initialize_zedboard vals u = (Throw (invalid_argument "Missing zedboard port"), u))
     ∧ (num "zedboardPort" ≠ 0%Z →
        (∀ ip, parse_ip (str "handshakeIp") = Ret ip →
           initialize_zedboard vals u = (Ret tt, upd l_nIp ip (upd l_isRx (Some true) u)))
        ∧ (str "handshakeIp" = "" → (initialize_zedboard vals u).1 = Fatal Undefined))).
Proof.
  intros str num. unfold initialize_controllers, initialize_zedboard, serial_connection_ctor.
  fold (str "lccDev0") (str "lccDev1") (str "zedboardIp") (str "handshakeIp").
  fold (num "lccSpeed0") (num "lccSpeed1") (num "zedboardPort").
  unfold empty. change (existsb _ _) with (existsb (λ name, bool_decide (str name = "")) voltage_options).
  rewrite existsb_empty. split_and!.
  - intros Hne. destruct (bool_decide (str "lccDev0" = "")), (bool_decide (str "lccDev1" = "")); done.
  - intros Hd0 Hd1. rewrite !bool_decide_false by done. simpl. split.
    + intros Hs. by rewrite decide_True.
    + intros Hs0 Hs1 c0 c1 Hc0 Hc1. rewrite decide_False by naive_solver. mrun. rewrite Hc0. simpl.
      rewrite Hc1. by destruct (decide (Forall _ _)).
  - intros Hd0 Hd1. by rewrite !bool_decide_true by done.
  - intros Hz. by rewrite bool_decide_true by done.
  - intros Hz. rewrite bool_decide_false by done. simpl. split.
    + intros Hp. by rewrite bool_decide_true.
    + intros Hp. rewrite bool_decide_false by done. mrun. split.
      * intros ip Hip. by rewrite Hip.
      * intros Hh. by rewrite Hh.
Qed.

(** C36. Measuring: the second request of a communication asks the board for its
    events and records the value from 0 to 3 that occurs most often, the lowest
    of them on a tie, 0 if there are none; the final [throw] is never reached.
    The first and the second request alternate. *)
Theorem lcc_process u c payload rest outgoing :
  hardwareConnection u = Some c → socketMutex c = Some false → writable (socket c) →
  fits (I := lcc.response) payload → incoming (socket c) = wire (I := lcc.response) payload ++ rest →
  _bufferMutex u = false →
  (isReceiving u = true →
     ∃ m u', process outgoing u = (Ret outgoing, u')
       ∧ _buffer u' = _buffer u ++ [m] ∧ (0 ≤ m < 4)%Z ∧ isReceiving u' = false
       ∧ ∀ k, (0 ≤ k < 4)%Z → (count k payload ≤ count m payload)%nat
            ∧ ((k < m)%Z → (count k payload < count m payload)%nat))
  ∧ (isReceiving u = false →
     ∃ u', process outgoing u = (Ret outgoing, u') ∧ _buffer u' = _buffer u ∧ isReceiving u' = true).
Proof.
  intros Hc Hm Hw Hf Hin Hmx. unfold process, set_status. split; intros Hr.
  - destruct (hardware_write (lcc.request_ctor false) u c Hc Hm Hw) as (n & c1 & Hwr & Hm1 & Hi1).
    rewrite Hin in Hi1. set (u1 := upd l_hardwareConnection (Some c1) u) in *.
    destruct (hardware_read payload rest u1 c1) as (msg & c2 & Hrd & Hd); [done..|].
    destruct (majority_spec payload) as (m & Hmaj & Hb & Hmax).
    exists m. eexists. split.
    { unfold bind at 1, read at 1, gets. simpl view. rewrite Hr. rewrite !bind_assoc.
      rewrite (bind_Ret _ _ _ _ _ Hwr), bind_assoc, (bind_Ret _ _ _ _ _ Hrd).
      unfold with_lock. mrun. rewrite Hd, Hmaj. simpl. rewrite Hmx, Hr. reflexivity. }
    split_and!; try done; lia.
  - destruct (hardware_write (lcc.request_ctor true) u c Hc Hm Hw) as (n & c1 & Hwr & Hm1 & Hi1).
    eexists. split.
    { unfold bind at 1, read at 1, gets. simpl view. rewrite Hr. rewrite !bind_assoc.
      rewrite (bind_Ret _ _ _ _ _ Hwr). mrun. rewrite Hr. reflexivity. }
    done.
Qed.
End lcc_and_fpga.

Arguments lcc_and_fpga {_ _}.

(** ** Witnesses *)

#[local] Instance sample_hardware : Hardware := {|
  hardware_serial := memory_serial;
  parse_config_file _ _ := Ret (Some ∅);
|}.

Definition with_board : gmap string opt_value :=
  <["zedboardIp" := StringOpt "10.0.0.2"]> (<["zedboardPort" := NumberOpt 7]>
    {["lccDev0" := StringOpt "/dev/ttyS0"]}).

Lemma lcc_configuration_witness :
  initialize_controllers with_board lcc_and_fpga_ctor
    = (Throw (invalid_argument "Missing lc controller"), lcc_and_fpga_ctor)
  ∧ (initialize_zedboard with_board lcc_and_fpga_ctor).1 = Fatal Undefined.
Proof.
  destruct (lcc_configuration with_board lcc_and_fpga_ctor) as (H1 & _ & _ & _ & H5). split.
  - apply H1. vm_compute. discriminate.
  - destruct (H5 ltac:(vm_compute; discriminate)) as [_ H6].
    apply (H6 ltac:(vm_compute; discriminate)). reflexivity.
Defined.

Definition measured : tcp_client :=
  TcpClient (([5; 0; 0; 0; 2; 1; 1; 2; 0]%Z, []) : Tcp) (Some false).

Definition measuring : lcc_and_fpga :=
  LccAndFpga None None (Some measured) (Some true) true false [] 0 0.

Lemma lcc_process_witness :
  ∃ u', process response_empty measuring = (Ret response_empty, u') ∧ isReceiving u' = false.
Proof.
  destruct (lcc_process measuring measured [2; 1; 1; 2; 0]%Z [] response_empty) as [H _];
    [reflexivity|reflexivity|exact I|vm_compute; reflexivity|reflexivity|reflexivity|].
  destruct (H eq_refl) as (m & u' & H1 & _ & _ & H2 & _).
  exists u'. exact (conj H1 H2).
Defined.
