(* ===== verification/Stream.v ===== *)
(** * The stream of measurements, from the network to the client

    The module's thread (module/imodule.cpp) pushes what its unit receives into
    the buffer, the outgoing thread (net/middleware/zmq_server.cpp) waits on the
    buffer, pops it and sends what it held. Here both run together on one heap:
    the steps are the rounds of the one, the waits, the pop and the single sends
    of the other, and the calls of the remaining threads. *)

From S2P Require Import Prelude NetMessages Actions BufferItem QueueBuffer Json.
From S2P Require Import MiddlewareMessages Zmq Simulation CString ProcUnit Trabea Transceiver.
From S2P Require Import Bobwire LccFpga Modules ZmqServer.

(** ** What a round receives

    Items made of messages one after the other, each on the heap the one before
    has left. *)
Inductive stored : heap → list buffer_item → list (list ascii) → heap → Prop :=
| stored_nil h : stored h [] [] h
| stored_cons h msg items texts h' :
    stored (message_heap h msg) items texts h' →
    stored h (message_item h msg :: items) (msg :: texts) h'.

(** A unit whose [async_work] turns the messages [pu_received] into items. *)
Class ProcUnitMessages `{RapidJSON} (P : Type) `{!ProcUnit P} := {
  pu_received : P → list (list ascii);
  pu_received_spec B (HB : AsyncBuffer B) (e e' : async_env P B) :
    ab_idle (env_buffer e) → pu_async_work e = (Ret tt, e') →
    ∃ items, ab_contents (env_buffer e') = ab_contents (env_buffer e) ++ items
           ∧ stored (env_heap e) items (pu_received (env_unit e)) (env_heap e');
}.

Section instances.
Context `{RapidJSON} `{ZMQ} `{BoostOptions} `{TCP} `{BoostEndian} `{OS} `{Hardware}.

(** A round of a transceiver reads nothing, or a topic and the data after it. *)
Definition transceiver_received {X} (t : transceiver X) : list (list ascii) :=
  match zmq_recv (rx_socket t) with
  | (Ret (Some topic), s1) =>
      match zmq_recv s1 with
      | (Ret r, _) => [data_of topic r]
      | _ => []
      end
  | _ => []
  end.

Lemma transceiver_received_spec {X B} `{!AsyncBuffer B} (e e' : async_env (transceiver X) B) :
  ab_idle (env_buffer e) → Transceiver.async_work e = (Ret tt, e') →
  ∃ items, ab_contents (env_buffer e') = ab_contents (env_buffer e) ++ items
         ∧ stored (env_heap e) items (transceiver_received (env_unit e)) (env_heap e').
Proof.
  destruct e as [t h b]. cbn [env_buffer env_heap env_unit]. intros Hb. unfold transceiver_received.
  destruct (zmq_recv (rx_socket t)) as [[[topic|]|e|f] s1] eqn:Hr1.
  - destruct (requestMutex t) eqn:Hm.
    { unfold Transceiver.async_work, bind, zoom. simpl. rewrite Hr1. simpl. unfold with_lock. simpl.
      by rewrite Hm. }
    destruct (Transceiver.isReceiving t) eqn:Hi; [|by rewrite (async_work_late _ _ _ _ _ Hm Hi Hr1)].
    destruct (zmq_recv s1) as [[r|e|f] s2] eqn:Hr2.
    + destruct (async_work_data t h b topic r s1 s2 Hm Hi Hb Hr1 Hr2) as (b' & -> & _ & Hc).
      intros [= <-]. simpl. eexists. split; [exact Hc|]. repeat constructor.
    + destruct t; simpl in *; subst. unfold Transceiver.async_work, bind, zoom. simpl. rewrite Hr1. simpl.
      unfold with_lock, receive_data. mrun. by rewrite Hr2.
    + destruct t; simpl in *; subst. unfold Transceiver.async_work, bind, zoom. simpl. rewrite Hr1. simpl.
      unfold with_lock, receive_data. mrun. by rewrite Hr2.
  - rewrite (async_work_quiet _ _ _ _ Hr1). intros [= <-]. exists [].
    split; [by rewrite app_nil_r|constructor].
  - unfold Transceiver.async_work, bind, zoom. simpl. by rewrite Hr1.
  - unfold Transceiver.async_work, bind, zoom. simpl. by rewrite Hr1.
Qed.

#[export] Program Instance trx_messages : ProcUnitMessages (transceiver ()) := {|
  pu_received := transceiver_received;
|}.
Next Obligation. intros B HB e e'. apply transceiver_received_spec. Qed.

#[export] Program Instance bobwire_messages : ProcUnitMessages (transceiver bases) := {|
  pu_received := transceiver_received;
|}.
Next Obligation. intros B HB e e'. apply transceiver_received_spec. Qed.

Lemma nothing_received {P B} `{!AsyncBuffer B} (e e' : async_env P B) :
  (Ret tt, e) = (Ret tt, e') →
  ∃ items, ab_contents (env_buffer e') = ab_contents (env_buffer e) ++ items
         ∧ stored (env_heap e) items [] (env_heap e').
Proof. intros [= <-]. exists []. split; [by rewrite app_nil_r|constructor]. Qed.

#[export] Instance lcc_messages : ProcUnitMessages lcc_and_fpga := {|
  pu_received _ := [];
  pu_received_spec B HB e e' _ := nothing_received e e';
|}.

#[export] Program Instance sum_messages {P Q} `{!ProcUnit P, !ProcUnit Q}
    `{!ProcUnitMessages P, !ProcUnitMessages Q} : ProcUnitMessages (P + Q) := {|
  pu_received u := match u with inl p => pu_received p | inr q => pu_received q end;
|}.
Next Obligation.
  intros P Q HP HQ HPm HQm B HB [[p|q] h b] e' Hb; simpl; unfold on_env_sum; simpl; intros [= Ho <-].
  - apply (pu_received_spec B HB (AsyncEnv p h b) (pu_async_work (AsyncEnv p h b)).2 Hb).
    rewrite <-Ho. apply surjective_pairing.
  - apply (pu_received_spec B HB (AsyncEnv q h b) (pu_async_work (AsyncEnv q h b)).2 Hb).
    rewrite <-Ho. apply surjective_pairing.
Qed.
End instances.

(** ** Items and their arrays *)

(** The items hold the texts, and the heap is exactly their arrays. *)
Inductive owned : list buffer_item → list (list ascii) → heap → Prop :=
| owned_nil : owned [] [] ∅
| owned_empty items texts m :
    owned items texts m → owned (BufferItem None 0 (Parameters None 0 false) :: items) ([] :: texts) m
| owned_text l cs items texts m :
    m !! l = None → owned items texts m →
    owned (BufferItem (Some l) (length cs) (Parameters None 0 false) :: items) (cs :: texts)
      (<[l := Chars cs]> m).

Lemma owned_snoc_empty items texts m :
  owned items texts m → owned (items ++ [BufferItem None 0 (Parameters None 0 false)]) (texts ++ [[]]) m.
Proof. induction 1; simpl; repeat constructor; done. Qed.

Lemma owned_snoc_text items texts m l cs :
  owned items texts m → m !! l = None →
  owned (items ++ [BufferItem (Some l) (length cs) (Parameters None 0 false)]) (texts ++ [cs])
    (<[l := Chars cs]> m).
Proof.
  induction 1 as [|items texts m _ IH|l' cs' items texts m Hl' Ho IH]; simpl; intros Hl.
  - constructor; [done|constructor].
  - constructor. auto.
  - destruct (decide (l = l')) as [->|Hne]; [by rewrite lookup_insert_eq in Hl|].
    rewrite lookup_insert_ne in Hl by done. rewrite insert_insert_ne by done.
    constructor; [by rewrite lookup_insert_ne|auto].
Qed.

(** The arrays of the items next to the blocks [h0] of the rest of the program. *)
Definition owned_in (h0 : heap) (items : list buffer_item) (texts : list (list ascii)) (h : heap) : Prop :=
  ∃ m, owned items texts m ∧ m ##ₘ h0 ∧ h = m ∪ h0.

Lemma owned_in_empty h0 texts h : owned_in h0 [] texts h → texts = [] ∧ h = h0.
Proof. intros (m & Ho & _ & ->). inversion Ho; subst. by rewrite map_empty_union. Qed.

Lemma owned_in_message h0 items texts h msg :
  owned_in h0 items texts h →
  owned_in h0 (items ++ [message_item h msg]) (texts ++ [msg]) (message_heap h msg).
Proof.
  intros (m & Ho & Hd & ->). unfold message_item, message_heap. case_decide as Hl.
  - destruct msg; [|done]. exists m. split_and!; [by apply owned_snoc_empty|done|done].
  - set (l := fresh (base.dom (m ∪ h0))).
    assert ((m ∪ h0) !! l = None) as [Hm Hh]%lookup_union_None by (apply not_elem_of_dom, is_fresh).
    exists (<[l := Chars msg]> m). split_and!.
    + by apply owned_snoc_text.
    + by apply map_disjoint_insert_l.
    + by rewrite insert_union_l.
Qed.

Lemma owned_in_stored h0 items texts h new received h' :
  owned_in h0 items texts h → stored h new received h' → owned_in h0 (items ++ new) (texts ++ received) h'.
Proof.
  intros Ho Hs. revert items texts Ho. induction Hs as [h|h msg new received h' Hs IH]; intros items texts Ho.
  - by rewrite !app_nil_r.
  - rewrite (cons_middle _ items), (cons_middle _ texts), !app_assoc. by apply IH, owned_in_message.
Qed.

(** ** The system *)

Section stream.
Context `{RapidJSON} `{ZMQ} {P : Type} `{!ProcUnit P, !ProcUnitSafe P, !ProcUnitMessages P}.

(** The module, the heap, and the outgoing thread: its [localBuffer] and socket. *)
Record stream := Stream {
  st_module : imodule P;
  st_heap : heap;
  st_local : list buffer_item;
  st_socket : Socket;
}.

(** The outgoing thread's state as [ZmqServer] has it. *)
Definition outgoing_state (s : stream) : async_state () queue_buffer :=
  AsyncState (st_socket s) () (asyncBuffer (st_module s)) (st_heap s) 0.

(** What the next round of the module's thread receives. *)
Definition round_receives (m : imodule P) : list (list ascii) :=
  match asyncProcThread m, loadedProcUnit m with
  | Working, Some p => if doExit m then [] else pu_received p
  | _, _ => []
  end.

(** The critical sections of the buffer that neither push nor pop: setting the
    threshold, and the pieces of [push_wait]. *)
Definition only_waits (ev : event) : Prop :=
  match ev with EvPush _ | EvPopAll _ => False | _ => True end.

(** A step, with what it received from the network and what it sent: what it handed to
    [zmq_send], whatever that answers. *)
Inductive stream_step : stream → list (list ascii) → list (list ascii) → stream → Prop :=
| ss_round m h m' h' loc sk :
    Modules.async_round (m, h) = (Ret tt, (m', h')) →
    stream_step (Stream m h loc sk) (round_receives m) [] (Stream m' h' loc sk)
| ss_wait m h loc sk ev b' :
    qstep (asyncBuffer m) ev b' → only_waits ev →
    stream_step (Stream m h loc sk) [] [] (Stream (upd l_asyncBuffer b' m) h loc sk)
| ss_pop m h sk items b' :
    pop_all (asyncBuffer m) = (Ret items, b') →
    stream_step (Stream m h [] sk) [] [] (Stream (upd l_asyncBuffer b' m) h items sk)
| ss_send m h it loc sk bs a :
    item_bytes it h = (Ret bs, h) →
    send_item it (outgoing_state (Stream m h (it :: loc) sk)) = (Ret tt, a) →
    stream_step (Stream m h (it :: loc) sk) [] [bs] (Stream m (a_heap a) loc (a_socket a))
| ss_load name parameters m m' o h loc sk :
    load_proc_unit name parameters m = (o, m') → survives o →
    stream_step (Stream m h loc sk) [] [] (Stream m' h loc sk)
| ss_unload m m' o h loc sk :
    unload_proc_unit m = (o, m') → survives o →
    stream_step (Stream m h loc sk) [] [] (Stream m' h loc sk)
| ss_call A (body : M P A) m m' o h loc sk :
    loaded_proc_unit body m = (o, m') → survives o →
    stream_step (Stream m h loc sk) [] [] (Stream m' h loc sk).

Inductive stream_trace (s : stream) : list (list ascii) → list (list ascii) → stream → Prop :=
| st_nil : stream_trace s [] [] s
| st_snoc received sent s1 ins outs s2 :
    stream_trace s received sent s1 → stream_step s1 ins outs s2 →
    stream_trace s (received ++ ins) (sent ++ outs) s2.

(** ** The invariant *)

(** Everything received and not sent is in an item of the outgoing thread or of
    the buffer, in order, and nothing else has been allocated. *)
Record stream_inv (h0 : heap) (sk0 : Socket) (received sent : list (list ascii)) (s : stream) : Prop := {
  sti_module : module_inv (st_module s);
  sti_socket : send_all sent sk0 = (Ret tt, st_socket s);
  sti_items : ∃ pending, received = sent ++ pending
    ∧ owned_in h0 (st_local s ++ queue (asyncBuffer (st_module s))) pending (st_heap s);
}.

Lemma send_all_snoc sent bs sk0 sk rc sk' :
  send_all sent sk0 = (Ret tt, sk) → zmq_send bs sk = (Ret rc, sk') →
  send_all (sent ++ [bs]) sk0 = (Ret tt, sk').
Proof.
  revert sk0. induction sent as [|b sent IH]; intros sk0; simpl.
  - intros [= <-] Hs. by rewrite (bind_Ret _ _ _ _ _ Hs).
  - intros (rc' & s1 & Hs1 & Hs)%bind_Ret_inv Hsend. rewrite (bind_Ret _ _ _ _ _ Hs1). by apply IH.
Qed.

(** Sending the first of the items. *)
Lemma send_owned h0 it items texts h sk m :
  owned_in h0 (it :: items) texts h →
  ∃ bs texts' h', texts = bs :: texts' ∧ owned_in h0 items texts' h' ∧ item_bytes it h = (Ret bs, h)
    ∧ ∀ loc, send_item it (outgoing_state (Stream m h loc sk))
      = match zmq_send bs sk with
        | (Ret _, sk') => (Ret tt, AsyncState sk' () (asyncBuffer m) h' 0)
        | (Throw e, sk') => (Throw e, AsyncState sk' () (asyncBuffer m) h' 0)
        | (Fatal f, sk') => (Fatal f, AsyncState sk' () (asyncBuffer m) h 0)
        end.
Proof.
  intros (mm & Ho & Hd & ->). inversion Ho as [|? ? ? Ho'|l cs ? texts' m' Hl Ho']; subst.
  - exists [], texts0, (mm ∪ h0). split_and!; [done|by exists mm|done|]. intros loc.
    unfold send_item, item_bytes, item_data, item_size, outgoing_state. mrun. by destruct (zmq_send [] sk) as [[]].
  - apply map_disjoint_insert_l in Hd as [Hl0 Hd].
    assert ((<[l := Chars cs]> m' ∪ h0) !! l = Some (Chars cs)) as Hlk
      by (rewrite <-insert_union_l; apply lookup_insert_eq).
    assert (delete l (<[l := Chars cs]> m' ∪ h0) = m' ∪ h0) as Hdel.
    { rewrite <-insert_union_l, delete_insert_id; [done|]. by apply lookup_union_None. }
    exists cs, texts', (m' ∪ h0). split_and!; [done|by exists m'| |].
    + apply owns_bytes. exists l. by split_and!.
    + intros loc. unfold send_item, outgoing_state. rewrite move_fields. unfold bind, zoom, try_catch, ret, throw.
      cbn -[buffer_item_dtor item_bytes buffer_item_move].
      rewrite moved_from_dtor. cbn -[buffer_item_dtor item_bytes].
      assert (owns (<[l := Chars cs]> m' ∪ h0)
        (BufferItem (Some l) (length cs) (Parameters None 0 false)) cs) as Hown by (exists l; by split_and!).
      rewrite (owns_bytes _ _ _ Hown). cbn -[buffer_item_dtor].
      destruct (owns_dtor _ _ _ Hown) as (l' & [= <-] & Hdt). rewrite Hdel in Hdt.
      destruct (zmq_send cs sk) as [[rc|e|f] sk']; cbn -[buffer_item_dtor]; rewrite ?Hdt; done.
Qed.

Lemma round_stored m h m' h' :
  module_inv m → Modules.async_round (m, h) = (Ret tt, (m', h')) →
  ∃ items, queue (asyncBuffer m') = queue (asyncBuffer m) ++ items
         ∧ stored h items (round_receives m) h'.
Proof.
  intros Hm. unfold Modules.async_round, round_receives.
  rewrite (mi_thread _ Hm), (mi_exit _ Hm). destruct (Modules.isRunning m) eqn:Hr.
  - destruct (mi_running _ Hm Hr) as [[p ->] _].
    destruct (pu_async_work _) as [[[]|e|f] e'] eqn:Hw; simpl; [|done..]. intros [= <- <-].
    exact (pu_received_spec queue_buffer queue_buffer_async (AsyncEnv p h (asyncBuffer m)) e' (mi_buffer _ Hm) Hw).
  - intros [= <- <-]. exists []. split; [by rewrite app_nil_r|constructor].
Qed.

(** The buffer of a module in another state between critical sections. *)
Lemma module_inv_buffer b (m : imodule P) : module_inv m → qinv b → module_inv (upd l_asyncBuffer b m).
Proof. intros [? ? ? ? _] Hb. by split. Qed.

Lemma wait_keeps_items q ev q' : qinv q → qstep q ev q' → only_waits ev → qinv q' ∧ queue q' = queue q.
Proof.
  intros Hq Hstep Hw. split; [by eauto with qb|].
  pose proof (qstep_fifo q ev q' ltac:(eauto with qb) Hstep) as Hf.
  destruct ev; simpl in *; try done; by rewrite ?app_nil_r in Hf.
Qed.

Lemma stream_step_inv h0 sk0 received sent s ins outs s' :
  stream_step s ins outs s' → stream_inv h0 sk0 received sent s →
  stream_inv h0 sk0 (received ++ ins) (sent ++ outs) s'.
Proof.
  intros Hstep [Hm Hsk (pending & Hrec & Hown)]. simpl in *.
  assert (∀ m m' h loc sk, st_module s = m → st_heap s = h → st_local s = loc → st_socket s = sk →
    module_step (m, h) [] [] (m', h) →
    stream_inv h0 sk0 (received ++ []) (sent ++ []) (Stream m' h loc sk)) as Hcall.
  { intros m m' h loc sk <- <- <- <- Hms. rewrite !app_nil_r.
    destruct (module_step_inv _ _ _ _ Hms Hm) as [Hm' Hq]. simpl in Hq. rewrite app_nil_r in Hq.
    split; [done|done|]. exists pending. simpl. by rewrite <-Hq. }
  destruct Hstep as [m h m' h' loc sk Hr|m h loc sk ev b' Hq Hw|m h sk items b' Hp|m h it loc sk bs a Hb Hs
    |name ps m m' o h loc sk Hc Ho|m m' o h loc sk Hc Ho|A body m m' o h loc sk Hc Ho]; simpl in *.
  - destruct (round_stored _ _ _ _ Hm Hr) as (items & Hq & Hst).
    split; simpl; [by destruct (async_round_inv _ _ _ _ Hm Hr)|by rewrite app_nil_r|].
    exists (pending ++ round_receives m). rewrite app_nil_r, Hrec, app_assoc. split; [done|].
    rewrite Hq, app_assoc. by eapply owned_in_stored.
  - destruct (wait_keeps_items _ _ _ (mi_buffer _ Hm) Hq Hw) as [Hb Hsame]. rewrite !app_nil_r.
    split; simpl; [by apply module_inv_buffer|done|]. exists pending. by rewrite Hsame.
  - rewrite pop_all_eq in Hp by apply Hm. simplify_eq. rewrite !app_nil_r.
    split; simpl; [|done|].
    + apply module_inv_buffer; [done|]. destruct (mi_buffer _ Hm); by split.
    + exists pending. simpl. by rewrite app_nil_r.
  - destruct (send_owned h0 it _ pending h sk m Hown) as (bs' & pending' & h' & -> & Hown' & Hb' & Hsend).
    rewrite Hb' in Hb. simplify_eq. rewrite Hsend in Hs.
    destruct (zmq_send bs sk) as [[rc|e|f] sk'] eqn:Hz; [|done..]. simplify_eq. simpl.
    split; [done|by eapply send_all_snoc|]. exists pending'.
    rewrite app_nil_r, <-app_assoc. by split.
  - by eapply Hcall, step_load.
  - by eapply Hcall, step_unload.
  - by eapply Hcall, step_call.
Qed.

Lemma stream_trace_inv s received sent s' h0 sk0 :
  stream_trace s received sent s' → stream_inv h0 sk0 [] [] s → stream_inv h0 sk0 received sent s'.
Proof. intros Htr Hs. induction Htr; [done|by eapply stream_step_inv]. Qed.

Lemma stream_inv_init actions units h0 sk0 :
  stream_inv h0 sk0 [] [] (Stream (register_proc_units units (imodule_ctor actions)) h0 [] sk0).
Proof.
  split; simpl; [apply module_inv_ctor|done|]. exists []. split; [done|].
  exists ∅. split_and!; [constructor|apply map_disjoint_empty_l|by rewrite map_empty_union].
Qed.

(** Sending what has been popped. *)
Lemma stream_drain h0 sk0 s0 received sent s :
  (∀ bs sk, ∃ rc sk', zmq_send bs sk = (Ret rc, sk')) →
  stream_trace s0 received sent s → stream_inv h0 sk0 received sent s →
  ∃ sent' s', stream_trace s0 received (sent ++ sent') s' ∧ st_local s' = [] ∧ st_module s' = st_module s.
Proof.
  intros Hz. destruct s as [m h loc sk]. revert h sk sent. induction loc as [|it loc IH]; intros h sk sent Htr Hinv.
  - exists [], (Stream m h [] sk). by rewrite app_nil_r.
  - pose proof (sti_items _ _ _ _ _ Hinv) as (pending & _ & Hown). simpl in Hown.
    destruct (send_owned h0 it _ pending h sk m Hown) as (bs & pending' & h' & _ & _ & Hb & Hsend).
    destruct (Hz bs sk) as (rc & sk' & Hs). specialize (Hsend loc). rewrite Hs in Hsend.
    pose proof (ss_send m h it loc sk bs _ Hb Hsend) as Hstep. simpl in Hstep.
    destruct (IH h' sk' (sent ++ [bs])) as (sent' & s' & Htr' & Hl & Hm).
    + rewrite <-(app_nil_r received). by eapply st_snoc.
    + rewrite <-(app_nil_r received). by eapply stream_step_inv.
    + exists ([bs] ++ sent'), s'. by rewrite app_assoc.
Qed.

(** C1. The stream of measurements, in every interleaving of the module's thread,
    the outgoing thread and its waits, and calls that load, unload or use the
    unit: the messages sent, which is to say handed to [zmq_send] (one that cannot be
    sent within the time-out is dropped there, and the code does not look at the
    answer), are the messages received, in order, each once, followed by those
    still waiting; what is waiting is held by the items of the two
    threads, whose arrays are the only memory that has been allocated, so once
    nothing waits everything has been freed; and from every state, as long as
    sending does not fail with an exception, the outgoing thread can send all
    that has been received. *)
Theorem measurement_stream actions units h0 sk0 received sent s :
  stream_trace (Stream (register_proc_units units (imodule_ctor actions)) h0 [] sk0) received sent s →
  (∃ pending, received = sent ++ pending
     ∧ owned_in h0 (st_local s ++ queue (asyncBuffer (st_module s))) pending (st_heap s))
  ∧ send_all sent sk0 = (Ret tt, st_socket s)
  ∧ (st_local s = [] → queue (asyncBuffer (st_module s)) = [] → sent = received ∧ st_heap s = h0)
  ∧ ((∀ bs sk, ∃ rc sk', zmq_send bs sk = (Ret rc, sk')) →
     ∃ s', stream_trace (Stream (register_proc_units units (imodule_ctor actions)) h0 [] sk0)
             received received s'
         ∧ st_heap s' = h0).
Proof.
  intros Htr. set (s0 := Stream _ h0 [] sk0) in *.
  pose proof (stream_trace_inv _ _ _ _ h0 sk0 Htr (stream_inv_init actions units h0 sk0)) as Hinv.
  assert (∀ received sent s, stream_inv h0 sk0 received sent s → st_local s = [] →
    queue (asyncBuffer (st_module s)) = [] → sent = received ∧ st_heap s = h0) as Hempty.
  { intros r st s1 [_ _ (pending & -> & Hown)] Hl Hq. rewrite Hl, Hq in Hown.
    destruct (owned_in_empty _ _ _ Hown) as [-> ->]. by rewrite app_nil_r. }
  split_and!; [apply Hinv|apply Hinv|by apply Hempty|]. intros Hz.
  destruct (stream_drain h0 sk0 s0 received sent s Hz Htr Hinv) as (out1 & [m h loc sk] & Htr1 & Hl1 & _).
  simpl in Hl1. subst loc.
  pose proof (stream_trace_inv _ _ _ _ h0 sk0 Htr1 (stream_inv_init actions units h0 sk0)) as Hinv1.
  pose proof (sti_module _ _ _ _ _ Hinv1) as Hm1. simpl in Hm1.
  pose proof (ss_pop m h sk _ _ (pop_all_eq _ (qi_free _ (mi_buffer _ Hm1)))) as Hpop.
  pose proof (st_snoc _ _ _ _ _ _ _ Htr1 Hpop) as Htr2.
  pose proof (stream_step_inv _ _ _ _ _ _ _ _ Hpop Hinv1) as Hinv2. rewrite !app_nil_r in Htr2, Hinv2.
  destruct (stream_drain h0 sk0 s0 _ _ _ Hz Htr2 Hinv2) as (out2 & s3 & Htr3 & Hl3 & Hm3).
  pose proof (stream_trace_inv _ _ _ _ h0 sk0 Htr3 (stream_inv_init actions units h0 sk0)) as Hinv3.
  destruct (Hempty _ _ _ Hinv3 Hl3) as [He Hh]; [by rewrite Hm3|].
  exists s3. rewrite He in Htr3. by split.
Qed.
End stream.

Arguments stream {_} P.

(** ** Witness

    A transceiver whose simulator delivers one topic and one measurement; it has
    been told to receive when the message comes. *)
Section witness.
#[local] Instance one_measurement : ZMQ := scripted_zmq_from [Some (chars "1234"); Some (chars "01")].
#[local] Instance stream_boost : BoostOptions :=
  constant_options (<["e" := StringOpt "10.0.0.1:5000"]> {["td" := StringOpt "tcp://sim:5555"]}).
#[local] Instance stream_net : TCP := stream_tcp.
#[local] Instance stream_os : OS := os_with None.

Definition trx_module : imodule (transceiver ()) :=
  register_proc_units [("trx_circuit", Ret trx_circuit_ctor)] (imodule_ctor (pack PUSH [WAIT])).
Definition client_socket : Socket := Scripted [] true [].

Definition trx_loaded : imodule (transceiver ()) := (load_proc_unit "trx_circuit" "" trx_module).2.
Definition trx_receiving : imodule (transceiver ()) := (loaded_proc_unit trx_process trx_loaded).2.
Definition trx_received : imodule (transceiver ()) * heap := (Modules.async_round (trx_receiving, ∅)).2.

Definition stream_start : stream (transceiver ()) := Stream trx_module ∅ [] client_socket.
Definition stream_received : stream (transceiver ()) :=
  Stream trx_received.1 trx_received.2 [] client_socket.

Lemma stream_received_trace : stream_trace stream_start [chars "01"] [] stream_received.
Proof.
  assert (load_proc_unit "trx_circuit" "" trx_module = (Ret tt, trx_loaded)) as Hload
    by (unfold trx_loaded; refine (result_pair _ _ _); vm_compute; reflexivity).
  assert (loaded_proc_unit trx_process trx_loaded = (Ret Done, trx_receiving)) as Hcall
    by (unfold trx_receiving at 1; refine (result_pair _ _ _); vm_compute; reflexivity).
  assert (Modules.async_round (trx_receiving, ∅) = (Ret tt, trx_received)) as Hround
    by (unfold trx_received at 1; refine (result_pair _ _ _); vm_compute; reflexivity).
  assert (round_receives trx_receiving = [chars "01"]) as Hrec by (vm_compute; reflexivity).
  rewrite (surjective_pairing trx_received) in Hround.
  assert (stream_trace stream_start [] [] (Stream trx_receiving ∅ [] client_socket)) as H1.
  { apply (st_snoc _ [] [] (Stream trx_loaded ∅ [] client_socket) [] []).
    - apply (st_snoc _ [] [] stream_start [] []); [constructor|].
      by apply (ss_load "trx_circuit" "" _ _ (Ret tt)).
    - by apply (ss_call _ trx_process _ _ (Ret Done)). }
  rewrite <-Hrec. apply (st_snoc _ [] [] _ (round_receives trx_receiving) [] _ H1). by apply ss_round.
Qed.

Lemma measurement_stream_witness :
  length (queue (asyncBuffer (st_module stream_received))) = 1
  ∧ ∃ s, stream_trace stream_start [chars "01"] [chars "01"] s ∧ st_heap s = ∅.
Proof.
  destruct (measurement_stream (pack PUSH [WAIT]) [("trx_circuit", Ret trx_circuit_ctor)] ∅ client_socket
    [chars "01"] [] stream_received stream_received_trace) as (_ & _ & _ & H).
  split; [reflexivity|]. apply H. intros bs sk. eexists _, _. reflexivity.
Defined.
End witness.
