(* ===== verification/RequestServer.v ===== *)
(** * Communications between transceivers (module/brazil/itrx_proc_unit.hpp with
    net/server.hpp and net/tcp_client.hpp)

    The request server of a unit is [NetServer.server] over the unit itself:
    [work] starts it with [process] as its callback, on a thread of its own. The
    first part follows the unit through every interleaving of that thread and the
    module's, and says which sequences of communications and measurements there
    can be. The second composes the sender's [open_connection] and
    [close_connection] with the receiver's sessions. *)

From S2P Require Import Prelude NetMessages NetServer Actions BufferItem QueueBuffer Json.
From S2P Require Import MiddlewareMessages Zmq Simulation CString ProcUnit Transceiver Stream.

(** ** What can be observed of a unit *)

Inductive comm_event :=
| Begun
| Measured (data : list ascii)
| Completed.

#[export] Instance comm_event_eq_dec : EqDecision comm_event.
Proof. solve_decision. Defined.

(** The grammar: each communication is begun, then measured at least once, then
    completed. *)
Inductive phase := Idle | Open | Filled.

#[export] Instance phase_eq_dec : EqDecision phase.
Proof. solve_decision. Defined.

Definition next_phase (p : phase) (ev : comm_event) : option phase :=
  match p, ev with
  | Idle, Begun => Some Open
  | Open, Measured _ | Filled, Measured _ => Some Filled
  | Filled, Completed => Some Idle
  | _, _ => None
  end.

Fixpoint phases (p : phase) (evs : list comm_event) : option phase :=
  match evs with
  | [] => Some p
  | ev :: evs' => next_phase p ev ≫= λ p', phases p' evs'
  end.

Definition measured (evs : list comm_event) : list (list ascii) :=
  omap (λ ev, match ev with Measured d => Some d | _ => None end) evs.
Definition completed (evs : list comm_event) : nat := length (filter (λ ev, ev = Completed) evs).
Definition begun (evs : list comm_event) : nat := length (filter (λ ev, ev = Begun) evs).

Lemma phases_app p evs1 evs2 : phases p (evs1 ++ evs2) = phases p evs1 ≫= λ p', phases p' evs2.
Proof.
  revert p. induction evs1 as [|ev evs1 IH]; intros p; simpl; [done|].
  destruct (next_phase p ev); simpl; [apply IH|done].
Qed.

Lemma measured_app evs1 evs2 : measured (evs1 ++ evs2) = measured evs1 ++ measured evs2.
Proof. apply omap_app. Qed.

(** Counting along the grammar. *)
Lemma phases_counts p evs p' :
  phases p evs = Some p' →
  begun evs + (if decide (p = Idle) then 0 else 1) = completed evs + (if decide (p' = Idle) then 0 else 1)
  ∧ completed evs + (if decide (p' = Filled) then 1 else 0)
    ≤ length (measured evs) + (if decide (p = Filled) then 1 else 0).
Proof.
  unfold begun, completed, measured. revert p. induction evs as [|ev evs IH]; intros p; simpl.
  - intros [= ->]. lia.
  - destruct (next_phase p ev) as [q|] eqn:Hn; [|done]. simpl. intros Hp.
    destruct (IH q Hp) as [H1 H2].
    destruct p, ev; simplify_eq/=; rewrite ?filter_cons; repeat case_decide; simplify_eq/=; try done; lia.
Qed.
Section communications.
Context `{RapidJSON} `{ZMQ} `{BoostOptions} `{TCP} `{BoostEndian} `{OS}.
Context {X B : Type} `{!AsyncBuffer B} (prepare : M (transceiver X) ()).
Implicit Types t : transceiver X.

(** The steps: a request of a peer on the io_service thread, which may leave it
    waiting; its wake-ups; a round of the module's thread. *)
Abbreviation link := (async_env (transceiver X) B * bool)%type.

Definition answered (t : transceiver X) (p : progress) : list comm_event :=
  match p with
  | Waiting => []
  | Done => if isReceiving t then [Completed] else [Begun]
  end.

Inductive link_step : link → list comm_event → link → Prop :=
| ls_request p t t' h b :
    process prepare t = (Ret p, t') →
    link_step (AsyncEnv t h b, false) (answered t p) (AsyncEnv t' h b, bool_decide (p = Waiting))
| ls_wakeup p t t' h b :
    process_resume t = (Ret p, t') →
    link_step (AsyncEnv t h b, true) (answered t p) (AsyncEnv t' h b, bool_decide (p = Waiting))
| ls_round w e e' :
    async_work e = (Ret tt, e') →
    link_step (e, w) (Measured <$> transceiver_received (env_unit e)) (e', w).

Inductive link_trace (s : link) : list comm_event → link → Prop :=
| lt_nil : link_trace s [] s
| lt_snoc evs s1 new s2 : link_trace s evs s1 → link_step s1 new s2 → link_trace s (evs ++ new) s2.

(** ** Every interleaving *)

(** What the preparation of a communication leaves alone, and that it succeeds. *)
Definition prepares : Prop :=
  ∀ t, ∃ t', prepare t = (Ret tt, t') ∧ requestMutex t' = requestMutex t
     ∧ isReceiving t' = isReceiving t ∧ hasReceived t' = hasReceived t ∧ rx_socket t' = rx_socket t.

(** A round of the module's thread that returns: nothing has come, or data. *)
Lemma async_work_cases t h (b : B) e' :
  requestMutex t = false → ab_idle b → async_work (AsyncEnv t h b) = (Ret tt, e') →
  ab_idle (env_buffer e') ∧ requestMutex (env_unit e') = false
  ∧ isReceiving (env_unit e') = isReceiving t
  ∧ ((transceiver_received t = [] ∧ hasReceived (env_unit e') = hasReceived t)
     ∨ ∃ d, transceiver_received t = [d] ∧ isReceiving t = true ∧ hasReceived (env_unit e') = true).
Proof.
  intros Hm Hb Hw. unfold transceiver_received.
  destruct (async_work_returns t h b e' Hm Hb Hw)
    as [(s & -> & ->)|(topic & s1 & r & s2 & b' & -> & -> & Hi & Hb' & _ & ->)]; simpl.
  - split_and!; auto.
  - rewrite Hi. split_and!; try done. right. by eexists.
Qed.

(** The phase of a unit, by its flags. *)
Definition unit_phase t : phase :=
  if isReceiving t then if hasReceived t then Filled else Open else Idle.

Record link_inv (h0 : heap) (b0 : B) (evs : list comm_event) (s : link) : Prop := {
  li_free : requestMutex (env_unit s.1) = false;
  li_buffer : ab_idle (env_buffer s.1);
  li_flags : hasReceived (env_unit s.1) = true → isReceiving (env_unit s.1) = true;
  li_waiting : s.2 = true → isReceiving (env_unit s.1) = true;
  li_phase : phases Idle evs = Some (unit_phase (env_unit s.1));
  li_items : ∃ items, ab_contents (env_buffer s.1) = ab_contents b0 ++ items
    ∧ stored h0 items (measured evs) (env_heap s.1);
}.

Lemma stored_app h items texts h1 items' texts' h2 :
  stored h items texts h1 → stored h1 items' texts' h2 → stored h (items ++ items') (texts ++ texts') h2.
Proof. induction 1; simpl; intros; [done|]. constructor. auto. Qed.

(** A step of the io_service thread: the unit's flags, with nothing pushed. *)
Lemma link_inv_unit h0 b0 evs t h b w new t' w' :
  link_inv h0 b0 evs (AsyncEnv t h b, w) → measured new = [] →
  requestMutex t' = false → (hasReceived t' = true → isReceiving t' = true) →
  (w' = true → isReceiving t' = true) → phases (unit_phase t) new = Some (unit_phase t') →
  link_inv h0 b0 (evs ++ new) (AsyncEnv t' h b, w').
Proof.
  intros [Hf Hb Hfl Hw Hp (items & Hc & Hs)] Hnew Hf' Hfl' Hw' Hp'. split; simpl in *; try done.
  - by rewrite phases_app, Hp.
  - exists items. by rewrite measured_app, Hnew, app_nil_r.
Qed.

Lemma link_step_inv h0 b0 evs s new s' :
  prepares → link_step s new s' → link_inv h0 b0 evs s → link_inv h0 b0 (evs ++ new) s'.
Proof.
  intros Hprep Hstep Hinv. pose proof Hinv as [Hf Hb Hfl Hw Hp (items & Hc & Hs)].
  destruct Hstep as [p t t' h b Hr|p t t' h b Hr|w [t h b] [t' h' b'] Ha]; simpl in *.
  - destruct (isReceiving t) eqn:Hi; [destruct (hasReceived t) eqn:Hh|].
    + rewrite process_end in Hr by done. simplify_eq/=. rewrite Hi.
      eapply link_inv_unit; try done. unfold unit_phase. by rewrite Hi, Hh.
    + rewrite process_waits in Hr by done. simplify_eq/=.
      eapply link_inv_unit; try done; by rewrite Hh.
    + rewrite process_begin in Hr by done.
      destruct (Hprep (upd l_requestMutex true t)) as (t1 & Hpr & _ & Hi1 & Hh1 & _).
      rewrite Hpr in Hr. simplify_eq/=. rewrite Hi. simpl in *. rewrite Hi in Hi1.
      assert (hasReceived t = false) as Hht by (destruct (hasReceived t); [by specialize (Hfl eq_refl)|done]).
      eapply link_inv_unit; try done; unfold unit_phase; simpl; by rewrite ?Hi, ?Hi1, ?Hh1, ?Hht.
  - specialize (Hw eq_refl). rewrite process_resume_eq in Hr by done.
    destruct (hasReceived t) eqn:Hh; simplify_eq/=.
    + rewrite Hw. eapply link_inv_unit; try done; unfold unit_phase; simpl; by rewrite ?Hw, ?Hh.
    + eapply link_inv_unit; try done; by rewrite Hh.
  - destruct (async_work_cases t h b _ Hf Hb Ha) as (Hb' & Hf' & Hi' & Hcase). simpl in *.
    destruct (transceiver_received_spec (AsyncEnv t h b) _ Hb Ha) as (new & Hc' & Hst). simpl in *.
    split; simpl; try done.
    + rewrite Hi'. destruct Hcase as [[_ ->]|(d & _ & -> & _)]; auto.
    + by rewrite Hi'.
    + rewrite phases_app, Hp. simpl. unfold unit_phase. rewrite Hi'.
      destruct Hcase as [[-> ->]|(d & -> & -> & ->)]; simpl; [done|]. by destruct (hasReceived t).
    + exists (items ++ new). rewrite Hc', Hc, app_assoc. split; [done|].
      rewrite measured_app. replace (measured (Measured <$> transceiver_received t)) with (transceiver_received t).
      * by eapply stored_app.
      * clear. induction (transceiver_received t) as [|d ds IH]; [done|]. simpl. by f_equal.
Qed.

Lemma link_trace_inv h0 b0 s evs s' :
  prepares → link_trace s evs s' → link_inv h0 b0 [] s → link_inv h0 b0 evs s'.
Proof. intros Hp Htr Hs. induction Htr; [done|by eapply link_step_inv]. Qed.

(** C4. The communications of a unit, in every interleaving of the peers' requests,
    the wake-ups of the io_service thread and the module's thread: what happens is
    always a prefix of a sequence of communications, each begun, then measured at
    least once, then completed. So the unit is receiving exactly while a
    communication is open, no communication is completed without a measurement
    of its own, and there are never fewer measurements in the buffer than
    communications completed; what is in the buffer are the measurements, in
    order. *)
Theorem communications_in_order t0 h0 b0 evs t h b w :
  prepares → requestMutex t0 = false → isReceiving t0 = false → hasReceived t0 = false → ab_idle b0 →
  link_trace (AsyncEnv t0 h0 b0, false) evs (AsyncEnv t h b, w) →
  phases Idle evs = Some (unit_phase t)
  ∧ begun evs = completed evs + (if isReceiving t then 1 else 0)
  ∧ completed evs + (if hasReceived t then 1 else 0) ≤ length (measured evs)
  ∧ ∃ items, ab_contents b = ab_contents b0 ++ items ∧ stored h0 items (measured evs) h
      ∧ length items = length (measured evs).
Proof.
  intros Hprep Hm Hi Hh Hb Htr.
  assert (link_inv h0 b0 [] (AsyncEnv t0 h0 b0, false)) as Hinit.
  { split; simpl; try done; [by rewrite Hh|by unfold unit_phase; rewrite Hi|].
    exists []. rewrite app_nil_r. split; [done|constructor]. }
  destruct (link_trace_inv _ _ _ _ _ Hprep Htr Hinit) as [_ _ Hfl _ Hp (items & Hc & Hs)]. simpl in *.
  destruct (phases_counts _ _ _ Hp) as [H1' H2']. rewrite decide_True in H1' by done.
  rewrite (decide_False (P := Idle = Filled)) in H2' by done.
  split_and!; [done| | |].
  - rewrite Nat.add_0_r in H1'. rewrite H1'. unfold unit_phase. by destruct (isReceiving t), (hasReceived t).
  - rewrite Nat.add_0_r in H2'. etrans; [|exact H2']. unfold unit_phase.
    destruct (hasReceived t); [|by destruct (isReceiving t)]. by rewrite (Hfl eq_refl).
  - exists items. split_and!; [done|done|]. clear -Hs. induction Hs; simpl; auto.
Qed.

(** ** The request server of a unit

    The module's thread goes on while the io_service thread waits; an exception
    of its ends the program. *)
Definition module_round : M (async_env (transceiver X) B) () := λ e,
  match async_work e with
  | (Throw _, e') => (Fatal Terminate, e')
  | r => r
  end.

(** [hasReceivedCV.wait]: rounds of the other thread until the unit goes on;
    not to go on within [fuel] of them is not to return. *)
Fixpoint wait_received (fuel : nat) : M (async_env (transceiver X) B) () :=
  match fuel with
  | O => fail Deadlock
  | S fuel' =>
      module_round ;;
      p <- zoom l_unit process_resume ;;
      match p with
      | Done => ret tt
      | Waiting => wait_received fuel'
      end
  end.

(** [process] as the callback of the server; both messages are unused. *)
Definition process_request (fuel : nat) (incoming : NetMessages.request) (outgoing : NetMessages.response) :
    M (async_env (transceiver X) B) NetMessages.response :=
  p <- zoom l_unit (process prepare) ;;
  match p with
  | Done => ret outgoing
  | Waiting => wait_received fuel ;; ret outgoing
  end.

(** The accept loop, for the clients that connect one after the other. *)
Fixpoint serve_clients (fuel : nat) (socks : list Tcp) : M (server (async_env (transceiver X) B)) () :=
  match socks with
  | [] => ret tt
  | sock :: socks' => on_accept (process_request fuel) sock 3 ;; serve_clients fuel socks'
  end.

(** What the sender writes to open and to close a communication. *)
Definition open_bytes : list Z := msg_data (request_init 0 1 0).
Definition close_bytes : list Z := msg_data (request_init 0 2 0).

(** A socket that has been accepted and has read [bytes] to give. *)
Definition connects (sock sock1 : Tcp) (bytes : list Z) : Prop :=
  tcp_set_linger sock = (Ret tt, sock1) ∧ writable sock1 ∧ incoming sock1 = bytes.

(** The simulator's socket yields the measurement [d] after [n] rounds without
    any. *)
Inductive delivers : Socket → list ascii → nat → Socket → Prop :=
| delivers_now s topic r s1 s2 :
    zmq_recv s = (Ret (Some topic), s1) → zmq_recv s1 = (Ret r, s2) → delivers s (data_of topic r) 0 s2
| delivers_later s s1 d n s2 :
    zmq_recv s = (Ret None, s1) → delivers s1 d n s2 → delivers s d (S n) s2.

(** One measurement after the other, none later than [fuel] rounds. *)
Inductive deliveries (fuel : nat) : Socket → list (list ascii) → Socket → Prop :=
| deliveries_nil s : deliveries fuel s [] s
| deliveries_cons s d n s1 ds s2 :
    delivers s d n s1 → n < fuel → deliveries fuel s1 ds s2 → deliveries fuel s (d :: ds) s2.

(** A unit between communications, and in one, with its socket. *)
Definition at_rest (t : transceiver X) (s : Socket) : Prop :=
  requestMutex t = false ∧ isReceiving t = false ∧ hasReceived t = false ∧ rx_socket t = s.
Definition receiving (t : transceiver X) (s : Socket) : Prop :=
  requestMutex t = false ∧ isReceiving t = true ∧ hasReceived t = false ∧ rx_socket t = s.

Lemma process_request_begin fuel r p t s h b :
  prepares → at_rest t s →
  ∃ t', process_request fuel r p (AsyncEnv t h b) = (Ret p, AsyncEnv t' h b) ∧ receiving t' s.
Proof.
  intros Hprep (Hm & Hi & Hh & Hs).
  destruct (Hprep (upd l_requestMutex true t)) as (t1 & Hpr & _ & Hi1 & Hh1 & Hs1).
  exists (upd l_requestMutex false (upd l_isReceiving (negb (isReceiving t1)) t1)). split.
  - unfold process_request, bind, zoom. cbn [view upd l_unit env_unit].
    by rewrite (process_begin prepare t Hm Hi), Hpr.
  - unfold receiving. simpl in *. by rewrite Hi1, Hi, Hh1, Hs1.
Qed.

Lemma module_round_quiet t h (b : B) s1 :
  zmq_recv (rx_socket t) = (Ret None, s1) →
  module_round (AsyncEnv t h b) = (Ret tt, AsyncEnv (upd l_rx_socket s1 t) h b).
Proof. intros Hr. unfold module_round. by rewrite (async_work_quiet _ _ _ _ Hr). Qed.

Lemma resume_waiting t s h (b : B) :
  receiving t s → zoom l_unit process_resume (AsyncEnv t h b) = (Ret Waiting, AsyncEnv t h b).
Proof.
  intros (Hm & _ & Hh & _). unfold zoom. cbn [view l_unit env_unit].
  by rewrite process_resume_eq, Hh by done.
Qed.

Lemma wait_received_delivers fuel t s d n s' h b :
  delivers s d n s' → receiving t s → ab_idle b → n < fuel →
  ∃ t' b', wait_received fuel (AsyncEnv t h b) = (Ret tt, AsyncEnv t' (message_heap h d) b')
    ∧ at_rest t' s' ∧ ab_idle b' ∧ ab_contents b' = ab_contents b ++ [message_item h d].
Proof.
  intros Hd. revert fuel t. induction Hd as [s topic r s1 s2 Hr1 Hr2|s s1 d n s2 Hr _ IH];
    intros fuel t (Hm & Hi & Hh & <-) Hb Hf; (destruct fuel as [|fuel]; [lia|]); cbn [wait_received].
  - destruct (async_work_data t h b topic r s1 s2 Hm Hi Hb Hr1 Hr2) as (b' & Ha & Hb' & Hc).
    eexists _, b'. split; [|split_and!; [|done|done]].
    + unfold bind at 1, module_round. rewrite Ha. unfold bind, zoom. simpl.
      rewrite process_resume_eq by done. simpl. reflexivity.
    + unfold at_rest. simpl. by rewrite Hi.
  - assert (receiving (upd l_rx_socket s1 t) s1) as Hrec by done.
    destruct (IH fuel _ Hrec Hb) as (t' & b' & Hw & Hrest); [lia|].
    exists t', b'. split; [|done].
    rewrite (bind_Ret _ _ _ _ _ (module_round_quiet t h b s1 Hr)).
    by rewrite (bind_Ret _ _ _ _ _ (resume_waiting _ _ _ _ Hrec)).
Qed.

Lemma process_request_end fuel r p t s d n s' h b :
  delivers s d n s' → receiving t s → ab_idle b → n < fuel →
  ∃ t' b', process_request fuel r p (AsyncEnv t h b) = (Ret p, AsyncEnv t' (message_heap h d) b')
    ∧ at_rest t' s' ∧ ab_idle b' ∧ ab_contents b' = ab_contents b ++ [message_item h d].
Proof.
  intros Hd Ht Hb Hn. destruct (wait_received_delivers _ _ _ _ _ _ h b Hd Ht Hb Hn) as (t' & b' & Hw & Hrest).
  exists t', b'. split; [|done]. destruct Ht as (Hm & Hi & Hh & _).
  unfold process_request, bind at 1, zoom. simpl. rewrite process_waits by done. simpl.
  by rewrite (bind_Ret _ _ _ _ _ Hw).
Qed.

(** The two requests of a communication. *)
Definition handshake : list NetMessages.request := [request_init 0 1 0; request_init 0 2 0].

Lemma handshake_processed fuel t s d n s' h b :
  prepares → delivers s d n s' → at_rest t s → ab_idle b → n < fuel →
  ∃ t' b', process_all (process_request fuel) handshake (AsyncEnv t h b)
      = (Ret [NetMessages.response_empty; NetMessages.response_empty], AsyncEnv t' (message_heap h d) b')
    ∧ at_rest t' s' ∧ ab_idle b' ∧ ab_contents b' = ab_contents b ++ [message_item h d].
Proof.
  intros Hprep Hd Ht Hb Hn.
  destruct (process_request_begin fuel (request_init 0 1 0) NetMessages.response_empty t s h b Hprep Ht)
    as (t1 & H1' & Ht1).
  destruct (process_request_end fuel (request_init 0 2 0) NetMessages.response_empty t1 s d n s' h b Hd Ht1 Hb Hn)
    as (t2 & b2 & H2' & Hrest).
  exists t2, b2. split; [|done]. unfold handshake. simpl process_all.
  rewrite (bind_Ret _ _ _ _ _ H1'), bind_assoc, (bind_Ret _ _ _ _ _ H2'). reflexivity.
Qed.

Lemma session_handshake fuel sock sock1 t s d n s' h b :
  prepares → connects sock sock1 (open_bytes ++ close_bytes) →
  delivers s d n s' → at_rest t s → ab_idle b → n < fuel →
  ∃ sock' t' b', session_run (process_request fuel) 3 (Session sock (AsyncEnv t h b))
      = (Ret true, Session sock' (AsyncEnv t' (message_heap h d) b'))
    ∧ outgoing sock' = outgoing sock1 ++ replicate 8 0%Z
    ∧ at_rest t' s' ∧ ab_idle b' ∧ ab_contents b' = ab_contents b ++ [message_item h d].
Proof.
  intros Hprep (Hl & Hw & Hin) Hd Ht Hb Hn.
  destruct (handshake_processed _ _ _ _ _ _ h b Hprep Hd Ht Hb Hn) as (t' & b' & Hp & Hrest).
  destruct (session_loop_serves (process_request fuel) handshake [] sock1 (AsyncEnv t h b)
    [NetMessages.response_empty; NetMessages.response_empty] (AsyncEnv t' (message_heap h d) b') 3)
    as (sock' & Hs & Ho); [repeat constructor|simpl; lia|exact Hin|done|exact Hp|simpl; lia|].
  exists sock', t', b'. split; [|done]. unfold session_run, bind, zoom. simpl. by rewrite Hl.
Qed.

(** ** The sender *)

Lemma write_read s0 (m : NetMessages.request) payload rest :
  writable s0 → length payload = 4 → incoming s0 = payload ++ rest →
  ∃ r s1, (write_message m ;; read_message (I := NetMessages.response)) (TcpClient s0 (Some false))
      = (Ret r, TcpClient s1 (Some false))
    ∧ writable s1 ∧ incoming s1 = rest ∧ outgoing s1 = outgoing s0 ++ msg_data m.
Proof.
  intros Hw Hl Hin. destruct (tcp_write_all (msg_data m) s0 Hw) as (s1 & Hwr & Hi1 & Ho1 & Hw1).
  destruct (base_read_wire (I := NetMessages.response) payload rest s1) as (r & s2 & Hr & _ & Hi2 & Ho2 & Hw2);
    [done|by rewrite Hi1|].
  exists r, s2. split_and!; [|auto|done|congruence]. unfold bind, write_message, read_message.
  rewrite locked_free by done. unfold base_write. rewrite (bind_Ret _ _ _ _ _ Hwr). simpl.
  rewrite locked_free by done. simpl. by rewrite Hr.
Qed.

(** C5. Transmitting, seen from both sides. The sender: against a peer that answers
    with eight zero bytes, [open_connection] and [close_connection] return and
    have written exactly the bytes of the two requests. The receiver: a client
    that sends these bytes and disconnects is answered with eight zero bytes;
    and when as many such clients have come as there are measurements from the
    simulator, the unit is at rest, the server waits for the next client, and
    the measurements have been pushed into the module's buffer, in order. *)
Theorem communications_received :
  (∀ ip port s0, tcp_connect ip (wrap 16 port) = Ret s0 → writable s0 → outgoing s0 = [] →
     incoming s0 = replicate 8 0%Z →
     ∃ c c', open_connection ip port = Ret c ∧ close_connection c = (Ret tt, c')
       ∧ outgoing (NetMessages.socket c) = open_bytes
       ∧ outgoing (NetMessages.socket c') = open_bytes ++ close_bytes)
  ∧ (∀ fuel socks ds t h b s s' srv,
       prepares → at_rest t s → ab_idle b → deliveries fuel s ds s' → length socks = length ds →
       Forall (λ sock, ∃ sock1, connects sock sock1 (open_bytes ++ close_bytes)) socks →
       waiting srv → instance srv = AsyncEnv t h b →
       ∃ t' h' b' srv' items, serve_clients fuel socks srv = (Ret tt, srv') ∧ waiting srv'
         ∧ instance srv' = AsyncEnv t' h' b' ∧ at_rest t' s'
         ∧ ab_contents b' = ab_contents b ++ items ∧ stored h items ds h')
  ∧ (∀ fuel sock sock1 t h b s d n s',
       prepares → connects sock sock1 (open_bytes ++ close_bytes) → delivers s d n s' →
       at_rest t s → ab_idle b → n < fuel →
       ∃ ses, session_run (process_request fuel) 3 (Session sock (AsyncEnv t h b)) = (Ret true, ses)
         ∧ outgoing (_socket ses) = outgoing sock1 ++ replicate 8 0%Z).
Proof.
  split_and!.
  - intros ip port s0 Hc Hw Ho Hin. unfold open_connection, tcp_client_ctor, base_ctor. rewrite Hc. simpl.
    destruct (write_read s0 (request_init 0 1 0) (replicate 4 0%Z) (replicate 4 0%Z)) as (r & s1 & H1' & Hw1 & Hi1 & Ho1);
      [done|done|done|].
    destruct (write_read s1 (request_init 0 2 0) (replicate 4 0%Z) []) as (r2 & s2 & H2' & _ & _ & Ho2);
      [done|done|done|].
    rewrite H1'. eexists _, _. split_and!; [done| | |].
    + unfold close_connection. rewrite <-bind_assoc. rewrite (bind_Ret _ _ _ _ _ H2'). reflexivity.
    + simpl. by rewrite Ho1, Ho.
    + simpl. by rewrite Ho2, Ho1, Ho.
  - intros fuel socks ds. revert socks. induction ds as [|d ds IH]; intros socks t h b s s' srv Hprep Ht Hb Hds Hlen Hsocks Hwait Hinst.
    + destruct socks; [|done]. inversion Hds; subst. exists t, h, b, srv, [].
      split_and!; try done; [by rewrite app_nil_r|constructor].
    + destruct socks as [|sock socks]; [done|]. injection Hlen as Hlen.
      apply Forall_cons in Hsocks as [[sock1 Hconn] Hsocks]. inversion Hds as [|? ? n s1 ? ? Hd Hn Hds']; subst.
      destruct (session_handshake fuel sock sock1 t s d n s1 h b Hprep Hconn Hd Ht Hb Hn)
        as (sock' & t1 & b1 & Hrun & _ & Ht1 & Hb1 & Hc1).
      destruct Hwait as (i & Hl & Hi & Ha & Hu).
      assert (∃ srv1, on_accept (process_request fuel) sock 3 srv = (Ret tt, srv1) ∧ waiting srv1
        ∧ instance srv1 = AsyncEnv t1 (message_heap h d) b1) as (srv1 & Hacc & Hwait1 & Hinst1).
      { unfold on_accept. rewrite Ha. cbn [live next_session instance]. rewrite Hinst, Hrun.
        rewrite decide_True by (rewrite Hl; set_solver). eexists. split_and!; [done| |done].
        apply accept_waiting. simpl. rewrite Hl. set_solver. }
      destruct (IH socks t1 (message_heap h d) b1 s1 s' srv1 Hprep Ht1 Hb1 Hds' Hlen Hsocks Hwait1 Hinst1)
        as (t' & h' & b' & srv' & items & Hserve & Hwait' & Hinst' & Ht' & Hc' & Hst).
      exists t', h', b', srv', (message_item h d :: items). split_and!; try done.
      * simpl. by rewrite (bind_Ret _ _ _ _ _ Hacc).
      * rewrite Hc', Hc1, <-app_assoc. done.
      * by constructor.
  - intros fuel sock sock1 t h b s d n s' Hprep Hconn Hd Ht Hb Hn.
    destruct (session_handshake fuel sock sock1 t s d n s' h b Hprep Hconn Hd Ht Hb Hn)
      as (sock' & t1 & b1 & Hrun & Ho & _).
    eexists. split; [exact Hrun|exact Ho].
Qed.

(** C29. A communication that is abandoned: a client that has opened one and
    disconnects is served like any other, but the unit goes on receiving. From
    then on it is one request behind: the opening request of the next client
    waits for a measurement and is answered as if it closed, its closing request
    opens, and the unit is left receiving again. *)
Theorem abandoned_communication fuel sock1 sock1' sock2 sock2' t h b s d n s' :
  prepares → at_rest t s → ab_idle b → delivers s d n s' → n < fuel →
  connects sock1 sock1' open_bytes → connects sock2 sock2' (open_bytes ++ close_bytes) →
  ∃ ses1 ses2,
    session_run (process_request fuel) 2 (Session sock1 (AsyncEnv t h b)) = (Ret true, ses1)
    ∧ receiving (env_unit (_instance ses1)) s ∧ ab_contents (env_buffer (_instance ses1)) = ab_contents b
    ∧ session_run (process_request fuel) 3 (Session sock2 (_instance ses1)) = (Ret true, ses2)
    ∧ receiving (env_unit (_instance ses2)) s'
    ∧ ab_contents (env_buffer (_instance ses2)) = ab_contents b ++ [message_item h d].
Proof.
  intros Hprep Ht Hb Hd Hn (Hl1 & Hw1 & Hi1) (Hl2 & Hw2 & Hi2).
  set (rs := NetMessages.response_empty).
  destruct (process_request_begin fuel (request_init 0 1 0) rs t s h b Hprep Ht) as (t1 & Hp1 & Ht1).
  destruct (process_request_end fuel (request_init 0 1 0) rs t1 s d n s' h b Hd Ht1 Hb Hn)
    as (t2 & b2 & Hp2 & Ht2 & _ & Hc2).
  destruct (process_request_begin fuel (request_init 0 2 0) rs t2 s' (message_heap h d) b2 Hprep Ht2) as (t3 & Hp3 & Ht3).
  destruct (session_loop_serves (process_request fuel) [request_init 0 1 0] [] sock1' (AsyncEnv t h b)
    [rs] (AsyncEnv t1 h b) 2) as (sock3 & Hs1 & _); [repeat constructor|simpl; lia|exact Hi1|done| |simpl; lia|].
  { simpl process_all. by rewrite (bind_Ret _ _ _ _ _ Hp1). }
  destruct (session_loop_serves (process_request fuel) handshake [] sock2' (AsyncEnv t1 h b)
    [rs; rs] (AsyncEnv t3 (message_heap h d) b2) 3) as (sock4 & Hs2 & _);
    [repeat constructor|simpl; lia|exact Hi2|done| |simpl; lia|].
  { unfold handshake. simpl process_all. by rewrite (bind_Ret _ _ _ _ _ Hp2), bind_assoc, (bind_Ret _ _ _ _ _ Hp3). }
  exists (Session sock3 (AsyncEnv t1 h b)), (Session sock4 (AsyncEnv t3 (message_heap h d) b2)).
  unfold session_run, bind, zoom. simpl. rewrite Hl1, Hl2. simpl. by split_and!.
Qed.
End communications.

(** ** Witnesses

    A transceiver whose simulator has one measurement after an empty round. *)
Section witness.
#[local] Instance witness_boost : BoostOptions := constant_options ∅.
#[local] Instance witness_os : OS := os_with None.

Definition script : list (option (list ascii)) := [None; Some (chars "1234"); Some (chars "01")].
Definition served_trx : transceiver () := sample_trx script [].
Definition script_socket : Socket := Scripted script true [].
Definition script_end : Socket := Scripted [] true [].

Lemma trx_prepares : prepares (X := ()) (ret tt).
Proof. intros t. by exists t. Qed.

Lemma script_delivers : delivers script_socket (chars "01") 1 script_end.
Proof. eapply delivers_later; [reflexivity|]. by eapply (delivers_now _ (chars "1234") (Some (chars "01"))). Qed.

Lemma trx_at_rest : at_rest served_trx script_socket.
Proof. by split_and!. Qed.

Lemma buffer_idle : ab_idle queue_buffer_init.
Proof. exact qinv_init. Qed.

Definition peer (bytes : list Z) : Tcp := (bytes, []).

Lemma communications_in_order_witness :
  let e := (Transceiver.process (ret tt) served_trx).2 in
  isReceiving e = true
  ∧ phases Idle [Begun] = Some (unit_phase e)
  ∧ begun [Begun] = completed [Begun] + 1.
Proof.
  intros e.
  assert (link_trace (B := queue_buffer) (ret tt) (AsyncEnv served_trx ∅ queue_buffer_init, false) ([] ++ [Begun])
    (AsyncEnv e ∅ queue_buffer_init, false)) as Htr.
  { eapply lt_snoc; [constructor|]. exact (ls_request (ret tt) Done served_trx e ∅ queue_buffer_init eq_refl). }
  destruct (communications_in_order (B := queue_buffer) (ret tt) served_trx ∅ queue_buffer_init _ _ _ _ _
    trx_prepares eq_refl eq_refl eq_refl buffer_idle Htr) as (H1 & H2 & _).
  split; [reflexivity|]. exact (conj H1 H2).
Defined.

Lemma communications_received_witness :
  ∃ t' h' b' srv' items,
    serve_clients (B := queue_buffer) (ret tt) 2 [peer (open_bytes ++ close_bytes)]
      (server_ctor (AsyncEnv served_trx ∅ queue_buffer_init)) = (Ret tt, srv')
    ∧ instance srv' = AsyncEnv t' h' b' ∧ ab_contents b' = [] ++ items ∧ stored ∅ items [chars "01"] h'.
Proof.
  destruct (communications_received (B := queue_buffer) (X := ()) (ret tt)) as (_ & H & _).
  destruct (H 2 [peer (open_bytes ++ close_bytes)] [chars "01"] served_trx ∅ queue_buffer_init script_socket script_end
    (server_ctor (AsyncEnv served_trx ∅ queue_buffer_init)))
    as (t' & h' & b' & srv' & items & H1 & _ & H2 & _ & H3 & H4).
  - exact trx_prepares.
  - exact trx_at_rest.
  - exact buffer_idle.
  - eapply deliveries_cons; [exact script_delivers|lia|constructor].
  - reflexivity.
  - constructor; [|constructor]. exists (peer (open_bytes ++ close_bytes)). repeat split.
  - apply accept_waiting. reflexivity.
  - reflexivity.
  - exists t', h', b', srv', items. exact (conj H1 (conj H2 (conj H3 H4))).
Defined.

Lemma abandoned_communication_witness :
  ∃ ses1 ses2,
    session_run (process_request (B := queue_buffer) (ret tt) 2) 2
      (Session (peer open_bytes) (AsyncEnv served_trx ∅ queue_buffer_init)) = (Ret true, ses1)
    ∧ isReceiving (env_unit (_instance ses1)) = true
    ∧ session_run (process_request (B := queue_buffer) (ret tt) 2) 3
        (Session (peer (open_bytes ++ close_bytes)) (_instance ses1)) = (Ret true, ses2)
    ∧ isReceiving (env_unit (_instance ses2)) = true.
Proof.
  destruct (abandoned_communication (B := queue_buffer) (ret tt) 2 (peer open_bytes) (peer open_bytes)
    (peer (open_bytes ++ close_bytes)) (peer (open_bytes ++ close_bytes)) served_trx ∅ queue_buffer_init
    script_socket (chars "01") 1 script_end) as (ses1 & ses2 & H1 & (_ & H2 & _) & _ & H3 & (_ & H4 & _) & _).
  - exact trx_prepares.
  - exact trx_at_rest.
  - exact buffer_idle.
  - exact script_delivers.
  - lia.
  - repeat split.
  - repeat split.
  - exists ses1, ses2. exact (conj H1 (conj H2 (conj H3 H4))).
Defined.
End witness.
