(* ===== verification/Unloading.v ===== *)
(** * The end of a transceiver (module/brazil/itrx_proc_unit.hpp with net/server.hpp
    and module/imodule.cpp)

    [Transceiver.transceiver_dtor] takes the join of the request thread to return
    and [NetServer.on_accept] is a whole session. Here both are cut: the request
    thread of a unit is a sequence of small steps, from the lock in [work] to the
    end of [ioService.run()], among which the module's thread and the thread that
    unloads the unit take theirs. The first theorem says that what [NetServer]
    and [RequestServer] do at once is one of the orders of these steps; the main
    one says when unloading returns. *)

From S2P Require Import Prelude NetMessages NetServer Actions BufferItem QueueBuffer Json.
From S2P Require Import MiddlewareMessages Zmq Simulation CString ProcUnit Transceiver Bobwire Stream.
From S2P Require Import RequestServer.

Section unloading.
Context `{RapidJSON} `{ZMQ} `{BoostOptions} `{TCP} `{BoostEndian} `{OS}.
Context {X B : Type} `{!AsyncBuffer B} (prepare : M (transceiver X) ()).
Implicit Types t : transceiver X.
Abbreviation env := (async_env (transceiver X) B).

(** ** The state *)

(** Where the request thread is: before the lock in [work]; in [ioService.run()]
    between two handlers; in [run] of a session with a socket, before a read, at
    [hasReceivedCV.wait], before a write; returned from [work]. *)
Inductive position :=
| Starting
| Listening
| Reading (i : nat) (sock : Tcp)
| Measuring (i : nat) (sock : Tcp)
| Answering (i : nat) (sock : Tcp)
| Ended.

(** Where the thread is that unloads the unit: not there; past
    [_stop_async_proc]; past the unit's own destructor and [ioService.stop()],
    at the join; past it. *)
Inductive unload_phase := Loaded | ModuleStopped | Joining | Unloaded.

Definition io_stopped (ph : unload_phase) : bool :=
  match ph with Loaded | ModuleStopped => false | Joining | Unloaded => true end.

(** The unit is the instance of its server, in the environment of the module's
    thread; the server has no session before [work] has constructed it. *)
Record request_thread := RequestThread {
  rt_server : server env;
  rt_at : position;
  rt_phase : unload_phase;
}.

Definition rt_unit (s : request_thread) : transceiver X := env_unit (instance (rt_server s)).

Definition with_instance (e : env) (s : server env) : server env :=
  Server (live s) (next_session s) (accepting s) (_lastUnusedSession s) e.

(** The start of the handler: the session is in use. *)
Definition in_use (s : server env) : server env :=
  Server (live s) (next_session s) None None (instance s).

(** [delete this], and the handler's [accept()]. *)
Definition session_over (i : nat) (s : server env) : server env :=
  accept (Server (live s ∖ {[i]}) (next_session s) (accepting s) (_lastUnusedSession s) (instance s)).

Definition after_process (p : progress) (i : nat) (sock : Tcp) : position :=
  match p with Done => Answering i sock | Waiting => Measuring i sock end.

(** ** The steps *)

(** The request thread. A blocking read is a step not taken; wake-ups may be
    spurious. A step that throws leaves [work] and so ends the program. *)
Inductive request_step : request_thread → request_thread → Prop :=
| th_work ap e s ph :
    zoom l_unit work_endpoint (instance s) = (Ret ap, e) →
    request_step (RequestThread s Starting ph) (RequestThread (accept (with_instance e s)) Listening ph)
| th_accept i sock sock1 s ph :
    io_stopped ph = false → accepting s = Some i → tcp_set_linger sock = (Ret tt, sock1) →
    request_step (RequestThread s Listening ph) (RequestThread (in_use s) (Reading i sock1) ph)
| th_request i sock bs sock1 p e s ph :
    tcp_read (msg_length request_empty) sock = (Ret (inl bs), sock1) →
    zoom l_unit (process prepare) (instance s) = (Ret p, e) →
    request_step (RequestThread s (Reading i sock) ph)
      (RequestThread (with_instance e s) (after_process p i sock1) ph)
| th_disconnect i sock what sock1 s ph :
    tcp_read (msg_length request_empty) sock = (Ret (inr what), sock1) → i ∈ live s →
    request_step (RequestThread s (Reading i sock) ph) (RequestThread (session_over i s) Listening ph)
| th_wakeup i sock p e s ph :
    zoom l_unit process_resume (instance s) = (Ret p, e) →
    request_step (RequestThread s (Measuring i sock) ph)
      (RequestThread (with_instance e s) (after_process p i sock) ph)
| th_answer i sock n sock1 s ph :
    tcp_write (msg_data NetMessages.response_empty) sock = (Ret (inl n), sock1) →
    request_step (RequestThread s (Answering i sock) ph) (RequestThread s (Reading i sock1) ph)
| th_answer_lost i sock what sock1 s ph :
    tcp_write (msg_data NetMessages.response_empty) sock = (Ret (inr what), sock1) → i ∈ live s →
    request_step (RequestThread s (Answering i sock) ph) (RequestThread (session_over i s) Listening ph)
| th_stopped s s' ph :
    io_stopped ph = true → server_dtor s = (Ret tt, s') →
    request_step (RequestThread s Listening ph) (RequestThread s' Ended ph).

(** The module's thread, and [unload_proc_unit]: the module's thread is stopped,
    the unit's destructor deletes the dispatcher, the base's stops the service
    and joins. *)
Inductive unload_step : request_thread → request_thread → Prop :=
| mo_round e s p :
    async_work (instance s) = (Ret tt, e) →
    unload_step (RequestThread s p Loaded) (RequestThread (with_instance e s) p Loaded)
| mo_stop s p :
    unload_step (RequestThread s p Loaded) (RequestThread s p ModuleStopped)
| mo_delete e s p :
    zoom l_unit delete_dispatcher (instance s) = (Ret tt, e) →
    unload_step (RequestThread s p ModuleStopped) (RequestThread (with_instance e s) p Joining)
| mo_join s :
    unload_step (RequestThread s Ended Joining)
      (RequestThread (with_instance (upd l_unit (upd l_requestThread false (env_unit (instance s))) (instance s)) s)
         Ended Unloaded).

Definition any_step (s s' : request_thread) : Prop := request_step s s' ∨ unload_step s s'.

(** A unit whose initialisation has just started the thread. *)
Definition thread_started (s : request_thread) : Prop :=
  ∃ e, s = RequestThread (Server ∅ 0 None None e) Starting Loaded
    ∧ requestMutex (env_unit e) = false ∧ isReceiving (env_unit e) = false ∧ hasReceived (env_unit e) = false
    ∧ is_Some (sin_addr (env_unit e)) ∧ is_Some (sin_port (env_unit e)) ∧ ab_idle (env_buffer e).

(** ** A whole session is one order of the steps *)

Lemma wait_received_steps fuel i sock s e e' :
  wait_received fuel e = (Ret tt, e') →
  rtc any_step (RequestThread (with_instance e s) (Measuring i sock) Loaded)
    (RequestThread (with_instance e' s) (Answering i sock) Loaded).
Proof.
  revert e. induction fuel as [|fuel IH]; intros e; [done|]. cbn [wait_received].
  intros (u & e1 & Hround & Hrest)%bind_Ret_inv. apply bind_Ret_inv in Hrest as (p & e2 & Hres & Hrest).
  assert (async_work e = (Ret tt, e1)) as Ha.
  { revert Hround. unfold module_round. destruct (async_work e) as [[[]| |]]; by intros [=]; subst. }
  eapply rtc_l; [right; exact (mo_round e1 (with_instance e s) _ Ha)|].
  eapply rtc_l; [left; exact (th_wakeup i sock p e2 (with_instance e1 s) Loaded Hres)|].
  destruct p; [|by apply IH]. unfold ret in Hrest. by simplify_eq.
Qed.

Lemma process_request_steps fuel i sock sock1 bs r p p' s e e' :
  tcp_read (msg_length request_empty) sock = (Ret (inl bs), sock1) →
  process_request prepare fuel r p e = (Ret p', e') →
  p' = p ∧ rtc any_step (RequestThread (with_instance e s) (Reading i sock) Loaded)
    (RequestThread (with_instance e' s) (Answering i sock1) Loaded).
Proof.
  intros Hr (q & e1 & Hq & Hrest)%bind_Ret_inv. destruct q.
  - unfold ret in Hrest. simplify_eq. split; [done|]. apply rtc_once. left.
    exact (th_request i sock bs sock1 Done e' (with_instance e s) Loaded Hr Hq).
  - apply bind_Ret_inv in Hrest as ([] & e2 & Hw & Hrest). unfold ret in Hrest. simplify_eq. split; [done|].
    eapply rtc_l; [left; exact (th_request i sock bs sock1 Waiting e1 (with_instance e s) Loaded Hr Hq)|].
    exact (wait_received_steps fuel i sock1 s e1 e' Hw).
Qed.

Lemma session_round_steps fuel i ses b ses' s :
  session_round (process_request prepare fuel) ses = (Ret b, ses') → i ∈ live s →
  rtc any_step (RequestThread (with_instance (_instance ses) s) (Reading i (_socket ses)) Loaded)
    (if b : bool then RequestThread (with_instance (_instance ses') s) (Reading i (_socket ses')) Loaded
     else RequestThread (session_over i (with_instance (_instance ses') s)) Listening Loaded).
Proof.
  destruct ses as [sock e]. intros (r & ses1 & Hr & Hrest)%bind_Ret_inv Hi.
  apply zoom_Ret_inv in Hr as (sock1 & Hr & ->). simpl in *. destruct r as [bs|what].
  - apply bind_Ret_inv in Hrest as (p & ses2 & Hp & Hrest). apply zoom_Ret_inv in Hp as (e' & Hp & ->).
    apply bind_Ret_inv in Hrest as (w & ses3 & Hw & Hrest). apply zoom_Ret_inv in Hw as (sock2 & Hw & ->).
    simpl in *. destruct (process_request_steps fuel i sock sock1 bs _ _ _ s _ _ Hr Hp) as [-> Hsteps].
    etrans; [exact Hsteps|]. destruct w as [n|what]; unfold ret in Hrest; simplify_eq/=; apply rtc_once; left.
    + exact (th_answer i sock1 n sock2 (with_instance e' s) Loaded Hw).
    + exact (th_answer_lost i sock1 what sock2 (with_instance e' s) Loaded Hw Hi).
  - unfold ret in Hrest. simplify_eq/=. apply rtc_once. left.
    exact (th_disconnect i sock what sock1 (with_instance e s) Loaded Hr Hi).
Qed.

Lemma session_loop_steps fuel n i ses ses' s :
  session_loop (process_request prepare fuel) n ses = (Ret true, ses') → i ∈ live s →
  rtc any_step (RequestThread (with_instance (_instance ses) s) (Reading i (_socket ses)) Loaded)
    (RequestThread (session_over i (with_instance (_instance ses') s)) Listening Loaded).
Proof.
  intros Hl Hi. revert ses Hl. induction n as [|n IH]; intros ses; [done|]. simpl.
  intros (b & ses1 & Hr & Hrest)%bind_Ret_inv. etrans; [by eapply session_round_steps|].
  destruct b; [by apply IH|]. unfold ret in Hrest. by simplify_eq.
Qed.

Lemma on_accept_steps fuel n sock s s' :
  waiting s → on_accept (process_request prepare fuel) sock n s = (Ret tt, s') →
  rtc any_step (RequestThread s Listening Loaded) (RequestThread s' Listening Loaded) ∧ waiting s'.
Proof.
  intros (i & Hl & Hi & Ha & Hu) Hc. revert Hc. unfold on_accept. rewrite Ha. cbn [live next_session instance].
  destruct (session_run _ n _) as [[[]|e|f] ses] eqn:Hrun; try done.
  rewrite decide_True by (rewrite Hl; set_solver). intros [= <-]. split.
  - apply bind_Ret_inv in Hrun as ([] & ses1 & Hling & Hloop).
    apply zoom_Ret_inv in Hling as (sock1 & Hling & ->). simpl in Hling.
    eapply rtc_l; [left; by eapply (th_accept i sock sock1)|].
    apply (session_loop_steps fuel n i _ ses (in_use s) Hloop). simpl. rewrite Hl. set_solver.
  - apply accept_waiting. simpl. rewrite Hl. set_solver.
Qed.

(** ** The invariant *)

(** How many sessions there are, and whose they are, at each position. *)
Definition sessions_ok (p : position) (s : server env) : Prop :=
  match p with
  | Starting | Ended => live s = ∅
  | Listening => waiting s
  | Reading i _ | Measuring i _ | Answering i _ => live s = {[i]} ∧ _lastUnusedSession s = None
  end.

Record thread_inv (s : request_thread) : Prop := {
  ti_free : requestMutex (rt_unit s) = false;
  ti_buffer : ab_idle (env_buffer (instance (rt_server s)));
  ti_endpoint : is_Some (sin_addr (rt_unit s)) ∧ is_Some (sin_port (rt_unit s)) ∨ rt_at s ≠ Starting;
  ti_flags : hasReceived (rt_unit s) = true → isReceiving (rt_unit s) = true;
  ti_measuring : ∀ i sock, rt_at s = Measuring i sock → isReceiving (rt_unit s) = true;
  ti_sessions : sessions_ok (rt_at s) (rt_server s);
  ti_phase : rt_phase s = Unloaded → rt_at s = Ended;
  ti_ended : rt_at s = Ended → io_stopped (rt_phase s) = true;
}.

(** How many calls of [process] the unit can return from without the module's
    thread, and how many the peer of the session still causes. *)
Definition allowance t : nat := if isReceiving t then if hasReceived t then 2 else 0 else 1.

Definition requests_in (sock : Tcp) : nat := length (incoming sock) / 4.

Definition pending (p : position) : nat :=
  match p with
  | Reading _ sock | Answering _ sock => requests_in sock
  | Measuring _ sock => S (requests_in sock)
  | _ => 0
  end.

Definition connected (p : position) : Prop :=
  match p with
  | Reading _ sock | Measuring _ sock | Answering _ sock => writable sock
  | _ => True
  end.

Lemma process_allowance t p t' :
  prepares prepare → requestMutex t = false → (hasReceived t = true → isReceiving t = true) →
  process prepare t = (Ret p, t') →
  requestMutex t' = false ∧ (hasReceived t' = true → isReceiving t' = true)
  ∧ match p with
    | Done => allowance t = S (allowance t')
    | Waiting => t' = t ∧ isReceiving t = true ∧ allowance t = 0
    end.
Proof.
  intros Hprep Hm Hf Hp. unfold allowance. destruct (isReceiving t) eqn:Hi; [destruct (hasReceived t) eqn:Hh|].
  - rewrite process_end in Hp by done. by simplify_eq/=.
  - rewrite process_waits in Hp by done. simplify_eq/=. rewrite Hh. by split_and!.
  - rewrite process_begin in Hp by done.
    destruct (Hprep (upd l_requestMutex true t)) as (t1 & Hpr & _ & Hi1 & Hh1 & _). rewrite Hpr in Hp.
    simplify_eq/=. rewrite Hi1, Hi, Hh1. simpl.
    destruct (hasReceived t) eqn:Hh; [by specialize (Hf eq_refl)|done].
Qed.

Lemma process_returns t :
  prepares prepare → requestMutex t = false → ∃ p t', process prepare t = (Ret p, t').
Proof.
  intros Hprep Hm. destruct (isReceiving t) eqn:Hi; [destruct (hasReceived t) eqn:Hh|].
  - rewrite process_end by done. by eauto.
  - rewrite process_waits by done. by eauto.
  - rewrite process_begin by done. destruct (Hprep (upd l_requestMutex true t)) as (t1 & -> & _). by eauto.
Qed.

Lemma resume_allowance t p t' :
  requestMutex t = false → isReceiving t = true → process_resume t = (Ret p, t') →
  requestMutex t' = false ∧ (hasReceived t' = true → isReceiving t' = true)
  ∧ match p with
    | Done => allowance t = S (allowance t')
    | Waiting => t' = t ∧ isReceiving t = true ∧ allowance t = 0
    end.
Proof.
  intros Hm Hi. rewrite process_resume_eq by done. unfold allowance. rewrite Hi.
  destruct (hasReceived t) eqn:Hh; intros [= <- <-]; simpl; [done|]. rewrite Hh. by split_and!.
Qed.

Lemma work_endpoint_eq t :
  requestMutex t = false → is_Some (sin_addr t) → is_Some (sin_port t) → ∃ ap, work_endpoint t = (Ret ap, t).
Proof.
  intros Hm [a Ha] [p Hp]. destruct t; simpl in *; subst. unfold work_endpoint, with_lock, assigned. mrun. by eexists.
Qed.

Lemma work_endpoint_Ret t ap t' : work_endpoint t = (Ret ap, t') → t' = t.
Proof.
  destruct t as [[] rc hr [a|] [p|] th d sk ip ihbo x]; unfold work_endpoint, with_lock, assigned; mrun; by intros [=].
Qed.

Lemma delete_dispatcher_Ret t t' :
  delete_dispatcher t = (Ret tt, t') → t' = t ∨ t' = upd l_dispatcher None t.
Proof.
  unfold delete_dispatcher. mrun. destruct (dispatcher t) as [c|]; [|intros [= <-]; by left].
  destruct (client_dtor c) as [[]]; try done. intros [= <-]. by right.
Qed.

Lemma in_session_over i s : live s = {[i]} → waiting (session_over i s).
Proof. intros Hl. apply accept_waiting. simpl. rewrite Hl. set_solver. Qed.

(** A call of the unit by the request thread, in a session. *)
Lemma thread_inv_call s i sock p t' ph e :
  thread_inv s → rt_phase s = ph → ph ≠ Unloaded → live (rt_server s) = {[i]} → _lastUnusedSession (rt_server s) = None →
  e = upd l_unit t' (instance (rt_server s)) →
  requestMutex t' = false → (hasReceived t' = true → isReceiving t' = true) →
  (p = Waiting → isReceiving t' = true) →
  thread_inv (RequestThread (with_instance e (rt_server s)) (after_process p i sock) ph).
Proof.
  intros [Hm Hb _ _ _ _ _ _] _ Hph Hl Hu -> Hm' Hf' Hw.
  split; try done; destruct p; simpl; try done; try (by right).
  intros ? ? [= <- <-]. by apply Hw.
Qed.

Lemma request_step_inv s s' : prepares prepare → request_step s s' → thread_inv s → thread_inv s'.
Proof.
  intros Hprep Hstep Hinv. pose proof Hinv as [Hm Hb He Hf Hw Hs Hph Hend].
  destruct Hstep as [ap e s ph Ha|i sock sock1 s ph Hst Ha Hling|i sock bs sock1 p e s ph Hr Hp
    |i sock what sock1 s ph Hr Hi|i sock p e s ph Hp|i sock n sock1 s ph Hwr|i sock what sock1 s ph Hwr Hi
    |s s' ph Hst Hd]; unfold rt_unit in *; simpl in *.
  - apply zoom_Ret_inv in Ha as (t & Ha%work_endpoint_Ret & ->). simpl in *. subst t.
    split; try done; simpl; [by right|by apply accept_waiting|intros ->; by specialize (Hph eq_refl)].
  - destruct Hs as (j & Hl & _ & Ha' & Hu). simplify_eq. split; try done; simpl; [by right|by intros ->].
  - apply zoom_Ret_inv in Hp as (t' & Hp & ->).
    destruct (process_allowance _ _ _ Hprep Hm Hf Hp) as (Hm' & Hf' & Hc).
    eapply (thread_inv_call _ i sock1 p t' ph _ Hinv); simpl; try done; try apply Hs.
    + intros ->. by specialize (Hph eq_refl).
    + intros ->. by destruct Hc as (-> & Hi & _).
  - split; try done; simpl; [by right|by apply in_session_over; apply Hs|intros ->; by specialize (Hph eq_refl)].
  - apply zoom_Ret_inv in Hp as (t' & Hp & ->). specialize (Hw _ _ eq_refl).
    destruct (resume_allowance _ _ _ Hm Hw Hp) as (Hm' & Hf' & Hc).
    eapply (thread_inv_call _ i sock p t' ph _ Hinv); simpl; try done; try apply Hs.
    + intros ->. by specialize (Hph eq_refl).
    + intros ->. by destruct Hc as (-> & Hi & _).
  - split; try done; simpl; [by right|intros ->; by specialize (Hph eq_refl)].
  - split; try done; simpl; [by right|by apply in_session_over; apply Hs|intros ->; by specialize (Hph eq_refl)].
  - destruct Hs as (j & Hl & _ & _ & Hu). revert Hd. unfold server_dtor. rewrite Hu, decide_True by set_solver.
    intros [= <-]. split; try done; simpl; [by right|]. rewrite Hl. set_solver.
Qed.

Lemma unload_step_inv s s' : unload_step s s' → thread_inv s → thread_inv s'.
Proof.
  intros Hstep [Hm Hb He Hf Hw Hs Hph Hend].
  destruct Hstep as [e s p Ha|s p|e s p Hd|s]; unfold rt_unit in *; simpl in *.
  - destruct (instance s) as [t h b] eqn:Hinst. simpl in *.
    destruct (async_work_returns t h b e Hm Hb Ha)
      as [(sk & _ & ->)|(topic & s1 & r & s2 & b' & _ & _ & Hi & Hb' & _ & ->)];
      split; unfold rt_unit; simpl; try done; try by destruct p.
  - by split.
  - apply zoom_Ret_inv in Hd as (t' & Hd & ->). simpl in *.
    destruct (delete_dispatcher_Ret _ _ Hd) as [-> | ->]; split; unfold rt_unit; simpl; try done; by destruct p.
  - split; try done; by right.
Qed.

Lemma started_inv s : thread_started s → thread_inv s.
Proof.
  intros (e & -> & Hm & Hi & Hh & Ha & Hp & Hb). split; unfold rt_unit; simpl; try done; [by left|by rewrite Hh].
Qed.

Lemma any_step_inv s s' : prepares prepare → any_step s s' → thread_inv s → thread_inv s'.
Proof. intros Hprep [Hs|Hs]; [by eapply request_step_inv|by eapply unload_step_inv]. Qed.

Lemma unload_reach_inv s s' : prepares prepare → rtc any_step s s' → thread_inv s → thread_inv s'.
Proof. intros Hprep. induction 1; eauto using any_step_inv. Qed.

(** ** What is left to do *)

Lemma read_request sock bs sock1 :
  writable sock → tcp_read (msg_length request_empty) sock = (Ret (inl bs), sock1) →
  writable sock1 ∧ requests_in sock = S (requests_in sock1).
Proof.
  change (msg_length request_empty) with 4. intros Hw Hr. unfold requests_in.
  destruct (decide (4 ≤ length (incoming sock))) as [Hl|Hl].
  - destruct (tcp_read_enough 4 sock Hl) as (s1 & Hr1 & Hi & _ & Hw1). rewrite Hr in Hr1. simplify_eq.
    split; [auto|]. rewrite Hi, length_drop. replace (length (incoming sock)) with (length (incoming sock) - 4 + 1 * 4) at 1 by lia.
    rewrite Nat.div_add by done. lia.
  - destruct (tcp_read_short 4 sock) as (what & s1 & Hr1 & _); [lia|]. by rewrite Hr in Hr1.
Qed.

Lemma read_over sock what sock1 :
  tcp_read (msg_length request_empty) sock = (Ret (inr what), sock1) → requests_in sock = 0.
Proof.
  change (msg_length request_empty) with 4. intros Hr. unfold requests_in.
  destruct (decide (4 ≤ length (incoming sock))) as [Hl|Hl]; [|apply Nat.div_small; lia].
  destruct (tcp_read_enough 4 sock Hl) as (s1 & Hr1 & _). by rewrite Hr in Hr1.
Qed.

Lemma write_answer bs sock w sock1 :
  writable sock → tcp_write bs sock = (Ret w, sock1) →
  writable sock1 ∧ requests_in sock1 = requests_in sock ∧ ∃ n, w = inl n.
Proof.
  intros Hw Hr. destruct (tcp_write_all bs sock Hw) as (s1 & Hr1 & Hi & _ & Hw1). rewrite Hr in Hr1.
  simplify_eq. unfold requests_in. rewrite Hi. by eauto.
Qed.

(** The steps left once the service is stopped. *)
Definition steps_left (s : request_thread) : nat :=
  match rt_phase s, rt_at s with
  | Unloaded, _ => 0
  | _, Starting => 3
  | _, Listening => 2
  | _, Reading _ sock => 3 * requests_in sock + 3
  | _, Measuring _ sock => 3 * requests_in sock + 5
  | _, Answering _ sock => 3 * requests_in sock + 4
  | _, Ended => 1
  end.

(** The requests still to come can be processed without the module's thread. *)
Definition unhindered (s : request_thread) : Prop := pending (rt_at s) ≤ allowance (rt_unit s).

(** The service is stopped, and the peer of the session reads its answers. *)
Definition stopping (s : request_thread) : Prop :=
  thread_inv s ∧ io_stopped (rt_phase s) = true ∧ connected (rt_at s).

Lemma stopping_call p t t' i sock s ph k :
  match p with
  | Done => allowance t = S (allowance t')
  | Waiting => t' = t ∧ isReceiving t = true ∧ allowance t = 0
  end → 
  let s' := RequestThread (with_instance (upd l_unit t' (instance s)) s) (after_process p i sock) ph in
  io_stopped ph = true → ph ≠ Unloaded → 3 * requests_in sock + 5 ≤ k →
  (S (requests_in sock) ≤ allowance t ↔ unhindered s')
  ∧ (S (requests_in sock) ≤ allowance t → steps_left s' < k).
Proof.
  intros Hc s' Hph Hnu Hk. unfold unhindered, steps_left, rt_unit, s'. destruct p; simpl.
  - rewrite Hc. split; [lia|]. destruct ph; try done. lia.
  - destruct Hc as (-> & _ & Ha). rewrite Ha. lia.
Qed.

(** What a step makes of a unit that is being stopped. *)
Definition stopping_kept (s s' : request_thread) : Prop :=
  connected (rt_at s') ∧ (unhindered s ↔ unhindered s') ∧ (unhindered s → steps_left s' < steps_left s).

Lemma stopping_request_step s0 s0' :
  prepares prepare → stopping s0 → request_step s0 s0' → rt_phase s0' = rt_phase s0 ∧ stopping_kept s0 s0'.
Proof.
  intros Hprep ([Hm _ _ Hf Hw _ Hph _] & Hst & Hc) Hstep. unfold stopping_kept, rt_unit in *.
  assert (rt_phase s0 = Unloaded → rt_at s0 = Ended) as Hnu by done. clear Hph.
  destruct Hstep as [ap e s ph Ha|i sock sock1 s ph Hl|i sock bs sock1 p e s ph Hr Hp
    |i sock what sock1 s ph Hr Hi|i sock p e s ph Hp|i sock n sock1 s ph Hwr|i sock what sock1 s ph Hwr Hi
    |s s1 ph _ Hd]; simpl in *; try congruence; (split; [done|]);
    (assert (ph ≠ Unloaded) as Hph by (intros Heq; by specialize (Hnu Heq))).
  - apply zoom_Ret_inv in Ha as (t & Ha%work_endpoint_Ret & ->). simpl in Ha. subst t.
    unfold unhindered, steps_left, rt_unit; simpl. split_and!; [done|lia|]. destruct ph; try done; lia.
  - apply zoom_Ret_inv in Hp as (t' & Hp & ->). destruct (read_request _ _ _ Hc Hr) as [Hw1 Hn].
    destruct (process_allowance _ _ _ Hprep Hm Hf Hp) as (_ & _ & Hcase). simpl in Hcase.
    pose proof (stopping_call p _ t' i sock1 s ph (3 * requests_in sock + 3) Hcase Hst Hph) as Hcall.
    split; [by destruct p|]. unfold unhindered at 1 3, rt_unit, steps_left at 2. simpl. rewrite Hn in *.
    destruct ph; try done; apply Hcall; lia.
  - unfold unhindered, steps_left, rt_unit; simpl. rewrite (read_over _ _ _ Hr).
    split_and!; [done|lia|]. destruct ph; try done; lia.
  - apply zoom_Ret_inv in Hp as (t' & Hp & ->). destruct (resume_allowance _ _ _ Hm (Hw _ _ eq_refl) Hp) as (_ & _ & Hcase).
    simpl in Hcase. pose proof (stopping_call p _ t' i sock s ph (3 * requests_in sock + 5) Hcase Hst Hph) as Hcall.
    split; [by destruct p|]. unfold unhindered at 1 3, rt_unit, steps_left at 2. simpl. destruct ph; try done; apply Hcall; lia.
  - destruct (write_answer _ _ _ _ Hc Hwr) as (Hw1 & Hn & _).
    unfold unhindered, steps_left, rt_unit; simpl. rewrite Hn. split_and!; [done|lia|]. destruct ph; try done; lia.
  - by destruct (write_answer _ _ _ _ Hc Hwr) as (_ & _ & ? & ?).
  - assert (instance s1 = instance s) as Hi by (revert Hd; unfold server_dtor; repeat case_match; by intros [= <-]).
    unfold unhindered, steps_left, rt_unit; simpl. rewrite Hi. split_and!; [done|lia|]. destruct ph; try done; lia.
Qed.

Lemma stopping_unload_step s0 s0' :
  stopping s0 → unload_step s0 s0' → rt_phase s0' = Unloaded ∧ stopping_kept s0 s0'.
Proof.
  intros (_ & Hst & _) Hstep. destruct Hstep as [e s p Ha|s p|e s p Hd|s]; simpl in *; try done.
  split; [done|]. unfold stopping_kept, unhindered, steps_left, rt_unit; simpl. split_and!; [done|lia..].
Qed.

Lemma stopping_step s s' :
  prepares prepare → any_step s s' → stopping s → stopping s' ∧ stopping_kept s s'.
Proof.
  intros Hprep Hstep Hs. pose proof (any_step_inv _ _ Hprep Hstep (proj1 Hs)) as Hinv'.
  destruct Hstep as [Hstep|Hstep].
  - destruct (stopping_request_step _ _ Hprep Hs Hstep) as [Hph Hk]. split; [|done].
    split_and!; [done|by rewrite Hph; apply Hs|apply Hk].
  - destruct (stopping_unload_step _ _ Hs Hstep) as [Hph Hk]. split; [|done].
    split_and!; [done|by rewrite Hph|apply Hk].
Qed.

Lemma stopping_progress s :
  prepares prepare → stopping s → unhindered s → rt_phase s = Unloaded ∨ red any_step s.
Proof.
  intros Hprep ([Hm _ He Hf Hw Hs Hph Hend] & Hst & Hc) Hun. destruct s as [s at_ ph].
  unfold unhindered, rt_unit in *. simpl in *.
  destruct at_ as [| |i sock|i sock|i sock|].
  - destruct He as [[Ha Hp]|]; [|done]. destruct (work_endpoint_eq _ Hm Ha Hp) as [ap Hap].
    right. eexists. left. eapply (th_work ap). unfold zoom. simpl. by rewrite Hap.
  - destruct Hs as (i & Hl & _ & _ & Hu). right. eexists. left. eapply th_stopped; [done|].
    unfold server_dtor. rewrite Hu, decide_True by set_solver. done.
  - right. destruct (decide (4 ≤ length (incoming sock))) as [Hl|Hl].
    + destruct (tcp_read_enough 4 sock Hl) as (s1 & Hr1 & _). destruct (process_returns (env_unit (instance s))) as (p & t' & Hp); [done..|].
      eexists. left. eapply th_request; [exact Hr1|]. unfold zoom. simpl. by rewrite Hp.
    + destruct (tcp_read_short 4 sock) as (what & s1 & Hr1 & _); [lia|]. eexists. left.
      eapply th_disconnect; [exact Hr1|]. destruct Hs as [-> _]. set_solver.
  - right. eexists. left. eapply th_wakeup. unfold zoom. simpl. rewrite process_resume_eq by done.
    unfold allowance in Hun. rewrite (Hw _ _ eq_refl) in Hun. simpl in Hun. destruct (hasReceived _); [done|lia].
  - right. destruct (tcp_write_all (msg_data NetMessages.response_empty) sock Hc) as (s1 & Hr1 & _).
    eexists. left. by eapply th_answer.
  - destruct ph; try done; [|by left]. right. eexists. right. apply mo_join.
Qed.

Lemma reach_stopping s s' :
  prepares prepare → rtc any_step s s' → stopping s → stopping s' ∧ (unhindered s ↔ unhindered s').
Proof.
  intros Hprep Hr. induction Hr as [s|s s1 s2 Hstep _ IH]; [done|]. intros Hs.
  destruct (stopping_step _ _ Hprep Hstep Hs) as (Hs1 & _ & Hiff & _).
  destruct (IH Hs1) as [Hs2 Hiff2]. split; [done|]. by rewrite Hiff.
Qed.

Lemma unhindered_sn s : prepares prepare → stopping s → unhindered s → sn any_step s.
Proof.
  intros Hprep Hs Hu. remember (steps_left s) as k eqn:Hk. revert s Hs Hu Hk.
  induction k as [k IH] using lt_wf_ind. intros s Hs Hu ->. constructor. intros s' Hstep.
  destruct (stopping_step _ _ Hprep Hstep Hs) as (Hs' & _ & Hiff & Hlt). simpl in *.
  eapply IH; [by apply Hlt|done|by apply Hiff|done].
Qed.

(** ** Properties *)

(** Serving one client after the other, as [NetServer] and [RequestServer] do it,
    is one of the orders of the steps: what has been shown of it can happen in a
    unit that runs. *)
Theorem serving_is_a_schedule fuel socks s s' :
  waiting s → serve_clients prepare fuel socks s = (Ret tt, s') →
  rtc any_step (RequestThread s Listening Loaded) (RequestThread s' Listening Loaded) ∧ waiting s'.
Proof.
  revert s. induction socks as [|sock socks IH]; intros s Hw; simpl.
  - unfold ret. by intros [= <-].
  - intros ([] & s1 & Hc & Hrest)%bind_Ret_inv. destruct (on_accept_steps _ _ _ _ _ Hw Hc) as [Hr Hw1].
    destruct (IH s1 Hw1 Hrest) as [Hr' Hw']. split; [by etrans|done].
Qed.

(** C15. When unloading a transceiver returns. From the start of the request thread on,
    whatever peers, the simulator and the module's thread have done: once the
    destructor has stopped the service, it is decided. Without the module's
    thread nothing is measured any more, so the unit can still process one
    request at rest, none while it waits for a measurement, and two when it has
    one. If the peer of the session, which reads its answers, sends no more
    requests than that before it leaves, then every order of the remaining steps
    ends, it ends with the unit unloaded, and every session has been freed.
    Otherwise no order of the steps ever gets past the join. *)
Theorem unload_returns s0 s :
  prepares prepare → thread_started s0 → rtc any_step s0 s → rt_phase s = Joining → connected (rt_at s) →
  (pending (rt_at s) ≤ allowance (rt_unit s) →
     sn any_step s ∧ ∀ s', rtc any_step s s' → nf any_step s' → rt_phase s' = Unloaded ∧ live (rt_server s') = ∅)
  ∧ (allowance (rt_unit s) < pending (rt_at s) → ∀ s', rtc any_step s s' → rt_phase s' = Joining).
Proof.
  intros Hprep Hstart Hr Hph Hc.
  assert (stopping s) as Hs.
  { split_and!; [|by rewrite Hph|done]. eapply unload_reach_inv; [done..|by apply started_inv]. }
  split.
  - intros Hu. split; [by apply unhindered_sn|]. intros s' Hr' Hnf.
    destruct (reach_stopping _ _ Hprep Hr' Hs) as [Hs' Hiff].
    destruct (stopping_progress _ Hprep Hs') as [Hun|Hred]; [by apply Hiff| |done]. split; [done|].
    destruct Hs' as ([_ _ _ _ _ Hses Hend _] & _). by rewrite (Hend Hun) in Hses.
  - intros Hlt s' Hr'. destruct (reach_stopping _ _ Hprep Hr' Hs) as [(Hinv & Hst & _) Hiff].
    destruct (rt_phase s') eqn:Hp; try done. exfalso.
    assert (unhindered s') as Hu by (unfold unhindered; rewrite (ti_phase _ Hinv Hp); simpl; lia).
    apply Hiff in Hu. unfold unhindered in Hu. lia.
Qed.
End unloading.

Arguments request_thread {_ _} X B : rename.


(** Bobwire's own part of [process] runs in the same thread and asks the
    dispatcher, which is deleted before the thread is joined: a communication
    that begins in between uses a deleted object. *)
Theorem bobwire_outlives_dispatcher `{RapidJSON} `{ZMQ} `{BoostOptions} `{TCP} `{BoostEndian} `{OS}
    (t t' : transceiver bases) basis x :
  requestMutex t = false → isReceiving t = false → is_Some (dispatcher t) →
  get_next_basis (extra t) = (Ret basis, x) → delete_dispatcher t = (Ret tt, t') →
  (bobwire_process t').1 = Fatal Undefined.
Proof.
  intros Hm Hi [c Hd] Hb. unfold delete_dispatcher. mrun. rewrite Hd.
  destruct (client_dtor c) as [[]]; try done. intros [= <-]. unfold bobwire_process.
  rewrite process_begin by done. unfold bobwire_prepare. mrun. rewrite Hb. simpl.
  unfold configure_node. rewrite sim_request_ctor_eq. cbn [out_bind]. unfold add_uint.
  by rewrite sim_add_eq, add_cstrs_eq.
Qed.

(** ** Witnesses

    A transceiver in its request thread, and peers. *)
Section witness.
#[local] Instance unload_boost : BoostOptions := constant_options ∅.
#[local] Instance unload_os : OS := os_with None.

Abbreviation thread := (request_thread () queue_buffer).

Definition listening_trx : transceiver () :=
  Transceiver false false false (Some 16777343%Z) (Some 5000%Z) true None script_socket 7 0 tt.
Definition trx_env : async_env (transceiver ()) queue_buffer := AsyncEnv listening_trx ∅ queue_buffer_init.

Definition fresh_thread : thread := RequestThread (Server ∅ 0 None None trx_env) Starting Loaded.
Definition listening : server (async_env (transceiver ()) queue_buffer) := server_ctor trx_env.

(** A peer has sent [bytes] when the unit is unloaded. *)
Definition unloaded_under (bytes : list Z) : thread := RequestThread (in_use listening) (Reading 0 (peer bytes)) Joining.

Lemma fresh_thread_started : thread_started fresh_thread.
Proof. exists trx_env. by split_and!. Qed.

Lemma unloaded_under_reachable bytes : rtc (any_step (ret tt)) fresh_thread (unloaded_under bytes).
Proof.
  eapply rtc_l; [left; by eapply (th_work _ _ trx_env)|].
  eapply rtc_l; [left; by eapply (th_accept _ 0 (peer bytes) (peer bytes))|].
  eapply rtc_l; [right; apply mo_stop|].
  apply rtc_once. right. exact (mo_delete trx_env (in_use listening) _ eq_refl).
Qed.

(** A unit that listens; a peer that opens and closes a communication. *)
Lemma serving_is_a_schedule_witness :
  ∃ s', serve_clients (B := queue_buffer) (ret tt) 2 [peer (open_bytes ++ close_bytes)] listening = (Ret tt, s')
    ∧ rtc (any_step (ret tt)) (RequestThread listening Listening Loaded) (RequestThread s' Listening Loaded).
Proof.
  destruct (serve_clients (B := queue_buffer) (ret tt) 2 [peer (open_bytes ++ close_bytes)] listening)
    as [o s'] eqn:Hs.
  assert (o = Ret tt) as -> by (change o with ((o, s').1); rewrite <-Hs; vm_compute; reflexivity).
  exists s'. split; [reflexivity|].
  destruct (serving_is_a_schedule (ret tt) 2 _ listening s' (accept_waiting (Server ∅ 0 None None trx_env) eq_refl) Hs) as [Hr _]. exact Hr.
Defined.

(** A peer that has only opened a communication does not keep the unit; one that
    has sent the closing request too does for ever. *)
Lemma unload_returns_witness :
  sn (any_step (ret tt)) (unloaded_under open_bytes)
  ∧ ∀ s', rtc (any_step (ret tt)) (unloaded_under (open_bytes ++ close_bytes)) s' → rt_phase s' = Joining.
Proof.
  split.
  - destruct (unload_returns (ret tt) _ _ trx_prepares fresh_thread_started (unloaded_under_reachable open_bytes) eq_refl I)
      as [H1 _]. apply H1. apply Nat.leb_le. reflexivity.
  - destruct (unload_returns (ret tt) _ _ trx_prepares fresh_thread_started
      (unloaded_under_reachable (open_bytes ++ close_bytes)) eq_refl I) as [_ H2].
    apply H2. apply Nat.ltb_lt. reflexivity.
Defined.

Definition bobwire_unit : transceiver bases :=
  Transceiver false false false None None true (Some (dispatcher_client [])) script_socket 7 0
    (fresh_bases [1%Z]).

Lemma bobwire_outlives_dispatcher_witness :
  let r := delete_dispatcher bobwire_unit in
  (bobwire_process r.2).1 = Fatal Undefined.
Proof.
  intros r. exact (bobwire_outlives_dispatcher bobwire_unit r.2 0%Z _ eq_refl eq_refl
    (ex_intro _ _ eq_refl) (result_pair _ _ eq_refl) (result_pair r (Ret tt) eq_refl)).
Defined.
End witness.
