(* ===== verification/Transmission.v ===== *)
(** * A transmission, from one transceiver to another (module/brazil/itrx_proc_unit.hpp,
    proc_unit/trx_circuit.cpp, net/tcp_client.hpp, net/server.hpp)

    [Transceiver.transmit] of one unit runs against the request server of
    another ([Unloading]), over a connection on which bytes take their time, and
    against a simulator that is told the circuits by the one and tells the
    measurements to the other. The steps are those of the sending thread, the
    receiver's request thread and module's thread, and the two networks, in any
    order; a read blocks until its bytes have come. *)

From S2P Require Import Prelude NetMessages NetServer Actions BufferItem QueueBuffer Json.
From S2P Require Import MiddlewareMessages Zmq Simulation CString ProcUnit Transceiver Stream RequestServer.
From S2P Require Import Unloading.

(** ** The networks *)

(** A TCP connection while it is used: bytes that arrive, and a local end that
    can always be closed. *)
Class LiveTCP `{TCP} := {
  tcp_deliver : list Z → Tcp → Tcp;
  deliver_incoming bs s : incoming (tcp_deliver bs s) = incoming s ++ bs;
  deliver_outgoing bs s : outgoing (tcp_deliver bs s) = outgoing s;
  deliver_writable bs s : writable s → writable (tcp_deliver bs s);
  live_closes s : writable s → ∃ s', (tcp_shutdown ;; tcp_close) s = (Ret tt, s');
}.

(** The simulator. A circuit it is sent is measured, or refused with the error
    flag of the reply ([None]); [sim_takes] is a client connected to it that is
    going to send the messages. [sim_pending] are the measurements which have
    arrived at a subscribed socket, each a topic and the data. *)
Class Simulator `{RapidJSON} `{ZMQ} := {
  sim_measure : list ascii → option (list ascii);
  sim_takes : client → list (list ascii) → Prop;
  sim_takes_spec msg msgs c :
    sim_takes c (msg :: msgs) →
    ∃ rsp c', exchange msg c = (Ret rsp, c') ∧ sim_takes c' msgs
            ∧ get_error rsp = Ret (bool_decide (sim_measure msg = None));
  sim_pending : Socket → option (list (list ascii));
  sim_publish : list ascii → Socket → Socket;
  sim_publish_spec d sk ds : sim_pending sk = Some ds → sim_pending (sim_publish d sk) = Some (ds ++ [d]);
  sim_recv_none sk : sim_pending sk = Some [] → ∃ sk', zmq_recv sk = (Ret None, sk') ∧ sim_pending sk' = Some [];
  sim_recv_some sk d ds :
    sim_pending sk = Some (d :: ds) →
    ∃ topic r s1 s2, zmq_recv sk = (Ret (Some topic), s1) ∧ zmq_recv s1 = (Ret r, s2)
      ∧ data_of topic r = d ∧ sim_pending s2 = Some ds;
}.

Section transmission.
Context `{RapidJSON} `{ZMQ} `{BoostOptions} `{TCP} `{BoostEndian} `{OS} `{!LiveTCP, !Simulator}.
Context {X Y B : Type} `{!AsyncBuffer B} (prepare : M (transceiver Y) ()).
Context (language : string) (ip port : Z).
Implicit Types c : tcp_client.
Abbreviation conn_socket := NetMessages.socket.

(** ** The sender *)

(** Where [transmit] is: at the head of its loop; in [open_connection], before
    its read; past it; past the dispatcher's answer; in [close_connection],
    before its read; past it; returned. *)
Inductive sender_at :=
| AtCharacter (buf : list ascii)
| AwaitingOpen c (ch : ascii) (buf : list ascii)
| Opened c (ch : ascii) (buf : list ascii)
| Dispatched c (rsp : sim_response) (ch : ascii) (buf : list ascii)
| AwaitingClose c (rsp : sim_response) (ch : ascii) (buf : list ascii)
| Closed c (rsp : sim_response) (ch : ascii) (buf : list ascii)
| Returned (ok : bool).

(** What others notice of a step. *)
Inductive send_event :=
| Connects (bs : list Z)
| Writes (bs : list Z)
| Asks (msg : list ascii)
| Leaves
| Inner.

(** The bytes a socket has been given since. *)
Definition written (s s' : Tcp) : list Z := drop (length (outgoing s)) (outgoing s').

Inductive send_step : transceiver X * sender_at → send_event → transceiver X * sender_at → Prop :=
| sn_open t ch buf c n c' :
    tcp_client_ctor ip port = Ret c → write_message (request_init 0 1 0) c = (Ret n, c') →
    send_step (t, AtCharacter (ch :: buf)) (Connects (written (conn_socket c) (conn_socket c'))) (t, AwaitingOpen c' ch buf)
| sn_opened t c ch buf r c' :
    read_message (I := NetMessages.response) c = (Ret r, c') →
    send_step (t, AwaitingOpen c ch buf) Inner (t, Opened c' ch buf)
| sn_ask t c ch buf rq rsp t' :
    tx_request (nIP t) language ch = Ret rq → call_through l_dispatcher rq t = (Ret rsp, t') →
    send_step (t, Opened c ch buf) (Asks (tx_message (nIP t) language ch)) (t', Dispatched c rsp ch buf)
| sn_close t c rsp ch buf n c' :
    write_message (request_init 0 2 0) c = (Ret n, c') →
    send_step (t, Dispatched c rsp ch buf) (Writes (written (conn_socket c) (conn_socket c'))) (t, AwaitingClose c' rsp ch buf)
| sn_closed t c rsp ch buf r c' :
    read_message (I := NetMessages.response) c = (Ret r, c') →
    send_step (t, AwaitingClose c rsp ch buf) Inner (t, Closed c' rsp ch buf)
| sn_next t c rsp ch buf :
    get_error rsp = Ret false → destroy_connection c = Ret tt →
    send_step (t, Closed c rsp ch buf) Leaves (t, AtCharacter buf)
| sn_refused t c rsp ch buf :
    get_error rsp = Ret true → destroy_connection c = Ret tt →
    send_step (t, Closed c rsp ch buf) Leaves (t, Returned false)
| sn_done t :
    send_step (t, AtCharacter []) Inner (t, Returned true).

Definition sends (s s' : transceiver X * sender_at) : Prop := ∃ ev, send_step s ev s'.

(** A round of the loop of [transmit] that returns consists of these steps. *)
Lemma transmit_char_sends ch buf t ok t' :
  transmit_char language ip port ch t = (Ret ok, t') →
  rtc sends (t, AtCharacter (ch :: buf)) (t', if ok : bool then AtCharacter buf else Returned false).
Proof.
  intros (conn & t1 & Ho & Hrest)%bind_Ret_inv. unfold lift in Ho. injection Ho as Ho <-.
  revert Hrest. unfold automatic. destruct (send_circuit close_connection language ch (t, conn)) as [o [t2 c2]] eqn:Hs.
  destruct o as [ok'|e|f]; cbn [fst snd]; [|by destruct (destroy_connection c2)|done].
  destruct (destroy_connection c2) as [[]|e|f] eqn:Hd; cbn [out_bind]; [|done..]. intros [= -> ->].
  apply bind_Ret_inv in Hs as (a & s1 & Ha & Hs). apply zoom_Ret_inv in Ha as (u & Ha & ->).
  unfold read, gets in Ha. simplify_eq/=.
  apply bind_Ret_inv in Hs as (rq & s1 & Hrq & Hs). unfold lift in Hrq. injection Hrq as Hrq <-.
  apply bind_Ret_inv in Hs as (rsp & s1 & Hask & Hs). apply zoom_Ret_inv in Hask as (u' & Hask & ->). simpl in Hask.
  apply bind_Ret_inv in Hs as ([] & s1 & Hclose & Hs). apply zoom_Ret_inv in Hclose as (c3 & Hclose & ->). simpl in Hclose.
  apply bind_Ret_inv in Hs as (error & s1 & He & Hs). unfold lift in He. injection He as He <-. unfold ret in Hs. simplify_eq/=.
  apply bind_Ret_inv in Hclose as (n & c4 & Hw & Hclose). apply bind_Ret_inv in Hclose as (r & c5 & Hr & Hclose).
  unfold ret in Hclose. simplify_eq.
  unfold open_connection in Ho. destruct (tcp_client_ctor ip port) as [c0|e|f] eqn:Hctor; cbn [out_bind] in Ho; [|done..].
  destruct ((write_message (request_init 0 1 0) ;; read_message (I := NetMessages.response)) c0)
    as [[r0|e|f] c1] eqn:Hopen; [|by destruct (destroy_connection c1)|done].
  injection Ho as ->. apply bind_Ret_inv in Hopen as (n0 & c6 & Hw0 & Hr0).
  eapply rtc_l; [eexists; by eapply sn_open|]. eapply rtc_l; [eexists; by eapply sn_opened|].
  eapply rtc_l; [eexists; by eapply sn_ask|]. eapply rtc_l; [eexists; by eapply sn_close|].
  eapply rtc_l; [eexists; by eapply sn_closed|]. apply rtc_once. eexists.
  destruct error; simpl; [by eapply sn_refused|by eapply sn_next].
Qed.

(** The same for all of [transmit]. *)
Theorem transmit_is_its_steps buf t ok t' :
  transmit language ip port buf t = (Ret ok, t') → rtc sends (t, AtCharacter buf) (t', Returned ok).
Proof.
  revert t. induction buf as [|ch buf IH]; intros t; simpl.
  - unfold ret. intros [= <- <-]. apply rtc_once. eexists. apply sn_done.
  - intros (more & t1 & Hc & Hrest)%bind_Ret_inv. pose proof (transmit_char_sends _ buf _ _ _ Hc) as Hs.
    destruct more; [etrans; [exact Hs|by apply IH]|]. unfold ret in Hrest. by simplify_eq.
Qed.

(** ** The two units and what is between them *)

(** The sender's connection: none; waiting to be accepted; accepted. *)
Inductive link := Unlinked | Backlog | Accepted.

(** The sender, the bytes on their way in either direction, the measurements on
    their way, and the receiver: its request thread, with its unit, its buffer
    and its heap. *)
Record joint := Joint {
  j_unit : transceiver X;
  j_at : sender_at;
  j_link : link;
  j_up : list Z;
  j_down : list Z;
  j_air : list (list ascii);
  j_thread : request_thread Y B;
}.

(** Bytes arrive at the one end and at the other. *)
Definition conn_receive (bs : list Z) c : tcp_client := TcpClient (tcp_deliver bs (conn_socket c)) (socketMutex c).

Definition sender_receive (bs : list Z) (p : sender_at) : sender_at :=
  match p with
  | AtCharacter _ | Returned _ => p
  | AwaitingOpen c ch buf => AwaitingOpen (conn_receive bs c) ch buf
  | Opened c ch buf => Opened (conn_receive bs c) ch buf
  | Dispatched c rsp ch buf => Dispatched (conn_receive bs c) rsp ch buf
  | AwaitingClose c rsp ch buf => AwaitingClose (conn_receive bs c) rsp ch buf
  | Closed c rsp ch buf => Closed (conn_receive bs c) rsp ch buf
  end.

Definition session_receive (bs : list Z) (p : position) : position :=
  match p with
  | Reading i sock => Reading i (tcp_deliver bs sock)
  | Measuring i sock => Measuring i (tcp_deliver bs sock)
  | Answering i sock => Answering i (tcp_deliver bs sock)
  | _ => p
  end.

Definition set_position (p : position) (r : request_thread Y B) : request_thread Y B :=
  RequestThread (rt_server r) p (rt_phase r).

Definition set_env (e : async_env (transceiver Y) B) (r : request_thread Y B) : request_thread Y B :=
  RequestThread (with_instance e (rt_server r)) (rt_at r) (rt_phase r).

(** A measurement arrives at the receiver's socket. *)
Definition publish (d : list ascii) (r : request_thread Y B) : request_thread Y B :=
  set_env (upd l_unit (upd l_rx_socket (sim_publish d (rx_socket (rt_unit r))) (rt_unit r)) (instance (rt_server r))) r.

(** A read waits for the bytes of its message, or for the end of the stream,
    which comes after the bytes. *)
Definition sender_ready (p : sender_at) : Prop :=
  match p with
  | AwaitingOpen c _ _ | AwaitingClose c _ _ _ => msg_length NetMessages.response_empty ≤ length (incoming (conn_socket c))
  | _ => True
  end.

Definition session_ready (l : link) (p : position) : Prop :=
  match p with
  | Reading _ sock => msg_length request_empty ≤ length (incoming sock) ∨ l ≠ Accepted
  | Listening => False
  | _ => True
  end.

(** The bytes the request thread has written in a step. *)
Definition answered_bytes (p p' : position) : list Z :=
  match p, p' with
  | Answering _ sock, Reading _ sock' => written sock sock'
  | _, _ => []
  end.

(** A step that is not the repetition of a wait. *)
Definition moves (p p' : position) : Prop :=
  match p, p' with
  | Measuring _ _, Measuring _ _ => False
  | _, _ => True
  end.

Definition link_after (ev : send_event) (l : link) : link :=
  match ev with Connects _ => Backlog | Leaves => Unlinked | _ => l end.
Definition up_after (ev : send_event) (up : list Z) : list Z :=
  match ev with Connects bs => bs | Writes bs => up ++ bs | _ => up end.
Definition air_after (ev : send_event) (air : list (list ascii)) : list (list ascii) :=
  match ev with Asks msg => air ++ option_list (sim_measure msg) | _ => air end.

(** ** The steps of the two together *)

Inductive joint_step : joint → joint → Prop :=
| js_sender t p ev t' p' l up down air r :
    send_step (t, p) ev (t', p') → sender_ready p → (ev = Leaves → up = []) →
    joint_step (Joint t p l up down air r)
      (Joint t' p' (link_after ev l) (up_after ev up) down (air_after ev air) r)
| js_arrive_up bs t p up down air r :
    bs ≠ [] →
    joint_step (Joint t p Accepted (bs ++ up) down air r)
      (Joint t p Accepted up down air (set_position (session_receive bs (rt_at r)) r))
| js_arrive_down bs t p l up down air r :
    bs ≠ [] →
    joint_step (Joint t p l up (bs ++ down) air r) (Joint t (sender_receive bs p) l up down air r)
| js_measured d t p l up down air r :
    joint_step (Joint t p l up down (d :: air) r) (Joint t p l up down air (publish d r))
| js_accept i sock sock1 t p up down air s :
    accepting s = Some i → connects sock sock1 [] →
    joint_step (Joint t p Backlog up down air (RequestThread s Listening Loaded))
      (Joint t p Accepted up down air (RequestThread (in_use s) (Reading i sock1) Loaded))
| js_serve t p l up down air r r' :
    request_step prepare r r' → session_ready l (rt_at r) → moves (rt_at r) (rt_at r') →
    joint_step (Joint t p l up down air r)
      (Joint t p l up (down ++ answered_bytes (rt_at r) (rt_at r')) air r')
| js_round topic s1 e t p l up down air r :
    zmq_recv (rx_socket (rt_unit r)) = (Ret (Some topic), s1) →
    async_work (instance (rt_server r)) = (Ret tt, e) →
    joint_step (Joint t p l up down air r) (Joint t p l up down air (set_env e r)).

(** Rounds that receive nothing, and wake-ups for nothing. *)
Inductive idle_step : joint → joint → Prop :=
| is_round s1 e t p l up down air r :
    zmq_recv (rx_socket (rt_unit r)) = (Ret None, s1) →
    async_work (instance (rt_server r)) = (Ret tt, e) →
    idle_step (Joint t p l up down air r) (Joint t p l up down air (set_env e r))
| is_wakeup i sock t p l up down air s ph e :
    zoom l_unit process_resume (instance s) = (Ret Waiting, e) →
    idle_step (Joint t p l up down air (RequestThread s (Measuring i sock) ph))
      (Joint t p l up down air (RequestThread (with_instance e s) (Measuring i sock) ph)).

(** A schedule, with the number of its steps that are not idle. *)
Inductive joint_run (j : joint) : nat → joint → Prop :=
| jr_nil : joint_run j 0 j
| jr_step n j1 j2 : joint_run j n j1 → joint_step j1 j2 → joint_run j (S n) j2
| jr_idle n j1 j2 : joint_run j n j1 → idle_step j1 j2 → joint_run j n j2.
End transmission.

Arguments joint {_ _ _} X Y B : rename.
