(* ===== verification/Delivery.v ===== *)
(** * Transmissions are delivered

    What comes of the steps of [Transmission]: the receiver, with its request
    thread, its module's thread and the networks, is simulated by an abstract
    machine of six stages of a request; the sender's loop goes along with it; and
    every step leaves less to do. Hence both theorems: what is transmitted is
    received, in every order of the steps; and a circuit which the dispatcher
    refuses leaves both sides waiting for ever. *)

From S2P Require Import Prelude NetMessages NetServer Actions BufferItem QueueBuffer Json.
From S2P Require Import MiddlewareMessages Zmq Simulation CString ProcUnit Transceiver Stream RequestServer.
From S2P Require Import Unloading Transmission.

Section delivery.
Context `{RapidJSON} `{ZMQ} `{BoostOptions} `{TCP} `{BoostEndian} `{OS} `{!LiveTCP, !Simulator}.
Context {X Y B : Type} `{!AsyncBuffer B} (prepare : M (transceiver Y) ()).
Context (language : string) (ip port : Z).
Implicit Types (c : tcp_client) (r : request_thread Y B).
Abbreviation conn_socket := NetMessages.socket.
Abbreviation joint := (Transmission.joint X Y B).
Implicit Types j : joint.
Abbreviation send_step := (Transmission.send_step (X := X) language ip port).
Abbreviation joint_step := (Transmission.joint_step (X := X) prepare language ip port).
Abbreviation idle_step := (Transmission.idle_step (X := X) (Y := Y) (B := B)).
Abbreviation joint_run := (Transmission.joint_run (X := X) prepare language ip port).

(** ** The abstract receiver

    What there is to know of the two between steps: how far the request of the
    sender has come, and of the unit whether it is receiving, whether it has
    received, what the simulator still tells it, and the texts of the items that
    it has pushed. *)
Inductive talk :=
| Quiet
| Asked (rq : list Z)
| Stalled
| Replying
| Replied
| Idling.

Record receiver := Receiver {
  r_talk : talk;
  r_receiving : bool;
  r_received : bool;
  r_todo : list (list ascii);
  r_texts : list (list ascii);
}.

(** The end of the connection the sender holds. *)
Definition sender_socket (p : sender_at) : option Tcp :=
  match p with
  | AtCharacter _ | Returned _ => None
  | AwaitingOpen c _ _ | Opened c _ _ | Dispatched c _ _ _ | AwaitingClose c _ _ _ | Closed c _ _ _ => Some (conn_socket c)
  end.

Definition sender_incoming (p : sender_at) : list Z := from_option incoming [] (sender_socket p).

(** The request thread waits for a client, or has yet to notice that the last
    one has gone. *)
Definition unoccupied (p : position) : Prop :=
  match p with
  | Listening => True
  | Reading _ sock => writable sock ∧ incoming sock = []
  | _ => False
  end.

(** The request thread is in a session, with these bytes to read. *)
Definition reading (p : position) (bs : list Z) : Prop :=
  match p with Reading _ sock => writable sock ∧ incoming sock = bs | _ => False end.
Definition stalled (p : position) : Prop :=
  match p with Measuring _ sock => writable sock ∧ incoming sock = [] | _ => False end.
Definition replying (p : position) : Prop :=
  match p with Answering _ sock => writable sock ∧ incoming sock = [] | _ => False end.

Definition reply_bytes : list Z := msg_data NetMessages.response_empty.

(** What each stage of a request is. *)
Definition talking (k : talk) (j : joint) : Prop :=
  let p := rt_at (j_thread j) in
  match k with
  | Quiet => j_link j = Unlinked ∧ j_up j = [] ∧ j_down j = [] ∧ unoccupied p
  | Asked rq =>
      length rq = msg_length request_empty ∧ j_down j = [] ∧ sender_incoming (j_at j) = []
      ∧ (j_link j = Backlog ∧ j_up j = rq ∧ unoccupied p
         ∨ j_link j = Accepted ∧ ∃ bs, reading p bs ∧ bs ++ j_up j = rq)
  | Stalled => j_link j = Accepted ∧ j_up j = [] ∧ j_down j = [] ∧ sender_incoming (j_at j) = [] ∧ stalled p
  | Replying => j_link j = Accepted ∧ j_up j = [] ∧ j_down j = [] ∧ sender_incoming (j_at j) = [] ∧ replying p
  | Replied => j_link j = Accepted ∧ j_up j = [] ∧ reading p [] ∧ sender_incoming (j_at j) ++ j_down j = reply_bytes
  | Idling => j_link j = Accepted ∧ j_up j = [] ∧ j_down j = [] ∧ sender_incoming (j_at j) = [] ∧ reading p []
  end.

(** The unit of the receiver and its buffer, from [h0] and [b0] on. *)
Record receives (h0 : heap) (b0 : B) (a : receiver) (j : joint) : Prop := {
  rv_inv : thread_inv (j_thread j);
  rv_loaded : rt_phase (j_thread j) = Loaded;
  rv_talk : talking (r_talk a) j;
  rv_receiving : isReceiving (rt_unit (j_thread j)) = r_receiving a;
  rv_received : hasReceived (rt_unit (j_thread j)) = r_received a;
  rv_todo : ∃ pend, sim_pending (rx_socket (rt_unit (j_thread j))) = Some pend ∧ pend ++ j_air j = r_todo a;
  rv_items : ∃ items, ab_contents (env_buffer (instance (rt_server (j_thread j)))) = ab_contents b0 ++ items
    ∧ stored h0 items (r_texts a) (env_heap (instance (rt_server (j_thread j))));
}.

(** The receiver's own steps. *)
Inductive receiver_step : receiver → receiver → Prop :=
| rs_same a : receiver_step a a
| rs_opens rq todo texts :
    receiver_step (Receiver (Asked rq) false false todo texts) (Receiver Replying true false todo texts)
| rs_stalls rq todo texts :
    receiver_step (Receiver (Asked rq) true false todo texts) (Receiver Stalled true false todo texts)
| rs_closes k todo texts :
    (k = Stalled ∨ ∃ rq, k = Asked rq) →
    receiver_step (Receiver k true true todo texts) (Receiver Replying false false todo texts)
| rs_replies rc rv todo texts :
    receiver_step (Receiver Replying rc rv todo texts) (Receiver Replied rc rv todo texts)
| rs_measures k rv d todo texts :
    receiver_step (Receiver k true rv (d :: todo) texts) (Receiver k true true todo (texts ++ [d])).

(** ** The receiver's steps are the abstract ones *)

(** What is left to do: bytes and measurements count more the farther they are
    from where they are read. *)
Definition position_weight (p : position) : nat :=
  match p with
  | Starting => 1
  | Listening | Ended => 0
  | Reading _ sock => 3 * length (incoming sock) + 1
  | Measuring _ sock => 3 * length (incoming sock) + 11
  | Answering _ sock => 3 * length (incoming sock) + 10
  end.

Definition sender_weight (p : sender_at) : nat :=
  match p with
  | AtCharacter buf => 40 * length buf + 1
  | AwaitingOpen _ _ buf | Opened _ _ buf => 40 * length buf + 22
  | Dispatched _ _ _ buf => 40 * length buf + 19
  | AwaitingClose _ _ _ buf | Closed _ _ _ buf => 40 * length buf + 2
  | Returned _ => 0
  end + length (sender_incoming p).

Definition link_weight (l : link) : nat := match l with Backlog => 2 | _ => 0 end.
Definition pending_weight (r : request_thread Y B) : nat :=
  from_option length 0 (sim_pending (rx_socket (rt_unit r))).

Definition joint_weight (j : joint) : nat :=
  sender_weight (j_at j) + 4 * length (j_up j) + 2 * length (j_down j) + 2 * length (j_air j)
  + link_weight (j_link j) + position_weight (rt_at (j_thread j)) + pending_weight (j_thread j).

Lemma process_receiver t p t' :
  prepares prepare → requestMutex t = false → process prepare t = (Ret p, t') →
  rx_socket t' = rx_socket t
  ∧ match isReceiving t, hasReceived t with
    | false, rv => p = Done ∧ isReceiving t' = true ∧ hasReceived t' = rv
    | true, true => p = Done ∧ isReceiving t' = false ∧ hasReceived t' = false
    | true, false => p = Waiting ∧ t' = t
    end.
Proof.
  intros Hprep Hm Hp. destruct (isReceiving t) eqn:Hi; [destruct (hasReceived t) eqn:Hh|].
  - rewrite process_end in Hp by done. by simplify_eq/=.
  - rewrite process_waits in Hp by done. by simplify_eq/=.
  - rewrite process_begin in Hp by done.
    destruct (Hprep (upd l_requestMutex true t)) as (t1 & Hpr & _ & Hi1 & Hh1 & Hr1). rewrite Hpr in Hp.
    simplify_eq/=. by rewrite Hi1, Hi, Hh1.
Qed.

(** Reading from a socket whose bytes are known. *)
Lemma read_exactly sock bs x sock1 :
  length bs = msg_length request_empty → incoming sock = bs →
  tcp_read (msg_length request_empty) sock = (Ret x, sock1) → writable sock →
  (∃ y, x = inl y) ∧ writable sock1 ∧ incoming sock1 = [].
Proof.
  intros Hl Hi Hr Hw. destruct (tcp_read_enough (msg_length request_empty) sock) as (s1 & Hr1 & Hi1 & _ & Hw1); [by rewrite Hi, Hl|].
  rewrite Hr in Hr1. simplify_eq. split_and!; [by eexists|auto|]. rewrite Hi1, <-Hl. apply drop_all.
Qed.

Lemma read_nothing sock x sock1 :
  incoming sock = [] → tcp_read (msg_length request_empty) sock = (Ret x, sock1) → ∃ what, x = inr what.
Proof.
  intros Hi Hr. destruct (tcp_read_short (msg_length request_empty) sock) as (what & s1 & Hr1 & _); [rewrite Hi; apply Nat.lt_0_succ|].
  rewrite Hr in Hr1. simplify_eq. by eexists.
Qed.

Lemma write_exactly bs sock w sock1 :
  writable sock → tcp_write bs sock = (Ret w, sock1) →
  (∃ n, w = inl n) ∧ writable sock1 ∧ incoming sock1 = incoming sock ∧ written sock sock1 = bs.
Proof.
  intros Hw Hr. destruct (tcp_write_all bs sock Hw) as (s1 & Hr1 & Hi & Ho & Hw1). rewrite Hr in Hr1.
  simplify_eq. unfold written. rewrite Ho, drop_app_length. by eauto.
Qed.

Section receiver.
Context (h0 : heap) (b0 : B).
Hypothesis Hprep : prepares prepare.

(** A step of the request thread: the abstract step, and that less is left. *)
Definition simulated (j : joint) (a : receiver) (j' : joint) : Prop :=
  ∃ a', receives h0 b0 a' j' ∧ receiver_step a a' ∧ joint_weight j' < joint_weight j.

Lemma rest_of_items a j j' :
  receives h0 b0 a j →
  env_heap (instance (rt_server (j_thread j'))) = env_heap (instance (rt_server (j_thread j))) →
  env_buffer (instance (rt_server (j_thread j'))) = env_buffer (instance (rt_server (j_thread j))) →
  ∃ items, ab_contents (env_buffer (instance (rt_server (j_thread j')))) = ab_contents b0 ++ items
    ∧ stored h0 items (r_texts a) (env_heap (instance (rt_server (j_thread j')))).
Proof. intros [_ _ _ _ _ _ Hit] -> ->. exact Hit. Qed.

Lemma request_simulated a t p l up down air s i sock bs sock1 q t' :
  let j := Joint t p l up down air (RequestThread s (Reading i sock) Loaded) in
  let j' := Joint t p l up (down ++ answered_bytes (Reading i sock) (after_process q i sock1)) air
    (RequestThread (with_instance (upd l_unit t' (instance s)) s) (after_process q i sock1) Loaded) in
  receives h0 b0 a j → thread_inv (j_thread j') →
  tcp_read (msg_length request_empty) sock = (Ret (inl bs), sock1) →
  process prepare (env_unit (instance s)) = (Ret q, t') → session_ready l (Reading i sock) →
  simulated j a j'.
Proof.
  intros j j' Hrv Hinv' Hr Hp Hready. pose proof Hrv as [Hinv _ Htalk Hrc Hgot (pend & Hpend & Htodo) _].
  destruct (process_receiver _ _ _ Hprep (ti_free _ Hinv) Hp) as [Hsk Hcase].
  simpl in *. unfold rt_unit in *. simpl in *. rewrite Hrc, Hgot in Hcase.
  assert (∃ rq, r_talk a = Asked rq ∧ down = [] ∧ sender_incoming p = [] ∧ l = Accepted ∧ up = []
    ∧ length (incoming sock) = 4 ∧ writable sock1 ∧ incoming sock1 = []) as (rq & Hk & -> & Hin & -> & -> & Hlen & Hw1 & Hi1).
  { destruct (r_talk a) as [|rq| | | |]; simpl in Htalk.
    - destruct Htalk as (_ & _ & _ & _ & Hi). by destruct (read_nothing _ _ _ Hi Hr).
    - destruct Htalk as (Hl & Hd & Hs & [(_ & _ & _ & Hi)|(Hacc & bs' & [Hw Hi] & Hrq)]).
      + by destruct (read_nothing _ _ _ Hi Hr).
      + destruct Hready as [Hge|]; [|done]. subst bs'. rewrite <-Hrq, length_app in Hl.
        destruct up; [|simpl in Hl; lia]. rewrite app_nil_r in Hrq.
        rewrite Nat.add_0_r in Hl. destruct (read_exactly sock _ _ _ Hl eq_refl Hr Hw) as (_ & Hw1 & Hi1).
        by exists rq.
    - by destruct Htalk as (_ & _ & _ & _ & []).
    - by destruct Htalk as (_ & _ & _ & _ & []).
    - destruct Htalk as (_ & _ & [_ Hi] & _). by destruct (read_nothing _ _ _ Hi Hr).
    - destruct Htalk as (_ & _ & _ & _ & _ & Hi). by destruct (read_nothing _ _ _ Hi Hr). }
  destruct a as [k rc rv todo texts]. simpl in *. subst k.
  assert (∀ a', receiver_step (Receiver (Asked rq) rc rv todo texts) a' → r_todo a' = todo → r_texts a' = texts →
    talking (r_talk a') j' → isReceiving t' = r_receiving a' → hasReceived t' = r_received a' →
    simulated j (Receiver (Asked rq) rc rv todo texts) j') as Hdone.
  { intros a' Hstep Ht Hx Hk' Hrc' Hrv'. exists a'. split; [|split; [done|]].
    - split; try done; [by exists pend; unfold rt_unit; simpl; rewrite Hsk, Ht|]. rewrite Hx.
      by apply (rest_of_items _ j j' Hrv).
    - unfold joint_weight, pending_weight, rt_unit. simpl. rewrite Hsk, Hlen.
      destruct q; simpl; rewrite Hi1; simpl; lia. }
  destruct rc; [destruct rv|].
  - destruct Hcase as (-> & Hi' & Hh'). eapply (Hdone (Receiver Replying false false todo texts)); try done.
    apply rs_closes. right. by eexists.
  - destruct Hcase as [-> ->]. eapply (Hdone (Receiver Stalled true false todo texts)); try done. constructor.
  - destruct Hcase as (-> & Hi' & Hh').
    destruct rv; [pose proof (ti_flags _ Hinv Hgot) as Hf; unfold rt_unit in Hf; simpl in Hf; congruence|].
    eapply (Hdone (Receiver Replying true false todo texts)); try done. constructor.
Qed.

(** The rest of the request thread. *)
Lemma disconnect_simulated a t p l up down air s i sock what sock1 :
  let j := Joint t p l up down air (RequestThread s (Reading i sock) Loaded) in
  let j' := Joint t p l up (down ++ []) air (RequestThread (session_over i s) Listening Loaded) in
  receives h0 b0 a j → thread_inv (j_thread j') →
  tcp_read (msg_length request_empty) sock = (Ret (inr what), sock1) → session_ready l (Reading i sock) →
  simulated j a j'.
Proof.
  intros j j' Hrv Hinv' Hr Hready. pose proof Hrv as [_ _ Htalk Hrc Hgot Htodo _].
  assert (¬ msg_length request_empty ≤ length (incoming sock)) as Hshort.
  { intros Hge. destruct (tcp_read_enough _ _ Hge) as (s1 & Hr1 & _). by rewrite Hr in Hr1. }
  destruct Hready as [|Hl]; [done|].
  exists a. split; [|split; [constructor|]].
  - split; try done; [|by apply (rest_of_items _ j j' Hrv)]. destruct (r_talk a); simpl in *; rewrite app_nil_r; naive_solver.
  - unfold joint_weight, pending_weight, rt_unit. simpl. rewrite app_nil_r. lia.
Qed.

Lemma wakeup_simulated a t p l up down air s i sock t' :
  let j := Joint t p l up down air (RequestThread s (Measuring i sock) Loaded) in
  let j' := Joint t p l up (down ++ []) air (RequestThread (with_instance (upd l_unit t' (instance s)) s) (Answering i sock) Loaded) in
  receives h0 b0 a j → thread_inv (j_thread j') →
  process_resume (env_unit (instance s)) = (Ret Done, t') → simulated j a j'.
Proof.
  intros j j' Hrv Hinv' Hp. pose proof Hrv as [Hinv _ Htalk Hrc Hgot (pend & Hpend & Htodo) _].
  assert (r_talk a = Stalled) as Hk by (destruct (r_talk a); simpl in Htalk; naive_solver).
  destruct a as [k rc rv todo texts]. simpl in *. subst k. unfold rt_unit in *. simpl in *.
  rewrite process_resume_eq in Hp by apply Hinv. rewrite Hgot in Hp. destruct rv; [|done]. injection Hp as <-. subst todo.
  pose proof (ti_flags _ Hinv Hgot) as Hf. unfold rt_unit in Hf. simpl in Hf. rewrite Hrc in Hf. destruct rc; [|done].
  exists (Receiver Replying false false (pend ++ air) texts). split; [|split; [apply rs_closes; by left|]].
  - split; try done; simpl.
    + rewrite app_nil_r. naive_solver.
    + unfold rt_unit. simpl. by rewrite Hrc.
    + by exists pend.
    + by apply (rest_of_items _ j j' Hrv).
  - unfold joint_weight, pending_weight, rt_unit. simpl. rewrite app_nil_r. lia.
Qed.

Lemma answer_simulated a t p l up down air s i sock n sock1 :
  let j := Joint t p l up down air (RequestThread s (Answering i sock) Loaded) in
  let j' := Joint t p l up (down ++ written sock sock1) air (RequestThread s (Reading i sock1) Loaded) in
  receives h0 b0 a j → thread_inv (j_thread j') →
  tcp_write reply_bytes sock = (Ret (inl n), sock1) → simulated j a j'.
Proof.
  intros j j' Hrv Hinv' Hwr. pose proof Hrv as [_ _ Htalk Hrc Hgot Htodo Hit].
  assert (r_talk a = Replying) as Hk by (destruct (r_talk a); simpl in Htalk; naive_solver).
  destruct a as [k rc rv todo texts]. simpl in Hk. subst k. cbn [r_talk talking j_link j_up j_down j_at j_thread rt_at j] in Htalk.
  destruct Htalk as (Hl & Hup & Hdn & Hin & Hw & Hi). unfold j, j' in *. clear j j'. simpl in *. subst l up down. destruct (write_exactly _ _ _ _ Hw Hwr) as (_ & Hw1 & Hi1 & Hwritten).
  exists (Receiver Replied rc rv todo texts). split; [|split; [constructor|]].
  - split; try done. simpl. split_and!; [done..|by rewrite Hi1|by rewrite Hin, Hwritten].
  - unfold joint_weight, pending_weight, rt_unit. simpl. rewrite Hwritten, Hi1, Hi. simpl. lia.
Qed.

Lemma serve_simulated a t p l up down air r r' :
  let j := Joint t p l up down air r in
  let j' := Joint t p l up (down ++ answered_bytes (rt_at r) (rt_at r')) air r' in
  receives h0 b0 a j → request_step prepare r r' → session_ready l (rt_at r) → moves (rt_at r) (rt_at r') →
  simulated j a j'.
Proof.
  intros j j' Hrv Hstep Hready Hmoves.
  assert (thread_inv r') as Hinv' by (eapply request_step_inv; [done..|apply Hrv]).
  pose proof (rv_loaded _ _ _ _ Hrv) as Hph. pose proof (rv_talk _ _ _ _ Hrv) as Htalk. unfold j, j' in *. clear j j'.
  destruct Hstep as [ap e s ph Ha|i sock sock1 s ph Hl|i sock bs sock1 q e s ph Hr Hp
    |i sock what sock1 s ph Hr Hi|i sock q e s ph Hp|i sock n sock1 s ph Hwr|i sock what sock1 s ph Hwr Hi
    |s s1 ph Hst Hd]; simpl in Hph, Hready, Hmoves; subst ph; try done.
  - destruct (r_talk a); simpl in Htalk; naive_solver.
  - apply zoom_Ret_inv in Hp as (t' & Hp & ->). by eapply request_simulated.
  - by eapply disconnect_simulated.
  - apply zoom_Ret_inv in Hp as (t' & Hp & ->). destruct q; [by eapply wakeup_simulated|done].
  - by eapply answer_simulated.
  - assert (writable sock) as Hw by (destruct (r_talk a); simpl in Htalk; naive_solver).
    destruct (write_exactly _ _ _ _ Hw Hwr) as ([? ?] & _). done.
Qed.

(** The networks, the accepting, and the module's thread. *)
Lemma thread_inv_receive bs r : thread_inv r → thread_inv (set_position (session_receive bs (rt_at r)) r).
Proof.
  intros [Hm Hb He Hf Hw Hs Hph Hend]. destruct r as [s p ph]. split; unfold rt_unit in *; simpl in *; try done;
    destruct p; simpl in *; naive_solver.
Qed.

Lemma thread_inv_publish d r : thread_inv r → thread_inv (publish d r).
Proof.
  intros [Hm Hb He Hf Hw Hs Hph Hend]. by split.
Qed.

Lemma arrive_up_simulated a bs t p up down air r :
  let j := Joint t p Accepted (bs ++ up) down air r in
  let j' := Joint t p Accepted up down air (set_position (session_receive bs (rt_at r)) r) in
  bs ≠ [] → receives h0 b0 a j → simulated j a j'.
Proof.
  intros j j' Hbs Hrv. pose proof Hrv as [Hinv Hph Htalk Hrc Hgot Htodo Hit].
  assert (∃ rq bs' i sock, r_talk a = Asked rq ∧ length rq = msg_length request_empty ∧ down = []
    ∧ sender_incoming p = [] ∧ rt_at r = Reading i sock ∧ writable sock ∧ incoming sock = bs'
    ∧ bs' ++ bs ++ up = rq) as (rq & bs' & i & sock & Hk & Hl & Hd & Hin & Hat & Hw & Hi & Hrq).
  { assert (bs ++ up ≠ []) as Hne by by destruct bs.
    destruct (r_talk a); simpl in Htalk; [by destruct Htalk| |by destruct Htalk as (_ & ? & _)..].
    destruct Htalk as (Hl & Hd & Hs & [(? & _)|(_ & bs' & Hrd & Hrq)]); [done|].
    destruct (rt_at r) as [| |i sock| | |]; try done. destruct Hrd as [Hw Hi]. by exists rq, bs', i, sock. }
  exists a. split; [|split; [constructor|]].
  - split; try done; simpl; [by apply thread_inv_receive|]. rewrite Hk. simpl. rewrite Hat. simpl.
    split_and!; [done..|]. right. split; [done|]. exists (bs' ++ bs).
    rewrite deliver_incoming, Hi, <-app_assoc. split_and!; auto using deliver_writable.
  - unfold joint_weight, pending_weight, rt_unit. simpl. rewrite Hat. simpl.
    rewrite deliver_incoming, !length_app. destruct bs; [done|]. simpl. lia.
Qed.

Lemma arrive_down_simulated a bs t p l up down air r :
  let j := Joint t p l up (bs ++ down) air r in
  let j' := Joint t (sender_receive bs p) l up down air r in
  bs ≠ [] → is_Some (sender_socket p) → receives h0 b0 a j → simulated j a j' ∧ receives h0 b0 a j'.
Proof.
  intros j j' Hbs [sk Hsk] Hrv. pose proof Hrv as [Hinv Hph Htalk Hrc Hgot Htodo Hit].
  assert (sender_incoming (sender_receive bs p) = sender_incoming p ++ bs) as Hin.
  { unfold sender_incoming. destruct p; simpl in Hsk; try done; simpl; by rewrite deliver_incoming. }
  assert (receives h0 b0 a j') as Hrv'.
  { split; try done. destruct (r_talk a); simpl in Htalk; simpl; try by (assert (bs ++ down ≠ []) by (by destruct bs); naive_solver).
    rewrite Hin, <-app_assoc. naive_solver. }
  split; [|done]. exists a. split; [done|split; [constructor|]].
  assert (sender_weight (sender_receive bs p) = sender_weight p + length bs) as Hwt.
  { unfold sender_weight. rewrite Hin, length_app. destruct p; simpl; lia. }
  unfold joint_weight. simpl. rewrite Hwt, length_app. destruct bs; [done|]. simpl. lia.
Qed.

Lemma measured_simulated a d t p l up down air r :
  let j := Joint t p l up down (d :: air) r in
  let j' := Joint t p l up down air (publish d r) in
  receives h0 b0 a j → simulated j a j'.
Proof.
  intros j j' Hrv. pose proof Hrv as [Hinv Hph Htalk Hrc Hgot (pend & Hpend & Htodo) Hit].
  exists a. split; [|split; [constructor|]].
  - split; try done; simpl; [by apply thread_inv_publish|].
    exists (pend ++ [d]). unfold publish, rt_unit. simpl. split; [by apply sim_publish_spec|].
    by rewrite <-app_assoc.
  - unfold joint_weight, pending_weight, publish, rt_unit in *. simpl in *.
    rewrite (sim_publish_spec _ _ _ Hpend), Hpend. simpl. rewrite length_app. simpl. lia.
Qed.

Lemma accept_simulated a i sock sock1 t p up down air s :
  let j := Joint t p Backlog up down air (RequestThread s Listening Loaded) in
  let j' := Joint t p Accepted up down air (RequestThread (in_use s) (Reading i sock1) Loaded) in
  receives h0 b0 a j → accepting s = Some i → connects sock sock1 [] → simulated j a j'.
Proof.
  intros j j' Hrv Ha (Hl & Hw & Hi). pose proof Hrv as [Hinv Hph Htalk Hrc Hgot Htodo Hit].
  exists a. split; [|split; [constructor|]].
  - split; try done; simpl.
    + eapply request_step_inv; [exact Hprep| |exact Hinv]. by eapply th_accept.
    + destruct (r_talk a); simpl in Htalk; simpl; [naive_solver| |naive_solver..].
      destruct Htalk as (Hlen & Hd & Hs & [(_ & Hup & _)|(? & _)]); [|done].
      split_and!; [done..|]. right. split; [done|]. by exists [].
  - unfold joint_weight, pending_weight, rt_unit. simpl. rewrite Hi. simpl. lia.
Qed.

Lemma round_simulated a topic s1 e t p l up down air r :
  let j := Joint t p l up down air r in
  let j' := Joint t p l up down air (set_env e r) in
  receives h0 b0 a j → zmq_recv (rx_socket (rt_unit r)) = (Ret (Some topic), s1) →
  async_work (instance (rt_server r)) = (Ret tt, e) → simulated j a j'.
Proof.
  intros j j' Hrv Hr1 Ha. pose proof Hrv as [Hinv Hph Htalk Hrc Hgot (pend & Hpend & Htodo) (items & Hc & Hst)].
  destruct r as [s at_ ph]. unfold rt_unit in *. simpl in *. subst ph.
  destruct pend as [|d pend].
  { destruct (sim_recv_none _ Hpend) as (sk & Hr & _). congruence. }
  destruct (sim_recv_some _ _ _ Hpend) as (topic' & rd & sk1 & sk2 & Hr & Hr2 & Hd & Hpend'). rewrite Hr in Hr1. simplify_eq.
  assert (thread_inv (RequestThread (with_instance e s) at_ Loaded)) as Hinv'
    by (eapply unload_step_inv; [by apply mo_round|done]).
  destruct (instance s) as [u h b] eqn:Hinst. simpl in *.
  destruct (async_work_returns u h b e (ltac:(pose proof (ti_free _ Hinv) as Hm; unfold rt_unit in Hm; simpl in Hm; by rewrite Hinst in Hm))
    (ltac:(pose proof (ti_buffer _ Hinv) as Hm; simpl in Hm; by rewrite Hinst in Hm)) Ha)
    as [(sk & Hr3 & _)|(tp & t1 & rd' & t2 & b' & Hr3 & Hr4 & Hi & _ & Hc' & ->)]; [by rewrite Hr in Hr3|].
  rewrite Hr in Hr3. simplify_eq. rewrite Hr2 in Hr4. simplify_eq.
  destruct a as [k rc rv todo texts]. simpl in *. rewrite Hi in Hrc. subst rc. rewrite <-Htodo.
  exists (Receiver k true true (pend ++ air) (texts ++ [data_of tp rd'])). split; [|split; [constructor|]].
  - split; try done; simpl; [by exists pend|].
    exists (items ++ [message_item h (data_of tp rd')]). rewrite Hc', Hc, app_assoc. split; [done|].
    eapply stored_app; [done|]. repeat constructor.
  - unfold joint_weight, pending_weight, rt_unit. simpl. rewrite Hinst. simpl. rewrite Hpend', Hpend. simpl. lia.
Qed.

(** A step that is idle changes nothing that counts. *)
Lemma idle_receives a j j' :
  idle_step j j' → receives h0 b0 a j → receives h0 b0 a j' ∧ joint_weight j' = joint_weight j
  ∧ j_unit j' = j_unit j ∧ j_at j' = j_at j.
Proof.
  intros Hstep Hrv. destruct Hstep as [s1 e t p l up down air r Hr1 Ha|i sock t p l up down air s ph e Hp].
  - pose proof Hrv as [Hinv Hph Htalk Hrc Hgot (pend & Hpend & Htodo) Hit].
    destruct r as [s at_ ph]. unfold rt_unit in *. simpl in *. subst ph.
    assert (thread_inv (RequestThread (with_instance e s) at_ Loaded)) as Hinv'
      by (eapply unload_step_inv; [by apply mo_round|done]).
    destruct (instance s) as [u h b] eqn:Hinst. simpl in *. rewrite (async_work_quiet u h b s1 Hr1) in Ha. simplify_eq.
    assert (pend = [] ∧ sim_pending s1 = Some []) as [-> Hs1].
    { destruct pend as [|d pend].
      - destruct (sim_recv_none _ Hpend) as (sk & Hr & Hsk). by rewrite Hr in Hr1; simplify_eq.
      - destruct (sim_recv_some _ _ _ Hpend) as (? & ? & ? & ? & Hr & _). by rewrite Hr in Hr1. }
    split_and!; [|unfold joint_weight, pending_weight, rt_unit; simpl; by rewrite Hinst; simpl; rewrite Hs1, Hpend|done..].
    split; try done. simpl. by exists [].
  - apply zoom_Ret_inv in Hp as (t' & Hp & ->). pose proof (ti_free _ (rv_inv _ _ _ _ Hrv)) as Hm. simpl in Hm.
    unfold rt_unit in Hm. simpl in Hm. rewrite process_resume_eq in Hp by done.
    destruct (hasReceived _); simplify_eq. unfold with_instance.
    destruct s as [lv nx ac lu [u h b]]. by split_and!.
Qed.
End receiver.

(** ** The sender's side *)

Definition conn_ok c : Prop := socketMutex c = Some false ∧ writable (conn_socket c).

Lemma conn_write (m : NetMessages.request) c :
  conn_ok c →
  ∃ n c', write_message m c = (Ret n, c') ∧ conn_ok c' ∧ incoming (conn_socket c') = incoming (conn_socket c)
    ∧ written (conn_socket c) (conn_socket c') = msg_data m.
Proof.
  intros [Hm Hw]. destruct (tcp_write_all (msg_data m) (conn_socket c) Hw) as (s1 & Hr & Hi & Ho & Hw1).
  exists (length (msg_data m)), (TcpClient s1 (Some false)). split_and!; try done.
  - unfold write_message. rewrite locked_free by done. unfold base_write. by rewrite (bind_Ret _ _ _ _ _ Hr).
  - simpl. unfold written. by rewrite Ho, drop_app_length.
Qed.

Lemma conn_read c :
  conn_ok c → length (incoming (conn_socket c)) = length reply_bytes →
  ∃ x c', read_message (I := NetMessages.response) c = (Ret x, c') ∧ conn_ok c' ∧ incoming (conn_socket c') = [].
Proof.
  intros [Hm Hw] Hl.
  destruct (base_read_wire (I := NetMessages.response) (incoming (conn_socket c)) [] (conn_socket c))
    as (r & s1 & Hr & _ & Hi & _ & Hw1); [exact Hl|by rewrite app_nil_r|].
  exists r, (TcpClient s1 (Some false)). split_and!; [|by split; auto|done].
  unfold read_message. by rewrite locked_free, Hr by done.
Qed.

Lemma conn_destroy c : conn_ok c → destroy_connection c = Ret tt.
Proof.
  intros [_ Hw]. unfold destroy_connection, base_dtor. by destruct (live_closes _ Hw) as (s' & ->).
Qed.

(** The connections the network gives. *)
Definition connectable : Prop :=
  ∃ s0, tcp_connect ip (wrap 16 port) = Ret s0 ∧ writable s0 ∧ incoming s0 = [] ∧ outgoing s0 = [].

Section sender.
Context (na : Z) (text : list ascii).

(** What the simulator measures for a character. *)
Definition measurement (ch : ascii) : option (list ascii) := sim_measure (tx_message na language ch).
Definition measured_as (ch : ascii) (d : list ascii) : Prop := measurement ch = Some d.

(** The characters for which the dispatcher has not been asked. *)
Definition unasked (p : sender_at) : list ascii :=
  match p with
  | AtCharacter buf | Dispatched _ _ _ buf | AwaitingClose _ _ _ buf | Closed _ _ _ buf => buf
  | AwaitingOpen _ ch buf | Opened _ ch buf => ch :: buf
  | Returned _ => []
  end.

Definition sender_ok (p : sender_at) (t : transceiver X) : Prop :=
  nIP t = na ∧ ∃ cl, dispatcher t = Some cl ∧ sim_takes cl (tx_message na language <$> unasked p).

(** A circuit has been sent: it is still to be measured, if it is, or it has. *)
Definition told (ch : ascii) (ds : list (list ascii)) (a : receiver) : Prop :=
  r_receiving a = true
  ∧ (r_received a = false ∧ r_todo a = option_list (measurement ch) ∧ r_texts a = ds
     ∨ r_received a = true ∧ r_todo a = [] ∧ ∃ d, measured_as ch d ∧ r_texts a = ds ++ [d]).

Definition answering (k : talk) : Prop := k = Replying ∨ k = Replied.

(** Which states of the receiver go with which point of the sender's loop, when
    [ds] has come of the characters before. *)
Definition in_stage (p : sender_at) (ds : list (list ascii)) (a : receiver) : Prop :=
  match p with
  | AtCharacter _ => a = Receiver Quiet false false [] ds
  | AwaitingOpen c _ _ =>
      conn_ok c ∧ (a = Receiver (Asked open_bytes) false false [] ds
                   ∨ ∃ k, answering k ∧ a = Receiver k true false [] ds)
  | Opened c _ _ => conn_ok c ∧ a = Receiver Idling true false [] ds
  | Dispatched c rsp ch _ =>
      conn_ok c ∧ get_error rsp = Ret (bool_decide (measurement ch = None)) ∧ r_talk a = Idling ∧ told ch ds a
  | AwaitingClose c rsp ch _ =>
      conn_ok c ∧ get_error rsp = Ret (bool_decide (measurement ch = None))
      ∧ ((r_talk a = Asked close_bytes ∨ r_talk a = Stalled) ∧ told ch ds a
         ∨ ∃ d k, measured_as ch d ∧ answering k ∧ a = Receiver k false false [] (ds ++ [d]))
  | Closed c rsp ch _ =>
      conn_ok c ∧ get_error rsp = Ret false ∧ ∃ d, measured_as ch d ∧ a = Receiver Idling false false [] (ds ++ [d])
  | Returned ok => ok = true ∧ a = Receiver Quiet false false [] ds
  end.

(** The characters that have been dealt with. *)
Definition before (p : sender_at) (past : list ascii) : Prop :=
  match p with
  | AtCharacter buf => text = past ++ buf
  | AwaitingOpen _ ch buf | Opened _ ch buf | Dispatched _ _ ch buf | AwaitingClose _ _ ch buf | Closed _ _ ch buf =>
      text = past ++ ch :: buf
  | Returned _ => text = past
  end.

Definition stage (p : sender_at) (a : receiver) : Prop :=
  ∃ past ds, before p past ∧ Forall2 measured_as past ds ∧ in_stage p ds a.

Lemma in_stage_step p ds a a' : in_stage p ds a → receiver_step a a' → in_stage p ds a'.
Proof.
  unfold in_stage, told, answering, measured_as.
  intros Hs Hstep. destruct Hstep as [a|rq todo texts|rq todo texts|k todo texts Hk|rc rv todo texts|k rv d todo texts];
    [done|destruct p; simpl in *; naive_solver..|].
  destruct p as [buf|c ch buf|c ch buf|c rsp ch buf|c rsp ch buf|c rsp ch buf|ok]; simpl in *;
    [naive_solver..| | |naive_solver|naive_solver]; destruct (measurement ch) eqn:Hd; naive_solver.
Qed.

(** ** The invariant of the two together *)

Section invariant.
Context (h0 : heap) (b0 : B).
Hypothesis Hprep : prepares prepare.
Hypothesis Hconn : connectable.

Record joint_inv (j : joint) : Prop := {
  ji_sender : sender_ok (j_at j) (j_unit j);
  ji_state : ∃ a, receives h0 b0 a j ∧ stage (j_at j) a;
}.

Lemma receives_talk a k t p l up down air t' p' l' up' down' more air' r :
  receives h0 b0 a (Joint t p l up down air r) → air' = air ++ more →
  talking k (Joint t' p' l' up' down' air' r) →
  receives h0 b0 (Receiver k (r_receiving a) (r_received a) (r_todo a ++ more) (r_texts a)) (Joint t' p' l' up' down' air' r).
Proof.
  intros [Hinv Hph _ Hrc Hgot (pend & Hpend & Htodo) Hit] -> Hk. split; try done.
  exists pend. split; [done|]. simpl in *. by rewrite <-Htodo, <-app_assoc.
Qed.

(** A state of the invariant, from its parts. *)
Lemma joint_inv_intro j a past ds :
  sender_ok (j_at j) (j_unit j) → receives h0 b0 a j → before (j_at j) past →
  Forall2 measured_as past ds → in_stage (j_at j) ds a → joint_inv j.
Proof. intros Hs Hr Hb Hf Hst. split; [done|]. exists a. split; [done|]. by exists past, ds. Qed.

(** The invariant is kept, and less is left. *)
Definition advances (j j' : joint) : Prop := joint_inv j' ∧ joint_weight j' < joint_weight j.

(** When the talk changes and nothing is asked of the simulator. *)
Lemma advance_talk a k t p l up down air t' p' l' up' down' r past ds :
  receives h0 b0 a (Joint t p l up down air r) →
  talking k (Joint t' p' l' up' down' air r) → sender_ok p' t' → before p' past → Forall2 measured_as past ds →
  in_stage p' ds (Receiver k (r_receiving a) (r_received a) (r_todo a) (r_texts a)) →
  sender_weight p' + 4 * length up' + 2 * length down' + link_weight l'
    < sender_weight p + 4 * length up + 2 * length down + link_weight l →
  advances (Joint t p l up down air r) (Joint t' p' l' up' down' air r).
Proof.
  intros Hrv Hk Hs Hb Hf Hst Hwt. split; [|unfold joint_weight; simpl; lia].
  pose proof (receives_talk a k t p l up down air t' p' l' up' down' [] air r Hrv (eq_sym (app_nil_r air)) Hk) as Hrv'.
  rewrite app_nil_r in Hrv'. by eapply joint_inv_intro.
Qed.

Lemma sender_opens t ch buf l up down air r c n c' :
  tcp_client_ctor ip port = Ret c → write_message (request_init 0 1 0) c = (Ret n, c') →
  joint_inv (Joint t (AtCharacter (ch :: buf)) l up down air r) →
  advances (Joint t (AtCharacter (ch :: buf)) l up down air r)
    (Joint t (AwaitingOpen c' ch buf) Backlog (written (conn_socket c) (conn_socket c')) down air r).
Proof.
  intros Hc Hw [Hs (a & Hrv & past & ds & Hb & Hf & Hst)]. simpl in Hst. subst a.
  destruct Hconn as (s0 & Hconn0 & Hw0 & Hi0 & Ho0). unfold tcp_client_ctor, base_ctor in Hc. rewrite Hconn0 in Hc.
  simpl in Hc. injection Hc as <-.
  destruct (conn_write (request_init 0 1 0) (TcpClient s0 (Some false))) as (n1 & c1 & Hw1 & Hok & Hi1 & Hwr); [done|].
  rewrite Hw in Hw1. injection Hw1 as -> <-. rewrite Hwr. simpl in Hi1. rewrite Hi0 in Hi1.
  destruct (rv_talk _ _ _ _ Hrv) as (Hl & Hup & Hd & Hun). simpl in *. subst l up down.
  eapply (advance_talk _ (Asked open_bytes)); [exact Hrv| |done|exact Hb|exact Hf| |].
  - simpl. unfold sender_incoming. simpl. rewrite Hi1. by split_and!; auto.
  - simpl. split; [done|by left].
  - unfold sender_weight, sender_incoming. simpl. rewrite Hi1. simpl. lia.
Qed.

(** The bytes of an answer have come. *)
Lemma answer_read k p up down c l t air r :
  talking k (Joint t p l up down air r) → sender_socket p = Some (conn_socket c) →
  (k = Replying ∨ k = Replied ∨ k = Stalled ∨ ∃ rq, k = Asked rq) →
  length reply_bytes ≤ length (incoming (conn_socket c)) →
  k = Replied ∧ down = [] ∧ length (incoming (conn_socket c)) = length reply_bytes
  ∧ l = Accepted ∧ up = [] ∧ reading (rt_at r) [].
Proof.
  intros Hk Hp Hwhich Hl.
  assert (sender_incoming p = incoming (conn_socket c)) as Hin by (unfold sender_incoming; by rewrite Hp).
  assert (incoming (conn_socket c) ≠ []) as Hne by (intros He; rewrite He in Hl; by apply Nat.nle_succ_0 in Hl).
  destruct Hwhich as [-> |[-> |[-> |[rq ->]]]]; simpl in Hk; rewrite Hin in Hk; [naive_solver| |naive_solver|naive_solver].
  destruct Hk as (-> & -> & Hrd & Hb). pose proof (f_equal length Hb) as Hlen. rewrite length_app in Hlen.
  destruct down; [|cbn [length] in Hlen; lia]. cbn [length] in Hlen. split_and!; try done. lia.
Qed.

Lemma sender_opened t c ch buf l up down air r x c' :
  read_message (I := NetMessages.response) c = (Ret x, c') →
  msg_length NetMessages.response_empty ≤ length (incoming (conn_socket c)) →
  joint_inv (Joint t (AwaitingOpen c ch buf) l up down air r) →
  advances (Joint t (AwaitingOpen c ch buf) l up down air r) (Joint t (Opened c' ch buf) l up down air r).
Proof.
  intros Hr Hl [Hs (a & Hrv & past & ds & Hb & Hf & Hok & Hst)]. simpl in *.
  assert (∃ k, r_talk a = k ∧ (k = Replying ∨ k = Replied ∨ k = Stalled ∨ ∃ rq, k = Asked rq)
    ∧ (k = Replied → a = Receiver Replied true false [] ds)) as (k & Hk & Hwhich & Ha).
  { unfold answering in Hst. destruct Hst as [->|(k & Hk & ->)]; simpl; naive_solver. }
  pose proof (rv_talk _ _ _ _ Hrv) as Htalk. rewrite Hk in Htalk.
  destruct (answer_read k _ up down c l t air r Htalk eq_refl Hwhich Hl) as (-> & -> & Hlen & -> & -> & Hrd).
  specialize (Ha eq_refl). subst a. destruct (conn_read c Hok Hlen) as (x1 & c1 & Hr1 & Hok1 & Hi1).
  rewrite Hr in Hr1. injection Hr1 as -> <-.
  eapply (advance_talk _ Idling); [exact Hrv| |done|exact Hb|exact Hf| |].
  - simpl. unfold sender_incoming. simpl. by split_and!.
  - done.
  - unfold sender_weight, sender_incoming. simpl. rewrite Hi1, Hlen. simpl. lia.
Qed.

Lemma sender_asks t c ch buf l up down air r rq rsp t' :
  tx_request (nIP t) language ch = Ret rq → call_through l_dispatcher rq t = (Ret rsp, t') →
  joint_inv (Joint t (Opened c ch buf) l up down air r) →
  advances (Joint t (Opened c ch buf) l up down air r)
    (Joint t' (Dispatched c rsp ch buf) l up down (air ++ option_list (sim_measure (tx_message (nIP t) language ch))) r).
Proof.
  intros Hrq Hask [[Hna (cl & Hcl & Htakes)] (a & Hrv & past & ds & Hb & Hf & Hok & Hst)]. simpl in *. subst a.
  rewrite tx_request_eq in Hrq. injection Hrq as <-. rewrite (call_through_eq l_dispatcher _ _ _ cl) in Hask by done.
  rewrite Hna in Hask |- *. fold (measurement ch).
  change (exchange (sim_message "tx" _) cl) with (exchange (tx_message na language ch) cl) in Hask.
  destruct (sim_takes_spec _ _ _ Htakes) as (rsp' & cl' & Hx & Htakes' & He). rewrite Hx in Hask. simpl in Hask.
  injection Hask as <- <-. split.
  - eapply joint_inv_intro; [|eapply (receives_talk _ Idling); [exact Hrv|reflexivity|exact (rv_talk _ _ _ _ Hrv)]|exact Hb|exact Hf|].
    + split; [done|]. by exists cl'.
    + simpl. split_and!; [done|exact He|done|]. split; [done|]. by left.
  - unfold joint_weight, sender_weight, sender_incoming. simpl. rewrite length_app. destruct (measurement ch); simpl; lia.
Qed.

Lemma sender_closes t c rsp ch buf l up down air r n c' :
  write_message (request_init 0 2 0) c = (Ret n, c') →
  joint_inv (Joint t (Dispatched c rsp ch buf) l up down air r) →
  advances (Joint t (Dispatched c rsp ch buf) l up down air r)
    (Joint t (AwaitingClose c' rsp ch buf) l (up ++ written (conn_socket c) (conn_socket c')) down air r).
Proof.
  intros Hw [Hs (a & Hrv & past & ds & Hb & Hf & Hok & He & Hk & Htold)]. simpl in *.
  destruct (conn_write (request_init 0 2 0) c Hok) as (n1 & c1 & Hw1 & Hok1 & Hi1 & Hwr).
  rewrite Hw in Hw1. injection Hw1 as -> <-. rewrite Hwr.
  pose proof (rv_talk _ _ _ _ Hrv) as Htalk. rewrite Hk in Htalk. destruct Htalk as (Hl & Hup & Hd & Hin & Hrd).
  simpl in *. subst l up down. unfold sender_incoming in Hin. simpl in Hin.
  eapply (advance_talk _ (Asked close_bytes)); [exact Hrv| |done|exact Hb|exact Hf| |].
  - simpl. unfold sender_incoming. simpl. rewrite Hi1. split_and!; try done. right. split; [done|]. by exists [].
  - simpl. split_and!; [done|done|]. left. split; [by left|exact Htold].
  - unfold sender_weight, sender_incoming. simpl. rewrite Hi1, Hin. simpl. lia.
Qed.

Lemma sender_closed t c rsp ch buf l up down air r x c' :
  read_message (I := NetMessages.response) c = (Ret x, c') →
  msg_length NetMessages.response_empty ≤ length (incoming (conn_socket c)) →
  joint_inv (Joint t (AwaitingClose c rsp ch buf) l up down air r) →
  advances (Joint t (AwaitingClose c rsp ch buf) l up down air r) (Joint t (Closed c' rsp ch buf) l up down air r).
Proof.
  intros Hr Hl [Hs (a & Hrv & past & ds & Hb & Hf & Hok & He & Hst)]. simpl in *.
  assert (∃ k, r_talk a = k ∧ (k = Replying ∨ k = Replied ∨ k = Stalled ∨ ∃ rq, k = Asked rq)
    ∧ (k = Replied → ∃ d, measured_as ch d ∧ a = Receiver Replied false false [] (ds ++ [d]))) as (k & Hk & Hwhich & Ha).
  { unfold answering in Hst. destruct Hst as [[[Hk|Hk] _]|(d & k & Hd & Hk & ->)]; simpl; naive_solver. }
  pose proof (rv_talk _ _ _ _ Hrv) as Htalk. rewrite Hk in Htalk.
  destruct (answer_read k _ up down c l t air r Htalk eq_refl Hwhich Hl) as (-> & -> & Hlen & -> & -> & Hrd).
  destruct (Ha eq_refl) as (d & Hd & ->). destruct (conn_read c Hok Hlen) as (x1 & c1 & Hr1 & Hok1 & Hi1).
  rewrite Hr in Hr1. injection Hr1 as -> <-.
  eapply (advance_talk _ Idling); [exact Hrv| |done|exact Hb|exact Hf| |].
  - simpl. unfold sender_incoming. simpl. by split_and!.
  - simpl. unfold measured_as in Hd. rewrite Hd, bool_decide_false in He by done. split_and!; [done|done|]. by exists d.
  - unfold sender_weight, sender_incoming. simpl. rewrite Hi1, Hlen. simpl. lia.
Qed.

Lemma sender_leaves t c rsp ch buf l up down air r p' :
  (get_error rsp = Ret false ∧ p' = AtCharacter buf ∨ get_error rsp = Ret true ∧ p' = Returned false) →
  joint_inv (Joint t (Closed c rsp ch buf) l up down air r) →
  advances (Joint t (Closed c rsp ch buf) l up down air r) (Joint t p' Unlinked up down air r).
Proof.
  intros Hp [Hs (a & Hrv & past & ds & Hb & Hf & Hok & He & d & Hd & ->)]. simpl in *.
  destruct Hp as [[_ ->]|[He' _]]; [|congruence].
  destruct (rv_talk _ _ _ _ Hrv) as (Hl & Hup & Hdn & Hin & Hrd). simpl in *. subst l up down.
  eapply (advance_talk _ Quiet) with (past := past ++ [ch]); [exact Hrv| |done| | |reflexivity|].
  - simpl. by destruct (rt_at r).
  - simpl. by rewrite <-app_assoc.
  - apply Forall2_app; [done|]. by constructor.
  - unfold sender_weight, sender_incoming. simpl. lia.
Qed.

Lemma sender_done t l up down air r :
  joint_inv (Joint t (AtCharacter []) l up down air r) →
  advances (Joint t (AtCharacter []) l up down air r) (Joint t (Returned true) l up down air r).
Proof.
  intros [[Hna (cl & Hcl & Htakes)] (a & Hrv & past & ds & Hb & Hf & ->)]. simpl in *.
  eapply (advance_talk _ Quiet); [exact Hrv|exact (rv_talk _ _ _ _ Hrv)| | |exact Hf|by split|].
  - split; [done|]. by exists cl.
  - simpl. by rewrite Hb, app_nil_r.
  - unfold sender_weight, sender_incoming. simpl. lia.
Qed.

(** Every step keeps the invariant, and leaves less to do unless it is idle. *)
Lemma simulated_advances a j j' :
  sender_ok (j_at j') (j_unit j') → stage (j_at j') a → simulated h0 b0 j a j' → advances j j'.
Proof.
  intros Hs (past & ds & Hb & Hf & Hst) (a' & Hrv & Hstep & Hwt). split; [|done].
  eapply joint_inv_intro; [done..|]. by eapply in_stage_step.
Qed.

Lemma send_step_advances t p ev t' p' l up down air r :
  send_step (t, p) ev (t', p') → sender_ready p → joint_inv (Joint t p l up down air r) →
  advances (Joint t p l up down air r) (Joint t' p' (link_after ev l) (up_after ev up) down (air_after ev air) r).
Proof.
  intros Hstep Hready Hinv. inversion Hstep; subst; simpl.
  - by eapply sender_opens.
  - by eapply sender_opened.
  - by eapply sender_asks.
  - by eapply sender_closes.
  - by eapply sender_closed.
  - eapply sender_leaves; [by left|done].
  - eapply sender_leaves; [by right|done].
  - by apply sender_done.
Qed.

Lemma stage_receive bs p a : stage p a → stage (sender_receive bs p) a.
Proof.
  intros (past & ds & Hb & Hf & Hst). exists past, ds.
  assert (∀ c, conn_ok c → conn_ok (conn_receive bs c)) as Hok by (intros c [Hm Hw]; split; [done|by apply deliver_writable]).
  destruct p; simpl in *; naive_solver.
Qed.

Lemma step_advances j j' : joint_step j j' → joint_inv j → advances j j'.
Proof.
  intros Hstep Hinv. pose proof Hinv as [Hs (a & Hrv & Hst)].
  destruct Hstep as [t p ev t' p' l up down air r Hsend Hready _|bs t p up down air r Hbs|bs t p l up down air r Hbs
    |d t p l up down air r|i sock sock1 t p up down air s Ha Hc|t p l up down air r r' Hstep Hready Hmoves
    |topic s1 e t p l up down air r Hr Hw].
  - by apply send_step_advances.
  - eapply simulated_advances; [done|done|by apply arrive_up_simulated].
  - destruct (arrive_down_simulated h0 b0 a bs t p l up down air r Hbs) as [Hsim _]; [|done|].
    + destruct (sender_socket p) eqn:Hp; [by eexists|]. exfalso.
      pose proof (rv_talk _ _ _ _ Hrv) as Htalk. destruct Hst as (past & ds & _ & _ & Hst).
      assert (r_talk a = Quiet) as Hk by (destruct p; simpl in *; naive_solver). rewrite Hk in Htalk.
      destruct Htalk as (_ & _ & Hd & _). simpl in Hd. by destruct bs.
    + eapply simulated_advances; [|by apply stage_receive|exact Hsim]. by destruct p.
  - eapply simulated_advances; [done|done|by apply measured_simulated].
  - eapply simulated_advances; [done|done|by eapply accept_simulated].
  - eapply simulated_advances; [done|done|by apply serve_simulated].
  - eapply simulated_advances; [done|done|by eapply round_simulated].
Qed.

Lemma idle_inv j j' : idle_step j j' → joint_inv j → joint_inv j' ∧ joint_weight j' = joint_weight j.
Proof.
  intros Hstep [Hs (a & Hrv & Hst)]. destruct (idle_receives h0 b0 a j j' Hstep Hrv) as (Hrv' & Hwt & Hu & Hp).
  split; [|done]. split; [by rewrite Hu, Hp|]. exists a. by rewrite Hp.
Qed.

Lemma run_inv j n j' : joint_run j n j' → joint_inv j → joint_inv j' ∧ n + joint_weight j' ≤ joint_weight j.
Proof.
  induction 1 as [|n j1 j2 _ IH Hstep|n j1 j2 _ IH Hstep]; intros Hinv; [auto with lia| |]; destruct (IH Hinv) as [Hinv1 Hn].
  - destruct (step_advances _ _ Hstep Hinv1). split; [done|lia].
  - destruct (idle_inv _ _ Hstep Hinv1) as [? ->]. by split.
Qed.

(** ** Somebody can always go on *)

Hypothesis Haccept : ∃ sock sock1, connects sock sock1 [].

Definition able (j : joint) : Prop := ∃ j', joint_step j j'.

Lemma serve_able t p l up down air r r' :
  request_step prepare r r' → session_ready l (rt_at r) → moves (rt_at r) (rt_at r') → able (Joint t p l up down air r).
Proof. intros. eexists. by eapply js_serve. Qed.

Lemma asked_able a rq j : receives h0 b0 a j → r_talk a = Asked rq → able j.
Proof.
  intros [Hinv Hph Htalk _ _ _ _] Hk. rewrite Hk in Htalk. destruct j as [t p l up down air [s at_ ph]].
  pose proof (ti_sessions _ Hinv) as Hses. simpl in *. subst ph.
  destruct Htalk as (Hlen & -> & _ & [(-> & -> & Hun)|(-> & bs & Hrd & Hrq)]).
  - destruct at_ as [| |i sock| | |]; try done.
    + destruct Haccept as (sock & sock1 & Hc). destruct Hses as (i & _ & _ & Ha & _). eexists. by eapply js_accept.
    + destruct Hun as [_ Hi]. destruct (tcp_read_short (msg_length request_empty) sock) as (what & s1 & Hr & _);
        [rewrite Hi; apply Nat.lt_0_succ|].
      eapply serve_able; [eapply th_disconnect; [exact Hr|]|by right|done]. destruct Hses as [-> _]. set_solver.
  - destruct at_ as [| |i sock| | |]; try done. destruct Hrd as [Hw Hi].
    destruct (decide (up = [])) as [->|Hne].
    + rewrite app_nil_r in Hrq. subst bs rq.
      destruct (tcp_read_enough (msg_length request_empty) sock) as (s1 & Hr & _); [by rewrite Hlen|].
      destruct (process_returns prepare (env_unit (instance s)) Hprep (ti_free _ Hinv)) as (q & t' & Hp).
      eapply serve_able; [eapply th_request; [exact Hr|]|left; by simpl; rewrite Hlen|done].
      unfold zoom. simpl. rewrite Hp. reflexivity.
    + eexists. pose proof (js_arrive_up prepare language ip port up t p [] [] air (RequestThread s (Reading i sock) Loaded) Hne) as Hstep.
      rewrite app_nil_r in Hstep. exact Hstep.
Qed.

Lemma stalled_able a ch ds d j :
  receives h0 b0 a j → r_talk a = Stalled → told ch ds a → measured_as ch d → able j.
Proof.
  intros [Hinv Hph Htalk Hrc Hgot (pend & Hpend & Htodo) _] Hk [Hre Htold] Hd. rewrite Hk in Htalk.
  destruct j as [t p l up down air [s at_ ph]]. pose proof (ti_free _ Hinv) as Hm. pose proof (ti_buffer _ Hinv) as Hb.
  unfold rt_unit in *. simpl in *. subst ph.
  destruct Htalk as (-> & -> & -> & _ & Hst). destruct at_ as [| | |i sock| |]; try done.
  destruct Htold as [(Hrv & Ht & _)|(Hrv & _ & _)].
  - unfold measured_as in Hd. rewrite Hd in Ht. simpl in Ht. rewrite Ht in Htodo. destruct pend as [|d' pend].
    + simpl in Htodo. subst air. eexists. apply js_measured.
    + destruct (sim_recv_some _ _ _ Hpend) as (topic & rd & s1 & s2 & Hr1 & Hr2 & _).
      destruct (instance s) as [u h b] eqn:Hinst. simpl in *. rewrite Hre in Hrc.
      destruct (async_work_data u h b topic rd s1 s2 Hm Hrc Hb Hr1 Hr2) as (b' & Ha & _).
      eexists. eapply (js_round prepare language ip port topic s1); unfold rt_unit; simpl; rewrite Hinst; [exact Hr1|exact Ha].
  - eapply serve_able; [eapply (th_wakeup _ _ _ Done)|done|done].
    unfold zoom. simpl. rewrite process_resume_eq, Hgot, Hrv by done. reflexivity.
Qed.

Lemma replying_able a j : receives h0 b0 a j → r_talk a = Replying → able j.
Proof.
  intros [Hinv Hph Htalk _ _ _ _] Hk. rewrite Hk in Htalk. destruct j as [t p l up down air [s at_ ph]].
  simpl in *. destruct Htalk as (_ & _ & _ & _ & Hrp). destruct at_ as [| | | |i sock|]; try done.
  destruct Hrp as [Hw _]. destruct (tcp_write_all reply_bytes sock Hw) as (s1 & Hwr & _).
  eapply serve_able; [by eapply th_answer|done|done].
Qed.

Lemma send_able t p ev t' p' l up down air r :
  send_step (t, p) ev (t', p') → sender_ready p → (ev = Leaves → up = []) → able (Joint t p l up down air r).
Proof. intros. eexists. by eapply js_sender. Qed.

(** A reply on its way, or the sender who can read it. *)
Lemma replied_able a j c :
  receives h0 b0 a j → r_talk a = Replied → sender_socket (j_at j) = Some (conn_socket c) → conn_ok c →
  (∀ x c', read_message (I := NetMessages.response) c = (Ret x, c') →
     msg_length NetMessages.response_empty ≤ length (incoming (conn_socket c)) → able j) → able j.
Proof.
  intros [_ _ Htalk _ _ _ _] Hk Hs Hok Hread. rewrite Hk in Htalk. destruct j as [t p l up down air r]. simpl in *.
  destruct Htalk as (_ & _ & _ & Hb). unfold sender_incoming in Hb. rewrite Hs in Hb. simpl in Hb.
  destruct (decide (down = [])) as [->|Hne].
  - rewrite app_nil_r in Hb. destruct (conn_read c Hok) as (x & c' & Hr & _); [by rewrite Hb|].
    eapply Hread; [exact Hr|]. by rewrite Hb.
  - eexists. pose proof (js_arrive_down prepare language ip port down t p l up [] air r Hne) as Hstep. rewrite app_nil_r in Hstep. exact Hstep.
Qed.

(** The sender waits for the answer to its closing request, the receiver for a
    measurement that will not come. *)
Definition blocked (j : joint) : Prop :=
  match j_at j with
  | AwaitingClose _ _ ch _ => measurement ch = None ∧ stalled (rt_at (j_thread j))
  | _ => False
  end.

Lemma run_able j : joint_inv j → able j ∨ j_at j = Returned true ∨ blocked j.
Proof.
  intros [[Hna (cl & Hcl & Htakes)] (a & Hrv & past & ds & Hb & Hf & Hst)]. destruct j as [t p l up down air r].
  destruct Hconn as (s0 & Hc0 & Hw0 & _).
  destruct p as [[|ch buf]|c ch buf|c ch buf|c rsp ch buf|c rsp ch buf|c rsp ch buf|ok]; simpl in *.
  - left. by eapply send_able; [apply sn_done| |].
  - left. destruct (conn_write (request_init 0 1 0) (TcpClient s0 (Some false))) as (n & c' & Hw & _); [done|].
    eapply send_able; [eapply sn_open; [|exact Hw]| |done]; [|done]. unfold tcp_client_ctor, base_ctor. by rewrite Hc0.
  - left. destruct Hst as [Hok [->|(k & [-> | ->] & ->)]]; [by eapply asked_able|by eapply replying_able|].
    eapply (replied_able _ _ c); [done..|]. intros x c' Hr Hl. by eapply send_able; [by eapply sn_opened| |].
  - left. destruct (sim_takes_spec _ _ _ Htakes) as (rsp & cl' & Hx & _). rewrite <-Hna in Hx.
    eapply send_able; [eapply sn_ask; [apply tx_request_eq|]|done|done].
    rewrite (call_through_eq l_dispatcher _ _ _ cl) by done.
    change (exchange (sim_message "tx" _) cl) with (exchange (tx_message (nIP t) language ch) cl). rewrite Hx. reflexivity.
  - left. destruct Hst as (Hok & _). destruct (conn_write (request_init 0 2 0) c Hok) as (n & c' & Hw & _).
    by eapply send_able; [by eapply sn_close| |].
  - destruct Hst as (Hok & _ & [[[Hk|Hk] Htold]|(d' & k & _ & [-> | ->] & ->)]).
    + left. by eapply asked_able.
    + destruct (measurement ch) as [d|] eqn:Hd; [left; by eapply stalled_able|]. right. right. split; [done|].
      pose proof (rv_talk _ _ _ _ Hrv) as Htalk. rewrite Hk in Htalk. apply Htalk.
    + left. by eapply replying_able.
    + left. eapply (replied_able _ _ c); [done..|]. intros x c' Hr Hl. by eapply send_able; [by eapply sn_closed| |].
  - left. destruct Hst as (Hok & He & d & _ & ->). destruct (rv_talk _ _ _ _ Hrv) as (_ & Hup & _).
    eapply send_able; [eapply sn_next; [done|by apply conn_destroy]|done|done].
  - right. left. by destruct Hst as [-> _].
Qed.

Lemma joint_run_app j n j1 m j2 : joint_run j n j1 → joint_run j1 m j2 → joint_run j (n + m) j2.
Proof.
  intros Hr1 Hr2. induction Hr2 as [|m j2 j3 _ IH Hs|m j2 j3 _ IH Hs]; [by rewrite Nat.add_0_r| |].
  - rewrite Nat.add_succ_r. by eapply jr_step.
  - by eapply jr_idle.
Qed.

(** Going on as long as possible. *)
Lemma run_to_end j : joint_inv j → ∃ n j', joint_run j n j' ∧ joint_inv j' ∧ (j_at j' = Returned true ∨ blocked j').
Proof.
  remember (joint_weight j) as k eqn:Hk. revert j Hk. induction k as [k IH] using lt_wf_ind. intros j -> Hinv.
  destruct (run_able j Hinv) as [[j1 Hstep]|Hend]; [|exists 0, j; by split_and!; [constructor|..]].
  destruct (step_advances _ _ Hstep Hinv) as [Hinv1 Hlt].
  destruct (IH _ Hlt j1 eq_refl Hinv1) as (n & j' & Hr & Hrest).
  exists (1 + n), j'. split; [|done]. eapply joint_run_app; [|done]. eapply jr_step; [constructor|done].
Qed.

(** The first character that is not measured is the same however it is found. *)
Lemma first_refused past1 ch1 rest1 past2 ch2 rest2 ds1 ds2 :
  past1 ++ ch1 :: rest1 = past2 ++ ch2 :: rest2 → Forall2 measured_as past1 ds1 → Forall2 measured_as past2 ds2 →
  measurement ch1 = None → measurement ch2 = None → past1 = past2 ∧ ch1 = ch2 ∧ ds1 = ds2.
Proof.
  unfold measured_as. intros Heq Hf1 Hf2 Hn1 Hn2. revert past2 ds2 Hf2 Heq.
  induction Hf1 as [|c d past1 ds1 Hd _ IH]; intros past2 ds2 Hf2; destruct Hf2 as [|c2 d2 past2 ds2 Hd2 Hf2];
    simpl; intros [= -> Heq]; try congruence; [done|].
  destruct (IH _ _ Hf2 Heq) as (-> & -> & ->). by simplify_eq.
Qed.
End invariant.

(** ** Properties *)

(** A transmission that is about to begin: the sender with a client of the
    simulator's dispatcher, and a receiver which waits for a client, at rest. *)
Definition about_to_send (j : joint) : Prop :=
  sender_ok (AtCharacter text) (j_unit j) ∧ j_at j = AtCharacter text ∧ j_link j = Unlinked
  ∧ j_up j = [] ∧ j_down j = [] ∧ j_air j = []
  ∧ thread_inv (j_thread j) ∧ rt_at (j_thread j) = Listening ∧ rt_phase (j_thread j) = Loaded
  ∧ isReceiving (rt_unit (j_thread j)) = false ∧ hasReceived (rt_unit (j_thread j)) = false
  ∧ sim_pending (rx_socket (rt_unit (j_thread j))) = Some [].

Definition contents (j : joint) : list buffer_item := ab_contents (env_buffer (instance (rt_server (j_thread j)))).
Definition memory (j : joint) : heap := env_heap (instance (rt_server (j_thread j))).

(** What has been pushed since [j0] are the texts, in order. *)
Definition pushed_since (j0 j : joint) (ds : list (list ascii)) : Prop :=
  ∃ items, contents j = contents j0 ++ items ∧ stored (memory j0) items ds (memory j).

Lemma start_inv j :
  about_to_send j → joint_inv (memory j) (env_buffer (instance (rt_server (j_thread j)))) j
  ∧ joint_weight j = 40 * length text + 1.
Proof.
  intros (Hs & Hp & Hl & Hu & Hd & Ha & Hinv & Hat & Hph & Hrc & Hgot & Hpend). split.
  - eapply (joint_inv_intro _ _ _ (Receiver Quiet false false [] []) [] []); rewrite ?Hp; try done.
    split; try done; simpl; [by rewrite Hat|exists []; by rewrite Ha|].
    exists []. split; [by rewrite app_nil_r|constructor].
  - unfold joint_weight, sender_weight, sender_incoming, pending_weight.
    rewrite Hp, Hl, Hu, Hd, Ha, Hat, Hpend. simpl. lia.
Qed.

Lemma measured_omap past ds : Forall2 measured_as past ds → omap measurement past = ds.
Proof. unfold measured_as. induction 1 as [|ch d past ds Hd _ IH]; [done|]. simpl. rewrite Hd. by f_equal. Qed.

Lemma stage_texts p a : stage p a → r_texts a `prefix_of` omap measurement text.
Proof.
  intros (past & ds & Hb & Hf & Hst). pose proof (measured_omap _ _ Hf) as Hds.
  assert (r_texts a = ds ∨ ∃ ch buf d, text = past ++ ch :: buf ∧ measured_as ch d ∧ r_texts a = ds ++ [d])
    as [-> |(ch & buf & d & -> & Hd & ->)].
  { assert (∀ ch buf, told ch ds a → text = past ++ ch :: buf → r_texts a = ds
      ∨ ∃ ch buf d, text = past ++ ch :: buf ∧ measured_as ch d ∧ r_texts a = ds ++ [d]) as Htold.
    { intros ch buf [_ [(_ & _ & Ht)|(_ & _ & d & Hd & Ht)]] Hch; [by left|]. right. by exists ch, buf, d. }
    destruct p as [buf|c ch buf|c ch buf|c rsp ch buf|c rsp ch buf|c rsp ch buf|ok]; simpl in *.
    - subst a. by left.
    - destruct Hst as [_ [->|(k & _ & ->)]]; by left.
    - destruct Hst as [_ ->]. by left.
    - destruct Hst as (_ & _ & _ & Ht). by eapply Htold.
    - destruct Hst as (_ & _ & [[_ Ht]|(d & k & Hd & _ & ->)]); [by eapply Htold|]. right. by exists ch, buf, d.
    - destruct Hst as (_ & _ & d & Hd & ->). right. by exists ch, buf, d.
    - destruct Hst as [_ ->]. by left. }
  - assert (∃ rest, text = past ++ rest) as [rest ->].
    { destruct p; simpl in Hb; try (by eexists); exists []; by rewrite app_nil_r. }
    rewrite omap_app, Hds. by apply prefix_app_r.
  - rewrite omap_app, Hds. apply prefix_app. unfold measured_as in Hd. simpl. rewrite Hd. by exists (omap measurement buf).
Qed.

Lemma inv_pushed j0 j a :
  receives (memory j0) (env_buffer (instance (rt_server (j_thread j0)))) a j → pushed_since j0 j (r_texts a).
Proof. intros Hrv. apply (rv_items _ _ _ _ Hrv). Qed.

Lemma returned_pushed j0 j ds :
  joint_inv (memory j0) (env_buffer (instance (rt_server (j_thread j0)))) j → Forall2 measured_as text ds →
  j_at j = Returned true → pushed_since j0 j ds ∧ isReceiving (rt_unit (j_thread j)) = false.
Proof.
  intros [_ (a & Hrv & past & ds' & Hb & Hf & Hst)] Hds Hp. rewrite Hp in Hb, Hst. simpl in Hb, Hst.
  destruct Hst as [_ ->]. subst past. rewrite <-(measured_omap _ _ Hds), (measured_omap _ _ Hf).
  split; [exact (inv_pushed _ _ _ Hrv)|exact (rv_receiving _ _ _ _ Hrv)].
Qed.

(** The module's thread never meets a measurement out of turn. *)
Lemma module_round_returns h0 b0 j :
  joint_inv h0 b0 j → (async_work (instance (rt_server (j_thread j)))).1 = Ret tt.
Proof.
  intros [_ (a & [Hinv _ _ Hrc _ (pend & Hpend & Htodo) _] & past & ds & _ & _ & Hst)].
  pose proof (ti_free _ Hinv) as Hm. pose proof (ti_buffer _ Hinv) as Hb. unfold rt_unit in *.
  destruct (instance (rt_server (j_thread j))) as [u h b]. simpl in *. destruct pend as [|d pend].
  - destruct (sim_recv_none _ Hpend) as (sk & Hr & _). by rewrite (async_work_quiet u h b sk Hr).
  - destruct (sim_recv_some _ _ _ Hpend) as (topic & rd & s1 & s2 & Hr1 & Hr2 & _).
    assert (r_receiving a = true) as Hre.
    { destruct (j_at j) as [buf|c ch buf|c ch buf|c rsp ch buf|c rsp ch buf|c rsp ch buf|ok]; simpl in Hst.
      - by subst a.
      - by destruct Hst as [_ [->|(k & _ & ->)]].
      - by destruct Hst as [_ ->].
      - by destruct Hst as (_ & _ & _ & [? _]).
      - by destruct Hst as (_ & _ & [[_ [? _]]|(d' & k & _ & _ & ->)]).
      - by destruct Hst as (_ & _ & d' & _ & ->).
      - by destruct Hst as [_ ->]. }
    rewrite Hre in Hrc. by destruct (async_work_data u h b topic rd s1 s2 Hm Hrc Hb Hr1 Hr2) as (b' & -> & _).
Qed.

(** The end of a transmission with a circuit that is refused. *)
Definition hangs (j0 : joint) (ch : ascii) (rest : list ascii) (ds : list (list ascii)) (j : joint) : Prop :=
  (∃ c rsp, j_at j = AwaitingClose c rsp ch rest) ∧ stalled (rt_at (j_thread j)) ∧ pushed_since j0 j ds.

Lemma blocked_hangs j0 j past ch rest ds :
  joint_inv (memory j0) (env_buffer (instance (rt_server (j_thread j0)))) j →
  text = past ++ ch :: rest → Forall2 measured_as past ds → measurement ch = None → blocked j →
  hangs j0 ch rest ds j.
Proof.
  intros [_ (a & Hrv & past' & ds' & Hb & Hf & Hst)] Ht Hds Hn Hblock. unfold blocked in Hblock.
  destruct (j_at j) as [buf|c ch' buf|c ch' buf|c rsp ch' buf|c rsp ch' buf|c rsp ch' buf|ok] eqn:Hp; try done.
  destruct Hblock as [Hn' Hstall]. simpl in *. rewrite Ht in Hb.
  destruct (first_refused _ _ _ _ _ _ _ _ Hb Hds Hf Hn Hn') as (-> & -> & ->). simplify_list_eq.
  destruct Hst as (_ & _ & [[_ (_ & [(_ & _ & Htx)|(_ & _ & d & Hd & _)])]|(d & k & Hd & _)]);
    unfold measured_as in *; [|congruence..].
  split_and!; [by eexists _, _|done|]. rewrite <-Htx. by apply inv_pushed.
Qed.

(** C3. A transmission delivers. The sender, the receiver's request thread and its
    module's thread, and two networks that take their time: in every order of
    their steps, if the simulator measures every circuit, then at any time what
    the receiver has pushed for its client are the measurements of the first
    characters, in order, each once; the module's thread, which a measurement out
    of turn would end, and with it the program, goes on; there is a bound on the steps that are not
    idle; as long as [transmit] has not returned somebody can go on; and when it
    returns, with [true], all measurements have been pushed and the receiver is at
    rest. *)
Theorem transmission_delivers ds j0 n j :
  prepares prepare → connectable → (∃ sock sock1, connects sock sock1 []) →
  about_to_send j0 → Forall2 measured_as text ds → joint_run j0 n j →
  (∃ k, pushed_since j0 j (take k ds))
  ∧ (async_work (instance (rt_server (j_thread j)))).1 = Ret tt
  ∧ n ≤ 40 * length text + 1
  ∧ ((∃ j', joint_step j j') ∨ j_at j = Returned true)
  ∧ (∀ ok, j_at j = Returned ok → ok = true ∧ pushed_since j0 j ds ∧ isReceiving (rt_unit (j_thread j)) = false)
  ∧ ∃ m j', joint_run j m j' ∧ j_at j' = Returned true ∧ pushed_since j0 j' ds.
Proof.
  intros Hprep Hconn Hacc Hstart Hds Hrun. destruct (start_inv j0 Hstart) as [Hinv0 Hwt].
  destruct (run_inv _ _ Hprep Hconn j0 n j Hrun Hinv0) as [Hinv Hn].
  assert (∀ j, joint_inv (memory j0) (env_buffer (instance (rt_server (j_thread j0)))) j → ¬ blocked j) as Hnb.
  { intros j1 [_ (a & _ & past & ds' & Hb & _ & _)]. unfold blocked.
    destruct (j_at j1) as [buf|c ch buf|c ch buf|c rsp ch buf|c rsp ch buf|c rsp ch buf|ok]; try tauto.
    intros [Hnone _]. simpl in Hb. rewrite Hb in Hds. apply Forall2_app_inv_l in Hds as (d1 & d2 & _ & Hds & _).
    apply Forall2_cons_inv_l in Hds as (d & d3 & Hd & _). unfold measured_as in Hd. congruence. }
  split_and!.
  - destruct Hinv as [_ (a & Hrv & Hst)]. destruct (stage_texts _ _ Hst) as [rest Hpre].
    rewrite (measured_omap _ _ Hds) in Hpre. exists (length (r_texts a)). rewrite Hpre, take_app_length.
    by apply inv_pushed.
  - by eapply module_round_returns.
  - lia.
  - destruct (run_able _ _ Hprep Hconn Hacc j Hinv) as [Hable|[Hret|Hb]]; [by left|by right|]. by apply Hnb in Hb.
  - intros ok Hp. assert (ok = true) as ->.
    { destruct Hinv as [_ (a & _ & past & ds' & _ & _ & Hst)]. rewrite Hp in Hst. apply Hst. }
    split; [done|]. by apply returned_pushed.
  - destruct (run_to_end _ _ Hprep Hconn Hacc j Hinv) as (m & j' & Hr & Hinv' & [Hret|Hb]); [|by apply Hnb in Hb].
    exists m, j'. split_and!; [done|done|]. by apply returned_pushed.
Qed.

(** C14. [transmit] closes the connection to the receiver before it looks at the
    error of a circuit the dispatcher refused. Where such a circuit is not measured
    ([measurement ch = None], an assumption on the simulator), the receiver waits for
    the measurement before it answers, so in every order of the steps [transmit]
    never returns; the steps that are not idle come to an end with both units
    waiting, the receiver in the communication of that character, and the
    measurements of the characters before pushed. *)
Theorem refused_circuit_hangs past ch rest ds j0 n j :
  prepares prepare → connectable → (∃ sock sock1, connects sock sock1 []) →
  about_to_send j0 → text = past ++ ch :: rest → Forall2 measured_as past ds → measurement ch = None →
  joint_run j0 n j →
  n ≤ 40 * length text + 1
  ∧ (∀ ok, j_at j ≠ Returned ok)
  ∧ ((∃ j', joint_step j j') ∨ hangs j0 ch rest ds j)
  ∧ ∃ m j', joint_run j m j' ∧ hangs j0 ch rest ds j'.
Proof.
  intros Hprep Hconn Hacc Hstart Ht Hds Hnone Hrun. destruct (start_inv j0 Hstart) as [Hinv0 Hwt].
  destruct (run_inv _ _ Hprep Hconn j0 n j Hrun Hinv0) as [Hinv Hn].
  assert (∀ j ok, joint_inv (memory j0) (env_buffer (instance (rt_server (j_thread j0)))) j → j_at j ≠ Returned ok) as Hnr.
  { intros j1 ok [_ (a & _ & past' & ds' & Hb & Hf & _)] Hp. rewrite Hp in Hb. simpl in Hb. subst past'.
    rewrite Ht in Hf. apply Forall2_app_inv_l in Hf as (d1 & d2 & _ & Hf & _).
    apply Forall2_cons_inv_l in Hf as (d & d3 & Hd & _). unfold measured_as in Hd. congruence. }
  split_and!; [lia|intros ok; by apply Hnr| |].
  - destruct (run_able _ _ Hprep Hconn Hacc j Hinv) as [Hable|[Hret|Hb]]; [by left|by apply Hnr in Hret|].
    right. by eapply blocked_hangs.
  - destruct (run_to_end _ _ Hprep Hconn Hacc j Hinv) as (m & j' & Hr & Hinv' & [Hret|Hb]); [by apply Hnr in Hret|].
    exists m, j'. split; [done|]. by eapply blocked_hangs.
Qed.
End sender.
End delivery.

(** ** Witnesses

    Byte streams, and a simulator which measures 01 for every circuit but those
    without a gate. *)
Section witness.
#[local] Instance delivery_boost : BoostOptions := constant_options ∅.
#[local] Instance delivery_os : OS := os_with None.

#[local] Program Instance live_streams : LiveTCP := {|
  tcp_deliver bs s := (s.1 ++ bs, s.2);
|}.
Next Obligation. done. Qed.
Next Obligation. done. Qed.
Next Obligation. done. Qed.
Next Obligation. intros s _. by exists s. Qed.

Definition refused_message : list ascii := tx_message 7 "chpext" "x".
Definition sample_measure (msg : list ascii) : option (list ascii) :=
  if decide (msg = refused_message) then None else Some (chars "01").

Definition reply_to (msg : list ascii) : option (list ascii) :=
  Some (if decide (sample_measure msg = None) then an_error_reply else no_error_reply).

(** A topic and the data, again and again. *)
Fixpoint published (inb : list (option (list ascii))) : option (list (list ascii)) :=
  match inb with
  | [] => Some []
  | Some _ :: Some d :: inb' => cons d <$> published inb'
  | _ => None
  end.

Lemma published_snoc inb ds d :
  published inb = Some ds → published (inb ++ [Some (chars "1234"); Some d]) = Some (ds ++ [d]).
Proof.
  remember (length inb) as n eqn:Hn. revert inb ds Hn. induction n as [n IH] using lt_wf_ind.
  intros [|[t|] [|[d'|] inb]] ds -> Hp; simpl in *; try done; [by simplify_eq|].
  destruct (published inb) as [ds'|] eqn:Hi; [|done]. simpl in Hp. simplify_eq.
  by rewrite (IH (length inb) ltac:(lia) inb ds' eq_refl Hi).
Qed.

Lemma reply_errors :
  get_error (sim_response_ctor an_error_reply) = Ret true ∧ get_error (sim_response_ctor no_error_reply) = Ret false.
Proof. split; vm_compute; reflexivity. Qed.

#[local] Program Instance sample_simulator : Simulator := {|
  sim_measure := sample_measure;
  sim_takes cl msgs := ∃ log, Simulation.socket cl = Scripted (reply_to <$> msgs) true log;
  sim_pending sk := published (inbox sk);
  sim_publish d sk := Scripted (inbox sk ++ [Some (chars "1234"); Some d]) (send_ok sk) (outbox sk);
|}.
Next Obligation.
  intros msg msgs [ep sk] [log Hs]. simpl in Hs. subst sk. unfold reply_to.
  eexists _, _. split; [reflexivity|]. split; [by eexists|]. destruct reply_errors as [He1 He2].
  case_decide as Hm; [rewrite bool_decide_true by done; exact He1|rewrite bool_decide_false by done; exact He2].
Qed.
Next Obligation. intros d sk ds. apply published_snoc. Qed.
Next Obligation.
  intros [[|[t|] inb] ok log] Hp; simpl in *; [by eexists| |done].
  destruct inb as [|[d|] inb]; try done. by destruct (published inb).
Qed.
Next Obligation.
  intros [inb ok log] d ds Hp. simpl in *. destruct inb as [|[t|] [|[d'|] inb]]; try done. simpl in Hp.
  destruct (published inb) as [ds'|] eqn:Hi; [|done]. simpl in Hp. simplify_eq.
  exists t, (Some d). eexists _, _. by split_and!.
Qed.

Definition sample_sender (text : list ascii) : transceiver () :=
  sample_trx [] (reply_to <$> (tx_message 7 "chpext" <$> text)).
Definition sample_receiver : transceiver () :=
  Transceiver false false false (Some 16777343%Z) (Some 5000%Z) true None (Scripted [] true []) 7 0 tt.
Definition sample_thread : request_thread () queue_buffer :=
  RequestThread (server_ctor (AsyncEnv sample_receiver ∅ queue_buffer_init)) Listening Loaded.
Definition sample_start (text : list ascii) : Transmission.joint () () queue_buffer :=
  Joint (sample_sender text) (AtCharacter text) Unlinked [] [] [] sample_thread.

Lemma sample_starts text : about_to_send "chpext" 7 text (sample_start text).
Proof.
  split_and!; try done.
  - split; [done|]. eexists. split; [reflexivity|]. by eexists.
  - split; try done; [by right|]. by apply accept_waiting.
Qed.

Lemma streams_connect : connectable 16777226 5000.
Proof. by exists ([], []). Qed.
Lemma streams_accepted : ∃ sock sock1 : Tcp, connects sock sock1 [].
Proof. by exists ([], []), ([], []). Qed.

Lemma transmission_delivers_witness :
  ∃ m j', joint_run (X := ()) (Y := ()) (B := queue_buffer) (ret tt) "chpext" 16777226 5000 (sample_start (chars "13")) m j'
    ∧ j_at j' = Returned true ∧ pushed_since (sample_start (chars "13")) j' [chars "01"; chars "01"].
Proof.
  destruct (transmission_delivers (ret tt) "chpext" 16777226 5000 7 (chars "13") [chars "01"; chars "01"]
    (sample_start (chars "13")) 0 (sample_start (chars "13")) trx_prepares streams_connect streams_accepted
    (sample_starts _)) as (_ & _ & _ & _ & _ & Hend).
  - repeat constructor.
  - constructor.
  - exact Hend.
Defined.

Lemma refused_circuit_hangs_witness :
  ∃ m j', joint_run (X := ()) (Y := ()) (B := queue_buffer) (ret tt) "chpext" 16777226 5000 (sample_start (chars "1x3")) m j'
    ∧ hangs (sample_start (chars "1x3")) "x" (chars "3") [chars "01"] j'.
Proof.
  destruct (refused_circuit_hangs (ret tt) "chpext" 16777226 5000 7 (chars "1x3") (chars "1") "x" (chars "3")
    [chars "01"] (sample_start (chars "1x3")) 0 (sample_start (chars "1x3")) trx_prepares streams_connect
    streams_accepted (sample_starts _) eq_refl) as (_ & _ & _ & Hend).
  - repeat constructor.
  - reflexivity.
  - constructor.
  - exact Hend.
Defined.
End witness.
