(* ===== verification/Program.v ===== *)
(** * The program (armish_fireplace.cpp, module/trabea/trabea.cpp,
    module/brazil/brazil.cpp)

    The two modules as instances of the manager's interface, the server's
    constructor and destructor with the callback they register, [main] from its
    parsed options on, and properties of the composition. *)

From S2P Require Import Prelude NetMessages Actions BufferItem QueueBuffer Json.
From S2P Require Import MiddlewareMessages Zmq Simulation CString ProcUnit Trabea Transceiver.
From S2P Require Import Bobwire LccFpga Modules ModuleManager ZmqServer Server.

(** ** Modules as the manager sees them *)

Section derived_module.
Context `{RapidJSON} {P : Type} `{!ProcUnit P}.

(** The overrides in [trabea] and [brazil]: the parameters are ignored, and
    requests go to the loaded unit. *)
Definition module_initialize_parameters (parameters : string) : M (imodule P) () := ret tt.
Definition module_proc_act_request (r : request) : M (imodule P) (option response) :=
  loaded_proc_unit (pu_proc_act_request r).
Definition module_proc_act_push (r : request) : M (imodule P) bool :=
  loaded_proc_unit (pu_proc_act_push r).

#[export] Instance derived_module : IModule (imodule P) := {|
  md_string_initialize_parameters := module_initialize_parameters;
  md_proc_act_request := module_proc_act_request;
  md_proc_act_push := module_proc_act_push;
  md_load_proc_unit := Modules.load_proc_unit;
  md_unload_proc_unit := Modules.unload_proc_unit;
  md_is_proc_unit_loaded := Modules.is_proc_unit_loaded;
  md_supported_actions := Modules.supported_actions;
  md_dtor := imodule_dtor;
|}.

Definition unit_present (m : imodule P) : bool := bool_decide (is_Some (loadedProcUnit m)).

Lemma present_spec m :
  module_inv m → Modules.is_proc_unit_loaded m = (Ret (unit_present m), m).
Proof.
  intros Hm. unfold Modules.is_proc_unit_loaded, with_lock. mrun. rewrite (mi_free _ Hm).
  destruct m; simpl in *. by rewrite <-(mi_free _ Hm).
Qed.

Lemma initialize_contract ps m o m' :
  module_inv m → module_initialize_parameters ps m = (o, m') → survives o →
  module_inv m' ∧ unit_present m' = unit_present m.
Proof. by intros Hm [= <- <-] _. Qed.

Lemma call_contract {A} (body : M P A) m o m' :
  module_inv m → loaded_proc_unit body m = (o, m') → module_inv m' ∧ unit_present m' = unit_present m.
Proof.
  intros Hm. rewrite loaded_proc_unit_eq. unfold unit_present.
  destruct (loadedProcUnit m) as [p|] eqn:Hl; cbv zeta; intros [= <- <-].
  - split; [by eapply inv_loaded_some|done].
  - split; [done|]. by rewrite Hl.
Qed.

Context `{!ProcUnitSafe P}.

Lemma load_contract name ps m o m' :
  module_inv m → Modules.load_proc_unit name ps m = (o, m') → survives o →
  module_inv m' ∧ (o = Ret tt → unit_present m' = true).
Proof.
  intros Hm Hc Ho. split.
  { by destruct (module_step_inv (m, ∅) [] [] (m', ∅) (step_load name ps m ∅ o m' Hc Ho) Hm). }
  intros ->. revert Hc. rewrite load_proc_unit_eq by done. unfold unit_present.
  destruct (loadedProcUnit m) eqn:Hl; [intros [= <-]; by rewrite Hl|].
  destruct (find_unit _ _) as [[p|e|f]|]; [|done..].
  by destruct (pu_string_initialize_parameters ps p) as [[[]| |] p']; intros [= <-].
Qed.

Lemma unload_contract m o m' :
  module_inv m → Modules.unload_proc_unit m = (o, m') → survives o →
  module_inv m' ∧ o = Ret tt ∧ unit_present m' = false.
Proof.
  intros Hm Hc Ho. split.
  { by destruct (module_step_inv (m, ∅) [] [] (m', ∅) (step_unload m ∅ o m' Hc Ho) Hm). }
  revert Hc. rewrite unload_proc_unit_eq by done. unfold unit_present.
  destruct (loadedProcUnit m) eqn:Hl; [|intros [= <- <-]; by rewrite Hl].
  destruct (pu_dtor _) as [[[]|e|f] p']; intros [= <- <-]; [done|by destruct (Ho Terminate)|by destruct (Ho f)].
Qed.

Lemma dtor_contract m o m' :
  module_inv m → imodule_dtor m = (o, m') → survives o → o = Ret tt.
Proof.
  intros Hm. unfold imodule_dtor. destruct (Modules.unload_proc_unit m) as [ou mu] eqn:Hu.
  destruct ou as [u|e|f].
  - case_decide; intros [= <- <-] Ho; [done|by destruct (Ho Terminate)].
  - intros [= <- <-] Ho. by destruct (Ho Terminate).
  - intros [= <- <-] Ho. by destruct (Ho f).
Qed.

(** The implementation meets the manager's contract. *)
#[export] Instance derived_contract : IModuleContract (imodule P) := {|
  md_idle := module_inv;
  md_loaded := unit_present;
  md_loaded_spec := present_spec;
  md_initialize_spec := initialize_contract;
  md_load_spec := load_contract;
  md_unload_spec := unload_contract;
  md_request_spec r m o m' Hm Hc Ho := call_contract _ m o m' Hm Hc;
  md_push_spec r m o m' Hm Hc Ho := call_contract _ m o m' Hm Hc;
  md_actions_spec m := ex_intro _ (supportedActions m) eq_refl;
  md_dtor_spec := dtor_contract;
|}.
End derived_module.

(** ** One of two modules *)

Section module_sum.
Context `{RapidJSON} {A B : Type} `{!IModule A, !IModule B}.

#[export] Instance module_sum : IModule (A + B) := {|
  md_string_initialize_parameters s :=
    on_sum (md_string_initialize_parameters s) (md_string_initialize_parameters s);
  md_proc_act_request r := on_sum (md_proc_act_request r) (md_proc_act_request r);
  md_proc_act_push r := on_sum (md_proc_act_push r) (md_proc_act_push r);
  md_load_proc_unit n s := on_sum (md_load_proc_unit n s) (md_load_proc_unit n s);
  md_unload_proc_unit := on_sum md_unload_proc_unit md_unload_proc_unit;
  md_is_proc_unit_loaded := on_sum md_is_proc_unit_loaded md_is_proc_unit_loaded;
  md_supported_actions := on_sum md_supported_actions md_supported_actions;
  md_dtor := on_sum md_dtor md_dtor;
|}.

Context `{!IModuleContract A, !IModuleContract B}.

Definition sum_idle (m : A + B) : Prop :=
  match m with inl a => md_idle a | inr b => md_idle b end.
Definition sum_loaded (m : A + B) : bool :=
  match m with inl a => md_loaded a | inr b => md_loaded b end.

(** The contracts of the two sides, side by side. *)
#[export] Program Instance module_sum_contract : IModuleContract (A + B) := {|
  md_idle := sum_idle;
  md_loaded := sum_loaded;
|}.
Next Obligation. intros [a|b] Hm; simpl in *; unfold on_sum; by rewrite md_loaded_spec. Qed.
Next Obligation.
  intros s [a|b] o m' Hm Hc Ho; simpl in *; unfold on_sum in Hc; simplify_eq; simpl;
    (eapply md_initialize_spec; [exact Hm|apply surjective_pairing|exact Ho]).
Qed.
Next Obligation.
  intros n s [a|b] o m' Hm Hc Ho; simpl in *; unfold on_sum in Hc; simplify_eq; simpl;
    (eapply md_load_spec; [exact Hm|apply surjective_pairing|exact Ho]).
Qed.
Next Obligation.
  intros [a|b] o m' Hm Hc Ho; simpl in *; unfold on_sum in Hc; simplify_eq; simpl;
    (eapply md_unload_spec; [exact Hm|apply surjective_pairing|exact Ho]).
Qed.
Next Obligation.
  intros r [a|b] o m' Hm Hc Ho; simpl in *; unfold on_sum in Hc; simplify_eq; simpl;
    (eapply md_request_spec; [exact Hm|apply surjective_pairing|exact Ho]).
Qed.
Next Obligation.
  intros r [a|b] o m' Hm Hc Ho; simpl in *; unfold on_sum in Hc; simplify_eq; simpl;
    (eapply md_push_spec; [exact Hm|apply surjective_pairing|exact Ho]).
Qed.
Next Obligation.
  intros [a|b]; simpl; unfold on_sum; [destruct (md_actions_spec a) as [acts Ha]|destruct (md_actions_spec b) as [acts Ha]];
    exists acts; by rewrite Ha.
Qed.
Next Obligation.
  intros [a|b] o m' Hm Hc Ho; simpl in *; unfold on_sum in Hc; simplify_eq.
  - exact (md_dtor_spec a _ _ Hm (surjective_pairing _) Ho).
  - exact (md_dtor_spec b _ _ Hm (surjective_pairing _) Ho).
Qed.
End module_sum.

(** ** The modules of the repository *)

Section program.
Context `{RapidJSON} `{ZMQ} `{BoostOptions} `{TCP} `{BoostEndian} `{OS} `{Hardware}.

(** The constructors, with the names of their units. *)
Definition trabea_t : Type := imodule (iswitch (C := circulator_switch)).
Definition trabea : trabea_t :=
  register_proc_units [("circulator_switch", circulator_initialize)]
    (imodule_ctor (pack REQUEST [PUSH])).

Definition brazil_t : Type := imodule (transceiver () + (transceiver bases + lcc_and_fpga)).
Definition brazil : brazil_t :=
  register_proc_units
    [("bobwire_circuit", out_bind bobwire_initialize (λ u, Ret (inr (inl u))));
     ("trx_circuit", out_bind trx_initialize (λ u, Ret (inl u)));
     ("lcc_and_fpga", out_bind lcc_initialize (λ u, Ret (inr (inr u))))]
    (imodule_ctor (pack PUSH [WAIT])).

Definition module_t : Type := trabea_t + brazil_t.

#[export] Instance module_t_imodule : IModule module_t := module_sum.
#[export] Instance module_t_contract : IModuleContract module_t := module_sum_contract.

(** What the two [module_register] objects put into the factory's map. *)
Definition trabea_name : module_entry module_t := ModuleEntry 1 "trabea" (Ret (inl trabea)).
Definition brazil_name : module_entry module_t := ModuleEntry 2 "brazil" (Ret (inr brazil)).

Definition repository_factory : list (module_entry module_t) :=
  (module_register brazil_name (module_register trabea_name []).2).2.

Lemma repository_fresh : fresh_factory repository_factory.
Proof.
  intros name md. simpl. unfold strcmp_eq.
  case_bool_decide; [intros [= <-]; split; [apply module_inv_ctor|done]|].
  case_bool_decide; [intros [= <-]; split; [apply module_inv_ctor|done]|done].
Qed.
End program.

(** ** The server among the rest of the program *)

Section main.
Context `{RapidJSON} {Md : Type} `{!IModule Md}.
Context (factory : list (module_entry Md)).
Abbreviation process_t := (module_manager Md server).

(** What the worker threads call. *)
#[export] Instance process_middleware : Middleware process_t := {|
  mw_proc_act_request := ModuleManager.proc_act_request;
  mw_proc_act_push := ModuleManager.proc_act_push;
  mw_thread_started := zoom l_world notify_thread_started;
|}.

(** The two objects of [main] after their constructors: the manager, and the
    server, whose constructor registers its [notify]. *)
Definition server_ctor : M process_t () := register_callback (Callback true (Some notify)).
Definition process_init : process_t := (server_ctor (module_manager_ctor server_init)).2.

(** [~server]. *)
Definition destroy_server : M process_t () :=
  with_lock (lens_comp l_world Server.l_stateMutex) unregister_callback ;;
  zoom l_world server_dtor.

(** The [try] block of [main] after the options have been parsed, and its
    handlers. *)
Definition main_start (iEndpoint oEndpoint moduleName moduleParam procUnitName procUnitParam : string) :
    M process_t () :=
  try_catch
    (zoom l_world (setup iEndpoint oEndpoint) ;;
     load_module factory moduleName moduleParam ;;
     ModuleManager.load_proc_unit procUnitName procUnitParam)
    (λ _, fail (ExitProcess EXIT_FAILURE)).

(** The end of [main], once a signal has arrived: the objects are destroyed in
    the opposite order. *)
Definition main_end : M process_t () :=
  destroy_server ;;
  module_manager_dtor.
End main.

Section main_properties.
Context `{RapidJSON} {Md : Type} `{!IModule Md, !IModuleContract Md}.
Context (factory : list (module_entry Md)).
Abbreviation process_t := (module_manager Md server).
Implicit Types s : process_t.

(** A server that has been set up with two endpoints. *)
Record set_up (i o : string) (v : server) : Prop := {
  su_idle : server_idle v;
  su_exit : doExit v = false;
  su_in : c_string (iEndpoint v) = Some i;
  su_out : c_string (oEndpoint v) = Some o;
}.

Lemma setup_first i o :
  nul_free i → nul_free o → strlen i < 128 → strlen o < 128 →
  ∃ v, setup i o server_init = (Ret tt, v) ∧ set_up i o v.
Proof.
  intros Hi Ho Hli Hlo. unfold setup, with_lock. mrun. rewrite decide_False by lia. simpl.
  eexists. split; [done|]. split; try done; by apply c_string_memcpy.
Qed.

Lemma endpoint_nonempty buf x : c_string buf = Some x → endpoint_empty buf = bool_decide (x = "").
Proof.
  unfold endpoint_empty. destruct buf as [|c buf]; [done|]. simpl. case_decide as Hc.
  - intros [= <-]. rewrite !bool_decide_true; congruence.
  - destruct (c_string buf); [|done]. intros [= <-]. rewrite !bool_decide_false; congruence.
Qed.

Lemma set_up_endpoints acts i o v : set_up i o v →
  (wants_sync acts = true → i ≠ "") → (wants_async acts = true → o ≠ "") → endpoints_ok acts v.
Proof.
  intros [_ _ Hi Ho] Hni Hno. split; intros Hw.
  - rewrite (endpoint_nonempty _ _ Hi). apply bool_decide_false. auto.
  - rewrite (endpoint_nonempty _ _ Ho). apply bool_decide_false. auto.
Qed.

(** The manager when the server has been set up and the module loaded. *)
Definition started (md : Md) (v : server) : process_t :=
  ModuleManager (Some (0, md)) 1 (Callback true (Some notify)) false v.

Lemma load_module_first name ps v md u md1 :
  instantiate factory name = Ret md → md_string_initialize_parameters ps md = (Ret u, md1) →
  load_module factory name ps (ModuleManager None 0 (Callback true (Some notify)) false v)
  = (Ret u, started md1 v).
Proof. intros Hn Hi. rewrite load_module_eq by done. simpl. by rewrite Hn, Hi. Qed.

Lemma main_setup iEp oEp v (k : M process_t ()) :
  setup iEp oEp server_init = (Ret tt, v) →
  (zoom l_world (setup iEp oEp) ;; k) process_init
  = k (ModuleManager None 0 (Callback true (Some notify)) false v).
Proof. intros Hs. unfold process_init, server_ctor, register_callback, with_lock. mrun. by rewrite Hs. Qed.

Lemma main_start_eq iEp oEp v mn mp un up md u md1 :
  setup iEp oEp server_init = (Ret tt, v) →
  instantiate factory mn = Ret md → md_string_initialize_parameters mp md = (Ret u, md1) →
  main_start factory iEp oEp mn mp un up process_init
  = try_catch (ModuleManager.load_proc_unit un up) (λ _, fail (ExitProcess EXIT_FAILURE)) (started md1 v).
Proof.
  intros Hs Hn Hi. unfold main_start, try_catch at 1. rewrite (main_setup _ _ _ _ Hs).
  by rewrite (bind_Ret _ _ _ _ _ (load_module_first _ _ _ _ _ _ Hn Hi)).
Qed.

Lemma load_unit_first un up v md1 u md2 acts :
  md_idle md1 → md_loaded md1 = false →
  md_load_proc_unit un up md1 = (Ret u, md2) → md_supported_actions md2 = (Ret acts, md2) →
  server_idle v → endpoints_ok acts v →
  ModuleManager.load_proc_unit un up (started md1 v)
  = (Ret tt, started md2 (notified 0 (expected_workers acts) v)).
Proof.
  intros Hidle Hun Hl Ha Hv He. rewrite manager_load_proc_unit_eq.
  2: { split; [done|]. simpl. by intros ?? [= <- <-]. }
  simpl. rewrite Hun, Hl. simpl. unfold observe, bind. simpl. rewrite Ha. simpl. unfold zoom. simpl.
  by rewrite notify_first.
Qed.

(** The endpoints that the actions call for have been given. *)
Definition endpoints_given (acts : Z) (iEp oEp : string) : Prop :=
  (wants_sync acts = true → iEp ≠ "") ∧ (wants_async acts = true → oEp ≠ "").

Lemma set_up_given acts i o v : set_up i o v → endpoints_ok acts v ↔ endpoints_given acts i o.
Proof.
  intros Hv. split; [|intros []; by apply (set_up_endpoints acts i o v)].
  destruct Hv as [_ _ Hi Ho]. intros [H1 H2].
  rewrite (endpoint_nonempty _ _ Hi) in H1. rewrite (endpoint_nonempty _ _ Ho) in H2.
  split; intros Hw; [specialize (H1 Hw)|specialize (H2 Hw)]; by eapply bool_decide_eq_false.
Qed.

(** A failure of each of the three calls. *)
Lemma main_too_long iEp oEp mn mp un up :
  ¬ (strlen iEp < 128 ∧ strlen oEp < 128) →
  (main_start factory iEp oEp mn mp un up process_init).1 = Fatal (ExitProcess 1).
Proof.
  intros Hlen. unfold main_start, try_catch, bind at 1, zoom, setup, with_lock, process_init, server_ctor,
    register_callback, with_lock.
  mrun. by rewrite decide_True by lia.
Qed.

Lemma main_load_module iEp oEp v mn mp un up :
  setup iEp oEp server_init = (Ret tt, v) →
  match instantiate factory mn with
  | Ret md => (md_string_initialize_parameters mp md).1
  | Throw e => Throw e
  | Fatal f => Fatal f
  end = Ret tt
  ∨ (main_start factory iEp oEp mn mp un up process_init).1
    = match instantiate factory mn with
      | Ret md =>
          match (md_string_initialize_parameters mp md).1 with
          | Fatal f => Fatal f
          | _ => Fatal (ExitProcess 1)
          end
      | Throw _ => Fatal (ExitProcess 1)
      | Fatal f => Fatal f
      end.
Proof.
  intros Hs. unfold main_start, try_catch. rewrite (main_setup _ _ _ _ Hs). unfold bind.
  rewrite load_module_eq by done. simpl.
  destruct (instantiate factory mn) as [md|e|f]; [|by right..].
  destruct (md_string_initialize_parameters mp md) as [[[]|e|f] md1]; [by left|by right..].
Qed.

Lemma started_unloaded md v : md_idle md → md_loaded md = false → manager_inv (started md v).
Proof. intros Hi Hl. split; [done|]. simpl. by intros ?? [= <- <-]. Qed.

Lemma main_load_unit un up md1 v :
  md_idle md1 → md_loaded md1 = false →
  (md_load_proc_unit un up md1).1 = Ret tt
  ∨ (try_catch (ModuleManager.load_proc_unit un up) (λ _, fail (ExitProcess EXIT_FAILURE)) (started md1 v)).1
    = match (md_load_proc_unit un up md1).1 with
      | Fatal f => Fatal f
      | _ => Fatal (ExitProcess 1)
      end.
Proof.
  intros Hi Hun. unfold try_catch. rewrite manager_load_proc_unit_eq by by apply started_unloaded.
  simpl. rewrite Hun. destruct (md_load_proc_unit un up md1) as [[[]|e|f] md2]; [by left|by right..].
Qed.

Lemma main_no_endpoint un up md1 u md2 acts v :
  md_idle md1 → md_loaded md1 = false → md_load_proc_unit un up md1 = (Ret u, md2) →
  md_supported_actions md2 = (Ret acts, md2) → server_idle v → ¬ endpoints_ok acts v →
  (try_catch (ModuleManager.load_proc_unit un up) (λ _, fail (ExitProcess EXIT_FAILURE)) (started md1 v)).1
  = Fatal (ExitProcess 1).
Proof.
  intros Hi Hun Hl Ha Hv He. unfold try_catch. rewrite manager_load_proc_unit_eq by by apply started_unloaded.
  simpl. rewrite Hun, Hl. simpl. unfold observe, bind. simpl. rewrite Ha. simpl. unfold zoom. simpl.
  pose proof (notify_unavailable 0 acts v Hv He) as Hn'. destruct (notify 0 acts v) as [[]]; by simplify_eq/=.
Qed.


(** Between the calls of the threads: both mutexes are free, and [isRunning] is what
    it always is. *)
Record quiet s : Prop := {
  qt_manager : ModuleManager.stateMutex s = false;
  qt_server : Server.stateMutex (world s) = false;
  qt_running : Server.isRunning (world s) = false;
}.

(** The manager after the server's destructor has unregistered its callback. *)
Definition unregistered s : process_t := upd l_serverCallback (Callback false None) s.

(** The end of [main] with a worker thread, and without. *)
Lemma main_end_worker s w :
  quiet s → Some w ∈ workThreads (world s) →
  (main_end s).1 = Fatal Terminate ∧ loadedModule (main_end s).2 = loadedModule s.
Proof.
  intros [Hm Hv Hr] Hw. destruct s as [ld na cb mx [mb ib ob run ex sm st n t ws]]. simpl in *. subst.
  unfold main_end, destroy_server, unregister_callback, server_dtor, stop, destroy_threads, with_lock. mrun.
  rewrite decide_False; [done|]. rewrite Forall_forall. intros Hf. by specialize (Hf _ Hw).
Qed.

Lemma main_end_no_worker s :
  quiet s → Forall (λ t, t = None) (workThreads (world s)) → main_end s = module_manager_dtor (unregistered s).
Proof.
  intros [Hm Hv Hr] Hw. destruct s as [ld na cb mx [mb ib ob run ex sm st n t ws]]. simpl in *. subst.
  unfold main_end, destroy_server, unregister_callback, server_dtor, stop, destroy_threads, with_lock. mrun.
  by rewrite decide_True.
Qed.

(** C20. Shutdown: after every successful start that launched a worker the end of
    [main] calls [std::terminate], in [~server], before the manager's destructor
    has run: the module and its unit are never unloaded. *)
Theorem main_end_terminates iEp oEp mn mp un up md u md1 u' md2 acts s :
  fresh_factory factory → nul_free iEp → nul_free oEp → strlen iEp < 128 → strlen oEp < 128 →
  instantiate factory mn = Ret md → md_string_initialize_parameters mp md = (Ret u, md1) →
  md_load_proc_unit un up md1 = (Ret u', md2) → md_supported_actions md2 = (Ret acts, md2) →
  expected_workers acts ≠ [] →
  main_start factory iEp oEp mn mp un up process_init = (Ret tt, s) →
  (main_end s).1 = Fatal Terminate ∧ loadedModule (main_end s).2 = Some (0, md2).
Proof.
  intros Hfac Hi Ho Hli Hlo Hn Hini Hl Ha Hw.
  destruct (setup_first _ _ Hi Ho Hli Hlo) as (v & Hs & Hv).
  destruct (Hfac _ _ Hn) as [Hidle0 Hun0].
  destruct (md_initialize_spec _ _ _ _ Hidle0 Hini) as [Hidle1 Hun1]; [discriminate|].
  rewrite Hun0 in Hun1. rewrite (main_start_eq _ _ _ _ _ _ _ _ _ _ Hs Hn Hini).
  destruct (decide (endpoints_ok acts v)) as [He|He].
  - unfold try_catch. rewrite (load_unit_first un up v md1 u' md2 acts) by (done || apply Hv).
    intros [= <-]. destruct (slots_head _ Hw) as [w Hw0].
    apply (main_end_worker (started md2 (notified 0 (expected_workers acts) v)) w); [by split|].
    by eapply list_elem_of_lookup_2.
  - pose proof (main_no_endpoint un up md1 u' md2 acts v Hidle1 Hun1 Hl Ha (su_idle _ _ _ Hv) He) as Hf.
    intros Heq. by rewrite Heq in Hf.
Qed.
End main_properties.

(** ** The two modules in the program *)

Section repository.
Context `{RapidJSON} `{ZMQ} `{BoostOptions} `{TCP} `{BoostEndian} `{OS} `{Hardware}.
Abbreviation process_t := (module_manager module_t server).

Lemma trabea_load un up p' u :
  un = "circulator_switch" → circulator_initialize_parameters up circulator_switch_ctor = (Ret u, p') →
  md_load_proc_unit un up (inl trabea : module_t)
  = (Ret tt, inl (set_thread false (set_loaded (Some (ISwitch false p')) trabea))).
Proof.
  intros -> Hi. simpl. rewrite load_proc_unit_eq by apply module_inv_ctor.
  simpl. unfold zoom. simpl. by rewrite Hi.
Qed.

Lemma brazil_load un up p c p' u :
  In (un, c) (procUnits brazil) → c = Ret p → NoDup (procUnits brazil).*1 →
  pu_string_initialize_parameters up p = (Ret u, p') →
  md_load_proc_unit un up (inr brazil : module_t)
  = (Ret tt, inr (set_thread true (set_loaded (Some p') brazil))).
Proof.
  intros Hin -> Hnd Hi. cbn -[Modules.load_proc_unit brazil pu_string_initialize_parameters]. unfold on_sum.
  rewrite load_proc_unit_eq by apply module_inv_ctor.
  rewrite (find_unit_Some _ _ _ Hnd) by by apply list_elem_of_In.
  change (loadedProcUnit brazil) with (@None (transceiver () + (transceiver bases + lcc_and_fpga))).
  cbv beta iota zeta. rewrite Hi. done.
Qed.

Lemma brazil_names : NoDup (procUnits brazil).*1.
Proof. apply (bool_decide_unpack _). vm_compute. exact I. Qed.

(** The manager of a running program with the switch loaded. *)
Definition switch_running (s : process_t) (u : circulator_switch) : Prop :=
  manager_inv s
  ∧ ∃ a m, loadedModule s = Some (a, inl m) ∧ loadedProcUnit m = Some (ISwitch false u).

(** The same manager with the switch in another state. *)
Definition with_switch (u : circulator_switch) (s : process_t) : process_t :=
  match loadedModule s with
  | Some (a, inl m) => upd l_loadedModule (Some (a, inl (set_loaded (Some (ISwitch false u)) m))) s
  | _ => s
  end.

(** A call that reaches the switch, and returns or throws. *)
Lemma switch_call {A} (fm : M module_t A) (body : M (iswitch (C := circulator_switch)) A) s u (o : outcome A) u' :
  switch_running s u → (∀ m, fm (inl m) = let r := loaded_proc_unit body m in (r.1, inl r.2)) →
  body (ISwitch false u) = (o, ISwitch false u') → survives o →
  with_lock ModuleManager.l_stateMutex (
    loaded <- unit_loaded ;;
    if loaded : bool then on_module fm else throw (runtime_error err_msg._nllpntr)) s
  = (o, with_switch u' s).
Proof.
  intros (Hs & a & m & Hl & Hu) Hf Hb Ho. rewrite call_eq, Hl by done.
  unfold with_switch. rewrite Hl. simpl. unfold unit_present. rewrite Hu, bool_decide_true by by eexists.
  rewrite Hf, loaded_proc_unit_eq, Hu, Hb. simpl.
  destruct o; [done..|by destruct (Ho f)].
Qed.

Lemma with_same_switch s u : switch_running s u → with_switch u s = s.
Proof.
  intros (_ & a & m & Hl & Hu). unfold with_switch. rewrite Hl. destruct s, m. simpl in *. by subst.
Qed.

Lemma wire_reply act m ps (e : sync_env process_t) mg bs :
  Forall exact_value ps → reply act (client_request act m ps) (s_manager e) = (Ret bs, mg) →
  serve (client_message act m ps) e
  = let r := zmq_send bs (s_socket e) in
    (match r.1 with Ret _ => Ret tt | Throw x => Throw x | Fatal f => Fatal f end,
     SyncEnv r.2 mg).
Proof.
  intros Hps Hr. rewrite serve_request by done. destruct e as [sk mg0]. simpl in *. mrun. rewrite Hr. simpl.
  by destruct (zmq_send bs sk) as [[]].
Qed.

(** The answer [bs] sent, and the switch left as [u]. *)
Definition answer_with (bs : list ascii) (u : circulator_switch) (e : sync_env process_t) :
    outcome () * sync_env process_t :=
  let r := zmq_send bs (s_socket e) in
  (match r.1 with Ret _ => Ret tt | Throw x => Throw x | Fatal f => Fatal f end,
   SyncEnv r.2 (with_switch u (s_manager e))).

Definition push_text (x : outcome bool) : list ascii :=
  match x with
  | Ret b => text_of (BoolValue b) false
  | Throw ex => text_of (StringValue (chars (exn_what ex))) true
  | Fatal _ => []
  end.

(** The client's two messages, and any others, through all layers. *)
Lemma exact_ports i o : (0 ≤ i < 2 ^ 64)%Z → (0 ≤ o < 2 ^ 64)%Z → Forall exact_value [NumValue i; NumValue o].
Proof. intros Hi Ho. repeat constructor; apply exact_Num; lia. Qed.

Lemma wire_push e u m ps x u' :
  switch_running (s_manager e) u → Forall exact_value ps →
  iswitch_proc_act_push (client_request PUSH m ps) (ISwitch false u) = (x, ISwitch false u') → survives x →
  serve (client_message PUSH m ps) e = answer_with (push_text x) u' e.
Proof.
  intros Hs Hps Hc Hx. eapply wire_reply; [done|]. cbn [reply mw_proc_act_push process_middleware].
  unfold ModuleManager.proc_act_push.
  rewrite (switch_call _ (iswitch_proc_act_push (client_request PUSH m ps)) _ u x u' Hs (λ _, eq_refl) Hc Hx).
  destruct x; [done..|by destruct (Hx f)].
Qed.

Lemma wire_configure e u i o x u' :
  switch_running (s_manager e) u → (0 ≤ i < 2 ^ 64)%Z → (0 ≤ o < 2 ^ 64)%Z →
  circulator_set_switch_state i o u = (x, u') → survives x →
  serve (client_message PUSH "configure" [NumValue i; NumValue o]) e = answer_with (push_text x) u' e.
Proof.
  intros Hs Hi Ho Hc Hx. apply (wire_push e u); [done|by apply exact_ports| |done].
  rewrite (iswitch_configure_eq _ _ i o) by done. cbn [set_switch_state circulator_switch_unit]. rewrite Hc.
  destruct x; [done..|by destruct (Hx f)].
Qed.

Lemma wire_request e u m ps x u' :
  switch_running (s_manager e) u → Forall exact_value ps →
  iswitch_proc_act_request (client_request REQUEST m ps) (ISwitch false u) = (x, ISwitch false u') → survives x →
  x ≠ Ret None →
  serve (client_message REQUEST m ps) e
  = answer_with (match x with
              | Ret (Some r) => json r
              | Throw ex => text_of (StringValue (chars (exn_what ex))) true
              | _ => []
              end) u' e.
Proof.
  intros Hs Hps Hc Hx Hn. eapply wire_reply; [done|]. cbn [reply mw_proc_act_request process_middleware].
  unfold ModuleManager.proc_act_request.
  rewrite (switch_call _ (iswitch_proc_act_request (client_request REQUEST m ps)) _ u x u' Hs (λ _, eq_refl) Hc Hx).
  destruct x as [[r|]|ex|f]; [done| |done|by destruct (Hx f)]. by destruct Hn.
Qed.

Lemma wire_get_state e u c n st i o :
  switch_running (s_manager e) u → switch_ready u c n st → (0 ≤ i < 2 ^ 64)%Z → (0 ≤ o < 2 ^ 64)%Z →
  serve (client_message REQUEST "get_state" [NumValue i; NumValue o]) e
  = answer_with (text_of (BoolValue (bool_decide (st = chirality_of n i o))) false) u e.
Proof.
  intros Hs Hr Hi Ho.
  pose proof (iswitch_get_state_eq REQUEST [NumValue i; NumValue o] i o u eq_refl eq_refl Hi Ho) as Hc.
  cbn [get_switch_state circulator_switch_unit] in Hc. rewrite (get_switch_state_eq u c n st i o Hr) in Hc.
  by rewrite (wire_request e u _ _ _ u Hs (exact_ports i o Hi Ho) Hc).
Qed.

Lemma wire_other e u a m ps :
  switch_running (s_manager e) u → Forall exact_value ps → nul_free m →
  (a = REQUEST ∧ m ≠ "get_state") ∨ (a = PUSH ∧ m ≠ "configure") →
  serve (client_message a m ps) e
  = answer_with (text_of (StringValue (chars err_msg._malinpt)) true) u e.
Proof.
  intros Hs Hps Hm [[-> Hne]|[-> Hne]].
  - by rewrite (wire_request e u m ps (Throw (runtime_error err_msg._malinpt)) u Hs Hps
      (iswitch_request_other _ _ _ _ Hm Hne)).
  - by rewrite (wire_push e u m ps (Throw (runtime_error err_msg._malinpt)) u Hs Hps
      (iswitch_push_other _ _ _ _ Hm Hne)).
Qed.

(** The switch seen from the client's socket, through the worker thread, the
    manager, the module and the unit: [get_state] answers whether the rotation
    connects the two ports and changes nothing; [configure] answers [false] for
    ports the switch does not have, [true] without contacting the dispatcher
    when the rotation is there already, and otherwise what the dispatcher
    reports, an unreachable one as an error response; any other method is an
    error response "malformed input". *)
Theorem switch_over_the_wire (e : sync_env process_t) u c n st i o :
  switch_running (s_manager e) u → switch_ready u c n st →
  (0 ≤ i < 2 ^ 64)%Z → (0 ≤ o < 2 ^ 64)%Z →
  let ps := [NumValue i; NumValue o] in
  let answered act m bs u' :=
    serve (client_message act m ps) e
    = let r := zmq_send bs (s_socket e) in
      (match r.1 with Ret _ => Ret tt | Throw x => Throw x | Fatal f => Fatal f end,
       SyncEnv r.2 (with_switch u' (s_manager e))) in
  let turned c' := CirculatorSwitch (Some c') (Trabea.nIP u) (Some n) (Some (chirality_of n i o)) in
  with_switch u (s_manager e) = s_manager e
  ∧ answered REQUEST "get_state" (text_of (BoolValue (bool_decide (st = chirality_of n i o))) false) u
  ∧ ((n ≤ i ∨ n ≤ o)%Z → answered PUSH "configure" (text_of (BoolValue false) false) u)
  ∧ ((i < n ∧ o < n)%Z →
     (chirality_of n i o = st → answered PUSH "configure" (text_of (BoolValue true) false) u)
     ∧ (chirality_of n i o ≠ st → ∀ x c',
        exchange (configure_message (Trabea.nIP u) (chirality_of n i o)) c = (x, c') →
        (∀ rsp err, x = Ret rsp → get_error rsp = Ret err →
           answered PUSH "configure" (text_of (BoolValue (negb err)) false) (turned c'))
        ∧ (∀ ex, x = Throw ex →
           answered PUSH "configure" (text_of (StringValue (chars (exn_what ex))) true) (turned c'))))
  ∧ ∀ m, nul_free m → m ≠ "get_state" →
       answered REQUEST m (text_of (StringValue (chars err_msg._malinpt)) true) u.
Proof.
  intros Hs Hr Hi Ho ps ans turned.
  pose proof (set_switch_state_eq u c n st i o Hr) as Hset. split_and!.
  - by apply with_same_switch.
  - by apply (wire_get_state e u c).
  - intros Hio. apply (wire_configure e u _ _ (Ret false)); [done..| |discriminate].
    by rewrite Hset, decide_True.
  - intros Hio. rewrite decide_False in Hset by lia. split.
    + intros Hst. apply (wire_configure e u _ _ (Ret true)); [done..| |discriminate].
      by rewrite Hset, decide_True.
    + intros Hst x c' Hx. rewrite decide_False in Hset by done. rewrite Hx in Hset. simpl in Hset. split.
      * intros rsp err -> He. apply (wire_configure e u _ _ (Ret (negb err))); [done..| |discriminate].
        rewrite Hset. simpl. by rewrite He.
      * intros ex ->. by apply (wire_configure e u _ _ (Throw ex)).
  - intros m Hm Hne. apply wire_other; [done|by apply exact_ports|done|by left].
Qed.

(** What the modules of the repository are started as: [trabea] with its
    switch gets the thread that answers requests and no other, and its unit is
    never asked for asynchronous work; [brazil], with any of its three units,
    gets both threads. *)
Theorem repository_workers un up :
  (∀ u p', un = "circulator_switch" → circulator_initialize_parameters up circulator_switch_ctor = (Ret u, p') →
     ∃ m acts, md_load_proc_unit un up (inl trabea : module_t) = (Ret tt, inl m)
       ∧ md_supported_actions (inl m : module_t) = (Ret acts, inl m)
       ∧ loadedProcUnit m = Some (ISwitch false p')
       ∧ asyncProcThread m = NotJoinable ∧ expected_workers acts = [SyncWork])
  ∧ (∀ c p u p', (un, c) ∈ procUnits brazil → c = Ret p → pu_string_initialize_parameters up p = (Ret u, p') →
     ∃ m acts, md_load_proc_unit un up (inr brazil : module_t) = (Ret tt, inr m)
       ∧ md_supported_actions (inr m : module_t) = (Ret acts, inr m)
       ∧ loadedProcUnit m = Some p'
       ∧ asyncProcThread m = Working ∧ expected_workers acts = [SyncWork; AsyncWork]).
Proof.
  split.
  - intros u p' Hun Hi. eexists _, _. split; [by eapply trabea_load|].
    split_and!; [done|done|done|by vm_compute].
  - intros c p u p' Hin Hc Hi. apply list_elem_of_In in Hin.
    eexists _, _. split; [by eapply brazil_load; [..|apply brazil_names|]|].
    split_and!; [done|done|done|by vm_compute].
Qed.
End repository.

(** ** Witnesses

    A host whose dispatchers answer once, without an error. *)
#[local] Instance one_reply : ZMQ := scripted_zmq_from [Some no_error_reply].
#[local] Instance trabea_options : BoostOptions := constant_options sample_options.
#[local] Instance no_network : TCP := stream_tcp.
#[local] Instance no_files : OS := os_with None.

#[local] Instance no_hardware : Hardware := {|
  hardware_serial := LccMessages.memory_serial;
  parse_config_file _ _ := Ret (Some ∅);
|}.

(** The switch after its initialisation, and the module with it. *)
Definition started_switch : circulator_switch :=
  (circulator_initialize_parameters "" circulator_switch_ctor).2.
Definition started_trabea : trabea_t :=
  set_thread false (set_loaded (Some (ISwitch false started_switch)) trabea).

Lemma started_switch_eq : circulator_initialize_parameters "" circulator_switch_ctor = (Ret tt, started_switch).
Proof. reflexivity. Qed.

Lemma started_trabea_eq :
  md_load_proc_unit "circulator_switch" "" (inl trabea : module_t) = (Ret tt, inl started_trabea).
Proof. exact (trabea_load _ _ _ _ eq_refl started_switch_eq). Qed.

Lemma started_trabea_run :
  md_load_proc_unit (IModule := module_t_imodule) "circulator_switch" "" (inl trabea : module_t)
  = (Ret tt, inl started_trabea).
Proof. exact started_trabea_eq. Qed.

Lemma sample_endpoints_nul_free : nul_free "tcp://lo:1" ∧ nul_free "".
Proof. split; apply (bool_decide_unpack _); by vm_compute. Qed.

Definition sample_start : outcome () * module_manager module_t server :=
  main_start (IModule0 := module_t_imodule) repository_factory "tcp://lo:1" "" "trabea" "" "circulator_switch" "" process_init.


(** The same start with options that the unit does not understand: its [exit(-1)],
    and not the [EXIT_FAILURE] of [main]. *)
Section bad_options.
#[local] Instance no_options : BoostOptions := {| parse_options _ _ := Ret None |}.

Example bad_options_exit :
  (main_start repository_factory "tcp://lo:1" "" "trabea" "" "circulator_switch" "-x" process_init).1
  = Fatal (ExitProcess (-1)).
Proof. vm_compute. reflexivity. Qed.
End bad_options.

Lemma main_end_terminates_witness :
  let r := main_start (IModule0 := module_t_imodule) repository_factory
    "tcp://lo:1" "" "trabea" "" "circulator_switch" "" process_init in
  r.1 = Ret tt ∧ (main_end (IModule0 := module_t_imodule) r.2).1 = Fatal Terminate.
Proof.
  intros r. destruct sample_endpoints_nul_free as [H1 H2].
  assert (r.1 = Ret tt) as Hs by (vm_compute; reflexivity). split; [exact Hs|].
  exact (proj1 (main_end_terminates repository_factory "tcp://lo:1" "" "trabea" "" "circulator_switch" ""
    (inl trabea : module_t) tt (inl trabea : module_t) tt (inl started_trabea : module_t) (pack REQUEST [PUSH])
    r.2 repository_fresh H1 H2 ltac:(simpl; lia) ltac:(simpl; lia) eq_refl eq_refl started_trabea_eq
    eq_refl ltac:(discriminate) (result_pair r (Ret tt) Hs))).
Defined.

(** A running program whose dispatcher will answer once, with an error. *)
Definition wire_client : client :=
  Client (chars "tcp://sim:5555" ++ replicate 114 NUL) (Scripted [Some sample_error_reply] true []).
Definition wire_switch : circulator_switch := CirculatorSwitch (Some wire_client) 167772161 (Some 3%Z) (Some ccw).

Lemma wire_switch_ready : switch_ready wire_switch wire_client 3 ccw.
Proof. repeat split. Qed.

Definition sample_process : module_manager module_t server :=
  ModuleManager (Some (0, inl (set_loaded (Some (ISwitch false wire_switch)) trabea))) 1
    (Callback true (Some notify)) false server_init.

Lemma sample_running : switch_running sample_process wire_switch.
Proof.
  split; [|by eexists _, _]. split; [done|]. intros a md [= <- <-].
  apply (inv_set_loaded (Some _) trabea); [apply module_inv_ctor|discriminate].
Qed.

Lemma switch_over_the_wire_witness :
  let e := SyncEnv (Scripted [] true []) sample_process in
  outbox (s_socket (serve (client_message REQUEST "get_state" [NumValue 1; NumValue 0]) e).2)
    = [text_of (BoolValue true) false]
  ∧ outbox (s_socket (serve (client_message PUSH "configure" [NumValue 0; NumValue 1]) e).2)
    = [text_of (BoolValue false) false].
Proof.
  intros e. split.
  - destruct (switch_over_the_wire e wire_switch wire_client 3 ccw 1 0 sample_running wire_switch_ready)
      as (_ & H & _); [lia..|]. rewrite H. reflexivity.
  - destruct (switch_over_the_wire e wire_switch wire_client 3 ccw 0 1 sample_running wire_switch_ready)
      as (_ & _ & _ & H & _); [lia..|].
    destruct (H ltac:(lia)) as [_ H1].
    destruct (H1 ltac:(discriminate) _ _ (surjective_pairing _)) as [H2 _].
    assert (get_error (sim_response_ctor sample_error_reply) = Ret true) as He
      by (vm_compute; reflexivity).
    rewrite (H2 (sim_response_ctor sample_error_reply) true eq_refl He). reflexivity.
Defined.

Lemma repository_workers_witness :
  (∃ m acts, md_load_proc_unit "circulator_switch" "" (inl trabea : module_t) = (Ret tt, inl m)
     ∧ md_supported_actions (inl m : module_t) = (Ret acts, inl m) ∧ expected_workers acts = [SyncWork])
  ∧ (∃ m acts, md_load_proc_unit "lcc_and_fpga" "" (inr brazil : module_t) = (Ret tt, inr m)
     ∧ md_supported_actions (inr m : module_t) = (Ret acts, inr m)
     ∧ asyncProcThread m = Working ∧ expected_workers acts = [SyncWork; AsyncWork]).
Proof.
  split.
  - destruct (repository_workers "circulator_switch" "") as [H _].
    destruct (H tt started_switch eq_refl started_switch_eq) as (m & acts & H1 & H2 & _ & _ & H3).
    exists m, acts. split_and!; [exact H1|exact H2|exact H3].
  - destruct (repository_workers "lcc_and_fpga" "") as [_ H].
    destruct (H (Ret (inr (inr lcc_and_fpga_ctor))) (inr (inr lcc_and_fpga_ctor)) tt
      (inr (inr (lcc_initialize_parameters "" lcc_and_fpga_ctor).2)))
      as (m & acts & H1 & H2 & _ & H3 & H4).
    + apply list_elem_of_In. simpl. do 2 right. left. reflexivity.
    + reflexivity.
    + reflexivity.
    + exists m, acts. split_and!; [exact H1|exact H2|exact H3|exact H4].
Defined.
