(* ===== verification/ManagerThreads.v ===== *)
(** * The threads of the modules of the repository

    What happens to a module of the repository between the calls of the manager:
    rounds of its own thread (imodule.cpp, [_async_proc_wrapper]) and the removal
    of items by the server's outgoing thread. Both keep the contract
    [ModuleThreadsSafe], so the manager of the program implements its contract
    whatever these threads do. *)

From S2P Require Import Prelude NetMessages BufferItem QueueBuffer Json Zmq ProcUnit Trabea Transceiver.
From S2P Require Import Bobwire LccFpga Modules ModuleManager Program ManagerSpec.

Section threads.
Context `{RapidJSON} {P : Type} `{!ProcUnit P}.

(** A round of the module's thread on any heap, or a [pop_all] of its buffer. *)
Inductive thread_step (m : imodule P) : imodule P → Prop :=
| thread_round h m' h' : Modules.async_round (m, h) = (Ret tt, (m', h')) → thread_step m m'
| thread_pop items b : pop_all (asyncBuffer m) = (Ret items, b) → thread_step m (upd l_asyncBuffer b m).

#[export] Instance derived_threads : ModuleThreads (imodule P) := {| md_meanwhile := thread_step |}.

Context `{!ProcUnitSafe P}.

Lemma round_keeps_unit m h m' h' :
  module_inv m → Modules.async_round (m, h) = (Ret tt, (m', h')) → unit_present m' = unit_present m.
Proof.
  intros Hm. unfold Modules.async_round. rewrite (mi_thread _ Hm), (mi_exit _ Hm).
  destruct (isRunning m) eqn:Hr; [|by intros [= <- <-]].
  destruct (mi_running _ Hm Hr) as [[p Hp] _]. rewrite Hp. unfold unit_present.
  destruct (pu_async_work _) as [[[]| |] e]; simpl; [|done..]. intros [= <- <-]. by rewrite Hp.
Qed.

#[export] Instance derived_threads_safe : ModuleThreadsSafe (imodule P).
Proof.
  split. intros m m' Hm [h m2 h2 Hc|items b Hc]; simpl in *.
  - split; [by destruct (async_round_inv m h m2 h2 Hm Hc)|exact (round_keeps_unit m h m2 h2 Hm Hc)].
  - split; [|done]. by destruct (module_step_inv (m, ∅) [] items (upd l_asyncBuffer b m, ∅) (step_pop _ _ _ _ Hc) Hm).
Qed.
End threads.

Section sum_threads.
Context `{RapidJSON} {A B : Type} `{!IModule A, !IModule B, !IModuleContract A, !IModuleContract B}.
Context `{!ModuleThreads A, !ModuleThreads B, !ModuleThreadsSafe A, !ModuleThreadsSafe B}.

#[export] Instance sum_threads : ModuleThreads (A + B) := {|
  md_meanwhile m m' :=
    match m, m' with
    | inl a, inl a' => md_meanwhile a a'
    | inr b, inr b' => md_meanwhile b b'
    | _, _ => False
    end;
|}.

#[export] Instance sum_threads_safe : ModuleThreadsSafe (A + B).
Proof. split. intros [a|b] [a'|b'] Hm Hw; simpl in *; try done; by apply md_meanwhile_spec. Qed.
End sum_threads.

Section repository.
Context `{RapidJSON} `{ZMQ} `{BoostOptions} `{TCP} `{BoostEndian} `{OS} `{Hardware}.

#[export] Instance module_t_threads : ModuleThreads module_t := sum_threads.
#[export] Instance module_t_threads_safe : ModuleThreadsSafe module_t := sum_threads_safe.

(** The manager of the program, with the modules of the repository and their
    threads, from any state between calls. *)
Theorem repository_manager {W} tr (s s' : module_manager module_t W) :
  manager_inv s → manager_run repository_factory s tr s' →
  spec_run repository_factory (abs s) tr (abs s') ∧ manager_inv s'.
Proof. apply run_simulates, repository_fresh. Qed.
End repository.
