(* ===== verification/Session.v ===== *)
(** * Sessions with the switch

    What a client of the program sees over a whole session when the module
    trabea is loaded: an abstract switch with a rotation, connected to an
    abstract dispatcher. The theorems relate any sequence of messages on the
    client's socket, with time-outs between them, to the runs of the abstract
    switch, through the worker thread, the manager, the module, the unit and the
    client of the dispatcher. *)

From S2P Require Import Prelude NetMessages Actions Json MiddlewareMessages Zmq Simulation.
From S2P Require Import CString ProcUnit Trabea Transceiver LccFpga Modules ModuleManager ZmqServer Server Program.

(** ** The two ends *)

(** A connected ZMQ_PAIR socket: messages that will arrive, with the time-outs
    between them, and those that have been sent. *)
Class PairSocket `{ZMQ} := {
  pair_socket : Socket → list (option (list ascii)) → list (list ascii) → Prop;
  pair_recv sk x ins outs :
    pair_socket sk (x :: ins) outs → ∃ sk', zmq_recv sk = (Ret x, sk') ∧ pair_socket sk' ins outs;
  pair_send sk ins outs bs :
    pair_socket sk ins outs → ∃ sk', zmq_send bs sk = (Ret true, sk') ∧ pair_socket sk' ins (outs ++ [bs]);
}.

(** A dispatcher as the switch sees it: told to turn a switch, it accepts,
    refuses, or cannot be reached. The client object of the switch represents
    its state. *)
Class Dispatcher `{RapidJSON} `{ZMQ} (D : Type) := {
  d_turn : chirality → D → outcome bool * D;
  d_represents : Z → client → D → Prop;
  d_survives r d : survives (d_turn r d).1;
  d_turn_spec ip c d r :
    d_represents ip c d →
    let x := exchange (configure_message ip r) c in
    out_bind x.1 (λ rsp, out_bind (get_error rsp) (λ e, Ret (negb e))) = (d_turn r d).1
    ∧ d_represents ip x.2 (d_turn r d).2;
}.

Section session.
Context `{RapidJSON} `{ZMQ} `{BoostOptions} `{TCP} `{BoostEndian} `{OS} `{Hardware}.
Context `{!PairSocket} {D : Type} `{!Dispatcher D}.
Abbreviation process_t := (module_manager module_t server).

(** ** The abstract switch *)

(** The client's messages. *)
Inductive message :=
| GetState (i o : Z)
| Configure (i o : Z)
| Other (a : actions_t) (m : string) (ps : list Value).

Definition encode (msg : message) : list ascii :=
  match msg with
  | GetState i o => client_message REQUEST "get_state" [NumValue i; NumValue o]
  | Configure i o => client_message PUSH "configure" [NumValue i; NumValue o]
  | Other a m ps => client_message a m ps
  end.

(** Port numbers are 64-bit; the other messages are requests and pushes with
    another method. *)
Definition proper (msg : message) : Prop :=
  match msg with
  | GetState i o | Configure i o => (0 ≤ i < 2 ^ 64)%Z ∧ (0 ≤ o < 2 ^ 64)%Z
  | Other a m ps =>
      Forall exact_value ps ∧ nul_free m
      ∧ ((a = REQUEST ∧ m ≠ "get_state") ∨ (a = PUSH ∧ m ≠ "configure"))
  end.

(** The rotation, and the dispatcher. *)
Abbreviation abstract_switch := (chirality * D)%type.

(** The answer to one message of a switch with [n] ports. *)
Definition switch_answer (n : Z) (msg : message) (s : abstract_switch) : list ascii * abstract_switch :=
  match msg with
  | GetState i o => (text_of (BoolValue (bool_decide (s.1 = chirality_of n i o))) false, s)
  | Configure i o =>
      if decide (n ≤ i ∨ n ≤ o)%Z then (text_of (BoolValue false) false, s)
      else
        let r := chirality_of n i o in
        if decide (r = s.1) then (text_of (BoolValue true) false, s)
        else let x := d_turn r s.2 in (push_text x.1, (r, x.2))
  | Other _ _ _ => (text_of (StringValue (chars err_msg._malinpt)) true, s)
  end.

(** The answers to a sequence of messages; [None] is a time-out. *)
Fixpoint switch_session (n : Z) (msgs : list (option message)) (s : abstract_switch) :
    list (list ascii) * abstract_switch :=
  match msgs with
  | [] => ([], s)
  | None :: msgs' => switch_session n msgs' s
  | Some msg :: msgs' =>
      let a := switch_answer n msg s in
      let rest := switch_session n msgs' a.2 in
      (a.1 :: rest.1, rest.2)
  end.

(** ** One message *)

(** The program with the switch loaded, and the abstract switch it implements. *)
Definition represents (n : Z) (e : sync_env process_t) (s : abstract_switch) : Prop :=
  ∃ u c, switch_running (s_manager e) u ∧ switch_ready u c n s.1 ∧ d_represents (Trabea.nIP u) c s.2.

Lemma switch_running_with s u u' : switch_running s u → switch_running (with_switch u' s) u'.
Proof.
  intros (Hs & a & m & Hl & Hu). pose proof (mm_idle _ Hs _ _ Hl) as Hm.
  unfold with_switch. rewrite Hl. split.
  - apply inv_set_module; [done|]. exact (inv_loaded_some m _ Hm Hu _).
  - by eexists _, _.
Qed.

Lemma answer_with_eq bs u e ins outs :
  pair_socket (s_socket e) ins outs →
  ∃ sk, answer_with bs u e = (Ret tt, SyncEnv sk (with_switch u (s_manager e)))
      ∧ pair_socket sk ins (outs ++ [bs]).
Proof.
  intros Hp. destruct (pair_send _ _ _ bs Hp) as (sk & Hs & Hp'). exists sk.
  unfold answer_with. by rewrite Hs.
Qed.

Lemma serve_message n msg e s ins outs :
  represents n e s → proper msg → pair_socket (s_socket e) ins outs →
  let a := switch_answer n msg s in
  ∃ e', serve (encode msg) e = (Ret tt, e') ∧ represents n e' a.2
      ∧ pair_socket (s_socket e') ins (outs ++ [a.1]).
Proof.
  destruct s as [st d]. intros (u & c & Hs & Hr & Hd) Hm Hp a. simpl in Hr, Hd.
  assert (∀ u' c' s', switch_ready u' c' n s'.1 → d_represents (Trabea.nIP u') c' s'.2 →
    serve (encode msg) e = answer_with a.1 u' e → s' = a.2 →
    ∃ e', serve (encode msg) e = (Ret tt, e') ∧ represents n e' a.2
      ∧ pair_socket (s_socket e') ins (outs ++ [a.1])) as Hdone.
  { intros u' c' s' Hr' Hd' -> <-. destruct (answer_with_eq a.1 u' _ _ _ Hp) as (sk & -> & Hp').
    eexists. split; [done|]. split; [|done]. exists u', c'. by eauto using switch_running_with. }
  destruct msg as [i o|i o|act m ps]; simpl in Hm, a.
  - destruct Hm as [Hi Ho]. apply (Hdone u c (st, d)); [done..| |done].
    by apply (wire_get_state e u c n st).
  - destruct Hm as [Hi Ho]. pose proof (set_switch_state_eq u c n st i o Hr) as Hset. subst a.
    case_decide as Hio.
    { apply (Hdone u c (st, d)); [done..| |done]. by apply (wire_configure e u _ _ (Ret false)). }
    case_decide as Hst.
    { apply (Hdone u c (st, d)); [done..| |done]. by apply (wire_configure e u _ _ (Ret true)). }
    destruct (d_turn_spec _ _ _ (chirality_of n i o) Hd) as [Hx Hd']. cbv zeta in Hset. rewrite Hx in Hset.
    eapply Hdone; [| |by apply (wire_configure e u); [..|apply d_survives]|done]; simpl; [|exact Hd'].
    by destruct Hr as (_ & _ & _ & ?).
  - destruct Hm as (Hps & Hm & Ha). apply (Hdone u c (st, d)); [done..| |done]. by apply wire_other.
Qed.

(** ** Whole sessions *)

Lemma session_refines n msgs e s outs k :
  represents n e s → Forall (λ x, from_option proper True x) msgs →
  pair_socket (s_socket e) (fmap (M := option) encode <$> msgs) outs →
  let r := switch_session n msgs s in
  ∃ e', for_loop k (length msgs) (λ _, sync_round) e = (Ret tt, e') ∧ represents n e' r.2
      ∧ pair_socket (s_socket e') [] (outs ++ r.1).
Proof.
  revert e s outs k. induction msgs as [|[msg|] msgs IH]; intros e s outs k He Hm Hp; simpl.
  - exists e. by rewrite app_nil_r.
  - apply Forall_cons in Hm as [Hmsg Hm]. destruct (pair_recv _ _ _ _ Hp) as (sk & Hrecv & Hp').
    destruct (serve_message n msg (SyncEnv sk (s_manager e)) s _ _ He Hmsg Hp') as (e1 & Hserve & He1 & Hp1).
    destruct (IH e1 _ _ (S k) He1 Hm Hp1) as (e2 & Hloop & He2 & Hp2).
    exists e2. rewrite <-app_assoc in Hp2. split; [|done].
    assert (sync_round e = (Ret tt, e1)) as Hround.
    { unfold sync_round, bind, zoom. simpl. rewrite Hrecv. exact Hserve. }
    by rewrite (bind_Ret _ _ _ _ _ Hround).
  - apply Forall_cons in Hm as [_ Hm]. destruct (pair_recv _ _ _ _ Hp) as (sk & Hrecv & Hp').
    destruct (IH (SyncEnv sk (s_manager e)) _ _ (S k) He Hm Hp') as (e2 & Hloop & He2 & Hp2).
    exists e2. split; [|done].
    assert (sync_round e = (Ret tt, SyncEnv sk (s_manager e))) as Hround.
    { unfold sync_round, bind, zoom. simpl. by rewrite Hrecv. }
    by rewrite (bind_Ret _ _ _ _ _ Hround).
Qed.

(** The thread function: its socket is opened, configured and bound, the start is
    signalled, and after the rounds the socket is given up. *)
Lemma sync_work_refines n msgs ep e s sk :
  represents n e s → startMutex (world (s_manager e)) = false →
  Forall (λ x, from_option proper True x) msgs →
  (zmq_setsockopt ZMQ_SNDTIMEO sync_send_to ;; zmq_setsockopt ZMQ_RCVTIMEO sync_receive_to ;; zmq_bind ep)
    (open_socket ZMQ_PAIR) = (Ret tt, sk) →
  pair_socket sk (fmap (M := option) encode <$> msgs) [] →
  let r := switch_session n msgs s in
  ∃ e', sync_work ep (length msgs) e
      = thread_function (zoom l_s_socket (zmq_unbind ep) ;; zoom l_s_socket zmq_close) e'
    ∧ represents n e' r.2 ∧ pair_socket (s_socket e') [] r.1.
Proof.
  intros He Hmx Hm Hopen Hp.
  set (e1 := SyncEnv sk (upd l_world (notify_thread_started (world (s_manager e))).2 (s_manager e))).
  assert (represents n e1 s) as He1.
  { destruct He as (u & c & ([? ?] & Hl) & Hr). exists u, c. split; [split; [by split|exact Hl]|exact Hr]. }
  destruct (session_refines n msgs e1 s [] 0 He1 Hm Hp) as (e2 & Hloop & He2 & Hp2).
  exists e2. split; [|done].
  assert (∀ (k : M (sync_env process_t) ()),
    (assign l_s_socket (open_socket ZMQ_PAIR) ;;
     zoom l_s_socket (zmq_setsockopt ZMQ_SNDTIMEO sync_send_to) ;;
     zoom l_s_socket (zmq_setsockopt ZMQ_RCVTIMEO sync_receive_to) ;;
     zoom l_s_socket (zmq_bind ep) ;;
     zoom l_s_manager mw_thread_started ;; k) e = k e1) as Hsetup.
  { intros k. unfold bind at 1, assign, modify. cbn [upd l_s_socket].
    destruct (bind_Ret_inv _ _ _ _ _ Hopen) as ([] & sk1 & H1' & Hopen1).
    destruct (bind_Ret_inv _ _ _ _ _ Hopen1) as ([] & sk2 & H2' & H3').
    unfold bind, zoom. cbn [view upd l_s_socket l_s_manager s_socket s_manager].
    rewrite H1'. cbn [fst snd s_socket s_manager]. rewrite H2'. cbn [fst snd s_socket s_manager].
    rewrite H3'. cbn [fst snd s_socket s_manager mw_thread_started process_middleware].
    unfold zoom, e1. unfold notify_thread_started, with_lock. mrun. by rewrite Hmx. }
  unfold sync_work, thread_function. rewrite Hsetup. by rewrite (bind_Ret _ _ _ _ _ Hloop).
Qed.

(** ** From the start *)

(** What the initialisation of the switch makes of the first call. *)
Lemma initialise_switch up vals n ip c d :
  parse_options circulator_options up = Ret (Some vals) → vals !! "p" = Some (NumberOpt n) →
  parse_ip (opt_string vals "e" "") = Ret ip → client_ctor (opt_string vals "td" "") = Ret c →
  (n < 2 ^ 64)%Z → d_represents ip c d →
  ∃ o u c', circulator_initialize_parameters up circulator_switch_ctor = (o, u)
    ∧ switch_ready u c' n ccw ∧ d_represents (Trabea.nIP u) c' (d_turn ccw d).2
    ∧ ((d_turn ccw d).1 = Ret true → o = Ret tt)
    ∧ ((d_turn ccw d).1 ≠ Ret true → ∃ e, o = Throw e).
Proof.
  intros Ho Hp Hip Hc Hn Hd. rewrite (circulator_initialize_eq _ _ _ _ _ _ Ho Hp Hip Hc).
  destruct (d_turn_spec _ _ _ ccw Hd) as [Hx Hd'].
  pose proof (d_survives ccw d) as Hsv. cbv zeta. rewrite <-Hx in Hsv |- *.
  destruct (exchange (configure_message ip ccw) c) as [x c']. cbn [fst snd] in *.
  eexists _, _, c'. split; [done|]. split; [done|]. split; [done|].
  destruct x as [rsp|e|f]; cbn [out_bind] in *; [|by split; eauto|by destruct (Hsv f)].
  destruct (get_error rsp) as [[]|e|f]; cbn [out_bind negb] in *; [by split; eauto..| |by destruct (Hsv f)].
  by split; eauto.
Qed.

(** The start with the module trabea and its switch. *)
Lemma start_switch iEp oEp mp up o u :
  nul_free iEp → nul_free oEp → strlen iEp < 128 → strlen oEp < 128 → iEp ≠ "" →
  circulator_initialize_parameters up circulator_switch_ctor = (o, u) →
  (o = Ret tt → ∃ s, main_start repository_factory iEp oEp "trabea" mp "circulator_switch" up process_init = (Ret tt, s)
     ∧ switch_running s u ∧ c_string (iEndpoint (world s)) = Some iEp)
  ∧ (∀ e, o = Throw e →
     (main_start repository_factory iEp oEp "trabea" mp "circulator_switch" up process_init).1
     = Fatal (ExitProcess EXIT_FAILURE)).
Proof.
  intros Hi Ho Hli Hlo Hne Hinit. destruct (setup_first _ _ Hi Ho Hli Hlo) as (v & Hs & Hv).
  rewrite (main_start_eq repository_factory _ _ v "trabea" mp "circulator_switch" up
    (inl trabea : module_t) tt (inl trabea : module_t)) by done. split.
  - intros ->. pose proof (trabea_load "circulator_switch" up u tt eq_refl Hinit) as Hl.
    unfold try_catch.
    rewrite (load_unit_first _ _ v (inl trabea : module_t) tt
      (inl (set_thread false (set_loaded (Some (ISwitch false u)) trabea)) : module_t) (pack REQUEST [PUSH])).
    2: apply module_inv_ctor.
    2-4: done.
    2: apply Hv.
    2: by apply (set_up_endpoints _ iEp oEp).
    eexists. split; [done|]. split; [|apply Hv]. split; [|by eexists _, _].
    split; [done|]. simpl. intros ? ? [= <- <-].
    refine (proj1 (md_load_spec _ _ (inl trabea : module_t) _ _ (module_inv_ctor _ _) Hl _)). discriminate.
  - intros e ->. unfold try_catch. rewrite manager_load_proc_unit_eq.
    2: { split; [done|]. simpl. intros ? ? [= <- <-]. apply module_inv_ctor. }
    simpl. unfold on_sum. rewrite load_proc_unit_eq by apply module_inv_ctor.
    simpl. unfold zoom. simpl. by rewrite Hinit.
Qed.

(** ** Properties *)

(** C6. The program started with trabea is a switch. If the dispatcher accepts the
    first rotation the start succeeds, and from then on, whatever messages the
    client sends and whatever time-outs lie between them, the worker thread
    on the endpoint of the command line answers exactly as an abstract switch
    that started counter-clockwise and then gives up its socket: the answers arrive in the order of the messages, one for each, the dispatcher is
    asked only when the rotation changes, and its refusals and failures are
    answered and do not end the program. If the dispatcher refuses the first
    rotation or cannot be reached, the program exits with [EXIT_FAILURE]. *)
Theorem program_is_a_switch iEp oEp mp up vals n ip c d :
  nul_free iEp → nul_free oEp → strlen iEp < 128 → strlen oEp < 128 → iEp ≠ "" →
  parse_options circulator_options up = Ret (Some vals) → vals !! "p" = Some (NumberOpt n) →
  parse_ip (opt_string vals "e" "") = Ret ip → client_ctor (opt_string vals "td" "") = Ret c →
  (n < 2 ^ 64)%Z → d_represents ip c d →
  let start := main_start repository_factory iEp oEp "trabea" mp "circulator_switch" up process_init in
  ((d_turn ccw d).1 ≠ Ret true → start.1 = Fatal (ExitProcess EXIT_FAILURE))
  ∧ ((d_turn ccw d).1 = Ret true → start.1 = Ret tt ∧ c_string (iEndpoint (world start.2)) = Some iEp
     ∧ ∀ w sk0 sk msgs, startMutex w = false → Forall (λ x, from_option proper True x) msgs →
         (zmq_setsockopt ZMQ_SNDTIMEO sync_send_to ;; zmq_setsockopt ZMQ_RCVTIMEO sync_receive_to ;; zmq_bind iEp)
           (open_socket ZMQ_PAIR) = (Ret tt, sk) →
         pair_socket sk (fmap (M := option) encode <$> msgs) [] →
         let r := switch_session n msgs (ccw, (d_turn ccw d).2) in
         ∃ e, sync_work iEp (length msgs) (SyncEnv sk0 (upd l_world w start.2))
              = thread_function (zoom l_s_socket (zmq_unbind iEp) ;; zoom l_s_socket zmq_close) e
            ∧ represents n e r.2 ∧ pair_socket (s_socket e) [] r.1).
Proof.
  intros Hi Ho Hli Hlo Hne Hopt Hp Hip Hc Hn Hd start.
  destruct (initialise_switch up vals n ip c d Hopt Hp Hip Hc Hn Hd) as (o & u & c' & Hinit & Hr & Hd' & Hok & Hbad).
  destruct (start_switch iEp oEp mp up o u Hi Ho Hli Hlo Hne Hinit) as [Hgood Hfail]. split.
  - intros Hd0. destruct (Hbad Hd0) as [e He]. by eapply Hfail.
  - intros Hd0. destruct (Hgood (Hok Hd0)) as (s & Hstart & Hs & Hep). unfold start. rewrite Hstart.
    split; [done|]. split; [exact Hep|]. intros w sk0 sk msgs Hw Hmsgs Hopen Hsk.
    apply (sync_work_refines n msgs iEp _ _ sk); [|done..].
    exists u, c'. split; [|done]. destruct Hs as ([? ?] & Hl). by split.
Qed.
End session.

(** ** Witnesses

    A connected pair, and a dispatcher with a script: it accepts the first turn,
    refuses the second and is gone afterwards. *)
#[local] Existing Instance trabea_options.
#[local] Existing Instance no_network.
#[local] Existing Instance no_files.
#[local] Existing Instance no_hardware.

Definition dispatcher_reply (b : bool) : option (list ascii) :=
  Some (if b then no_error_reply else an_error_reply).

(** Asked, turned in vain, asked again, and a port that is not there. *)
Definition sample_messages : list (option message) :=
  [Some (GetState 0 1); None; Some (Configure 0 1); Some (GetState 0 1); Some (Configure 3 0);
   Some (Other REQUEST "reset" []); Some (Configure 1 0)].

Lemma sample_proper : Forall (λ x, from_option proper True x) sample_messages.
Proof.
  repeat constructor; simpl; try lia; try discriminate.
  apply (bool_decide_unpack _). vm_compute. exact I.
Qed.

(** The dispatchers' sockets, and the client's. *)
#[local] Instance scripted_host : ZMQ := scripted_zmq_by (λ ty,
  match ty with
  | ZMQ_PAIR => fmap (M := option) encode <$> sample_messages
  | _ => dispatcher_reply <$> [true; false]
  end).

#[local] Program Instance scripted_pair : PairSocket := {|
  pair_socket sk ins outs := sk = Scripted ins true outs;
|}.
Next Obligation. intros _ x ins outs ->. by eexists. Qed.
Next Obligation. intros _ ins outs bs ->. by eexists. Qed.

Lemma dispatcher_reply_error :
  get_error (sim_response_ctor no_error_reply) = Ret false
  ∧ get_error (sim_response_ctor an_error_reply) = Ret true.
Proof. split; vm_compute; reflexivity. Qed.

#[local] Program Instance scripted_dispatcher : Dispatcher (list bool) := {|
  d_turn _ d :=
    match d with [] => (Throw (runtime_error err_msg._ntwrkdn), []) | b :: d' => (Ret b, d') end;
  d_represents _ c d := ∃ log, socket c = Scripted (dispatcher_reply <$> d) true log;
|}.
Next Obligation. by intros _ [|b d]. Qed.
Next Obligation.
  intros ip [ep sk] d r [log Hsk]. simpl in Hsk. subst sk. unfold exchange, zoom, bind. simpl.
  destruct d as [|b d]; simpl; [split; [done|by eexists]|].
  split; [|by eexists]. destruct dispatcher_reply_error as [H1 H2].
  destruct b; cbn [dispatcher_reply] in *; by rewrite ?H1, ?H2.
Qed.

Definition session_client : client :=
  Client (chars "tcp://sim:5555" ++ replicate 114 NUL) (Scripted (dispatcher_reply <$> [true; false]) true []).

Definition sample_program : outcome () * module_manager module_t server :=
  main_start (IModule0 := module_t_imodule) repository_factory "tcp://lo:1" "" "trabea" "" "circulator_switch" "" process_init.

Lemma same_world (s : module_manager module_t server) : upd l_world (world s) s = s.
Proof. by destruct s. Qed.

Lemma program_is_a_switch_witness :
  sample_program.1 = Ret tt
  ∧ let th := sync_work (Mg := module_manager module_t server) "tcp://lo:1" (length sample_messages)
      (SyncEnv (open_socket ZMQ_PAIR) sample_program.2) in
    th.1 = Ret tt
    ∧ outbox (s_socket th.2)
      = [text_of (BoolValue false) false; text_of (BoolValue false) false; text_of (BoolValue true) false;
         text_of (BoolValue false) false; text_of (StringValue (chars "malformed input")) true;
         text_of (StringValue (chars "network down")) true].
Proof.
  destruct sample_endpoints_nul_free as [H1 H2].
  destruct (program_is_a_switch "tcp://lo:1" "" "" "" sample_options 3 167772161 session_client [true; false] H1 H2)
    as [_ H]; [simpl; lia|simpl; lia|discriminate|reflexivity|reflexivity|reflexivity|reflexivity|lia|exists []; reflexivity|].
  destruct (H eq_refl) as (Hs & _ & Hrun). split; [exact Hs|].
  assert (startMutex (world sample_program.2) = false) as Hw by (vm_compute; reflexivity).
  destruct (Hrun (world sample_program.2) (open_socket ZMQ_PAIR) (open_socket ZMQ_PAIR) sample_messages
    Hw sample_proper eq_refl eq_refl) as (e & He & _ & Hout).
  pose proof (eq_trans (f_equal (λ s, sync_work _ _ (SyncEnv _ s)) (eq_sym (same_world _))) He) as Hl.
  cbv zeta. rewrite Hl. split; [reflexivity|].
  refine (eq_trans (y := outbox (s_socket e)) eq_refl _). rewrite Hout. reflexivity.
Defined.
