(* ===== verification/System.v ===== *)
(** * The running program

    What goes on between the start of [main] and its end when the module is
    brazil: the thread that answers the client (net/middleware/zmq_server.cpp),
    the thread that sends the measurements, the module's own thread
    (module/imodule.cpp) and the request server of the unit
    (module/brazil/itrx_proc_unit.hpp) share the module manager and the heap.
    The steps are those of the four threads, in any order; a thread function that
    throws ends the program, so it makes no step. *)

From S2P Require Import Prelude NetMessages Actions BufferItem QueueBuffer Json.
From S2P Require Import MiddlewareMessages Zmq Simulation CString ProcUnit Trabea Transceiver.
From S2P Require Import Bobwire LccFpga Modules ModuleManager ZmqServer Server Stream Program.

(** What a round of the thread that answers the client does to the manager:
    nothing, or the call of the handler that the message asks for, which returns
    or throws. *)
Section sync.
Context `{RapidJSON} `{ZMQ} {Mg : Type} `{!Middleware Mg}.

(** The request in the next message of a socket. *)
Definition asked (sk : Socket) : option (actions_t * MiddlewareMessages.request) :=
  match (zmq_recv sk).1 with
  | Ret (Some data) =>
      match request_ctor data with
      | Ret rq => match action rq with Ret a => Some (a, rq) | _ => None end
      | _ => None
      end
  | _ => None
  end.

Inductive handled : option (actions_t * MiddlewareMessages.request) → Mg → Mg → Prop :=
| handled_none mg : handled None mg mg
| handled_request rq o mg mg' :
    mw_proc_act_request rq mg = (o, mg') → survives o → handled (Some (REQUEST, rq)) mg mg'
| handled_push rq o mg mg' :
    mw_proc_act_push rq mg = (o, mg') → survives o → handled (Some (PUSH, rq)) mg mg'.

Lemma dispatch_handled rq a (e : sync_env Mg) r e' :
  dispatch rq a e = (Ret r, e') → s_socket e' = s_socket e ∧ handled (Some (a, rq)) (s_manager e) (s_manager e').
Proof.
  destruct e as [sk mg], a; unfold dispatch; try done; unfold try_catch, bind, zoom; simpl.
  - destruct (mw_proc_act_push rq mg) as [[b|x|f] mg'] eqn:Hc; simpl; [| |done].
    + unfold response_bool, lift. rewrite response_of_value. intros [= _ <-]. split; [done|].
      by eapply handled_push.
    + rewrite error_response_eq. intros [= _ <-]. split; [done|]. by eapply handled_push.
  - destruct (mw_proc_act_request rq mg) as [[b|x|f] mg'] eqn:Hc; simpl; [| |done].
    + intros [= _ <-]. split; [done|]. by eapply handled_request.
    + rewrite error_response_eq. intros [= _ <-]. split; [done|]. by eapply handled_request.
Qed.

Lemma serve_handled data (e : sync_env Mg) e' :
  serve data e = (Ret tt, e') →
  ∃ a rq, request_ctor data = Ret rq ∧ action rq = Ret a
    ∧ handled (Some (a, rq)) (s_manager e) (s_manager e').
Proof.
  unfold serve. intros (? & e1 & H1 & Hs)%bind_Ret_inv.
  assert (e1 = e) as -> by (revert H1; repeat case_match; by intros [= _ ->]).
  apply bind_Ret_inv in Hs as (rq & e1 & Hq & Hs). apply bind_Ret_inv in Hs as (a & e2 & Ha & Hs).
  unfold lift in Hq, Ha. injection Hq as Hq ->. injection Ha as Ha ->. exists a, rq. split_and!; [done..|].
  apply bind_Ret_inv in Hs as (r & e3 & Hd & Hs). apply dispatch_handled in Hd as [_ Hh].
  destruct r as [r|]; [|done]. apply bind_Ret_inv in Hs as (rc & e4 & Hz & Hs).
  unfold ret in Hs. simplify_eq. revert Hz. unfold zoom. simpl.
  destruct (zmq_send _ _) as [o sk]. by intros [= _ <-].
Qed.

Lemma sync_round_handled (e e' : sync_env Mg) :
  sync_round e = (Ret tt, e') → handled (asked (s_socket e)) (s_manager e) (s_manager e').
Proof.
  unfold sync_round, asked. intros (m & e1 & Hr & Hs)%bind_Ret_inv. revert Hr. unfold zoom. simpl.
  destruct (zmq_recv (s_socket e)) as [o sk]. simpl. intros [= -> <-].
  destruct m as [data|]; [|unfold ret in Hs; simplify_eq; constructor].
  apply serve_handled in Hs as (a & rq & -> & Ha & Hh). by rewrite Ha.
Qed.
End sync.

Section system.
Context `{RapidJSON} `{ZMQ} `{BoostOptions} `{TCP} `{BoostEndian} `{OS} `{Hardware}.
Abbreviation process_t := (module_manager module_t server).
Abbreviation unit_t := (transceiver () + (transceiver bases + lcc_and_fpga))%type.
Implicit Types m : brazil_t.

(** ** The state and the steps *)

(** The manager with its module and the server's members, the sockets of the two
    worker threads, what the outgoing one has popped, and the heap. *)
Record system := System {
  sys_process : process_t;
  sys_in : Socket;
  sys_out : Socket;
  sys_local : list buffer_item;
  sys_heap : heap;
}.

(** The calls of a unit: by the client's requests and pushes, by a peer's request, by a
    wake-up of the thread that waits in it, and by the module's thread, with the
    heap and the buffer it finds. *)
Inductive unit_event :=
| RequestCall (rq : MiddlewareMessages.request)
| PushCall (rq : MiddlewareMessages.request)
| PeerCall
| PeerWakeup
| WorkCall (h : heap) (b : queue_buffer).

(** The unit after a call, and after a sequence of calls. *)
Definition unit_after (u : unit_t) (ev : unit_event) : unit_t :=
  match ev with
  | RequestCall rq => (pu_proc_act_request rq u).2
  | PushCall rq => (pu_proc_act_push rq u).2
  | PeerCall =>
      match u with
      | inl t => inl (trx_process t).2
      | inr (inl t) => inr (inl (bobwire_process t).2)
      | inr (inr _) => u
      end
  | PeerWakeup =>
      match u with
      | inl t => inl (process_resume t).2
      | inr (inl t) => inr (inl (process_resume t).2)
      | inr (inr _) => u
      end
  | WorkCall h b => env_unit (pu_async_work (AsyncEnv u h b)).2
  end.

Definition unit_history (u : unit_t) (evs : list unit_event) : unit_t := foldl unit_after u evs.

Definition same_class (u u' : unit_t) : Prop :=
  match u, u' with
  | inl _, inl _ | inr (inl _), inr (inl _) | inr (inr _), inr (inr _) => True
  | _, _ => False
  end.

Lemma unit_history_app u evs calls : unit_history u (evs ++ calls) = unit_history (unit_history u evs) calls.
Proof. apply foldl_app. Qed.

Lemma unit_history_class evs u : same_class u (unit_history u evs).
Proof.
  induction evs as [|ev evs IH] using rev_ind; [by destruct u as [|[]]|].
  rewrite unit_history_app. revert IH.
  generalize (unit_history u evs). intros u1. by destruct u as [|[]], u1 as [|[]], ev.
Qed.

(** The calls that a request of the client and a round of the module's thread make. *)
Definition client_calls (ask : option (actions_t * MiddlewareMessages.request)) : list unit_event :=
  match ask with
  | Some (REQUEST, rq) => [RequestCall rq]
  | Some (PUSH, rq) => [PushCall rq]
  | _ => []
  end.

Definition round_calls (m : brazil_t) (h : heap) : list unit_event :=
  match asyncProcThread m with
  | Working => if Modules.doExit m then [] else [WorkCall h (asyncBuffer m)]
  | _ => []
  end.

(** The request server of a unit: a request of a peer, and a wake-up. *)
Inductive peer_step : unit_event → unit_t → unit_t → Prop :=
| peer_trx p t t' : trx_process t = (Ret p, t') → peer_step PeerCall (inl t) (inl t')
| peer_trx_wakeup p t t' : process_resume t = (Ret p, t') → peer_step PeerWakeup (inl t) (inl t')
| peer_bobwire p t t' : bobwire_process t = (Ret p, t') → peer_step PeerCall (inr (inl t)) (inr (inl t'))
| peer_bobwire_wakeup p t t' :
    process_resume t = (Ret p, t') → peer_step PeerWakeup (inr (inl t)) (inr (inl t')).

Lemma peer_step_after ev u u' : peer_step ev u u' → u' = unit_after u ev.
Proof. by destruct 1 as [? ? ? He|? ? ? He|? ? ? He|? ? ? He]; simpl; rewrite He. Qed.

(** The module at the address [a], and the manager with it in another state. *)
Definition loaded_at (a : nat) m (s : process_t) : Prop := loadedModule s = Some (a, inr m).
Definition with_module (a : nat) m (s : process_t) : process_t :=
  upd l_loadedModule (Some (a, inr m)) s.

(** The outgoing thread reaches the buffer through the server's pointer to it. *)
Definition outgoing_buffer (a : nat) (s : process_t) : Prop := moduleAsyncBuffer (world s) = Some a.

(** A step, with the calls of the unit it makes, what it received from the network
    and what it sent, which is what it has handed to [zmq_send]. A round of the
    thread that answers the client is one step, also where the handler transmits and
    waits: how the steps of a transmission mix with those of its peers is
    [Transmission]. *)
Inductive sys_step : system → list unit_event → list (list ascii) → list (list ascii) → system → Prop :=
| sy_sync s i o loc h e' :
    sync_round (SyncEnv i s) = (Ret tt, e') →
    sys_step (System s i o loc h) (client_calls (asked i)) [] []
      (System (s_manager e') (s_socket e') o loc h)
| sy_round s a m m' h' i o loc h :
    loaded_at a m s → Modules.async_round (m, h) = (Ret tt, (m', h')) →
    sys_step (System s i o loc h) (round_calls m h) (round_receives m) [] (System (with_module a m' s) i o loc h')
| sy_peer s a m u u' ev i o loc h :
    loaded_at a m s → loadedProcUnit m = Some u → peer_step ev u u' →
    sys_step (System s i o loc h) [ev] [] [] (System (with_module a (set_loaded (Some u') m) s) i o loc h)
| sy_wait s a m ev b' i o loc h :
    outgoing_buffer a s → loaded_at a m s → qstep (asyncBuffer m) ev b' → only_waits ev →
    sys_step (System s i o loc h) [] [] [] (System (with_module a (upd l_asyncBuffer b' m) s) i o loc h)
| sy_pop s a m items b' i o h :
    outgoing_buffer a s → loaded_at a m s → pop_all (asyncBuffer m) = (Ret items, b') →
    sys_step (System s i o [] h) [] [] [] (System (with_module a (upd l_asyncBuffer b' m) s) i o items h)
| sy_send s a m it loc i o h bs st :
    loaded_at a m s → item_bytes it h = (Ret bs, h) →
    send_item it (outgoing_state (Stream m h (it :: loc) o)) = (Ret tt, st) →
    sys_step (System s i o (it :: loc) h) [] [] [bs] (System s i (a_socket st) loc (a_heap st)).

Inductive sys_trace (s : system) : list unit_event → list (list ascii) → list (list ascii) → system → Prop :=
| sy_nil : sys_trace s [] [] [] s
| sy_snoc evs received sent s1 calls ins outs s2 :
    sys_trace s evs received sent s1 → sys_step s1 calls ins outs s2 →
    sys_trace s (evs ++ calls) (received ++ ins) (sent ++ outs) s2.

(** ** The invariant

    The module is where it was, running, with the unit it was given after the calls
    made of it; its part of the state is a state of the stream; the server's
    members are those of the start. *)
Record sys_inv (a : nat) (v : server) (h0 : heap) (o0 : Socket) (u0 : unit_t) (evs : list unit_event)
    (received sent : list (list ascii)) (s : system) m : Prop := {
  sy_free : ModuleManager.stateMutex (sys_process s) = false;
  sy_module : loaded_at a m (sys_process s);
  sy_world : world (sys_process s) = v;
  sy_running : Modules.isRunning m = true;
  sy_unit : loadedProcUnit m = Some (unit_history u0 evs);
  sy_stream : stream_inv h0 o0 received sent (Stream m (sys_heap s) (sys_local s) (sys_out s));
}.

Lemma sys_inv_module a v h0 o0 u0 evs received sent s m :
  sys_inv a v h0 o0 u0 evs received sent s m → module_inv m.
Proof. intros [_ _ _ _ _ Hst]. exact (sti_module _ _ _ _ _ Hst). Qed.

Lemma sys_inv_manager a v h0 o0 u0 evs received sent s m :
  sys_inv a v h0 o0 u0 evs received sent s m → manager_inv (sys_process s).
Proof.
  intros Hs. pose proof (sys_inv_module _ _ _ _ _ _ _ _ _ _ Hs) as Hm. destruct Hs as [Hf Hl _ _ _ _].
  split; [done|]. rewrite Hl. by intros ?? [= <- <-].
Qed.

(** A handler of the manager is the handler of the unit. *)
Lemma unit_call {A} (body : M unit_t A) (fm : M module_t A) s a m u o s' :
  manager_inv s → loaded_at a m s → loadedProcUnit m = Some u →
  (∀ m, fm (inr m) = let r := loaded_proc_unit body m in (r.1, inr r.2)) →
  with_lock ModuleManager.l_stateMutex (
    loaded <- unit_loaded ;;
    if loaded : bool then on_module fm else throw (runtime_error err_msg._nllpntr)) s = (o, s') →
  o = (body u).1 ∧ (survives o → s' = with_module a (set_loaded (Some (body u).2) m) s).
Proof.
  intros Hs Hl Hu Hf. unfold loaded_at in Hl. rewrite call_eq, Hl by done. simpl.
  unfold unit_present. rewrite Hu, bool_decide_true by by eexists.
  rewrite Hf, loaded_proc_unit_eq, Hu. simpl. unfold with_module.
  destruct (body u) as [[x|e|f] u']; simpl; intros [= <- <-]; split; try done.
  intros Ho. by destruct (Ho f).
Qed.

Lemma unit_call_eq {A} (body : M unit_t A) (fm : M module_t A) s a m u o u' :
  manager_inv s → loaded_at a m s → loadedProcUnit m = Some u →
  (∀ m, fm (inr m) = let r := loaded_proc_unit body m in (r.1, inr r.2)) →
  body u = (o, u') → survives o →
  with_lock ModuleManager.l_stateMutex (
    loaded <- unit_loaded ;;
    if loaded : bool then on_module fm else throw (runtime_error err_msg._nllpntr)) s
  = (o, with_module a (set_loaded (Some u') m) s).
Proof.
  intros Hs Hl Hu Hf Hb Ho.
  destruct (unit_call body fm s a m u _ _ Hs Hl Hu Hf (surjective_pairing _)) as [Hout Hst].
  rewrite Hb in Hout, Hst. simpl in Hout, Hst. rewrite (surjective_pairing (with_lock _ _ s)), Hout, Hst; [done|].
  by rewrite Hout.
Qed.

(** What a round of the thread that answers the client does to the unit. *)
Lemma handled_unit ask s s' a m u :
  manager_inv s → loaded_at a m s → loadedProcUnit m = Some u → handled ask s s' →
  s' = with_module a (set_loaded (Some (unit_history u (client_calls ask))) m) s.
Proof.
  intros Hs Hl Hu Hh. destruct Hh as [s|rq o s s' Hc Ho|rq o s s' Hc Ho].
  - unfold with_module, loaded_at, set_loaded in *. destruct s, m. simpl in *. by subst.
  - by destruct (unit_call (pu_proc_act_request rq) _ s a m u o s' Hs Hl Hu (λ _, eq_refl) Hc) as [_ ->].
  - by destruct (unit_call (pu_proc_act_push rq) _ s a m u o s' Hs Hl Hu (λ _, eq_refl) Hc) as [_ ->].
Qed.

(** What a round of the module's thread does to it. *)
Lemma round_unit m h m' h' u :
  loadedProcUnit m = Some u → Modules.async_round (m, h) = (Ret tt, (m', h')) →
  loadedProcUnit m' = Some (unit_history u (round_calls m h)).
Proof.
  intros Hu. unfold Modules.async_round, round_calls.
  destruct (asyncProcThread m); [by intros [= <- _]| |by intros [= <- _]].
  destruct (Modules.doExit m); [by intros [= <- _]|]. rewrite Hu. cbn [unit_history foldl unit_after].
  by destruct (pu_async_work _) as [[[]|e|f] e']; intros [= <- _].
Qed.

(** ** Every step is a step of the stream

    The calls change the unit only. *)
Lemma stream_set_unit m u u' h loc sk :
  loadedProcUnit m = Some u →
  stream_step (Stream m h loc sk) [] [] (Stream (set_loaded (Some u') m) h loc sk).
Proof.
  intros Hu. eapply (ss_call _ (λ _, (Ret tt, u')) m _ (Ret tt)); [|done].
  by rewrite loaded_proc_unit_eq, Hu.
Qed.

Lemma round_running m h m' h' :
  module_inv m → Modules.async_round (m, h) = (Ret tt, (m', h')) →
  Modules.isRunning m' = Modules.isRunning m.
Proof.
  intros Hm. unfold Modules.async_round. destruct (asyncProcThread m); [by intros [= <- _]| |by intros [= <- _]].
  rewrite (mi_exit _ Hm). destruct (loadedProcUnit m); [|done].
  destruct (pu_async_work _) as [[[]|e|f] e']; simpl; by intros [= <- _].
Qed.

Lemma sys_step_inv a v h0 o0 u0 evs received sent s m calls ins outs s' :
  sys_step s calls ins outs s' → sys_inv a v h0 o0 u0 evs received sent s m →
  ∃ m', sys_inv a v h0 o0 u0 (evs ++ calls) (received ++ ins) (sent ++ outs) s' m'.
Proof.
  intros Hstep Hinv. pose proof (sys_inv_manager _ _ _ _ _ _ _ _ _ _ Hinv) as Hmg.
  pose proof (sys_inv_module _ _ _ _ _ _ _ _ _ _ Hinv) as Hm. destruct Hinv as [Hf Hl Hw Hr Hu0 Hst].
  assert (∀ a1 m1, loaded_at a1 m1 (sys_process s) → a1 = a ∧ m1 = m) as Hsame.
  { unfold loaded_at in *. intros a1 m1. rewrite Hl. by intros [= -> ->]. }
  destruct Hstep as [s i o loc h e' Hsy|s a1 m1 m' h' i o loc h Hl1 Hro|s a1 m1 u u' ev i o loc h Hl1 Hu Hp
    |s a1 m1 ev b' i o loc h Hb Hl1 Hq Hev|s a1 m1 items b' i o h Hb Hl1 Hp|s a1 m1 it loc i o h bs st Hl1 Hby Hse];
    simpl in *; try (destruct (Hsame _ _ Hl1) as [-> ->]; clear Hl1).
  - apply sync_round_handled in Hsy. pose proof (handled_unit _ _ _ _ _ _ Hmg Hl Hu0 Hsy) as Hs'.
    simpl in Hs'. eexists. split; simpl; rewrite ?Hs'; try done; [by rewrite unit_history_app|].
    eapply stream_step_inv; [by eapply stream_set_unit|done].
  - exists m'. split; simpl; try done; [by rewrite (round_running _ _ _ _ Hm Hro)| |].
    + rewrite unit_history_app. by apply (round_unit m h m' h').
    + eapply stream_step_inv; [exact (ss_round m h m' h' loc o Hro)|done].
  - rewrite Hu in Hu0. simplify_eq. eexists. split; simpl; try done.
    + by rewrite unit_history_app, (peer_step_after _ _ _ Hp).
    + eapply stream_step_inv; [by eapply stream_set_unit|done].
  - eexists. split; simpl; try done; [by rewrite app_nil_r|]. eapply stream_step_inv; [by eapply ss_wait|done].
  - eexists. split; simpl; try done; [by rewrite app_nil_r|]. eapply stream_step_inv; [by eapply ss_pop|done].
  - exists m. split; simpl; try done; [by rewrite app_nil_r|]. eapply stream_step_inv; [by eapply ss_send|done].
Qed.

Lemma sys_trace_inv a v h0 o0 u0 s evs received sent s' m :
  sys_trace s evs received sent s' → sys_inv a v h0 o0 u0 [] [] [] s m →
  ∃ m', sys_inv a v h0 o0 u0 evs received sent s' m'.
Proof.
  intros Htr Hs. induction Htr as [|evs received sent s1 calls ins outs s2 _ [m1 IH] Hstep]; [by exists m|].
  by eapply sys_step_inv.
Qed.

(** ** The start *)

Definition brazil_with (p : unit_t) : brazil_t := set_thread true (set_loaded (Some p) brazil).

Lemma brazil_with_inv p : module_inv (brazil_with p).
Proof.
  apply inv_set_thread; [apply inv_set_loaded; [apply module_inv_ctor|done]|].
  intros _. split; [by eexists|]. vm_compute. reflexivity.
Qed.

Lemma brazil_start iEp oEp mp un up p u p' :
  nul_free iEp → nul_free oEp → strlen iEp < 128 → strlen oEp < 128 → iEp ≠ "" → oEp ≠ "" →
  (un, Ret p) ∈ procUnits brazil → pu_string_initialize_parameters up p = (Ret u, p') →
  ∃ v, set_up iEp oEp v
     ∧ main_start repository_factory iEp oEp "brazil" mp un up process_init
       = (Ret tt, started (inr (brazil_with p') : module_t) (notified 0 [SyncWork; AsyncWork] v)).
Proof.
  intros Hi Ho Hli Hlo Hni Hno Hin Hini.
  destruct (setup_first _ _ Hi Ho Hli Hlo) as (v & Hs & Hv). exists v. split; [done|].
  rewrite (main_start_eq repository_factory iEp oEp v "brazil" mp un up
    (inr brazil : module_t) tt (inr brazil : module_t)); [|done|reflexivity|reflexivity].
  unfold try_catch.
  rewrite (load_unit_first un up v (inr brazil : module_t) tt (inr (brazil_with p')) (pack PUSH [WAIT])).
  - done.
  - apply module_inv_ctor.
  - done.
  - apply (brazil_load un up p (Ret p) p' u); [by apply list_elem_of_In|done|apply brazil_names|done].
  - done.
  - apply Hv.
  - apply (set_up_endpoints _ _ _ _ Hv); by intros _.
Qed.

Lemma sys_inv_start v p i o h :
  sys_inv 0 (notified 0 [SyncWork; AsyncWork] v) h o p [] [] []
    (System (started (inr (brazil_with p) : module_t) (notified 0 [SyncWork; AsyncWork] v)) i o [] h) (brazil_with p).
Proof.
  split; simpl; try done. split; simpl; [apply brazil_with_inv|done|]. exists []. split; [done|].
  exists ∅. split_and!; [constructor|apply map_disjoint_empty_l|by rewrite map_empty_union].
Qed.

(** ** Property *)

(** C2. The running program. Started with the module brazil and one of its units,
    after every sequence of steps of its threads: the module is loaded where it was
    and its thread runs; its unit is the one that the start initialised, of the same
    class, in exactly the state in which the calls made of it so far have left it,
    one after the other: the client's requests and pushes as they were received,
    those of peers, wake-ups, and the rounds of the module's thread. The pointer of
    the outgoing thread is to the module's buffer, and the server's members are as
    the start left them; the messages handed to the outgoing socket (which drops one
    that it cannot send in time) are the messages received, in order, each once,
    less those that are waiting, which own all the memory that has been
    allocated; and whatever the client asks next is answered by that unit in that
    state: its response, its result of the push, or its exception as an error
    response. *)
Theorem running_program iEp oEp mp un up p u p' :
  nul_free iEp → nul_free oEp → strlen iEp < 128 → strlen oEp < 128 → iEp ≠ "" → oEp ≠ "" →
  (un, Ret p) ∈ procUnits brazil → pu_string_initialize_parameters up p = (Ret u, p') →
  ∃ s0, main_start repository_factory iEp oEp "brazil" mp un up process_init = (Ret tt, s0)
   ∧ workThreads (world s0) = [Some SyncWork; Some AsyncWork] ∧ outgoing_buffer 0 s0
   ∧ ∀ i o h evs received sent s, sys_trace (System s0 i o [] h) evs received sent s →
     let q := unit_history p' evs in same_class p' q
     ∧ ∃ m, loaded_at 0 m (sys_process s) ∧ loadedProcUnit m = Some q ∧ asyncProcThread m = Working
       ∧ world (sys_process s) = world s0
       ∧ (∃ pending, received = sent ++ pending
            ∧ owned_in h (sys_local s ++ queue (asyncBuffer m)) pending (sys_heap s))
       ∧ send_all sent o = (Ret tt, sys_out s)
       ∧ ∀ mth ps, Forall exact_value ps →
         let answered a bs q' :=
           serve (client_message a mth ps) (SyncEnv (sys_in s) (sys_process s))
           = let r := zmq_send bs (sys_in s) in
             (match r.1 with Ret _ => Ret tt | Throw x => Throw x | Fatal f => Fatal f end,
              SyncEnv r.2 (with_module 0 (set_loaded (Some q') m) (sys_process s))) in
         let text x := text_of (StringValue (chars (exn_what x))) true in
         (∀ r q', pu_proc_act_request (client_request REQUEST mth ps) q = (Ret (Some r), q') →
            answered REQUEST (json r) q')
         ∧ (∀ x q', pu_proc_act_request (client_request REQUEST mth ps) q = (Throw x, q') →
            answered REQUEST (text x) q')
         ∧ (∀ b q', pu_proc_act_push (client_request PUSH mth ps) q = (Ret b, q') →
            answered PUSH (text_of (BoolValue b) false) q')
         ∧ (∀ x q', pu_proc_act_push (client_request PUSH mth ps) q = (Throw x, q') →
            answered PUSH (text x) q').
Proof.
  intros Hi Ho Hli Hlo Hni Hno Hin Hini.
  destruct (brazil_start iEp oEp mp un up p u p' Hi Ho Hli Hlo Hni Hno Hin Hini) as (v & Hv & Hs).
  eexists. split; [exact Hs|]. split; [done|]. split; [done|].
  intros i o h evs received sent s Htr q. split; [apply unit_history_class|].
  destruct (sys_trace_inv _ _ _ _ _ _ _ _ _ _ _ Htr (sys_inv_start v p' i o h)) as [m Hinv].
  pose proof (sys_inv_manager _ _ _ _ _ _ _ _ _ _ Hinv) as Hmg.
  pose proof (sys_inv_module _ _ _ _ _ _ _ _ _ _ Hinv) as Hm.
  destruct Hinv as [_ Hl Hw Hr Hq [_ Hsk Hit]]. simpl in Hl, Hw, Hq, Hsk, Hit. fold q in Hq.
  exists m. split_and!; try done.
  { by rewrite (mi_thread _ Hm), Hr. }
  intros mth ps Hps answered text.
  split_and!; intros x q' Hc; (eapply wire_reply; [done|]);
    cbn [reply mw_proc_act_request mw_proc_act_push process_middleware s_manager];
    unfold ModuleManager.proc_act_request, ModuleManager.proc_act_push;
    (erewrite unit_call_eq; [|done|done|done|intros ?; reflexivity|exact Hc|done]); done.
Qed.
End system.

(** ** Witness

    brazil with a transceiver whose simulator delivers one measurement: the
    client asks for nothing, a peer opens a communication, and the module's
    thread receives. *)
Section witness.
#[local] Instance system_zmq : ZMQ := scripted_zmq_from [Some (chars "1234"); Some (chars "01")].
#[local] Instance system_boost : BoostOptions :=
  constant_options (<["e" := StringOpt "10.0.0.1:5000"]> {["td" := StringOpt "tcp://sim:5555"]}).
#[local] Instance system_net : TCP := stream_tcp.
#[local] Instance system_os : OS := os_with None.
#[local] Instance system_hardware : Hardware := {|
  hardware_serial := LccMessages.memory_serial;
  parse_config_file _ _ := Ret (Some ∅);
|}.
Abbreviation unit_t := (transceiver () + (transceiver bases + lcc_and_fpga))%type.

Definition trx_ready : transceiver () := (trx_initialize_parameters "" trx_circuit_ctor).2.
Definition trx_open : transceiver () := (trx_process trx_ready).2.
Definition idle_socket : Socket := Scripted [None] true [].
Definition drained_socket : Socket := Scripted [] true [].

Definition with_unit (t : transceiver ()) : brazil_t := set_loaded (Some (inl t : unit_t)) (brazil_with (inl trx_ready)).
Definition after_round : brazil_t * heap := (Modules.async_round (with_unit trx_open, ∅)).2.

Definition system_of (s : module_manager module_t server) (m : brazil_t) (h : heap) : system :=
  System (with_module 0 m s) drained_socket drained_socket [] h.

Lemma system_steps s :
  loadedModule s = Some (0, inr (brazil_with (inl trx_ready))) →
  sys_trace (System s idle_socket drained_socket [] ∅) [PeerCall; WorkCall ∅ queue_buffer_init] [chars "01"] []
    (system_of s after_round.1 after_round.2).
Proof.
  intros Hl.
  assert (Modules.async_round (with_unit trx_open, ∅) = (Ret tt, after_round)) as Hround
    by (unfold after_round at 1; refine (result_pair _ _ _); vm_compute; reflexivity).
  rewrite (surjective_pairing after_round) in Hround.
  assert (round_receives (with_unit trx_open) = [chars "01"]) as <- by (vm_compute; reflexivity).
  assert (trx_process trx_ready = (Ret Done, trx_open)) as Hpeer
    by (unfold trx_open; refine (result_pair _ _ _); vm_compute; reflexivity).
  apply (sy_snoc _ [PeerCall] [] [] (system_of s (with_unit trx_open) ∅) [WorkCall ∅ queue_buffer_init] _ []).
  - apply (sy_snoc _ [] [] [] (System s drained_socket drained_socket [] ∅) [PeerCall] [] []).
    + apply (sy_snoc _ [] [] [] (System s idle_socket drained_socket [] ∅) [] [] []); [constructor|].
      apply (sy_sync s idle_socket drained_socket [] ∅ (SyncEnv drained_socket s)). reflexivity.
    + eapply (sy_peer s 0 (brazil_with (inl trx_ready))); [exact Hl|reflexivity|].
      eapply peer_trx. exact Hpeer.
  - apply (sy_round (with_module 0 (with_unit trx_open) s) 0 (with_unit trx_open)); [reflexivity|exact Hround].
Qed.

Definition sample_program : outcome () * module_manager module_t server :=
  main_start repository_factory "tcp://lo:1" "tcp://lo:2" "brazil" "" "trx_circuit" "" process_init.

Lemma running_program_witness :
  ∃ s0, sample_program = (Ret tt, s0)
    ∧ let evs := [PeerCall; WorkCall ∅ queue_buffer_init] in
      ∃ s m, sys_trace (System s0 idle_socket drained_socket [] ∅) evs [chars "01"] [] s
        ∧ loaded_at 0 m (sys_process s) ∧ loadedProcUnit m = Some (unit_history (inl trx_ready) evs)
        ∧ owned_in ∅ (queue (asyncBuffer m)) [chars "01"] (sys_heap s).
Proof.
  assert (nul_free "tcp://lo:1" ∧ nul_free "tcp://lo:2") as [Hi Ho]
    by (split; apply (bool_decide_unpack _); by vm_compute).
  assert (pu_string_initialize_parameters "" (inl trx_circuit_ctor : unit_t) = (Ret tt, inl trx_ready)) as Hini
    by (unfold trx_ready; vm_compute; reflexivity).
  assert (("trx_circuit", Ret (inl trx_circuit_ctor : unit_t)) ∈ procUnits brazil) as Hin
    by (apply list_elem_of_In; simpl; right; left; reflexivity).
  destruct (brazil_start "tcp://lo:1" "tcp://lo:2" "" "trx_circuit" "" _ tt _ Hi Ho
    ltac:(simpl; lia) ltac:(simpl; lia) ltac:(discriminate) ltac:(discriminate) Hin Hini) as (v & _ & Hv).
  destruct (running_program "tcp://lo:1" "tcp://lo:2" "" "trx_circuit" "" _ tt _ Hi Ho
    ltac:(simpl; lia) ltac:(simpl; lia) ltac:(discriminate) ltac:(discriminate) Hin Hini) as (s0 & Hs0 & _ & _ & H).
  rewrite Hv in Hs0. injection Hs0 as <-. eexists. split; [exact Hv|].
  pose proof (system_steps (started (inr (brazil_with (inl trx_ready)) : module_t)
    (notified 0 [SyncWork; AsyncWork] v)) eq_refl) as Htr.
  destruct (H _ _ _ _ _ _ _ Htr) as (_ & m & Hl & Hq & _ & _ & (pending & Hp & Hown) & _).
  eexists _, m. split; [exact Htr|]. split; [exact Hl|]. split; [exact Hq|].
  rewrite Hp. exact Hown.
Defined.
End witness.
