(* ===== verification/Main.v ===== *)
(** * The entry point (armish_fireplace.cpp): its command line and its signals

    [Program] has [main] from the parsed options on. Here are the options before
    that, parsed by Boost (a parameter), and the wait for a signal after it, as
    the points of the program between which a signal can arrive. *)

From S2P Require Import Prelude Actions Json MiddlewareMessages ProcUnit Modules ModuleManager Server.
From S2P Require Import ZmqServer Program.

(** ** The command line

    [parse_command_line] and [store]: the options given, or [None] for a
    [program_options::error]. [notify] checks that the required ones were. *)
Class CommandLine := {
  parse_command_line : list opt_desc → list string → outcome (option (gmap string opt_value));
  po_notify : list opt_desc → gmap string opt_value → bool;
  po_notify_spec descs vm : po_notify descs vm = true ↔
    ∀ d, d ∈ descs → opt_required d = true → is_Some (vm !! opt_name d);
}.

Definition main_options : list opt_desc :=
  [OptDesc "help" OptFlag false;
   OptDesc "iendpoint" OptString true; OptDesc "oendpoint" OptString true;
   OptDesc "mname" OptString true; OptDesc "mparam" OptString false;
   OptDesc "puname" OptString true; OptDesc "puparam" OptString false].

Definition EXIT_SUCCESS : Z := 0.

Section main.
Context `{RapidJSON} {Md : Type} `{!IModule Md} `{CommandLine}.
Context (factory : list (module_entry Md)).
Abbreviation process_t := (module_manager Md server).

(** The first half of the [try] block: every exception ends in [EXIT_FAILURE]. *)
Definition main_parse (args : list string) : M process_t (gmap string opt_value) :=
  try_catch
    (o <- lift (parse_command_line main_options args) ;;
     match o with
     | None => fail (ExitProcess EXIT_FAILURE)
     | Some vm =>
         if bool_decide (is_Some (vm !! "help")) then fail (ExitProcess EXIT_SUCCESS)
         else if po_notify main_options vm then ret vm
         else fail (ExitProcess EXIT_FAILURE)
     end)
    (λ _, fail (ExitProcess EXIT_FAILURE)).

(** The whole block; a string that is not given stays empty. *)
Definition main_try (args : list string) : M process_t () :=
  vm <- main_parse args ;;
  main_start factory (opt_string vm "iendpoint" "") (opt_string vm "oendpoint" "")
    (opt_string vm "mname" "") (opt_string vm "mparam" "")
    (opt_string vm "puname" "") (opt_string vm "puparam" "").

(** C19. The command line, on every branch: asking for help prints it and succeeds,
    whatever else is missing or given; without help, a malformed line or a
    required option that is missing is [EXIT_FAILURE], before the server or a
    module has been touched; otherwise the start gets the strings given, and the
    empty string for module or unit parameters that are not. *)
Theorem main_command_line args s :
  (∀ vm, parse_command_line main_options args = Ret (Some vm) →
     (is_Some (vm !! "help") → main_try args s = (Fatal (ExitProcess 0), s))
     ∧ (vm !! "help" = None →
        (∀ name, name ∈ ["iendpoint"; "oendpoint"; "mname"; "puname"] → vm !! name = None →
           main_try args s = (Fatal (ExitProcess 1), s))
        ∧ (∀ i o mn un, vm !! "iendpoint" = Some (StringOpt i) → vm !! "oendpoint" = Some (StringOpt o) →
             vm !! "mname" = Some (StringOpt mn) → vm !! "puname" = Some (StringOpt un) →
             main_try args s = main_start factory i o mn (opt_string vm "mparam" "") un
                                 (opt_string vm "puparam" "") s)))
  ∧ (parse_command_line main_options args = Ret None → main_try args s = (Fatal (ExitProcess 1), s))
  ∧ (∀ e, parse_command_line main_options args = Throw e → main_try args s = (Fatal (ExitProcess 1), s)).
Proof.
  unfold main_try, main_parse. split_and!.
  - intros vm Hp. split.
    + intros Hh. unfold try_catch. mrun. rewrite Hp. simpl. by rewrite bool_decide_true.
    + intros Hh. split.
      * intros name Hin Hn. unfold try_catch. mrun. rewrite Hp. simpl.
        rewrite bool_decide_false by (rewrite Hh; apply is_Some_None).
        destruct (po_notify main_options vm) eqn:Hnot; [|done].
        assert (OptDesc name OptString true ∈ main_options) as Hd.
        { apply list_elem_of_In. apply list_elem_of_In in Hin. simpl in *. intuition (subst; auto). }
        pose proof (proj1 (po_notify_spec main_options vm) Hnot _ Hd eq_refl) as Hs.
        simpl in Hs. rewrite Hn in Hs. by apply is_Some_None in Hs.
      * intros i o mn un Hi Ho Hm Hu.
        assert (po_notify main_options vm = true) as Hnot.
        { apply po_notify_spec. intros d Hd Hreq. apply list_elem_of_In in Hd. simpl in Hd.
          destruct Hd as [<-|[<-|[<-|[<-|[<-|[<-|[<-|[]]]]]]]]; simpl in *; try done; rewrite ?Hi, ?Ho, ?Hm, ?Hu; eauto. }
        unfold try_catch, bind at 1, bind at 1, lift at 1. rewrite Hp. simpl.
        rewrite bool_decide_false by (rewrite Hh; apply is_Some_None). rewrite Hnot. simpl.
        unfold opt_string. by rewrite Hi, Ho, Hm, Hu.
  - intros Hp. unfold try_catch. mrun. by rewrite Hp.
  - intros e Hp. unfold try_catch. mrun. by rewrite Hp.
Qed.
End main.

(** ** Signals

    The points of [main] after the [try] block: how many of the two handlers have
    been installed, waiting in [pause], after it, and after [return signalCode] has
    evaluated the code, while the destructors run. The two signals are those that
    [main] handles; without a handler either ends the program. *)
Inductive signo := SIGINT | SIGTERM.

#[export] Instance signo_eq_dec : EqDecision signo.
Proof. solve_decision. Defined.

Definition signal_code (sg : signo) : Z :=
  match sg with SIGINT => 2 | SIGTERM => 15 end.

Inductive point :=
| Installed (handlers : nat)
| Pausing
| Resumed
| Returning (status : Z)
| Killed (sg : signo).

Record signals := Signals { at_point : point; signalCode : Z }.

Definition signals_init : signals := Signals (Installed 0) 0.

(** What the program does next, unless it is waiting or has ended. *)
Definition advance (s : signals) : signals :=
  match at_point s with
  | Installed 0 => Signals (Installed 1) (signalCode s)
  | Installed 1 => Signals (Installed 2) (signalCode s)
  | Installed _ => Signals Pausing (signalCode s)
  | Resumed => Signals (Returning (signalCode s)) (signalCode s)
  | _ => s
  end.

Definition sig_hand (code : Z) (s : signals) : signals := Signals (at_point s) code.

(** The arrival of a signal; [pause] returns after a handler has run. *)
Definition deliver (sg : signo) (s : signals) : signals :=
  match at_point s with
  | Installed 0 => Signals (Killed sg) (signalCode s)
  | Installed 1 =>
      if decide (sg = SIGINT) then sig_hand (signal_code sg) s else Signals (Killed sg) (signalCode s)
  | Pausing => let s := sig_hand (signal_code sg) s in Signals Resumed (signalCode s)
  | Installed _ | Resumed | Returning _ => sig_hand (signal_code sg) s
  | Killed _ => s
  end.

(** An execution: steps of [main] as far as [return], and signals. *)
Inductive sig_event := Advance | Signal (sg : signo).

Definition sig_step (s : signals) (ev : sig_event) : signals :=
  match ev with Advance => advance s | Signal sg => deliver sg s end.

Definition sig_run (evs : list sig_event) (s : signals) : signals := foldl sig_step s evs.

Lemma sig_run_snoc evs ev s : sig_run (evs ++ [ev]) s = sig_step (sig_run evs s) ev.
Proof. unfold sig_run. by rewrite foldl_app. Qed.

(** The number of the last signal of an execution. *)
Definition last_signal (evs : list sig_event) : option Z :=
  last (omap (λ ev, match ev with Signal sg => Some (signal_code sg) | Advance => None end) evs).

Lemma last_signal_snoc evs ev :
  last_signal (evs ++ [ev]) = match ev with Signal sg => Some (signal_code sg) | Advance => last_signal evs end.
Proof.
  unfold last_signal. rewrite omap_app. destruct ev; simpl; [by rewrite app_nil_r|]. by rewrite last_snoc.
Qed.

(** Until the program is killed the code is that of the last signal. *)
Lemma sig_run_code evs :
  (∀ sg, at_point (sig_run evs signals_init) ≠ Killed sg) →
  signalCode (sig_run evs signals_init) = default 0%Z (last_signal evs).
Proof.
  induction evs as [|ev evs IH] using rev_ind; [done|].
  rewrite sig_run_snoc, last_signal_snoc. destruct (sig_run evs signals_init) as [p c].
  destruct ev as [|code]; simpl in *; unfold advance, deliver, sig_hand; simpl.
  - destruct p as [[|[|n]]| | | |]; simpl; intros Hk; apply IH; intros code0; specialize (Hk code0); done.
  - destruct p as [[|[|n]]| | | |code0]; simpl; try (case_decide; simpl); intros Hk; try done;
      exfalso; by eapply Hk.
Qed.

Lemma sig_run_resumed evs :
  at_point (sig_run evs signals_init) = Resumed →
  ∃ evs1 code evs2, evs = evs1 ++ Signal code :: evs2
    ∧ at_point (sig_run evs1 signals_init) = Pausing.
Proof.
  induction evs as [|ev evs IH] using rev_ind; [done|]. rewrite sig_run_snoc. intros Hr.
  destruct (at_point (sig_run evs signals_init)) as [n| | |status|k] eqn:Hp.
  - exfalso. destruct (sig_run evs signals_init) as [p c]. simpl in Hp. subst p.
    destruct ev as [|code], n as [|[|n]]; try done; simpl in Hr; unfold deliver in Hr; simpl in Hr;
      by case_decide.
  - destruct ev as [|code]; [|by exists evs, code, []].
    destruct (sig_run evs signals_init) as [p c]. simpl in Hp. by subst p.
  - destruct (IH eq_refl) as (evs1 & code & evs2 & -> & Hp1). exists evs1, code, (evs2 ++ [ev]).
    by rewrite <-app_assoc.
  - exfalso. destruct (sig_run evs signals_init) as [p c]. simpl in Hp. subst p. by destruct ev.
  - exfalso. destruct (sig_run evs signals_init) as [p c]. simpl in Hp. subst p. by destruct ev.
Qed.

(** The code that is returned is the one at [return]. *)
Lemma sig_run_returning evs status :
  at_point (sig_run evs signals_init) = Returning status →
  ∃ evs1 evs2, evs = evs1 ++ Advance :: evs2 ∧ at_point (sig_run evs1 signals_init) = Resumed
    ∧ signalCode (sig_run evs1 signals_init) = status.
Proof.
  induction evs as [|ev evs IH] using rev_ind; [done|]. rewrite sig_run_snoc. intros Hr.
  destruct (at_point (sig_run evs signals_init)) as [n| | |status'|k] eqn:Hp.
  3: { exists evs, []. destruct (sig_run evs signals_init) as [p c]. simpl in *. subst p.
       destruct ev; simpl in Hr; [by injection Hr|done]. }
  3: { destruct (sig_run evs signals_init) as [p c]. simpl in *. subst p.
       assert (status' = status) as -> by (destruct ev; simpl in Hr; by injection Hr).
       destruct (IH eq_refl) as (evs1 & evs2 & -> & Hrest). exists evs1, (evs2 ++ [ev]).
       by rewrite <-app_assoc. }
  all: exfalso; destruct (sig_run evs signals_init) as [p c]; simpl in Hp; subst p; destruct ev; try done.
  - destruct n as [|[|n]]; done.
  - destruct n as [|[|n]]; simpl in Hr; unfold deliver in Hr; simpl in Hr; try case_decide; done.
Qed.

(** The last signal of an execution that has been resumed. *)
Lemma resumed_code evs :
  at_point (sig_run evs signals_init) = Resumed →
  Some (signalCode (sig_run evs signals_init)) = last_signal evs.
Proof.
  intros Hr. destruct (sig_run_resumed evs Hr) as (evs1 & code & evs2 & Heq & Hp).
  rewrite sig_run_code by (intros c; by rewrite Hr).
  assert (is_Some (last_signal evs)) as [c ->]; [|done].
  rewrite Heq. clear. induction evs2 as [|ev evs2 IH] using rev_ind.
  - by rewrite last_signal_snoc.
  - rewrite app_comm_cons, app_assoc, last_signal_snoc. destruct ev; eauto.
Qed.

(** Signals that come between the handlers and [pause]. *)
Lemma signals_before_pause codes :
  sig_run ([Advance; Advance] ++ (Signal <$> codes)) signals_init
  = Signals (Installed 2) (default 0%Z (last (signal_code <$> codes))).
Proof.
  induction codes as [|code codes IH] using rev_ind; [done|].
  rewrite !fmap_app, app_assoc. change (Signal <$> [code]) with [Signal code].
  by rewrite sig_run_snoc, IH, last_app.
Qed.

(** ** The end of the program

    [return signalCode]: the code has been evaluated, the two objects are destroyed,
    and the program exits with the code. *)
Section returning.
Context `{RapidJSON} {Md : Type} `{!IModule Md}.

Definition main_return (status : Z) : M (module_manager Md server) () :=
  main_end ;;
  fail (ExitProcess status).

(** C30. The wait for a signal, in every order of arrivals, and what becomes of it.
    When [pause] has returned, a signal came while the program was waiting in it, and
    [signalCode] is the last signal's; [return] takes the code it finds, and signals
    after that do not change it. But the objects are destroyed before the program
    exits with the code: while a worker thread exists, which is to say after every
    start with a module that has actions, [std::terminate] is called instead;
    without one the program exits with the code if unloading the module returns.
    While the program is waiting, either signal ends the wait. A signal before
    the handlers kills the program. And one that comes between the handlers and
    [pause] is handled and then forgotten: however many there are, the program
    goes on to wait, with nothing left to wake it. *)
Theorem pause_for_signal evs (p : module_manager Md server) :
  quiet p →
  let s := sig_run evs signals_init in
  (at_point s = Resumed →
     (∃ evs1 code evs2, evs = evs1 ++ Signal code :: evs2 ∧ at_point (sig_run evs1 signals_init) = Pausing)
     ∧ Some (signalCode s) = last_signal evs)
  ∧ (∀ status, at_point s = Returning status →
       (∃ evs1 evs2, evs = evs1 ++ Advance :: evs2 ∧ at_point (sig_run evs1 signals_init) = Resumed
          ∧ Some status = last_signal evs1)
       ∧ (∀ w, Some w ∈ workThreads (world p) → (main_return status p).1 = Fatal Terminate)
       ∧ (Forall (λ t, t = None) (workThreads (world p)) →
          main_return status p = match module_manager_dtor (unregistered p) with
                                 | (Ret _, p') => (Fatal (ExitProcess status), p')
                                 | r => r
                                 end))
  ∧ (at_point s = Pausing → advance s = s ∧ ∀ code, deliver code s = Signals Resumed (signal_code code))
  ∧ (∀ code, at_point (sig_run (Signal code :: evs) signals_init) = Killed code)
  ∧ (∀ codes, let lost := sig_run ([Advance; Advance] ++ (Signal <$> codes) ++ [Advance]) signals_init in
       lost = Signals Pausing (default 0%Z (last (signal_code <$> codes))) ∧ advance lost = lost).
Proof.
  intros Hq s. split_and!.
  - intros Hr. split; [by apply sig_run_resumed|by apply resumed_code].
  - intros status Hr. split_and!.
    + destruct (sig_run_returning evs status Hr) as (evs1 & evs2 & Heq & Hres & <-).
      exists evs1, evs2. split_and!; [done|done|by apply resumed_code].
    + intros w Hw. destruct (main_end_worker p w Hq Hw) as [He _]. unfold main_return, bind.
      destruct (main_end p) as [[]]; by simplify_eq/=.
    + intros Hw. unfold main_return, bind. rewrite (main_end_no_worker p Hq Hw).
      by destruct (module_manager_dtor _) as [[]].
  - destruct s as [pt c]. simpl. by intros ->.
  - intros code. induction evs as [|ev evs' IH] using rev_ind; [done|].
    rewrite app_comm_cons, sig_run_snoc.
    destruct (sig_run (Signal code :: evs') signals_init) as [pt c]. simpl in IH. subst pt. by destruct ev.
  - intros codes lost. assert (lost = Signals Pausing (default 0%Z (last (signal_code <$> codes)))) as ->; [|done].
    unfold lost. by rewrite app_assoc, sig_run_snoc, signals_before_pause.
Qed.
End returning.

(** ** Witnesses *)

Section witness.
#[local] Existing Instance switchboard.

#[local] Program Instance fixed_line : CommandLine := {|
  parse_command_line descs args :=
    if decide (args = ["-h"]) then Ret (Some {["help" := StringOpt ""]})
    else Ret (Some {["iendpoint" := StringOpt "tcp://lo:1"]});
  po_notify descs vm := forallb (λ d, negb (opt_required d) || bool_decide (is_Some (vm !! opt_name d))) descs;
|}.
Next Obligation.
  intros descs vm. rewrite forallb_forall. split.
  - intros Hf d Hd Hr. specialize (Hf d (proj1 (list_elem_of_In _ _) Hd)). rewrite Hr in Hf. simpl in Hf.
    by apply bool_decide_eq_true in Hf.
  - intros Hf d Hd%list_elem_of_In. destruct (opt_required d) eqn:Hr; [|done]. simpl.
    apply bool_decide_eq_true. by apply Hf.
Qed.

Lemma main_command_line_witness :
  main_try (@nil (module_entry bool)) ["-h"] process_init = (Fatal (ExitProcess 0), process_init)
  ∧ main_try (@nil (module_entry bool)) ["-i"; "tcp://lo:1"] process_init = (Fatal (ExitProcess 1), process_init).
Proof.
  split.
  - destruct (main_command_line (@nil (module_entry bool)) ["-h"] process_init) as (H & _).
    destruct (H _ eq_refl) as [H1 _]. apply H1. eexists. reflexivity.
  - destruct (main_command_line (@nil (module_entry bool)) ["-i"; "tcp://lo:1"] process_init) as (H & _).
    destruct (H _ eq_refl) as [_ H1]. destruct (H1 eq_refl) as [H2 _].
    apply (H2 "puname"); [|reflexivity]. apply (bool_decide_unpack _). vm_compute. exact I.
Defined.
End witness.

(** A signal during the wait, one before [return] and one after it; without a module,
    and with a worker thread. *)
Section signals_witness.
#[local] Existing Instance switchboard.

Definition with_worker : module_manager bool server := upd l_world (upd l_workThreads [Some SyncWork; None] server_init) process_init.

Lemma pause_for_signal_witness :
  let evs := [Advance; Advance; Signal SIGINT; Advance; Signal SIGTERM; Signal SIGINT; Advance; Signal SIGTERM] in
  at_point (sig_run evs signals_init) = Returning 2
  ∧ (main_return 2 (process_init : module_manager bool server)).1 = Fatal (ExitProcess 2)
  ∧ (main_return 2 with_worker).1 = Fatal Terminate.
Proof.
  intros evs. assert (at_point (sig_run evs signals_init) = Returning 2) as Hr by reflexivity.
  split; [exact Hr|]. split.
  - destruct (pause_for_signal evs process_init ltac:(split; reflexivity)) as (_ & H & _).
    destruct (H 2%Z Hr) as (_ & _ & H1).
    rewrite H1 by (repeat constructor). reflexivity.
  - destruct (pause_for_signal evs with_worker ltac:(split; reflexivity)) as (_ & H & _).
    destruct (H 2%Z Hr) as (_ & H1 & _). apply (H1 SyncWork). by constructor.
Defined.
End signals_witness.
